(** * Pintos kernel (threads/thread.c, vm, filesys): model and properties

    A shallow embedding of [threads/thread.c] and [threads/thread.h].
    Kernel memory is a store of pages indexed by their address; a
    [struct thread *] is the address of the page that holds the thread
    control block.  The intrusive lists of the kernel (ready list, sleep
    list, all-threads list, per-thread lock list) are lists of such
    addresses, so that a change to a thread is seen through every list
    that links it.

    Every function of the source becomes a computation in a state and
    error monad: it either returns normally, stops in a kernel panic (a
    failed ASSERT) or takes a memory fault (a write through NULL or a read
    of a page that is not mapped).

    The list of open files of thread.c, the swap area ([vm/swap.c]), the
    clock of the frame table ([vm/frame.c]) and the path parser of
    [filesys/directory.c] follow, each over the state it works on. *)

From Stdlib Require Import ZArith List Lia String Ascii Bool.
From stdpp Require Import base option list gmap strings sorting.

Local Open Scope Z_scope.

(** ** Machine integers *)

(** [wrap w z] is the value of [z] stored in a signed [w]-bit integer
    (two's complement). *)
Definition wrap (w : Z) (z : Z) : Z :=
  (z + 2 ^ (w - 1)) mod 2 ^ w - 2 ^ (w - 1).

Definition int32 (z : Z) : Z := wrap 32 z.
Definition int64 (z : Z) : Z := wrap 64 z.

Definition INT_MIN : Z := - 2 ^ 31.
Definition INT_MAX : Z := 2 ^ 31 - 1.
Definition INT64_MIN : Z := - 2 ^ 63.
Definition INT64_MAX : Z := 2 ^ 63 - 1.

Definition in_int (z : Z) : Prop := INT_MIN <= z <= INT_MAX.
Definition in_int64 (z : Z) : Prop := INT64_MIN <= z <= INT64_MAX.

(** ** Constants of thread.h and thread.c *)

Definition TID_ERROR : Z := -1.
Definition PRI_MIN : Z := 0.
Definition PRI_DEFAULT : Z := 31.
Definition PRI_MAX : Z := 63.
Definition NICE_MIN : Z := -20.
Definition NICE_DEFAULT : Z := 0.
Definition NICE_MAX : Z := 20.
Definition THREAD_MAGIC : Z := 0xcd6abf4b.
Definition TIME_SLICE : Z := 4.

(** ** Fixed-point arithmetic *)

Section FixedPoint.

(** Modelled from the spec: [threads/fixed_point.h] is not among the
    sources.  The spec only says that fractional quantities are scaled
    integers; the scale [f] is therefore a parameter, and the macros used
    by thread.c follow the usual Pintos definitions over C [int], with
    the product and quotient of two fixed-point numbers formed in 64
    bits. *)
Variable f : Z.

Definition CONVERT_TO_FP (n : Z) : Z := int32 (n * f).

Definition CONVERT_TO_INT_ROUND (x : Z) : Z :=
  if 0 <=? x
  then int32 (Z.quot (int32 (x + Z.quot f 2)) f)
  else int32 (Z.quot (int32 (x - Z.quot f 2)) f).

Definition ADD_INT (x n : Z) : Z := int32 (x + int32 (n * f)).
Definition MULT_INT (x n : Z) : Z := int32 (x * n).
Definition DIV_INT (x n : Z) : Z := int32 (Z.quot x n).
Definition MULT (x y : Z) : Z := int32 (Z.quot (int64 (x * y)) f).
Definition DIV (x y : Z) : Z := int32 (Z.quot (int64 (x * f)) y).

End FixedPoint.

(** ** Data *)

Inductive thread_status : Type :=
| THREAD_RUNNING
| THREAD_READY
| THREAD_BLOCKED
| THREAD_DYING.

#[global] Instance thread_status_eq_dec : EqDecision thread_status.
Proof. solve_decision. Defined.

(** Modelled from the spec: [struct semaphore] is declared in
    [threads/synch.h], which is not among the sources: a counter and the
    queue of threads waiting on it. *)
Record semaphore : Type := mkSema {
  sema_value : Z;
  sema_waiters : list Z
}.

(** [struct lock] is declared in [threads/synch.h] too; thread.c reads
    one member of it, [max_priority], and links the lock into the list of
    its holder through [elem]. *)
Record lock : Type := mkLock {
  max_priority : Z
}.

(** A [struct semaphore *] kept in a child record points into the thread
    control block of the child. *)
Inductive sema_ref : Type :=
| SemaStartOf (t : Z)
| SemaFinishOf (t : Z).

Record child_info : Type := mkChildInfo {
  child_thread : Z;
  child_id : Z;
  exited : bool;
  terminated : bool;
  load_failed : bool;
  ret_value : Z;
  info_sema_start : sema_ref;
  info_sema_finish : sema_ref
}.

(** [struct thread].  The members that thread.c only clears ([stack],
    the per-thread [child_list], [exec_file], the VM members) are left
    out; [locks] is the list of the locks held, linked through the
    [elem] of each lock. *)
Record thread : Type := mkThread {
  tid : Z;
  status : thread_status;
  name : string;
  priority : Z;
  wakeup_time : Z;
  recent_cpu : Z;
  nice : Z;
  old_priority : Z;
  locks : list Z;
  lock_waiting : option Z;
  return_value : Z;
  sema_start : semaphore;
  sema_finish : semaphore;
  parent_die : bool;
  message_to_parent : option Z;
  pagedir : option Z;
  magic : Z;
  cwd : option Z
}.

Definition set_tid (v : Z) (t : thread) : thread :=
  mkThread v (status t) (name t) (priority t) (wakeup_time t) (recent_cpu t)
    (nice t) (old_priority t) (locks t) (lock_waiting t) (return_value t)
    (sema_start t) (sema_finish t) (parent_die t) (message_to_parent t)
    (pagedir t) (magic t) (cwd t).

Definition set_status (v : thread_status) (t : thread) : thread :=
  mkThread (tid t) v (name t) (priority t) (wakeup_time t) (recent_cpu t)
    (nice t) (old_priority t) (locks t) (lock_waiting t) (return_value t)
    (sema_start t) (sema_finish t) (parent_die t) (message_to_parent t)
    (pagedir t) (magic t) (cwd t).

Definition set_priority (v : Z) (t : thread) : thread :=
  mkThread (tid t) (status t) (name t) v (wakeup_time t) (recent_cpu t)
    (nice t) (old_priority t) (locks t) (lock_waiting t) (return_value t)
    (sema_start t) (sema_finish t) (parent_die t) (message_to_parent t)
    (pagedir t) (magic t) (cwd t).

Definition set_wakeup_time (v : Z) (t : thread) : thread :=
  mkThread (tid t) (status t) (name t) (priority t) v (recent_cpu t)
    (nice t) (old_priority t) (locks t) (lock_waiting t) (return_value t)
    (sema_start t) (sema_finish t) (parent_die t) (message_to_parent t)
    (pagedir t) (magic t) (cwd t).

Definition set_recent_cpu (v : Z) (t : thread) : thread :=
  mkThread (tid t) (status t) (name t) (priority t) (wakeup_time t) v
    (nice t) (old_priority t) (locks t) (lock_waiting t) (return_value t)
    (sema_start t) (sema_finish t) (parent_die t) (message_to_parent t)
    (pagedir t) (magic t) (cwd t).

Definition set_nice (v : Z) (t : thread) : thread :=
  mkThread (tid t) (status t) (name t) (priority t) (wakeup_time t)
    (recent_cpu t) v (old_priority t) (locks t) (lock_waiting t)
    (return_value t) (sema_start t) (sema_finish t) (parent_die t)
    (message_to_parent t) (pagedir t) (magic t) (cwd t).

Definition set_old_priority (v : Z) (t : thread) : thread :=
  mkThread (tid t) (status t) (name t) (priority t) (wakeup_time t)
    (recent_cpu t) (nice t) v (locks t) (lock_waiting t) (return_value t)
    (sema_start t) (sema_finish t) (parent_die t) (message_to_parent t)
    (pagedir t) (magic t) (cwd t).

Definition set_locks (v : list Z) (t : thread) : thread :=
  mkThread (tid t) (status t) (name t) (priority t) (wakeup_time t)
    (recent_cpu t) (nice t) (old_priority t) v (lock_waiting t)
    (return_value t) (sema_start t) (sema_finish t) (parent_die t)
    (message_to_parent t) (pagedir t) (magic t) (cwd t).

Definition set_sema_finish (v : semaphore) (t : thread) : thread :=
  mkThread (tid t) (status t) (name t) (priority t) (wakeup_time t)
    (recent_cpu t) (nice t) (old_priority t) (locks t) (lock_waiting t)
    (return_value t) (sema_start t) v (parent_die t) (message_to_parent t)
    (pagedir t) (magic t) (cwd t).

Definition set_message_to_parent (v : option Z) (t : thread) : thread :=
  mkThread (tid t) (status t) (name t) (priority t) (wakeup_time t)
    (recent_cpu t) (nice t) (old_priority t) (locks t) (lock_waiting t)
    (return_value t) (sema_start t) (sema_finish t) (parent_die t) v
    (pagedir t) (magic t) (cwd t).

Definition set_cwd (v : option Z) (t : thread) : thread :=
  mkThread (tid t) (status t) (name t) (priority t) (wakeup_time t)
    (recent_cpu t) (nice t) (old_priority t) (locks t) (lock_waiting t)
    (return_value t) (sema_start t) (sema_finish t) (parent_die t)
    (message_to_parent t) (pagedir t) (magic t) v.

(** The kernel state that thread.c works on: its static variables, the
    pages it has obtained from the page allocator, and what it reads
    from its collaborators (the tick counter of the timer, whether an
    external interrupt is being handled, the pool of free pages). *)
Record state : Type := mkState {
  threads : gmap Z thread;
  child_infos : gmap Z child_info;
  lock_tbl : gmap Z lock;
  free_pages : list Z;
  ready_list : list Z;
  sleep_list : list Z;
  all_list : list Z;
  child_list : list Z;
  idle_thread : option Z;
  initial_thread : option Z;
  running : Z;
  load_avg : Z;
  thread_ticks : Z;
  thread_mlfqs : bool;
  next_tid : Z;
  timer : Z;
  intr_context : bool;
  yield_on_return : bool;
  idle_ticks : Z;
  kernel_ticks : Z;
  user_ticks : Z
}.

Definition set_threads (v : gmap Z thread) (s : state) : state :=
  mkState v (child_infos s) (lock_tbl s) (free_pages s) (ready_list s)
    (sleep_list s) (all_list s) (child_list s) (idle_thread s)
    (initial_thread s) (running s) (load_avg s) (thread_ticks s)
    (thread_mlfqs s) (next_tid s) (timer s) (intr_context s)
    (yield_on_return s) (idle_ticks s) (kernel_ticks s) (user_ticks s).

Definition set_child_infos (v : gmap Z child_info) (s : state) : state :=
  mkState (threads s) v (lock_tbl s) (free_pages s) (ready_list s)
    (sleep_list s) (all_list s) (child_list s) (idle_thread s)
    (initial_thread s) (running s) (load_avg s) (thread_ticks s)
    (thread_mlfqs s) (next_tid s) (timer s) (intr_context s)
    (yield_on_return s) (idle_ticks s) (kernel_ticks s) (user_ticks s).

Definition set_free_pages (v : list Z) (s : state) : state :=
  mkState (threads s) (child_infos s) (lock_tbl s) v (ready_list s)
    (sleep_list s) (all_list s) (child_list s) (idle_thread s)
    (initial_thread s) (running s) (load_avg s) (thread_ticks s)
    (thread_mlfqs s) (next_tid s) (timer s) (intr_context s)
    (yield_on_return s) (idle_ticks s) (kernel_ticks s) (user_ticks s).

Definition set_ready_list (v : list Z) (s : state) : state :=
  mkState (threads s) (child_infos s) (lock_tbl s) (free_pages s) v
    (sleep_list s) (all_list s) (child_list s) (idle_thread s)
    (initial_thread s) (running s) (load_avg s) (thread_ticks s)
    (thread_mlfqs s) (next_tid s) (timer s) (intr_context s)
    (yield_on_return s) (idle_ticks s) (kernel_ticks s) (user_ticks s).

Definition set_sleep_list (v : list Z) (s : state) : state :=
  mkState (threads s) (child_infos s) (lock_tbl s) (free_pages s)
    (ready_list s) v (all_list s) (child_list s) (idle_thread s)
    (initial_thread s) (running s) (load_avg s) (thread_ticks s)
    (thread_mlfqs s) (next_tid s) (timer s) (intr_context s)
    (yield_on_return s) (idle_ticks s) (kernel_ticks s) (user_ticks s).

Definition set_all_list (v : list Z) (s : state) : state :=
  mkState (threads s) (child_infos s) (lock_tbl s) (free_pages s)
    (ready_list s) (sleep_list s) v (child_list s) (idle_thread s)
    (initial_thread s) (running s) (load_avg s) (thread_ticks s)
    (thread_mlfqs s) (next_tid s) (timer s) (intr_context s)
    (yield_on_return s) (idle_ticks s) (kernel_ticks s) (user_ticks s).

Definition set_child_list (v : list Z) (s : state) : state :=
  mkState (threads s) (child_infos s) (lock_tbl s) (free_pages s)
    (ready_list s) (sleep_list s) (all_list s) v (idle_thread s)
    (initial_thread s) (running s) (load_avg s) (thread_ticks s)
    (thread_mlfqs s) (next_tid s) (timer s) (intr_context s)
    (yield_on_return s) (idle_ticks s) (kernel_ticks s) (user_ticks s).

Definition set_initial_thread (v : option Z) (s : state) : state :=
  mkState (threads s) (child_infos s) (lock_tbl s) (free_pages s)
    (ready_list s) (sleep_list s) (all_list s) (child_list s)
    (idle_thread s) v (running s) (load_avg s) (thread_ticks s)
    (thread_mlfqs s) (next_tid s) (timer s) (intr_context s)
    (yield_on_return s) (idle_ticks s) (kernel_ticks s) (user_ticks s).

Definition set_running (v : Z) (s : state) : state :=
  mkState (threads s) (child_infos s) (lock_tbl s) (free_pages s)
    (ready_list s) (sleep_list s) (all_list s) (child_list s)
    (idle_thread s) (initial_thread s) v (load_avg s) (thread_ticks s)
    (thread_mlfqs s) (next_tid s) (timer s) (intr_context s)
    (yield_on_return s) (idle_ticks s) (kernel_ticks s) (user_ticks s).

Definition set_load_avg (v : Z) (s : state) : state :=
  mkState (threads s) (child_infos s) (lock_tbl s) (free_pages s)
    (ready_list s) (sleep_list s) (all_list s) (child_list s)
    (idle_thread s) (initial_thread s) (running s) v (thread_ticks s)
    (thread_mlfqs s) (next_tid s) (timer s) (intr_context s)
    (yield_on_return s) (idle_ticks s) (kernel_ticks s) (user_ticks s).

Definition set_thread_ticks (v : Z) (s : state) : state :=
  mkState (threads s) (child_infos s) (lock_tbl s) (free_pages s)
    (ready_list s) (sleep_list s) (all_list s) (child_list s)
    (idle_thread s) (initial_thread s) (running s) (load_avg s) v
    (thread_mlfqs s) (next_tid s) (timer s) (intr_context s)
    (yield_on_return s) (idle_ticks s) (kernel_ticks s) (user_ticks s).

Definition set_next_tid (v : Z) (s : state) : state :=
  mkState (threads s) (child_infos s) (lock_tbl s) (free_pages s)
    (ready_list s) (sleep_list s) (all_list s) (child_list s)
    (idle_thread s) (initial_thread s) (running s) (load_avg s)
    (thread_ticks s) (thread_mlfqs s) v (timer s) (intr_context s)
    (yield_on_return s) (idle_ticks s) (kernel_ticks s) (user_ticks s).


Definition set_intr_context (v : bool) (s : state) : state :=
  mkState (threads s) (child_infos s) (lock_tbl s) (free_pages s)
    (ready_list s) (sleep_list s) (all_list s) (child_list s)
    (idle_thread s) (initial_thread s) (running s) (load_avg s)
    (thread_ticks s) (thread_mlfqs s) (next_tid s) (timer s) v
    (yield_on_return s) (idle_ticks s) (kernel_ticks s) (user_ticks s).

Definition set_yield_on_return (v : bool) (s : state) : state :=
  mkState (threads s) (child_infos s) (lock_tbl s) (free_pages s)
    (ready_list s) (sleep_list s) (all_list s) (child_list s)
    (idle_thread s) (initial_thread s) (running s) (load_avg s)
    (thread_ticks s) (thread_mlfqs s) (next_tid s) (timer s)
    (intr_context s) v (idle_ticks s) (kernel_ticks s) (user_ticks s).

Definition set_idle_ticks (v : Z) (s : state) : state :=
  mkState (threads s) (child_infos s) (lock_tbl s) (free_pages s)
    (ready_list s) (sleep_list s) (all_list s) (child_list s)
    (idle_thread s) (initial_thread s) (running s) (load_avg s)
    (thread_ticks s) (thread_mlfqs s) (next_tid s) (timer s)
    (intr_context s) (yield_on_return s) v (kernel_ticks s) (user_ticks s).

Definition set_kernel_ticks (v : Z) (s : state) : state :=
  mkState (threads s) (child_infos s) (lock_tbl s) (free_pages s)
    (ready_list s) (sleep_list s) (all_list s) (child_list s)
    (idle_thread s) (initial_thread s) (running s) (load_avg s)
    (thread_ticks s) (thread_mlfqs s) (next_tid s) (timer s)
    (intr_context s) (yield_on_return s) (idle_ticks s) v (user_ticks s).

Definition set_user_ticks (v : Z) (s : state) : state :=
  mkState (threads s) (child_infos s) (lock_tbl s) (free_pages s)
    (ready_list s) (sleep_list s) (all_list s) (child_list s)
    (idle_thread s) (initial_thread s) (running s) (load_avg s)
    (thread_ticks s) (thread_mlfqs s) (next_tid s) (timer s)
    (intr_context s) (yield_on_return s) (idle_ticks s) (kernel_ticks s) v.

(** ** The monad of kernel computations *)

Inductive result (A : Type) : Type :=
| Ok (a : A)
| Panic
| Fault.

Arguments Ok {A} a.
Arguments Panic {A}.
Arguments Fault {A}.

Definition M (A : Type) : Type := state -> result (A * state).

Definition ret {A : Type} (a : A) : M A := fun s => Ok (a, s).

Definition bind {A B : Type} (m : M A) (k : A -> M B) : M B :=
  fun s =>
    match m s with
    | Ok (a, s') => k a s'
    | Panic => Panic
    | Fault => Fault
    end.

Declare Scope kernel_scope.
Delimit Scope kernel_scope with kernel.
Bind Scope kernel_scope with M.

Notation "'let*' x := m 'in' k" := (bind m (fun x => k))
  (at level 10, x name, m at level 100, k at level 200) : kernel_scope.
Notation "m >> k" := (bind m (fun _ => k))
  (at level 100, k at level 200, right associativity) : kernel_scope.

Local Open Scope kernel_scope.

Definition gets {A : Type} (g : state -> A) : M A := fun s => Ok (g s, s).
Definition modify (g : state -> state) : M unit := fun s => Ok (tt, g s).
Definition panic {A : Type} : M A := fun _ => Panic.
Definition fault {A : Type} : M A := fun _ => Fault.

(** [ASSERT] of <debug.h>: a false condition panics the kernel. *)
Definition ASSERT (b : bool) : M unit := if b then ret tt else panic.

(** Reading a thread control block: the page has to be mapped. *)
Definition deref (t : Z) : M thread :=
  fun s =>
    match threads s !! t with
    | Some th => Ok (th, s)
    | None => Fault
    end.

(** Writing members of the thread control block at [t]. *)
Definition update_thread (t : Z) (g : thread -> thread) : M unit :=
  let* th := deref t in
  modify (fun s => set_threads (<[t := g th]> (threads s)) s).

Definition deref_info (i : Z) : M child_info :=
  fun s =>
    match child_infos s !! i with
    | Some ci => Ok (ci, s)
    | None => Fault
    end.

(** ** The list library *)

Section KernelList.

(** Modelled from the spec: [lib/kernel/list.c] is not among the sources.
    [list_insert_ordered] puts the new element before the first element
    that it is less than, hence after the elements it ties with;
    [list_remove] unlinks one element; [list_sort] is a stable sort. *)
Context {A : Type} `{EqDecision A}.

Fixpoint list_insert_ordered (less : A -> A -> bool) (elem : A)
    (l : list A) : list A :=
  match l with
  | [] => [elem]
  | e :: l' =>
      if less elem e then elem :: e :: l'
      else e :: list_insert_ordered less elem l'
  end.

Fixpoint list_remove (elem : A) (l : list A) : list A :=
  match l with
  | [] => []
  | e :: l' => if decide (e = elem) then l' else e :: list_remove elem l'
  end.

Definition list_sort (less : A -> A -> bool) (l : list A) : list A :=
  fold_left (fun acc e => list_insert_ordered less e acc) l [].

End KernelList.

(** ** Comparison functions of thread.c *)

(** The members read through a list element.  Every element of a kernel
    list is the control block of a live thread; a page that is not mapped
    reads as zero here. *)
Definition priority_at (s : state) (t : Z) : Z :=
  from_option priority 0 (threads s !! t).

Definition wakeup_time_at (s : state) (t : Z) : Z :=
  from_option wakeup_time 0 (threads s !! t).

Definition max_priority_at (s : state) (l : Z) : Z :=
  from_option max_priority 0 (lock_tbl s !! l).


Definition thread_priority_more (s : state) (lhs rhs : Z) : bool :=
  priority_at s rhs <? priority_at s lhs.

Definition lock_priority_more (s : state) (lhs rhs : Z) : bool :=
  max_priority_at s rhs <? max_priority_at s lhs.

(** [init_thread] hands [thread_priority_more] the [allelem] of a thread,
    but the function takes its argument for an [elem]: with [allelem] at
    offset 32, [elem] at offset 40 and [priority] at offset 28 of
    [struct thread], the word it compares is the one at offset 20, the
    last four bytes of [name] (little endian; the last of them is the
    terminator). *)
Definition name_byte (i : nat) (nm : string) : Z :=
  match String.get i nm with
  | Some c => Z.of_nat (nat_of_ascii c)
  | None => 0
  end.

Definition allelem_word (th : thread) : Z :=
  name_byte 12 (name th) + 2 ^ 8 * name_byte 13 (name th)
  + 2 ^ 16 * name_byte 14 (name th).

Definition allelem_word_at (s : state) (t : Z) : Z :=
  from_option allelem_word 0 (threads s !! t).

Definition thread_priority_more_allelem (s : state) (lhs rhs : Z) : bool :=
  allelem_word_at s rhs <? allelem_word_at s lhs.

(** ** Collaborators *)

(** Modelled from the spec: [threads/palloc.c] is not among the sources.
    [palloc_get_page] hands out a whole page, or NULL when none is left;
    [palloc_free_page] returns a page to the pool. *)
Definition palloc_get_page : M (option Z) :=
  fun s =>
    match free_pages s with
    | [] => Ok (None, s)
    | p :: rest => Ok (Some p, set_free_pages rest s)
    end.

Definition palloc_free_page (p : Z) : M unit :=
  modify (fun s =>
    set_free_pages (p :: free_pages s)
      (set_threads (delete p (threads s))
        (set_child_infos (delete p (child_infos s)) s))).

(** [timer_ticks] of devices/timer.c: the number of timer ticks since
    the kernel booted. *)
Definition timer_ticks : M Z := gets timer.

(** [intr_yield_on_return] of threads/interrupt.c: asks for a yield when
    the interrupt handler returns. *)
Definition intr_yield_on_return : M unit :=
  let* ctx := gets intr_context in
  ASSERT ctx >>
  modify (set_yield_on_return true).

(** ** thread.c *)

(** Interrupts are masked around every update of the shared lists in the
    source ([intr_disable] ... [intr_set_level]); each function below is
    one atomic step.  The state keeps whether the code runs inside the
    handler of an external interrupt, which several assertions test.  It
    does not keep the interrupt flag of the processor: the functions
    that assert it ([thread_init], [thread_block], [thread_foreach],
    [schedule], [thread_schedule_tail]) take the level they are called
    at as an argument, and a function that has called [intr_disable]
    passes [INTR_OFF]. *)

(** Modelled from the spec: [enum intr_level] is declared in
    threads/interrupt.h, which is not among the sources; [intr_get_level]
    returns one of its two values. *)
Inductive intr_level : Type :=
| INTR_OFF
| INTR_ON.

#[global] Instance intr_level_eq_dec : EqDecision intr_level.
Proof. solve_decision. Defined.

Section ThreadC.

Variable f : Z.

(** [running_thread]: the page the stack pointer lies in. *)
Definition running_thread : M Z := gets running.

(** [is_thread]: [t != NULL && t->magic == THREAD_MAGIC]. *)
Definition is_thread (t : option Z) : M bool :=
  match t with
  | None => ret false
  | Some p => let* th := deref p in ret (magic th =? THREAD_MAGIC)
  end.

Definition thread_current : M Z :=
  let* t := running_thread in
  let* ok := is_thread (Some t) in
  ASSERT ok >>
  let* th := deref t in
  ASSERT (bool_decide (status th = THREAD_RUNNING)) >>
  ret t.

Definition next_thread_to_run : M (option Z) :=
  let* rl := gets ready_list in
  match rl with
  | [] => gets idle_thread
  | t :: rest => modify (set_ready_list rest) >> ret (Some t)
  end.

(** [switch_threads] of threads/switch.S: execution continues on the
    stack of [next], where the call returns the thread switched from. *)
Definition switch_threads (cur next : Z) : M (option Z) :=
  modify (set_running next) >> ret (Some cur).

(** [thread_schedule_tail]; [process_activate] belongs to userprog and
    changes nothing here. *)
Definition thread_schedule_tail (level : intr_level) (prev : option Z)
    : M unit :=
  let* cur := running_thread in
  ASSERT (bool_decide (level = INTR_OFF)) >>
  update_thread cur (set_status THREAD_RUNNING) >>
  modify (set_thread_ticks 0) >>
  match prev with
  | None => ret tt
  | Some p =>
      let* pth := deref p in
      let* init := gets initial_thread in
      if bool_decide (status pth = THREAD_DYING)
         && negb (bool_decide (Some p = init))
      then ASSERT (negb (bool_decide (p = cur))) >> palloc_free_page p
      else ret tt
  end.

Definition schedule (level : intr_level) : M unit :=
  let* cur := running_thread in
  let* next := next_thread_to_run in
  ASSERT (bool_decide (level = INTR_OFF)) >>
  let* cth := deref cur in
  ASSERT (negb (bool_decide (status cth = THREAD_RUNNING))) >>
  let* ok := is_thread next in
  ASSERT ok >>
  match next with
  | Some n =>
      if bool_decide (cur = n) then thread_schedule_tail level None
      else let* prev := switch_threads cur n in
           thread_schedule_tail level prev
  | None => panic
  end.

Definition thread_block (level : intr_level) : M unit :=
  let* ctx := gets intr_context in
  ASSERT (negb ctx) >>
  ASSERT (bool_decide (level = INTR_OFF)) >>
  let* cur := thread_current in
  update_thread cur (set_status THREAD_BLOCKED) >>
  schedule level.

Definition thread_unblock (t : Z) : M unit :=
  let* ok := is_thread (Some t) in
  ASSERT ok >>
  let* th := deref t in
  ASSERT (bool_decide (status th = THREAD_BLOCKED)) >>
  modify (fun s =>
    set_ready_list
      (list_insert_ordered (thread_priority_more s) t (ready_list s)) s) >>
  update_thread t (set_status THREAD_READY).

Definition thread_yield : M unit :=
  let* cur := thread_current in
  let* ctx := gets intr_context in
  ASSERT (negb ctx) >>
  let* idle := gets idle_thread in
  (if bool_decide (Some cur = idle) then ret tt
   else modify (fun s =>
     set_ready_list
       (list_insert_ordered (thread_priority_more s) cur (ready_list s)) s)) >>
  update_thread cur (set_status THREAD_READY) >>
  schedule INTR_OFF.

Definition thread_cond_yield : M unit :=
  let* cur := thread_current in
  let* idle := gets idle_thread in
  if bool_decide (Some cur = idle) then ret tt
  else
    let* rl := gets ready_list in
    match rl with
    | [] => ret tt
    | front :: _ =>
        let* cur' := thread_current in
        let* cth := deref cur' in
        let* fth := deref front in
        if priority cth <? priority fth then thread_yield else ret tt
    end.

(** The loop of [thread_wakeup], over the elements from [cur] on. *)
Fixpoint thread_wakeup_from (l : list Z) : M unit :=
  match l with
  | [] => ret tt
  | cur :: next =>
      let* t := deref cur in
      let* now := timer_ticks in
      if now <? wakeup_time t then ret tt
      else
        update_thread cur (set_wakeup_time 0) >>
        modify (fun s => set_sleep_list (list_remove cur (sleep_list s)) s) >>
        thread_unblock cur >>
        thread_wakeup_from next
  end.

Definition thread_wakeup : M unit :=
  let* sl := gets sleep_list in
  thread_wakeup_from sl.

Definition thread_tick : M unit :=
  let* t := thread_current in
  let* th := deref t in
  let* idle := gets idle_thread in
  (if bool_decide (Some t = idle)
   then modify (fun s => set_idle_ticks (int64 (idle_ticks s + 1)) s)
   else match pagedir th with
        | Some _ => modify (fun s => set_user_ticks (int64 (user_ticks s + 1)) s)
        | None => modify (fun s => set_kernel_ticks (int64 (kernel_ticks s + 1)) s)
        end) >>
  modify (fun s => set_thread_ticks ((thread_ticks s + 1) mod 2 ^ 32) s) >>
  let* n := gets thread_ticks in
  (if TIME_SLICE <=? n then intr_yield_on_return else ret tt) >>
  thread_wakeup.


(** [allocate_tid]; [tid_lock] only serialises the update of the
    counter. *)
Definition allocate_tid : M Z :=
  let* t := gets next_tid in
  modify (set_next_tid (int32 (t + 1))) >>
  ret t.

Definition thread_get_priority : M Z :=
  let* t := thread_current in
  let* th := deref t in
  ret (priority th).

Definition thread_get_nice : M Z :=
  let* t := thread_current in
  let* th := deref t in
  ret (nice th).

Definition thread_get_load_avg : M Z :=
  let* la := gets load_avg in
  ret (CONVERT_TO_INT_ROUND f (MULT_INT la 100)).

Definition thread_get_recent_cpu : M Z :=
  let* t := thread_current in
  let* th := deref t in
  ret (CONVERT_TO_INT_ROUND f (MULT_INT (recent_cpu th) 100)).

(** [init_thread] clears the page at [t] and fills in a blocked
    thread.  [strlcpy] keeps at most 15 characters of the name. *)
Definition init_thread (t : Z) (nm : string) (prio : Z) : M unit :=
  ASSERT ((PRI_MIN <=? prio) && (prio <=? PRI_MAX)) >>
  let* init := gets initial_thread in
  let* nice_cpu :=
    (if bool_decide (Some t = init) then ret (0, 0)
     else
       let* n := thread_get_nice in
       let* r := thread_get_recent_cpu in
       ret (n, r)) in
  modify (fun s =>
    set_threads
      (<[t := mkThread 0 THREAD_BLOCKED (String.substring 0 15 nm) prio 0
               (snd nice_cpu) (fst nice_cpu) prio [] None 0
               (mkSema 0 []) (mkSema 0 []) false None None
               THREAD_MAGIC None]> (threads s)) s) >>
  modify (fun s =>
    set_all_list
      (list_insert_ordered (thread_priority_more_allelem s) t (all_list s))
      s).

Definition update_priority (t : Z) : M unit :=
  let* idle := gets idle_thread in
  if bool_decide (Some t = idle) then ret tt
  else
    let* th := deref t in
    let p :=
      int32 (int32 (PRI_MAX
                    - CONVERT_TO_INT_ROUND f (DIV_INT (recent_cpu th) 4))
             - int32 (nice th * 2)) in
    let p := if p <? PRI_MIN then PRI_MIN else p in
    let p := if PRI_MAX <? p then PRI_MAX else p in
    update_thread t (set_priority p).

(** [thread_foreach], over the elements of the all-threads list. *)
Fixpoint foreach (func : Z -> M unit) (l : list Z) : M unit :=
  match l with
  | [] => ret tt
  | t :: rest => func t >> foreach func rest
  end.

Definition thread_foreach (level : intr_level) (func : Z -> M unit)
    : M unit :=
  ASSERT (bool_decide (level = INTR_OFF)) >>
  let* al := gets all_list in
  foreach func al.

Definition update_priority_for_each (level : intr_level) : M unit :=
  thread_foreach level update_priority >>
  modify (fun s =>
    set_ready_list (list_sort (thread_priority_more s) (ready_list s)) s).

(** [update_recent_cpu]; a zero divisor in [DIV] is a divide error. *)
Definition update_recent_cpu (t : Z) : M unit :=
  let* idle := gets idle_thread in
  if bool_decide (Some t = idle) then ret tt
  else
    let* la := gets load_avg in
    let den := ADD_INT f (MULT_INT la 2) 1 in
    if den =? 0 then fault
    else
      let coefficient := DIV f (MULT_INT la 2) den in
      let* th := deref t in
      update_thread t
        (set_recent_cpu (ADD_INT f (MULT f coefficient (recent_cpu th))
                           (nice th))).

Definition update_recent_cpu_for_each (level : intr_level) : M unit :=
  let* mlfqs := gets thread_mlfqs in
  ASSERT mlfqs >>
  thread_foreach level update_recent_cpu.

Definition increase_recent_cpu : M unit :=
  let* mlfqs := gets thread_mlfqs in
  ASSERT mlfqs >>
  let* t := thread_current in
  let* idle := gets idle_thread in
  if bool_decide (Some t = idle) then ret tt
  else
    let* th := deref t in
    if bool_decide (status th = THREAD_RUNNING)
    then update_thread t (set_recent_cpu (ADD_INT f (recent_cpu th) 1))
    else ret tt.

(** The number of threads that [update_load_avg] counts. *)
Definition ready_threads (s : state) : Z :=
  if bool_decide (Some (running s) = idle_thread s)
  then Z.of_nat (length (ready_list s))
  else int32 (Z.of_nat (length (ready_list s)) + 1).

Definition update_load_avg : M unit :=
  let* mlfqs := gets thread_mlfqs in
  ASSERT mlfqs >>
  let* cur := thread_current in
  let* n := gets ready_threads in
  modify (fun s =>
    set_load_avg
      (int32 (MULT f (DIV_INT (CONVERT_TO_FP f 59) 60) (load_avg s)
              + MULT_INT (DIV_INT (CONVERT_TO_FP f 1) 60) n)) s).

(** [dir_reopen] of filesys/directory.c is
    [dir_open (inode_reopen (dir->inode))]: [inode_reopen] counts one more
    opener of the inode, and [dir_open] returns a new [struct dir] from
    [calloc] for it, or NULL when there is no memory.  Neither the inodes
    of filesys/inode.c nor the heap of [calloc] are part of the state
    here, so a handle stands for the directory that it refers to: the new
    handle is written as the old one, and the NULL of a failed [calloc]
    is left out.  thread.c stores the result in [cwd] of the new thread
    and never reads through it. *)
Definition dir_reopen (d : Z) : option Z := Some d.

(** [thread_create].  The three stack frames that the source builds in
    the new page only matter to the context switch and are left out;
    [function] is the entry point of the new thread. *)
Definition thread_create (nm : string) (prio : Z) (function : option Z)
    : M Z :=
  ASSERT (bool_decide (function <> None)) >>
  let* t := palloc_get_page in
  match t with
  | None => ret TID_ERROR
  | Some t =>
      init_thread t nm prio >>
      let* tid := allocate_tid in
      update_thread t (set_tid tid) >>
      let* info := palloc_get_page in
      match info with
      | None => fault
      | Some info =>
          modify (fun s =>
            set_child_infos
              (<[info := mkChildInfo t tid false false false 0
                           (SemaStartOf t) (SemaFinishOf t)]>
                 (child_infos s)) s) >>
          modify (fun s => set_child_list (child_list s ++ [info]) s) >>
          update_thread t (set_message_to_parent (Some info)) >>
          let* cur := thread_current in
          let* cth := deref cur in
          update_thread t
            (set_cwd (match cwd cth with
                      | Some d => dir_reopen d
                      | None => None
                      end)) >>
          thread_unblock t >>
          let* mlfqs := gets thread_mlfqs in
          (if mlfqs
           then
             update_recent_cpu t >>
             update_priority t >>
             let* c1 := thread_current in
             update_recent_cpu c1 >>
             let* c2 := thread_current in
             update_priority c2
           else ret tt) >>
          thread_cond_yield >>
          ret tid
      end
  end.

(** Dereferencing the semaphore pointer kept in a child record. *)
Definition deref_sema (r : sema_ref) : M semaphore :=
  match r with
  | SemaStartOf t => let* th := deref t in ret (sema_start th)
  | SemaFinishOf t => let* th := deref t in ret (sema_finish th)
  end.

(** Modelled from the spec: [sema_up] of threads/synch.c is not among the
    sources.  It wakes one waiter, if there is one, and increments the
    counter; it is used here on the [sema_finish] of a thread. *)
Definition sema_up_finish (t : Z) : M unit :=
  let* th := deref t in
  match sema_waiters (sema_finish th) with
  | [] => ret tt
  | w :: ws =>
      update_thread t
        (set_sema_finish (mkSema (sema_value (sema_finish th)) ws)) >>
      thread_unblock w
  end >>
  let* th' := deref t in
  update_thread t
    (set_sema_finish
       (mkSema (sema_value (sema_finish th') + 1)
          (sema_waiters (sema_finish th')))).

(** Modelled from the spec: [process_exit] of userprog/process.c is not
    among the sources; the spec has it as a teardown hook of a
    collaborator that thread exit invokes.  It is taken to leave the
    state of the scheduler as it is. *)
Definition process_exit : M unit := ret tt.

(** [thread_exit], built with USERPROG.  Lines 414-430, which close the
    files of the thread and take its records off [file_list], work on a
    list that is kept apart from this state: they are
    [thread_exit_files] below, which leaves this state as it is.  The
    function does not return: the computation ends where the next thread
    continues. *)
Definition thread_exit : M unit :=
  let* ctx := gets intr_context in
  ASSERT (negb ctx) >>
  process_exit >>
  let* cur := thread_current in
  sema_up_finish cur >>
  let* cur := thread_current in
  modify (fun s => set_all_list (list_remove cur (all_list s)) s) >>
  let* cur := thread_current in
  update_thread cur (set_status THREAD_DYING) >>
  schedule INTR_OFF.

Definition thread_set_priority (new_priority : Z) : M unit :=
  if (PRI_MAX <? new_priority) || (new_priority <? PRI_MIN) then ret tt
  else
    let* mlfqs := gets thread_mlfqs in
    if mlfqs then ret tt
    else
      let* t := thread_current in
      let* th := deref t in
      let old_prio := priority th in
      update_thread t (set_old_priority new_priority) >>
      if bool_decide (locks th = []) || (old_prio <? new_priority)
      then update_thread t (set_priority new_priority) >> thread_yield
      else ret tt.

Definition thread_set_nice (new_nice : Z) : M unit :=
  if (NICE_MAX <? new_nice) || (new_nice <? NICE_MIN) then ret tt
  else
    let* t := thread_current in
    let* idle := gets idle_thread in
    if bool_decide (Some t = idle) then ret tt
    else
      update_thread t (set_nice new_nice) >>
      update_priority t >>
      let* th := deref t in
      match status th with
      | THREAD_READY =>
          modify (fun s =>
            set_ready_list
              (list_sort (thread_priority_more s) (ready_list s)) s)
      | THREAD_RUNNING => thread_cond_yield
      | _ => ret tt
      end.

Definition thread_hold_the_lock (l : Z) : M unit :=
  let* cur := thread_current in
  let* th := deref cur in
  let* s := gets id in
  update_thread cur
    (set_locks (list_insert_ordered (lock_priority_more s) l (locks th))).

Definition thread_donate_priority (t : Z) : M unit :=
  let* cur := thread_current in
  let* cth := deref cur in
  update_thread t (set_priority (priority cth)) >>
  let* th := deref t in
  match status th with
  | THREAD_READY =>
      modify (fun s => set_ready_list (list_remove t (ready_list s)) s) >>
      modify (fun s =>
        set_ready_list
          (list_insert_ordered (thread_priority_more s) t (ready_list s)) s)
  | THREAD_RUNNING => thread_cond_yield
  | _ => ret tt
  end.

(** [thread_remove_lock].  [list_remove (&lock->elem)] unlinks the lock
    from the list it is in, whichever thread that list belongs to. *)
Definition thread_remove_lock (l : Z) : M unit :=
  modify (fun s =>
    set_threads
      ((fun th => set_locks (list_remove l (locks th)) th) <$> threads s) s) >>
  let* cur := thread_current in
  let* th := deref cur in
  match locks th with
  | [] => update_thread cur (set_priority (old_priority th))
  | front :: _ =>
      let* lock_priority := gets (fun s => max_priority_at s front) in
      if old_priority th <? lock_priority
      then update_thread cur (set_priority lock_priority)
      else ret tt
  end.

Fixpoint get_child_info_from (tid : Z) (l : list Z) : M (option Z) :=
  match l with
  | [] => ret None
  | e :: rest =>
      let* ci := deref_info e in
      if child_id ci =? tid then ret (Some e)
      else get_child_info_from tid rest
  end.

Definition get_child_info (tid : Z) : M (option Z) :=
  let* cl := gets child_list in
  get_child_info_from tid cl.

(** [thread_init] turns the code that is running into the thread "main". *)
Definition thread_init (level : intr_level) : M unit :=
  ASSERT (bool_decide (level = INTR_OFF)) >>
  modify (set_ready_list []) >>
  modify (set_sleep_list []) >>
  modify (set_all_list []) >>
  modify (set_child_list []) >>
  let* t := running_thread in
  modify (set_initial_thread (Some t)) >>
  init_thread t "main" PRI_DEFAULT >>
  update_thread t (set_status THREAD_RUNNING) >>
  let* tid := allocate_tid in
  update_thread t (set_tid tid) >>
  modify (set_load_avg 0).

End ThreadC.

(** ** The timer interrupt *)


(** * Specification-level definitions *)

(** ** Rounding and clamping, as the specification words them *)

(** The integer nearest to the rational [p / q] (for [0 < q]), a tie
    going away from zero. *)
Definition round_nearest (p q : Z) : Z :=
  if 0 <=? p then (2 * p + q) / (2 * q)
  else - ((2 * (- p) + q) / (2 * q)).

Definition clamp (lo hi x : Z) : Z := Z.max lo (Z.min hi x).

(** The MLFQS priority of a thread whose [recent_cpu] is the fixed-point
    number [rc] (that is, the rational [rc / f]):
    [PRI_MAX - round (recent_cpu / 4) - nice * 2], clamped. *)
Definition mlfqs_priority (f rc nc : Z) : Z :=
  clamp PRI_MIN PRI_MAX (PRI_MAX - round_nearest rc (4 * f) - nc * 2).

(** Fixed-point operations in the integers, without machine bounds. *)
Definition fp_const (f p q : Z) : Z := (p * f) / q.
Definition fp_mul (f x y : Z) : Z := (x * y) / f.
Definition fp_scale (x n : Z) : Z := x * n.

(** ** What the functions store *)

(** The value that [update_priority] stores. *)
Definition update_priority_value (f : Z) (th : thread) : Z :=
  clamp PRI_MIN PRI_MAX
    (int32 (int32 (PRI_MAX
                   - CONVERT_TO_INT_ROUND f (DIV_INT (recent_cpu th) 4))
            - int32 (nice th * 2))).

(** The threads the load average counts: the ready queue, and the
    running thread unless it is the idle thread. *)
Definition ready_count (s : state) : Z :=
  Z.of_nat (length (ready_list s))
  + (if bool_decide (Some (running s) = idle_thread s) then 0 else 1).

(** The new load average, in fixed-point arithmetic:
    [(59/60) * load_avg + (1/60) * ready_threads]. *)
Definition load_avg_next (f : Z) (s : state) : Z :=
  fp_mul f (fp_const f 59 60) (load_avg s)
  + fp_scale (fp_const f 1 60) (ready_count s).

(** What [thread_remove_lock] makes of the priority of the running
    thread [th], whose lock list is [held] once the lock is unlinked. *)
Definition priority_after_release (s : state) (th : thread)
    (held : list Z) : Z :=
  match held with
  | [] => old_priority th
  | front :: _ =>
      if old_priority th <? max_priority_at s front
      then max_priority_at s front
      else priority th
  end.

(** The effective priority after [thread_set_priority p], for a thread
    whose record was [th]. *)
Definition priority_after_set (th : thread) (p : Z) : Z :=
  if bool_decide (locks th = []) || (priority th <? p) then p
  else priority th.

(** ** Sorted lists *)

(** A list in ascending order of [key]. *)
Definition ascending_by {A : Type} (key : A -> Z) (l : list A) : Prop :=
  Sorted (fun a b => key a <= key b) l.

(** A list of integers in descending order. *)
Definition descending (l : list Z) : Prop :=
  Sorted (fun a b => b <= a) l.

(** The longest prefix whose elements satisfy [p], and what follows
    it. *)
Fixpoint take_while {A : Type} (p : A -> bool) (l : list A) : list A :=
  match l with
  | [] => []
  | x :: l' => if p x then x :: take_while p l' else []
  end.

Fixpoint drop_while {A : Type} (p : A -> bool) (l : list A) : list A :=
  match l with
  | [] => []
  | x :: l' => if p x then drop_while p l' else x :: l'
  end.

(** The priorities along the ready queue, front first. *)
Definition ready_priorities (s : state) : list Z :=
  priority_at s <$> ready_list s.

Definition ready_sorted (s : state) : Prop := descending (ready_priorities s).

Definition sleep_sorted (s : state) : Prop :=
  Sorted (fun a b => wakeup_time_at s a <= wakeup_time_at s b) (sleep_list s).

(** A sleeper is due at [now] when its wake-up time has arrived. *)
Definition due (s : state) (now : Z) (t : Z) : bool :=
  bool_decide (wakeup_time_at s t <= now).

(** ** The invariant of the scheduler *)

(** The thread at [t] is a live thread control block in state [st]. *)
Definition thread_is (s : state) (t : Z) (st : thread_status) : Prop :=
  exists th, threads s !! t = Some th /\
             magic th = THREAD_MAGIC /\ status th = st.

(** The running thread is a live thread control block, marked as
    running: what [thread_current] asserts. *)
Definition running_ok (s : state) : Prop :=
  exists th, threads s !! running s = Some th /\
             magic th = THREAD_MAGIC /\ status th = THREAD_RUNNING.

(** What the lists of the scheduler hold between two operations (and
    inside the timer interrupt handler): the ready queue links live
    threads that are READY, the sleep list live threads that are BLOCKED,
    in the order of their wake-up times; no thread is linked twice; the
    idle thread has been started and is on neither list. *)
Record sched_core (s : state) : Prop := mk_sched_core {
  inv_ready : (forall t, t ∈ ready_list s -> thread_is s t THREAD_READY);
  inv_sleep : (forall t, t ∈ sleep_list s -> thread_is s t THREAD_BLOCKED);
  inv_idle : (exists i ith,
      idle_thread s = Some i /\ threads s !! i = Some ith /\
      magic ith = THREAD_MAGIC /\
      (i ∉ ready_list s) /\ (i ∉ sleep_list s));
  inv_ready_nodup : NoDup (ready_list s);
  inv_sleep_nodup : NoDup (sleep_list s);
  inv_sleep_sorted : sleep_sorted s
}.

(** The invariant of the scheduler, as a thread sees it. *)
Definition sched_inv (s : state) : Prop :=
  sched_core s /\ running_ok s /\ intr_context s = false.

(** [s'] has the threads of [s], up to their status. *)
Definition same_but_status (s s' : state) : Prop :=
  forall t,
    match threads s !! t, threads s' !! t with
    | Some th, Some th' => th' = set_status (status th') th
    | None, None => True
    | _, _ => False
    end.

(** A computation that only reads the state. *)
Definition reader {A : Type} (m : M A) : Prop :=
  forall s a s', m s = Ok (a, s') -> s' = s.

(** ** The states that the scheduler goes through *)

(** The state after [thread_unblock t]. *)
Definition unblocked (t : Z) (th : thread) (s : state) : state :=
  set_threads (<[t := set_status THREAD_READY th]> (threads s))
    (set_ready_list
       (list_insert_ordered (thread_priority_more s) t (ready_list s)) s).

(** The thread that [next_thread_to_run] picks, and the state once it
    has been switched to. *)
Definition next_thread (s : state) : option Z :=
  match ready_list s with
  | [] => idle_thread s
  | t :: _ => Some t
  end.

Definition dispatch (n : Z) (nth : thread) (s : state) : state :=
  set_thread_ticks 0
    (set_threads (<[n := set_status THREAD_RUNNING nth]> (threads s))
       (set_running n (set_ready_list (tail (ready_list s)) s))).

(** The state in which [thread_yield] calls [schedule]. *)
Definition yielded (s : state) (cth : thread) : state :=
  set_threads (<[running s := set_status THREAD_READY cth]> (threads s))
    (if bool_decide (Some (running s) = idle_thread s) then s
     else set_ready_list
            (list_insert_ordered (thread_priority_more s) (running s)
               (ready_list s)) s).


(** What a scan of the sleep list at time [now] does to a state [s],
    leading to [s']. *)
Definition scanned (s : state) (now : Z) (s' : state) : Prop :=
  sleep_list s' = drop_while (due s now) (sleep_list s) /\
  (forall u, u ∈ take_while (due s now) (sleep_list s) ->
             thread_is s' u THREAD_READY /\ u ∈ ready_list s') /\
  (forall u, u ∉ take_while (due s now) (sleep_list s) ->
             threads s' !! u = threads s !! u) /\
  (forall u, u ∈ ready_list s -> u ∈ ready_list s') /\
  (forall u, u ∈ ready_list s' ->
             u ∈ ready_list s \/ u ∈ take_while (due s now) (sleep_list s)) /\
  running s' = running s /\ idle_thread s' = idle_thread s.

(** ** The kernel while a thread sleeps *)





(** ** Quantities of the scheduler *)

(** The factor [2 * load_avg / (2 * load_avg + 1)] by which
    [update_recent_cpu] scales [recent_cpu], and the value it stores, as
    fixed-point numbers with the unit [f]. *)
Definition decay (f la : Z) : Z := (2 * la * f) / (2 * la + f).

Definition recent_cpu_next (f la rc nc : Z) : Z :=
  Z.quot (decay f la * rc) f + nc * f.

(** What a context switch leaves alone: everything but the thread
    control blocks (whose status changes), the ready queue, the running
    thread and the ticks of the time slice. *)
Definition switch_frame (s s' : state) : Prop :=
  child_infos s' = child_infos s /\ lock_tbl s' = lock_tbl s /\
  free_pages s' = free_pages s /\ sleep_list s' = sleep_list s /\
  all_list s' = all_list s /\ child_list s' = child_list s /\
  idle_thread s' = idle_thread s /\ initial_thread s' = initial_thread s /\
  load_avg s' = load_avg s /\ thread_mlfqs s' = thread_mlfqs s /\
  next_tid s' = next_tid s /\ timer s' = timer s.

(** Every identifier in use lies below the counter of [allocate_tid]. *)
Definition ids_below (s : state) : Prop :=
  (forall t th, threads s !! t = Some th -> tid th < next_tid s) /\
  (forall i ci, child_infos s !! i = Some ci -> child_id ci < next_tid s).

(** The [child_id] read through an element of [child_list]. *)
Definition child_id_at (s : state) (i : Z) : Z :=
  from_option child_id 0 (child_infos s !! i).

(** The child record that [thread_create] fills in for the thread at
    [t]. *)
Definition new_child_info (t tid : Z) : child_info :=
  mkChildInfo t tid false false false 0 (SemaStartOf t) (SemaFinishOf t).

(** The state once the page at [p] has gone back to the page allocator. *)
Definition reclaimed (p : Z) (s : state) : state :=
  set_free_pages (p :: free_pages s)
    (set_threads (delete p (threads s))
       (set_child_infos (delete p (child_infos s)) s)).

(** The counters that [thread_tick] keeps. *)
Definition tick_counts (s : state) : Z * Z * Z :=
  (idle_ticks s, kernel_ticks s, user_ticks s).

(** ** Concrete kernel states *)

(** A thread with the given identifier, status, name, effective and base
    priority, niceness and held locks; everything else as [init_thread]
    leaves it. *)
Definition a_thread (id : Z) (st : thread_status) (nm : string)
    (prio base nc : Z) (held : list Z) : thread :=
  mkThread id st nm prio 0 0 nc base held None 0 (mkSema 0 []) (mkSema 0 [])
    false None None THREAD_MAGIC None.

(** A kernel state with the given thread pages, locks, free pages and
    ready queue, at tick 1000; page 100 holds the initial thread and page
    900 the idle thread, which has been started. *)
Definition a_state (ths : list (Z * thread)) (lks : list (Z * lock))
    (pool ready : list Z) (cur : Z) (mlfqs : bool) : state :=
  mkState (list_to_map ths) ∅ (list_to_map lks) pool ready [] (fst <$> ths) []
    (Some 900) (Some 100) cur 0 0 mlfqs 3 1000 false false 0 0 0.

Definition idle_tcb : Z * thread :=
  (900, a_thread 2 THREAD_BLOCKED "idle" 0 0 0 []).

(** The usual 17.14 format, for the states that are evaluated. *)
Definition F14 : Z := 2 ^ 14.

(** A running thread of base priority 10, raised to 50 by a donation
    through lock 1; it also holds lock 2, whose highest waiter has
    priority 5. *)
Definition release_state : state :=
  a_state
    [(100, a_thread 1 THREAD_RUNNING "main" 50 10 0 [1; 2]); idle_tcb]
    [(1, mkLock 50); (2, mkLock 5)] [] [] 100 false.

(** One free page is left for a thread and none for its child record. *)
Definition one_page_state : state :=
  a_state [(100, a_thread 1 THREAD_RUNNING "main" 31 31 0 []); idle_tcb]
    [] [200] [] 100 false.

(** MLFQS is on; the running thread has niceness 0 and priority 63, the
    ready thread at 300 has niceness 10 and priority 43. *)
Definition mlfqs_state : state :=
  a_state
    [(100, a_thread 1 THREAD_RUNNING "main" 63 63 0 []); idle_tcb;
     (300, a_thread 4 THREAD_READY "a" 43 43 10 [])]
    [] [200; 201] [300] 100 true.

(** A running thread of priority 31 and two free pages. *)
Definition spawn_state : state :=
  a_state [(100, a_thread 1 THREAD_RUNNING "main" 31 31 0 []); idle_tcb]
    [] [200; 201] [] 100 false.

(** A running thread of priority 31 that holds no lock; no free page. *)
Definition priority_state : state :=
  a_state [(100, a_thread 1 THREAD_RUNNING "main" 31 31 0 []); idle_tcb]
    [] [] [] 100 false.

(** A blocked thread of priority 40 while a thread of priority 31 is
    running. *)
Definition unblock_state : state :=
  a_state
    [(100, a_thread 1 THREAD_RUNNING "main" 31 31 0 []); idle_tcb;
     (300, a_thread 4 THREAD_BLOCKED "high" 40 40 0 [])]
    [] [] [] 100 false.

(** ** More concrete states *)

(** A thread of priority 40 is ready while a thread of priority 31 is
    running. *)
Definition ready_state : state :=
  a_state
    [(100, a_thread 1 THREAD_RUNNING "main" 31 31 0 []); idle_tcb;
     (300, a_thread 4 THREAD_READY "high" 40 40 0 [])]
    [] [] [300] 100 false.

(** Three threads of priorities 50, 40 and 20 are ready, in this order,
    and a thread of priority 40 is blocked, while a thread of priority 31
    is running. *)
Definition queue_state : state :=
  a_state
    [(100, a_thread 1 THREAD_RUNNING "main" 31 31 0 []); idle_tcb;
     (300, a_thread 4 THREAD_BLOCKED "d" 40 40 0 []);
     (301, a_thread 5 THREAD_READY "a" 50 50 0 []);
     (302, a_thread 6 THREAD_READY "b" 40 40 0 []);
     (303, a_thread 7 THREAD_READY "c" 20 20 0 [])]
    [] [] [301; 302; 303] 100 false.

(** A thread that was created by [thread_create] has set its status to
    DYING and is about to be switched out; the initial thread is
    ready. *)
Definition dying_state : state :=
  a_state
    [(100, a_thread 1 THREAD_READY "main" 31 31 0 []); idle_tcb;
     (300, a_thread 4 THREAD_DYING "child" 31 31 0 [])]
    [] [] [100] 300 false.

(** MLFQS is on with a load average of 1.  The running thread has a
    [recent_cpu] of 12345/16384; the ready threads are queued in the
    order of their stored priorities 43, 30 and 20, which are out of
    date: niceness 10 with a [recent_cpu] of 10, niceness 0 with none,
    and niceness 5 with a [recent_cpu] of 8. *)
Definition mlfqs_busy_state : state :=
  set_load_avg F14
    (a_state
       [(100, set_recent_cpu 12345
                (a_thread 1 THREAD_RUNNING "main" 63 63 0 []));
        idle_tcb;
        (300, set_recent_cpu (10 * F14)
                (a_thread 4 THREAD_READY "a" 43 43 10 []));
        (301, a_thread 5 THREAD_READY "b" 30 30 0 []);
        (302, set_recent_cpu (8 * F14)
                (a_thread 6 THREAD_READY "c" 20 20 5 []))]
       [] [] [300; 301; 302] 100 true).

(** The same with a load average of 7471/16384, about 0.456. *)
Definition mlfqs_load_state : state := set_load_avg 7471 mlfqs_busy_state.

(** The running thread holds locks 1 and 2; lock 3 is free. *)
Definition lock_state : state :=
  a_state
    [(100, a_thread 1 THREAD_RUNNING "main" 50 10 0 [1; 2]); idle_tcb]
    [(1, mkLock 50); (2, mkLock 5); (3, mkLock 20)] [] [] 100 false.

(** The timer interrupt has come in while the initial thread runs. *)
Definition tick_state : state := set_intr_context true spawn_state.

(** The running thread has two children on record, with the
    identifiers 3 and 4. *)
Definition child_state : state :=
  set_child_list [201; 203]
    (set_child_infos
       {[ 201 := new_child_info 200 3; 203 := new_child_info 202 4 ]}
       priority_state).

(** * Other kernel state *)

(** The list of open files in thread.c and the modules under vm/ keep
    state of their own.  Their functions are computations in the same
    kind of monad, over the state they work on. *)

Definition ST (S A : Type) : Type := S -> result (A * S).

Definition st_ret {S A : Type} (a : A) : ST S A := fun s => Ok (a, s).

Definition st_bind {S A B : Type} (m : ST S A) (k : A -> ST S B) : ST S B :=
  fun s =>
    match m s with
    | Ok (a, s') => k a s'
    | Panic => Panic
    | Fault => Fault
    end.

Declare Scope st_scope.
Delimit Scope st_scope with st.

Notation "'do' x <- m ; k" := (st_bind m (fun x => k))
  (at level 10, x name, m at level 100, k at level 200) : st_scope.
Notation "m ;; k" := (st_bind m (fun _ => k))
  (at level 100, k at level 200, right associativity) : st_scope.

Definition st_gets {S A : Type} (g : S -> A) : ST S A := fun s => Ok (g s, s).
Definition st_modify {S : Type} (g : S -> S) : ST S unit := fun s => Ok (tt, g s).
Definition st_panic {S A : Type} : ST S A := fun _ => Panic.
Definition st_fault {S A : Type} : ST S A := fun _ => Fault.
Definition st_assert {S : Type} (b : bool) : ST S unit :=
  if b then st_ret tt else st_panic.

Fixpoint st_foreach {S A : Type} (body : A -> ST S unit) (l : list A)
    : ST S unit :=
  match l with
  | [] => st_ret tt
  | a :: rest => st_bind (body a) (fun _ => st_foreach body rest)
  end.

(** A value of C type [uint32_t]. *)
Definition uint32 (z : Z) : Z := z mod 2 ^ 32.

(** ** The list of open files (thread.c) *)

(** [struct file_info] of thread.h. *)
Record file_info : Type := mkFileInfo {
  fd : Z;
  opened_file : option Z;
  opened_dir : option Z;
  thread_num : Z
}.

(** The kernel state with the static [file_list] of thread.c and the
    [file_info] records that the system calls allocate. *)
Record file_state : Type := mkFileState {
  kernel : state;
  file_infos : gmap Z file_info;
  file_list : list Z
}.

Local Open Scope st_scope.

(** [thread_current], run on the kernel part of the state. *)
Definition fs_thread_current : ST file_state Z :=
  fun fs =>
    match thread_current (kernel fs) with
    | Ok (t, k) => Ok (t, mkFileState k (file_infos fs) (file_list fs))
    | Panic => Panic
    | Fault => Fault
    end.

Definition deref_file_info (i : Z) : ST file_state file_info :=
  fun fs =>
    match file_infos fs !! i with
    | Some fi => Ok (fi, fs)
    | None => Fault
    end.

(** The loop of [get_file_info], from element [i] on. *)
Fixpoint get_file_info_from (cur n : Z) (l : list Z)
    : ST file_state (option Z) :=
  match l with
  | [] => st_ret None
  | i :: rest =>
      do fi <- deref_file_info i;
      if fd fi =? n
      then if thread_num fi =? cur then st_ret (Some i) else st_ret None
      else get_file_info_from cur n rest
  end.

Definition get_file_info (n : Z) : ST file_state (option Z) :=
  do cur <- fs_thread_current;
  do l <- st_gets file_list;
  get_file_info_from cur n l.

Definition add_file_list (info : Z) : ST file_state unit :=
  st_modify (fun fs =>
    mkFileState (kernel fs) (file_infos fs) (file_list fs ++ [info])).

(** Modelled from the spec: [close_file] and [file_allow_write], of
    userprog and filesys, and [free] are not among the sources.  Closing
    a file shows in no part of this state; [free] releases the record. *)
Definition close_file (f : option Z) : ST file_state unit := st_ret tt.

Definition free_file_info (i : Z) : ST file_state unit :=
  st_modify (fun fs =>
    mkFileState (kernel fs) (delete i (file_infos fs)) (file_list fs)).

(** The loop of lines 414-426 of [thread_exit], from element [i] on:
    every record of [file_list] that belongs to the exiting thread is
    closed, unlinked and freed.  The source steps back to the element
    before the record that it unlinks, and so goes on with the one that
    followed it. *)
Fixpoint thread_exit_files_from (cur : Z) (l : list Z)
    : ST file_state unit :=
  match l with
  | [] => st_ret tt
  | i :: rest =>
      do fi <- deref_file_info i;
      (if thread_num fi =? cur
       then
         close_file (opened_file fi);;
         st_modify (fun fs =>
           mkFileState (kernel fs) (file_infos fs)
             (list_remove i (file_list fs)));;
         free_file_info i
       else st_ret tt);;
      thread_exit_files_from cur rest
  end.

(** Lines 408-430 of [thread_exit].  The executable of the thread
    ([exec_file], lines 427-430) is closed in the same way; it is no
    member of [thread] here. *)
Definition thread_exit_files : ST file_state unit :=
  do cur <- fs_thread_current;
  do l <- st_gets file_list;
  thread_exit_files_from cur l.

(** The record at [i] belongs to the thread [cur]. *)
Definition file_of (fs : file_state) (cur i : Z) : Prop :=
  exists fi, file_infos fs !! i = Some fi /\ thread_num fi = cur.

(** Thread 1 has opened a file as its descriptor 3. *)
Definition a_file_state : file_state :=
  mkFileState spawn_state {[ 50 := mkFileInfo 3 (Some 7) None 100 ]} [].

(** ** The swap area (vm/swap.c) *)

(** A sector of a block device, and a chunk of memory of that size: its
    bytes. *)
Definition sector : Type := list Z.

(** The state that swap.c works on: its static variables
    ([swap_free_list], [swap_block], [top_index]), the [swap_item]
    records it has obtained from [malloc], and its collaborators: the
    block device registered in the role of swap space ([swap_device], its
    size in sectors), the contents of the device, the addresses that
    [malloc] can still hand out, and the kernel memory that pages are
    copied from and to (in chunks of one sector, by address). *)
Record swap_state : Type := mkSwapState {
  swap_device : option Z;
  swap_block : option Z;
  swap_disk : gmap Z sector;
  swap_free_list : list Z;
  swap_items : gmap Z Z;
  swap_heap : list Z;
  top_index : Z;
  kmem : gmap Z sector
}.

Definition set_swap_block (v : option Z) (s : swap_state) : swap_state :=
  mkSwapState (swap_device s) v (swap_disk s) (swap_free_list s)
    (swap_items s) (swap_heap s) (top_index s) (kmem s).

Definition set_swap_disk (v : gmap Z sector) (s : swap_state) : swap_state :=
  mkSwapState (swap_device s) (swap_block s) v (swap_free_list s)
    (swap_items s) (swap_heap s) (top_index s) (kmem s).

Definition set_swap_free_list (v : list Z) (s : swap_state) : swap_state :=
  mkSwapState (swap_device s) (swap_block s) (swap_disk s) v
    (swap_items s) (swap_heap s) (top_index s) (kmem s).

Definition set_swap_items (v : gmap Z Z) (s : swap_state) : swap_state :=
  mkSwapState (swap_device s) (swap_block s) (swap_disk s) (swap_free_list s)
    v (swap_heap s) (top_index s) (kmem s).

Definition set_swap_heap (v : list Z) (s : swap_state) : swap_state :=
  mkSwapState (swap_device s) (swap_block s) (swap_disk s) (swap_free_list s)
    (swap_items s) v (top_index s) (kmem s).

Definition set_top_index (v : Z) (s : swap_state) : swap_state :=
  mkSwapState (swap_device s) (swap_block s) (swap_disk s) (swap_free_list s)
    (swap_items s) (swap_heap s) v (kmem s).

Definition set_kmem (v : gmap Z sector) (s : swap_state) : swap_state :=
  mkSwapState (swap_device s) (swap_block s) (swap_disk s) (swap_free_list s)
    (swap_items s) (swap_heap s) (top_index s) v.

(** [(index_t) -1], the index that stands for failure. *)
Definition NO_INDEX : Z := 2 ^ 32 - 1.

Section SwapC.

(** [PGSIZE] (threads/vaddr.h), [BLOCK_SECTOR_SIZE] (devices/block.h)
    and [PHYS_BASE] (threads/vaddr.h) are defined in headers that are
    not among the sources. *)
Variables PGSIZE BLOCK_SECTOR_SIZE PHYS_BASE : Z.

Definition BLOCK_PER_PAGE : Z := Z.quot PGSIZE BLOCK_SECTOR_SIZE.

Definition is_kernel_vaddr (vaddr : Z) : bool := PHYS_BASE <=? vaddr.

(** Modelled from the spec: [block_size], [block_write] and [block_read]
    of devices/block.c are not among the sources.  A device is an array
    of sectors; an access past its end panics the kernel. *)
Definition block_size : ST swap_state Z :=
  fun s =>
    match swap_block s with
    | Some size => Ok (size, s)
    | None => Fault
    end.

Definition block_write (sec buf : Z) : ST swap_state unit :=
  do size <- block_size;
  st_assert (sec <? size);;
  fun s =>
    match kmem s !! buf with
    | Some data => Ok (tt, set_swap_disk (<[sec := data]> (swap_disk s)) s)
    | None => Fault
    end.

Definition block_read (sec buf : Z) : ST swap_state unit :=
  do size <- block_size;
  st_assert (sec <? size);;
  fun s =>
    match kmem s !! buf with
    | Some _ =>
        Ok (tt, set_kmem (<[buf := default [] (swap_disk s !! sec)]> (kmem s)) s)
    | None => Fault
    end.

(** Modelled from the spec: [malloc] and [free] of threads/malloc.c are
    not among the sources.  [malloc] returns NULL when no memory is
    left. *)
Definition swap_malloc : ST swap_state (option Z) :=
  fun s =>
    match swap_heap s with
    | [] => Ok (None, s)
    | a :: rest => Ok (Some a, set_swap_heap rest s)
    end.

Definition swap_free_item (a : Z) : ST swap_state unit :=
  st_modify (fun s =>
    set_swap_heap (a :: swap_heap s)
      (set_swap_items (delete a (swap_items s)) s)).

Definition swap_init : ST swap_state unit :=
  do dev <- st_gets swap_device;
  st_modify (set_swap_block dev);;
  st_assert (bool_decide (dev <> None));;
  st_modify (set_swap_free_list []).

(** The [for] loops of [swap_store] and [swap_load], over the sectors
    of a page. *)
Definition page_sectors : list Z := seqZ 0 BLOCK_PER_PAGE.

Definition swap_store (kpage : Z) : ST swap_state Z :=
  st_assert (is_kernel_vaddr kpage);;
  do fl <- st_gets swap_free_list;
  do index <-
    match fl with
    | [] =>
        do top <- st_gets top_index;
        do size <- block_size;
        if uint32 (top + BLOCK_PER_PAGE) <? size
        then st_modify (set_top_index (uint32 (top + BLOCK_PER_PAGE)));;
             st_ret top
        else st_ret NO_INDEX
    | t :: _ =>
        st_modify (fun s =>
          set_swap_free_list (list_remove t (swap_free_list s)) s);;
        do item <- st_gets (fun s => swap_items s !! t);
        match item with
        | None => st_fault
        | Some index => swap_free_item t;; st_ret index
        end
    end;
  if index =? NO_INDEX then st_ret index
  else
    st_foreach
      (fun i => block_write (uint32 (index + i)) (kpage + i * BLOCK_SECTOR_SIZE))
      page_sectors;;
    st_ret index.

(** In [index % BLOCK_PER_PAGE] the [int] is converted to the unsigned
    type of [index]; a remainder by 0 is undefined. *)
Definition swap_free (index : Z) : ST swap_state unit :=
  (if uint32 BLOCK_PER_PAGE =? 0 then st_fault
   else st_assert (index mod uint32 BLOCK_PER_PAGE =? 0));;
  do top <- st_gets top_index;
  if top =? uint32 (index + BLOCK_PER_PAGE)
  then st_modify (set_top_index index)
  else
    do t <- swap_malloc;
    match t with
    | None => st_fault
    | Some a =>
        st_modify (fun s => set_swap_items (<[a := index]> (swap_items s)) s);;
        st_modify (fun s => set_swap_free_list (swap_free_list s ++ [a]) s)
    end.

Definition swap_load (index kpage : Z) : ST swap_state unit :=
  st_assert (negb (index =? NO_INDEX));;
  st_assert (is_kernel_vaddr kpage);;
  (if uint32 BLOCK_PER_PAGE =? 0 then st_fault
   else st_assert (index mod uint32 BLOCK_PER_PAGE =? 0));;
  st_foreach
    (fun i => block_read (uint32 (index + i)) (kpage + i * BLOCK_SECTOR_SIZE))
    page_sectors;;
  swap_free index.

End SwapC.

(** ** Swap slots *)

(** The index read through an element of [swap_free_list]. *)
Definition swap_index_at (s : swap_state) (a : Z) : Z :=
  default NO_INDEX (swap_items s !! a).

(** A slot of [bpp] sectors below [top_index]. *)
Definition swap_slot (bpp : Z) (s : swap_state) (i : Z) : Prop :=
  0 <= i /\ i mod bpp = 0 /\ i + bpp <= top_index s.

(** The slots in use are [used]: they and the slots on the free list are
    whole slots below [top_index], no slot is both in use and free or
    twice on the free list, and [malloc] hands out no record twice and
    none that is on the free list. *)
Record swap_inv (bpp : Z) (used : gset Z) (s : swap_state) : Prop :=
  mk_swap_inv {
  swap_top_slot : 0 <= top_index s /\ top_index s mod bpp = 0;
  swap_top_size :
    (exists size, swap_block s = Some size /\
                  top_index s <= size /\ size + bpp < 2 ^ 32 /\
                  (top_index s = 0 \/ top_index s < size));
  swap_used_slot : (forall i, i ∈ used -> swap_slot bpp s i);
  swap_free_slot :
    (forall a, a ∈ swap_free_list s ->
       is_Some (swap_items s !! a) /\
       swap_slot bpp s (swap_index_at s a) /\ swap_index_at s a ∉ used);
  swap_free_nodup : NoDup (swap_index_at s <$> swap_free_list s);
  swap_heap_nodup : NoDup (swap_heap s);
  swap_heap_fresh : (forall a, a ∈ swap_heap s -> a ∉ swap_free_list s)
}.

(** The sectors of a page at [kpage], as a slot of the device holds
    them. *)
Definition page_data (bss : Z) (m : gmap Z sector) (kpage : Z) (j : Z)
    : option sector :=
  m !! (kpage + j * bss).

(** [PHYS_BASE] of the 80x86 port, for the states that are evaluated. *)
Definition PHYS_BASE_x86 : Z := 3221225472.

(** A swap device of 64 sectors with two slots of eight sectors handed
    out and the first one freed again; kernel memory holds two pages of
    eight chunks of 512 bytes, at [PHYS_BASE + 4096] and at
    [PHYS_BASE + 8192]. *)
Definition a_swap_state : swap_state :=
  mkSwapState (Some 64) (Some 64) ∅ [500] {[ 500 := 0 ]} [501; 502] 16
    (list_to_map
       ((fun j => (PHYS_BASE_x86 + 4096 + j * 512, [j; j + 1]))
          <$> seqZ 0 16)).

(** ** Paths (filesys/directory.c) *)

(** A C string is the list of its characters, without the terminating
    NUL. *)
Definition cstring : Type := list ascii.

Definition is_slash (c : ascii) : bool := bool_decide (c = "/"%char).

(** Modelled from the spec: [strtok_r] of lib/string.c is not among the
    sources.  It skips the delimiters at the current position; at the end
    of the string it returns NULL; otherwise the token runs up to the next
    delimiter, which is overwritten by a NUL, and the position saved for
    the next call is the character after it.  The result here is the
    token and the string at the saved position. *)
Definition strtok_r (s : cstring) : option (cstring * cstring) :=
  match drop_while is_slash s with
  | [] => None
  | c :: s1 =>
      Some (take_while (fun x => negb (is_slash x)) (c :: s1),
            tail (drop_while (fun x => negb (is_slash x)) (c :: s1)))
  end.

(** The [for] loop of [dir_parser]: [save] is the string at [save_ptr],
    [dir] what has been written to [directory] so far (if [directory] is
    not NULL).  Every turn of the loop takes a token off [save]; the
    number of turns left is bounded by [fuel]. *)
Fixpoint dir_parser_loop (fuel : nat) (save : cstring) (dir : option cstring)
    (last_token : cstring) : option cstring * cstring :=
  match fuel with
  | O => (dir, last_token)
  | S fuel' =>
      match strtok_r save with
      | None => (dir, last_token)
      | Some (token, save') =>
          let dir' :=
            match dir with
            | Some d =>
                if (0 <? Z.of_nat (length last_token))
                then Some (d ++ last_token ++ ["/"%char])
                else Some d
            | None => None
            end in
          dir_parser_loop fuel' save' dir' token
      end
  end.

(** [dir_parser path directory name]: what is written to [directory]
    (when it is not NULL, which [with_directory] says) and to [name].
    The loop ends within [length path + 1] turns. *)
Definition dir_parser (path : cstring) (with_directory : bool)
    : option cstring * cstring :=
  let dir :=
    if with_directory
    then Some (if (0 <? Z.of_nat (length path))
                  && bool_decide (head path = Some "/"%char)
               then ["/"%char] else [])
    else None in
  dir_parser_loop (S (length path)) path dir [].

(** ** The components of a path *)

(** The pieces of a string between its slashes, and the ones that are
    not empty: the components of the path. *)
Fixpoint split_on_slash (s : cstring) : list cstring :=
  match s with
  | [] => [[]]
  | c :: s' =>
      if is_slash c then [] :: split_on_slash s'
      else match split_on_slash s' with
           | [] => [[c]]
           | t :: ts => (c :: t) :: ts
           end
  end.

Definition path_tokens (s : cstring) : list cstring :=
  filter (fun t => t <> []) (split_on_slash s).

(** The components but the last, each followed by a slash. *)
Definition directory_part (toks : list cstring) : cstring :=
  concat ((fun t => t ++ ["/"%char]) <$> removelast toks).

Definition name_part (toks : list cstring) : cstring :=
  default [] (last toks).

Definition root_prefix (path : cstring) : cstring :=
  if bool_decide (head path = Some "/"%char) then ["/"%char] else [].

(** What [dir_parser_loop] writes, in terms of the components left in
    [save]. *)
Definition dir_after (dir : option cstring) (last_token : cstring)
    (toks : list cstring) : option cstring :=
  match toks with
  | [] => dir
  | _ =>
      (fun d =>
         d ++ (if (0 <? Z.of_nat (length last_token))
               then last_token ++ ["/"%char] else [])
           ++ directory_part toks) <$> dir
  end.

(** ** The frame table (vm/frame.c) *)

(** Modelled from the spec: [struct frame_item] is declared in
    vm/frame.h, which is not among the sources.  These are the members
    that frame.c reads and writes, besides the [hash_elem] and the
    [list_elem] that link an item into [frame_table] and into
    [frame_clock_list]; [item_thread] is the member [t]. *)
Record frame_item : Type := mkFrameItem {
  frame : Z;
  upage : Z;
  item_thread : Z;
  swapable : bool
}.

(** The state that frame.c works on: its static variables
    ([frame_table], a hash table keyed by the member [frame] of its
    elements, here the map from a frame to the item that holds it;
    [frame_clock_list]; whether the running thread holds [all_lock];
    [current_frame], where [None] is NULL), the items obtained from
    [malloc], by address, and the pages that have been given back to the
    page allocator. *)
Record frame_state : Type := mkFrameState {
  frame_items : gmap Z frame_item;
  frame_table : gmap Z Z;
  frame_clock_list : list Z;
  all_lock : bool;
  current_frame : option Z;
  freed_pages : list Z
}.

Definition set_frame_items (v : gmap Z frame_item) (s : frame_state)
    : frame_state :=
  mkFrameState v (frame_table s) (frame_clock_list s) (all_lock s)
    (current_frame s) (freed_pages s).

Definition set_frame_table (v : gmap Z Z) (s : frame_state) : frame_state :=
  mkFrameState (frame_items s) v (frame_clock_list s) (all_lock s)
    (current_frame s) (freed_pages s).

Definition set_frame_clock_list (v : list Z) (s : frame_state)
    : frame_state :=
  mkFrameState (frame_items s) (frame_table s) v (all_lock s)
    (current_frame s) (freed_pages s).

Definition set_all_lock (v : bool) (s : frame_state) : frame_state :=
  mkFrameState (frame_items s) (frame_table s) (frame_clock_list s) v
    (current_frame s) (freed_pages s).

Definition set_current_frame (v : option Z) (s : frame_state) : frame_state :=
  mkFrameState (frame_items s) (frame_table s) (frame_clock_list s)
    (all_lock s) v (freed_pages s).

Definition set_freed_pages (v : list Z) (s : frame_state) : frame_state :=
  mkFrameState (frame_items s) (frame_table s) (frame_clock_list s)
    (all_lock s) (current_frame s) v.

(** Reading and writing an item through a pointer: the item has to be
    allocated. *)
Definition deref_item (a : Z) : ST frame_state frame_item :=
  fun s =>
    match frame_items s !! a with
    | Some it => Ok (it, s)
    | None => Fault
    end.

Definition update_item (a : Z) (g : frame_item -> frame_item)
    : ST frame_state unit :=
  do it <- deref_item a;
  st_modify (fun s => set_frame_items (<[a := g it]> (frame_items s)) s).

(** Modelled from the spec: [lock_acquire] and [lock_release] of
    threads/synch.c are not among the sources.  The model follows the
    thread that runs the function, with no other thread holding the
    lock: acquiring a lock that the thread holds fails the assertion of
    [lock_acquire], releasing one that it does not hold fails that of
    [lock_release]. *)
Definition lock_acquire_all_lock : ST frame_state unit :=
  do held <- st_gets all_lock;
  st_assert (negb held);;
  st_modify (set_all_lock true).

Definition lock_release_all_lock : ST frame_state unit :=
  do held <- st_gets all_lock;
  st_assert held;;
  st_modify (set_all_lock false).

(** Modelled from the spec: the positions in a list of
    lib/kernel/list.c, which is not among the sources: the head
    sentinel, an element, the tail sentinel.  [list_next] of the head is
    the first element, [list_next] of an element the one after it; the
    tail has no next position, and an element that is not linked into
    the list has no defined one. *)
Inductive list_pos : Type :=
| ListHead
| ListElem (a : Z)
| ListTail.

Definition list_begin (l : list Z) : list_pos :=
  match l with
  | [] => ListTail
  | a :: _ => ListElem a
  end.

Fixpoint list_next_of (a : Z) (l : list Z) : option list_pos :=
  match l with
  | [] => None
  | x :: l' => if x =? a then Some (list_begin l') else list_next_of a l'
  end.

Definition list_next (p : list_pos) (l : list Z) : option list_pos :=
  match p with
  | ListHead => Some (list_begin l)
  | ListElem a => list_next_of a l
  | ListTail => None
  end.

(** [list_back] asserts that the list is not empty. *)
Definition list_back : ST frame_state Z :=
  do l <- st_gets frame_clock_list;
  match last l with
  | Some b => st_ret b
  | None => st_panic
  end.

(** [frame_swap_next]: the hand of the clock moves on. *)
Definition frame_swap_next : ST frame_state unit :=
  do cur <- st_gets current_frame;
  match cur with
  | None => st_panic
  | Some c =>
      do l <- st_gets frame_clock_list;
      if Z.of_nat (length l) =? 1 then st_ret tt
      else
        do b <- list_back;
        let pos := if c =? b then ListHead else ListElem c in
        match list_next pos l with
        | Some (ListElem a) => st_modify (set_current_frame (Some a))
        | _ => st_fault
        end
  end.

(** [frame_init]; [hash_init], [list_init] and [lock_init] leave an
    empty table, an empty list and a free lock. *)
Definition frame_init : ST frame_state unit :=
  st_modify (set_frame_table ∅);;
  st_modify (set_frame_clock_list []);;
  st_modify (set_all_lock false);;
  st_modify (set_current_frame None).

(** Modelled from the spec: lib/kernel/hash.c is not among the sources.
    [hash_find] looks an element up by its key, here the member [frame]
    ([frame_hash], [frame_hash_less]); [hash_delete] removes the element
    that has the key of the one given. *)
Definition hash_find (frame0 : Z) : ST frame_state (option Z) :=
  st_gets (fun s => frame_table s !! frame0).

Definition hash_delete (a : Z) : ST frame_state unit :=
  do it <- deref_item a;
  st_modify (fun s => set_frame_table (delete (frame it) (frame_table s)) s).

Definition frame_get_item (frame0 : Z) : ST frame_state (option Z) :=
  hash_find frame0.

(** Modelled from the spec: [free] of threads/malloc.c and
    [palloc_free_page] of threads/palloc.c are not among the sources. *)
Definition free_item (a : Z) : ST frame_state unit :=
  st_modify (fun s => set_frame_items (delete a (frame_items s)) s).

Definition frame_palloc_free_page (page : Z) : ST frame_state unit :=
  st_modify (fun s => set_freed_pages (page :: freed_pages s) s).

Definition frame_free (frame0 : Z) : ST frame_state unit :=
  lock_acquire_all_lock;;
  do t <- frame_get_item frame0;
  match t with
  | None => st_panic
  | Some t =>
      do it <- deref_item t;
      (if negb (swapable it)
       then
         do cur <- st_gets current_frame;
         (if bool_decide (cur = Some t)
          then
            do l <- st_gets frame_clock_list;
            match l with
            | [] => st_modify (set_current_frame None)
            | _ :: _ => frame_swap_next
            end
          else st_ret tt);;
         st_modify (fun s =>
           set_frame_clock_list (list_remove t (frame_clock_list s)) s)
       else st_ret tt);;
      hash_delete t;;
      free_item t;;
      frame_palloc_free_page frame0;;
      lock_release_all_lock
  end.

Definition frame_set_unswapable (frame0 : Z) : ST frame_state bool :=
  lock_acquire_all_lock;;
  do t <- frame_get_item frame0;
  match t with
  | None => lock_release_all_lock;; st_ret false
  | Some t =>
      do it <- deref_item t;
      if negb (swapable it)
      then lock_release_all_lock;; st_ret true
      else
        update_item t (fun it =>
          mkFrameItem (frame it) (upage it) (item_thread it) false);;
        st_modify (fun s =>
          set_frame_clock_list (frame_clock_list s ++ [t]) s);;
        do l <- st_gets frame_clock_list;
        (if Z.of_nat (length l) =? 1
         then st_modify (set_current_frame (Some t))
         else st_ret tt);;
        lock_release_all_lock;;
        st_ret true
  end.

(** Running a computation [n] times. *)
Fixpoint st_repeat {S : Type} (n : nat) (m : ST S unit) : ST S unit :=
  match n with
  | O => st_ret tt
  | S n' => m;; st_repeat n' m
  end.

(** ** The clock of the frame table *)

(** The frame table is in order when every entry of the hash table
    leads to an allocated item that holds the frame of the entry, the
    clock list has no item twice and holds exactly the items of the
    table whose [swapable] is false, the hand of the clock is on an item
    of the list unless the list is empty, and the lock is free. *)
Record frame_inv (s : frame_state) : Prop := mk_frame_inv {
  frame_table_item :
    (forall f a, frame_table s !! f = Some a ->
       exists it, frame_items s !! a = Some it /\ frame it = f);
  frame_clock_nodup : NoDup (frame_clock_list s);
  frame_clock_item :
    (forall a, a ∈ frame_clock_list s <->
       exists it, frame_items s !! a = Some it /\ swapable it = false /\
                  frame_table s !! frame it = Some a);
  frame_hand :
    (frame_clock_list s <> [] ->
     exists c, current_frame s = Some c /\ c ∈ frame_clock_list s);
  frame_lock_free : all_lock s = false
}.

(** The item after the one at position [i] of the clock list, going
    round. *)
Definition clock_after (l : list Z) (i k : nat) : option Z :=
  l !! ((i + k) mod length l)%nat.

(** A frame table with three frames, two of them on the clock list. *)
Definition a_frame_state : frame_state :=
  mkFrameState
    {[ 700 := mkFrameItem 4096 8192 1 false;
       701 := mkFrameItem 12288 16384 1 true;
       702 := mkFrameItem 20480 24576 1 false ]}
    {[ 4096 := 700; 12288 := 701; 20480 := 702 ]}
    [700; 702] false (Some 702) [].

(** * Proof infrastructure *)

(** ** Monadic reasoning *)

Lemma bind_of {A B : Type} (m : M A) (k : A -> M B) s a s' :
  m s = Ok (a, s') -> bind m k s = k a s'.
Proof. unfold bind. intros ->. reflexivity. Qed.

Lemma bind_gets {A B : Type} (g : state -> A) (k : A -> M B) s :
  bind (gets g) k s = k (g s) s.
Proof. reflexivity. Qed.

Lemma bind_modify {B : Type} (g : state -> state) (k : unit -> M B) s :
  bind (modify g) k s = k tt (g s).
Proof. reflexivity. Qed.

Lemma bind_ret {A B : Type} (a : A) (k : A -> M B) s :
  bind (ret a) k s = k a s.
Proof. reflexivity. Qed.

Lemma bind_assert_true {B : Type} (k : unit -> M B) s :
  bind (ASSERT true) k s = k tt s.
Proof. reflexivity. Qed.

Lemma bind_bind {A B C : Type} (m : M A) (k : A -> M B) (h : B -> M C) s :
  bind (bind m k) h s = bind m (fun a => bind (k a) h) s.
Proof. unfold bind. destruct (m s) as [[a s']| |]; reflexivity. Qed.

Lemma bind_Ok_inv {A B : Type} (m : M A) (k : A -> M B) s r :
  bind m k s = Ok r -> exists a s', m s = Ok (a, s') /\ k a s' = Ok r.
Proof.
  unfold bind. destruct (m s) as [[a s']| |]; try discriminate.
  intros H. exists a, s'. split; [reflexivity | exact H].
Qed.

Lemma deref_of s t th :
  threads s !! t = Some th -> deref t s = Ok (th, s).
Proof. unfold deref. intros ->. reflexivity. Qed.

Lemma update_thread_of s t th g :
  threads s !! t = Some th ->
  update_thread t g s = Ok (tt, set_threads (<[t := g th]> (threads s)) s).
Proof.
  intros H. unfold update_thread. rewrite (bind_of _ _ _ _ _ (deref_of _ _ _ H)).
  reflexivity.
Qed.

(** One step of symbolic execution: the computation at the head of a
    [bind] is replaced by its result, read off a hypothesis or lemma. *)
Lemma bind_assert_off {B : Type} (k : unit -> M B) s :
  bind (ASSERT (bool_decide (INTR_OFF = INTR_OFF))) k s = k tt s.
Proof. reflexivity. Qed.

Ltac mprim :=
  repeat first
    [ rewrite bind_bind | rewrite bind_gets | rewrite bind_modify
    | rewrite bind_ret | rewrite bind_assert_true | rewrite bind_assert_off ].
Ltac mstep H := mprim; rewrite (bind_of _ _ _ _ _ H); mprim.

Lemma is_thread_of s t th :
  threads s !! t = Some th -> magic th = THREAD_MAGIC ->
  is_thread (Some t) s = Ok (true, s).
Proof.
  intros Hth Hm. unfold is_thread. mstep (deref_of _ _ _ Hth).
  unfold ret. rewrite Hm, Z.eqb_refl. reflexivity.
Qed.

Lemma thread_current_of s :
  running_ok s -> thread_current s = Ok (running s, s).
Proof.
  intros (th & Hth & Hm & Hst). unfold thread_current, running_thread. mprim.
  mstep (is_thread_of _ _ _ Hth Hm). mprim.
  mstep (deref_of _ _ _ Hth).
  rewrite bool_decide_eq_true_2 by assumption. mprim. reflexivity.
Qed.

(** ** Machine integers *)

Lemma wrap_small w z :
  0 < w -> - 2 ^ (w - 1) <= z < 2 ^ (w - 1) -> wrap w z = z.
Proof.
  intros Hw Hz. unfold wrap.
  assert (H2 : 2 ^ w = 2 * 2 ^ (w - 1)).
  { replace w with (Z.succ (w - 1)) at 1 by lia. rewrite Z.pow_succ_r by lia.
    reflexivity. }
  rewrite Z.mod_small by lia. lia.
Qed.

Lemma int32_small z : in_int z -> int32 z = z.
Proof.
  unfold in_int, INT_MIN, INT_MAX, int32. intros H.
  apply wrap_small; [lia|]. change (32 - 1) with 31. lia.
Qed.

Lemma int64_small z : in_int64 z -> int64 z = z.
Proof.
  unfold in_int64, INT64_MIN, INT64_MAX, int64. intros H.
  apply wrap_small; [lia|]. change (64 - 1) with 63. lia.
Qed.

Lemma wrap_range w z : 0 < w -> - 2 ^ (w - 1) <= wrap w z < 2 ^ (w - 1).
Proof.
  intros Hw. unfold wrap.
  assert (H2 : 2 ^ w = 2 * 2 ^ (w - 1)).
  { replace w with (Z.succ (w - 1)) at 1 by lia. rewrite Z.pow_succ_r by lia.
    reflexivity. }
  assert (Hp : 0 < 2 ^ (w - 1)) by (apply Z.pow_pos_nonneg; lia).
  pose proof (Z.mod_pos_bound (z + 2 ^ (w - 1)) (2 ^ w)) as Hm. lia.
Qed.

Lemma int32_range z : in_int (int32 z).
Proof.
  unfold in_int, INT_MIN, INT_MAX, int32.
  pose proof (wrap_range 32 z) as H. change (32 - 1) with 31 in H. lia.
Qed.

(** ** Rounding of fixed-point numbers *)

Lemma round_nearest_is_nearest p q :
  0 < q -> Z.abs (2 * (p - q * round_nearest p q)) <= q.
Proof.
  intros Hq. unfold round_nearest.
  destruct (Z.leb_spec 0 p).
  - pose proof (Z.div_mod (2 * p + q) (2 * q) ltac:(lia)) as Hd.
    pose proof (Z.mod_pos_bound (2 * p + q) (2 * q) ltac:(lia)) as Hm.
    lia.
  - pose proof (Z.div_mod (2 * - p + q) (2 * q) ltac:(lia)) as Hd.
    pose proof (Z.mod_pos_bound (2 * - p + q) (2 * q) ltac:(lia)) as Hm.
    lia.
Qed.

Lemma quarter_then_round a h :
  0 <= a -> 0 < h -> (a / 4 + h) / (2 * h) = (2 * a + 4 * (2 * h)) / (2 * (4 * (2 * h))).
Proof.
  intros Ha Hh.
  replace (a / 4 + h) with ((a + h * 4) / 4) by (rewrite Z.div_add by lia; lia).
  rewrite Z.div_div by lia.
  replace (2 * a + 4 * (2 * h)) with (2 * (a + h * 4)) by lia.
  rewrite Z.div_mul_cancel_l by lia.
  reflexivity.
Qed.

Lemma even_half f : Z.even f = true -> f = 2 * (f / 2).
Proof.
  intros He. apply Z.even_spec in He. destruct He as [k ->].
  rewrite (Z.mul_comm 2 k), Z.div_mul by lia. lia.
Qed.

Lemma CONVERT_TO_INT_ROUND_quarter f rc :
  0 < f <= INT_MAX -> Z.even f = true -> in_int rc ->
  CONVERT_TO_INT_ROUND f (DIV_INT rc 4) = round_nearest rc (4 * f).
Proof.
  unfold in_int, INT_MIN, INT_MAX. intros Hf He Hrc.
  pose proof (even_half f He) as Hh. set (h := f / 2) in *.
  assert (Hhpos : 0 < h) by lia.
  assert (Hq2 : Z.quot f 2 = h) by (rewrite Z.quot_div_nonneg by lia; reflexivity).
  unfold CONVERT_TO_INT_ROUND, DIV_INT, round_nearest. rewrite Hq2.
  clearbody h. clear Hq2 He. subst f.
  destruct (Z.leb_spec 0 rc) as [Hpos|Hneg].
  - rewrite (Z.quot_div_nonneg rc 4) by lia.
    assert (Hq : 0 <= rc / 4 <= 2 ^ 29).
    { split; [apply Z.div_pos; lia|]. apply Z.div_le_upper_bound; lia. }
    rewrite (int32_small (rc / 4)) by (unfold in_int, INT_MIN, INT_MAX; lia).
    destruct (Z.leb_spec 0 (rc / 4)); [|lia].
    rewrite (int32_small (rc / 4 + h)) by (unfold in_int, INT_MIN, INT_MAX; lia).
    rewrite Z.quot_div_nonneg by lia.
    assert (Hr : 0 <= (rc / 4 + h) / (2 * h) <= rc / 4 + h).
    { split; [apply Z.div_pos; lia|]. apply Z.div_le_upper_bound; nia. }
    rewrite int32_small by (unfold in_int, INT_MIN, INT_MAX; lia).
    apply quarter_then_round; lia.
  - set (a := - rc). assert (Ha : 0 < a <= 2 ^ 31) by lia.
    replace rc with (- a) by lia.
    rewrite Z.quot_opp_l by lia. rewrite (Z.quot_div_nonneg a 4) by lia.
    assert (Hq : 0 <= a / 4 <= 2 ^ 29).
    { split; [apply Z.div_pos; lia|]. apply Z.div_le_upper_bound; lia. }
    rewrite (int32_small (- (a / 4))) by (unfold in_int, INT_MIN, INT_MAX; lia).
    replace (- - a) with a by lia.
    assert (Hr : 0 <= (a / 4 + h) / (2 * h) <= a / 4 + h).
    { split; [apply Z.div_pos; lia|]. apply Z.div_le_upper_bound; nia. }
    rewrite <- quarter_then_round by lia.
    destruct (Z.leb_spec 0 (- (a / 4))) as [Hz|Hz].
    + assert (Hz' : a / 4 = 0) by lia. rewrite Hz'.
      replace (- 0 + h) with h by lia. replace (0 + h) with h by lia.
      rewrite (int32_small h) by (unfold in_int, INT_MIN, INT_MAX; lia).
      rewrite Z.quot_div_nonneg by lia.
      rewrite (Z.div_small h (2 * h)) by lia. reflexivity.
    + rewrite (int32_small (- (a / 4) - h)) by (unfold in_int, INT_MIN, INT_MAX; lia).
      replace (- (a / 4) - h) with (- (a / 4 + h)) by lia.
      rewrite Z.quot_opp_l by lia. rewrite Z.quot_div_nonneg by lia.
      apply int32_small. unfold in_int, INT_MIN, INT_MAX. lia.
Qed.

Lemma round_nearest_bound p q :
  4 <= q -> 4 * (Z.abs (round_nearest p q) - 1) <= Z.abs p.
Proof.
  intros Hq. pose proof (round_nearest_is_nearest p q ltac:(lia)) as H.
  set (r := round_nearest p q) in *. clearbody r.
  assert (H1 : q * (Z.abs r - 1) <= Z.abs p).
  { destruct (Z.abs_spec r) as [[? ->]|[? ->]];
      destruct (Z.abs_spec p) as [[? ->]|[? ->]];
      destruct (Z.abs_spec (2 * (p - q * r))) as [[? Ha]|[? Ha]];
      rewrite Ha in H; nia. }
  destruct (Z_le_gt_dec (Z.abs r) 1); [lia|]. nia.
Qed.

Lemma clamp_range lo hi x : lo <= hi -> lo <= clamp lo hi x <= hi.
Proof. unfold clamp. lia. Qed.

(** * Properties of thread.c *)

(** ** Arguments out of range *)

(** C10: an argument outside its legal range makes [thread_set_priority]
    (outside [PRI_MIN .. PRI_MAX]) and [thread_set_nice] (outside
    [NICE_MIN .. NICE_MAX]) return normally with the kernel state exactly
    as it was: no panic, no clamped value stored, nothing changed. *)
Theorem set_out_of_range_noop (f : Z) (s : state) (p n : Z) :
  p < PRI_MIN \/ PRI_MAX < p ->
  n < NICE_MIN \/ NICE_MAX < n ->
  thread_set_priority p s = Ok (tt, s) /\
  thread_set_nice f n s = Ok (tt, s).
Proof.
  intros Hp Hn. split.
  - unfold thread_set_priority.
    destruct (Z.ltb_spec PRI_MAX p), (Z.ltb_spec p PRI_MIN);
      cbn [orb]; first [reflexivity | lia].
  - unfold thread_set_nice.
    destruct (Z.ltb_spec NICE_MAX n), (Z.ltb_spec n NICE_MIN);
      cbn [orb]; first [reflexivity | lia].
Qed.

(** ** MLFQS priority *)

Lemma clamp_code p :
  (let p1 := if p <? PRI_MIN then PRI_MIN else p in
   if PRI_MAX <? p1 then PRI_MAX else p1) = clamp PRI_MIN PRI_MAX p.
Proof.
  unfold clamp, PRI_MIN, PRI_MAX. cbv zeta.
  destruct (Z.ltb_spec p 0).
  - destruct (Z.ltb_spec 63 0); lia.
  - destruct (Z.ltb_spec 63 p); lia.
Qed.

Lemma update_priority_of f s t th :
  threads s !! t = Some th -> idle_thread s <> Some t ->
  update_priority f t s =
  Ok (tt, set_threads
            (<[t := set_priority (update_priority_value f th) th]> (threads s))
            s).
Proof.
  intros Hth Hidle. unfold update_priority. mprim.
  rewrite bool_decide_eq_false_2 by congruence.
  mstep (deref_of _ _ _ Hth).
  cbv zeta. rewrite (clamp_code _). unfold update_priority_value.
  exact (update_thread_of s t th _ Hth).
Qed.

Lemma update_priority_idle f s t :
  idle_thread s = Some t -> update_priority f t s = Ok (tt, s).
Proof.
  intros Hidle. unfold update_priority. mprim.
  rewrite bool_decide_eq_true_2 by congruence. reflexivity.
Qed.

Lemma update_priority_value_exact f th :
  0 < f <= INT_MAX -> Z.even f = true ->
  in_int (recent_cpu th) -> - 2 ^ 29 <= nice th <= 2 ^ 29 ->
  update_priority_value f th = mlfqs_priority f (recent_cpu th) (nice th).
Proof.
  intros Hf He Hrc Hn. unfold update_priority_value, mlfqs_priority.
  rewrite CONVERT_TO_INT_ROUND_quarter by assumption.
  pose proof (round_nearest_bound (recent_cpu th) (4 * f) ltac:(lia)) as Hr.
  unfold in_int, INT_MIN, INT_MAX, PRI_MAX in *.
  assert (Hb : Z.abs (round_nearest (recent_cpu th) (4 * f)) <= 2 ^ 30) by lia.
  rewrite (int32_small (63 - _)) by (unfold in_int, INT_MIN, INT_MAX; lia).
  rewrite (int32_small (nice th * 2)) by (unfold in_int, INT_MIN, INT_MAX; lia).
  rewrite int32_small by (unfold in_int, INT_MIN, INT_MAX; lia).
  reflexivity.
Qed.

(** C6: [update_priority] leaves the idle thread alone; for any other
    thread it stores a priority that lies in [PRI_MIN .. PRI_MAX] whatever
    [recent_cpu] and [nice] are, and that is
    [PRI_MAX - round (recent_cpu / 4) - nice * 2] clamped into that range
    (with [round] to the nearest integer) whenever the C expression does
    not overflow. *)
Theorem update_priority_mlfqs (f : Z) (s : state) (t : Z) (th : thread) :
  threads s !! t = Some th ->
  (idle_thread s = Some t -> update_priority f t s = Ok (tt, s)) /\
  (idle_thread s <> Some t ->
   exists p,
     update_priority f t s =
       Ok (tt, set_threads (<[t := set_priority p th]> (threads s)) s) /\
     PRI_MIN <= p <= PRI_MAX /\
     (0 < f <= INT_MAX -> Z.even f = true ->
      in_int (recent_cpu th) -> - 2 ^ 29 <= nice th <= 2 ^ 29 ->
      p = mlfqs_priority f (recent_cpu th) (nice th))).
Proof.
  intros Hth. split.
  - apply update_priority_idle.
  - intros Hidle. exists (update_priority_value f th). split; [|split].
    + apply update_priority_of; assumption.
    + apply clamp_range. unfold PRI_MIN, PRI_MAX. lia.
    + apply update_priority_value_exact.
Qed.

(** ** Load average *)

Lemma load_avg_value f la n :
  0 < f -> 59 * f <= INT_MAX -> 0 <= la -> 0 <= n ->
  la + f * n <= INT_MAX ->
  int32 (MULT f (DIV_INT (CONVERT_TO_FP f 59) 60) la
         + MULT_INT (DIV_INT (CONVERT_TO_FP f 1) 60) n)
  = fp_mul f (fp_const f 59 60) la + fp_scale (fp_const f 1 60) n.
Proof.
  unfold INT_MAX. intros Hf H59 Hla Hn Hsum.
  unfold MULT, DIV_INT, CONVERT_TO_FP, MULT_INT, fp_mul, fp_const, fp_scale.
  rewrite (int32_small (59 * f)) by (unfold in_int, INT_MIN, INT_MAX; lia).
  rewrite (int32_small (1 * f)) by (unfold in_int, INT_MIN, INT_MAX; lia).
  rewrite (Z.quot_div_nonneg (59 * f) 60) by lia.
  rewrite (Z.quot_div_nonneg (1 * f) 60) by lia.
  assert (Hc59 : 0 <= 59 * f / 60 <= f).
  { split; [apply Z.div_pos; lia|]. apply Z.div_le_upper_bound; lia. }
  assert (Hc1 : 0 <= 1 * f / 60 <= f).
  { split; [apply Z.div_pos; lia|]. apply Z.div_le_upper_bound; lia. }
  rewrite (int32_small (59 * f / 60)) by (unfold in_int, INT_MIN, INT_MAX; lia).
  rewrite (int32_small (1 * f / 60)) by (unfold in_int, INT_MIN, INT_MAX; lia).
  assert (Hprod : 0 <= 59 * f / 60 * la <= f * la) by nia.
  rewrite int64_small by (unfold in_int64, INT64_MIN, INT64_MAX; nia).
  rewrite Z.quot_div_nonneg by lia.
  assert (Ht1 : 0 <= 59 * f / 60 * la / f <= la).
  { split; [apply Z.div_pos; lia|]. apply Z.div_le_upper_bound; lia. }
  assert (Ht2 : 0 <= 1 * f / 60 * n <= f * n) by nia.
  rewrite (int32_small (59 * f / 60 * la / f))
    by (unfold in_int, INT_MIN, INT_MAX; lia).
  rewrite (int32_small (1 * f / 60 * n))
    by (unfold in_int, INT_MIN, INT_MAX; lia).
  apply int32_small. unfold in_int, INT_MIN, INT_MAX. lia.
Qed.

Lemma load_avg_error f la n :
  0 < f -> 0 <= la -> 0 <= n ->
  let la' := fp_mul f (fp_const f 59 60) la + fp_scale (fp_const f 1 60) n in
  60 * la' <= 59 * la + f * n /\
  f * (59 * la + f * n) < f * 60 * (la' + 1 + n) + 59 * la.
Proof.
  intros Hf Hla Hn. cbv zeta. unfold fp_mul, fp_const, fp_scale.
  pose proof (Z.div_mod (59 * f) 60 ltac:(lia)) as D59.
  pose proof (Z.mod_pos_bound (59 * f) 60 ltac:(lia)) as M59.
  pose proof (Z.div_mod (1 * f) 60 ltac:(lia)) as D1.
  pose proof (Z.mod_pos_bound (1 * f) 60 ltac:(lia)) as M1.
  set (c59 := 59 * f / 60) in *. set (c1 := 1 * f / 60) in *.
  assert (Hc59 : 0 <= c59) by (apply Z.div_pos; lia).
  assert (Hc1 : 0 <= c1) by (apply Z.div_pos; lia).
  pose proof (Z.div_mod (c59 * la) f ltac:(lia)) as Dt.
  pose proof (Z.mod_pos_bound (c59 * la) f ltac:(lia)) as Mt.
  set (t1 := c59 * la / f) in *.
  split.
  - assert (60 * f * (t1 + c1 * n) <= f * (59 * la + f * n)); nia.
  - nia.
Qed.

(** C7: in MLFQS mode [update_load_avg] replaces the load average by the
    fixed-point value of [(59/60) * load_avg + (1/60) * ready_threads],
    where [ready_threads] is the length of the ready queue plus one for
    the running thread unless that is the idle thread.  The fixed-point
    result is below the exact rational value by less than
    [1 + ready_threads + load_avg / f] units of [1 / f]. *)
Theorem update_load_avg_formula (f : Z) (s : state) :
  thread_mlfqs s = true -> running_ok s ->
  0 < f -> 59 * f <= INT_MAX -> 0 <= load_avg s ->
  load_avg s + f * (Z.of_nat (length (ready_list s)) + 1) <= INT_MAX ->
  update_load_avg f s = Ok (tt, set_load_avg (load_avg_next f s) s) /\
  60 * load_avg_next f s <= 59 * load_avg s + f * ready_count s /\
  f * (59 * load_avg s + f * ready_count s)
  < f * 60 * (load_avg_next f s + 1 + ready_count s) + 59 * load_avg s.
Proof.
  intros Hm Hrun Hf H59 Hla Hsum.
  assert (Hrc : ready_threads s = ready_count s
                /\ 0 <= ready_count s
                   <= Z.of_nat (length (ready_list s)) + 1).
  { unfold ready_threads, ready_count. case_bool_decide.
    - split; lia.
    - rewrite int32_small; [lia|]. unfold in_int, INT_MIN, INT_MAX in *. nia. }
  destruct Hrc as [Hrt Hrc]. split.
  - unfold update_load_avg. mprim. rewrite Hm. mprim.
    mstep (thread_current_of _ Hrun). mprim. rewrite Hrt.
    unfold modify. do 3 f_equal. unfold load_avg_next.
    apply load_avg_value; try lia. nia.
  - apply load_avg_error; lia.
Qed.

(** ** Releasing a lock *)

(** X2: [thread_remove_lock] unlinks the lock and leaves the base
    priority alone; the priority of the running thread becomes the base
    priority when no lock is left, the [max_priority] of the front lock
    when that exceeds the base priority, and stays as it was otherwise. *)
Theorem thread_remove_lock_priority (s : state) (l : Z) (th : thread) :
  threads s !! running s = Some th ->
  magic th = THREAD_MAGIC -> status th = THREAD_RUNNING ->
  exists s',
    thread_remove_lock l s = Ok (tt, s') /\
    exists th',
      threads s' !! running s = Some th' /\
      locks th' = list_remove l (locks th) /\
      old_priority th' = old_priority th /\
      priority th' = priority_after_release s th (list_remove l (locks th)).
Proof.
  intros Hth Hm Hst. unfold thread_remove_lock. mprim.
  set (s1 := set_threads _ s).
  set (th1 := set_locks (list_remove l (locks th)) th).
  assert (Hth1 : threads s1 !! running s1 = Some th1).
  { unfold s1. cbn. rewrite lookup_fmap, Hth. reflexivity. }
  assert (Hrun1 : running_ok s1) by (exists th1; auto).
  mstep (thread_current_of _ Hrun1). mstep (deref_of _ _ _ Hth1).
  change (running s1) with (running s) in *.
  cbn [locks th1 set_locks]. unfold priority_after_release.
  destruct (list_remove l (locks th)) as [|front rest] eqn:Hrem.
  - rewrite (update_thread_of _ _ _ _ Hth1). eexists. split; [reflexivity|].
    eexists. split; [cbn; apply lookup_insert_eq|].
    subst th1. cbn. rewrite ?Hrem. auto.
  - mprim. change (max_priority_at s1 front) with (max_priority_at s front).
    change (old_priority th1) with (old_priority th).
    destruct (old_priority th <? max_priority_at s front).
    + rewrite (update_thread_of _ _ _ _ Hth1). eexists. split; [reflexivity|].
      eexists. split; [cbn; apply lookup_insert_eq|].
      subst th1. cbn. rewrite ?Hrem. auto.
    + eexists. split; [reflexivity|]. exists th1.
      split; [exact Hth1|]. subst th1. cbn. rewrite ?Hrem. auto.
Qed.

(** C1 (the code departs from the claim): the running thread releases
    lock 1 and still holds lock 2, whose highest waiter (5) is below the
    base priority (10).  The claim asks for priority [max 10 5 = 10];
    [thread_remove_lock] leaves the donated 50 in place. *)
Lemma thread_remove_lock_keeps_stale_donation :
  exists s' th',
    thread_remove_lock 1 release_state = Ok (tt, s') /\
    threads s' !! 100 = Some th' /\
    locks th' = [2] /\
    old_priority th' = 10 /\
    max_priority_at s' 2 = 5 /\
    priority th' = 50 /\
    priority th' <> Z.max (old_priority th') (max_priority_at s' 2).
Proof.
  eexists. eexists. split; [vm_compute; reflexivity|].
  split; [vm_compute; reflexivity|].
  vm_compute. repeat split; congruence.
Qed.

(** ** Creating a thread *)

(** No page left: [thread_create] returns [TID_ERROR] and changes
    nothing. *)
Lemma thread_create_no_page f s nm prio fn :
  free_pages s = [] ->
  thread_create f nm prio (Some fn) s = Ok (TID_ERROR, s).
Proof.
  intros Hfree. unfold thread_create.
  rewrite bool_decide_eq_true_2 by discriminate. mprim.
  unfold palloc_get_page at 1. unfold bind at 1. rewrite Hfree. reflexivity.
Qed.

(** C2 (the code departs from the claim): with a single free page the
    first [palloc_get_page] succeeds and the second one, for the child
    record, returns NULL, which the code does not test: the next
    statement writes through the NULL pointer.  The computation ends in
    a memory fault instead of returning [TID_ERROR], after the new thread
    has been initialised and linked into the all-threads list. *)
Lemma thread_create_second_page_unchecked :
  free_pages one_page_state = [200] /\
  thread_create F14 "child" 31 (Some 1) one_page_state = Fault /\
  (exists s1,
     init_thread F14 200 "child" 31 (set_free_pages [] one_page_state)
       = Ok (tt, s1) /\
     all_list s1 = [100; 900; 200] /\
     palloc_get_page s1 = Ok (None, s1)).
Proof.
  split; [reflexivity|]. split; [vm_compute; reflexivity|].
  eexists. split; [vm_compute; reflexivity|].
  split; vm_compute; reflexivity.
Qed.

(** ** The ready queue *)

(** C4 (the code departs from the claim): in MLFQS mode [thread_create]
    puts the new thread on the ready queue by the priority it was asked
    for (31, behind the thread of priority 43) and only then recomputes
    that priority (63), without sorting the queue again, as
    [update_priority_for_each] and [thread_set_nice] do.  The queue was
    sorted before the call and reads 43, 63 after it. *)
Lemma thread_create_mlfqs_unsorts_ready_list :
  ready_sorted mlfqs_state /\
  exists s',
    thread_create F14 "b" 31 (Some 1) mlfqs_state = Ok (3, s') /\
    ready_list s' = [300; 200] /\
    ready_priorities s' = [43; 63] /\
    ~ ready_sorted s'.
Proof.
  split.
  { unfold ready_sorted, descending.
    change (ready_priorities mlfqs_state) with [43].
    repeat constructor. }
  eexists. split; [vm_compute; reflexivity|].
  split; [vm_compute; reflexivity|].
  assert (Hp : forall l, l = [43; 63] -> ~ descending l).
  { intros l -> H. unfold descending in H.
    apply Sorted_inv in H as [_ H]. apply HdRel_inv in H. lia. }
  split; [vm_compute; reflexivity|].
  apply Hp. vm_compute. reflexivity.
Qed.

(** ** The child record *)

(** C9 (the code departs from the claim): a parent of priority 31
    creates a child of priority 40, which runs at once and exits; when
    the parent continues, [thread_schedule_tail] frees the page of the
    child.  The child record on page 201 is still there, but the
    [sema_finish] pointer stored in it points into the page that was
    freed: the semaphore that [thread_exit] signalled is gone, and a
    parent that waits now reads reclaimed memory. *)
Lemma child_record_semaphore_dangles :
  exists s1 s2 info,
    thread_create F14 "child" 40 (Some 1) spawn_state = Ok (3, s1) /\
    running s1 = 200 /\
    thread_exit s1 = Ok (tt, s2) /\
    running s2 = 100 /\
    threads s2 !! 200 = None /\
    200 ∈ free_pages s2 /\
    child_list s2 = [201] /\
    child_infos s2 !! 201 = Some info /\
    child_thread info = 200 /\
    info_sema_finish info = SemaFinishOf 200 /\
    deref_sema (info_sema_finish info) s2 = Fault.
Proof.
  eexists. eexists. eexists.
  split; [vm_compute; reflexivity|].
  split; [vm_compute; reflexivity|].
  split; [vm_compute; reflexivity|].
  split; [vm_compute; reflexivity|].
  split; [vm_compute; reflexivity|].
  split; [vm_compute; set_solver|].
  split; [vm_compute; reflexivity|].
  split; [vm_compute; reflexivity|].
  split; [vm_compute; reflexivity|].
  split; vm_compute; reflexivity.
Qed.

(** ** Ordered insertion and removal *)

Section OrderedLists.

Context {A : Type} {EqA : EqDecision A}.
Variable key : A -> Z.

(** A comparison that orders by [key], as all three comparison functions
    of thread.c do. *)
Variable less : A -> A -> bool.
Hypothesis less_key : forall a b, less a b = (key a <? key b).

Lemma elem_of_list_insert_ordered (lt : A -> A -> bool) (e : A) l x :
  x ∈ list_insert_ordered lt e l <-> x = e \/ x ∈ l.
Proof.
  induction l as [|y l IH]; cbn.
  - rewrite list_elem_of_singleton, elem_of_nil. tauto.
  - destruct (lt e y).
    + rewrite !elem_of_cons. tauto.
    + rewrite !elem_of_cons, IH. tauto.
Qed.

Lemma NoDup_list_insert_ordered (lt : A -> A -> bool) (e : A) l :
  e ∉ l -> NoDup l -> NoDup (list_insert_ordered lt e l).
Proof.
  induction l as [|y l IH]; cbn; intros Hin Hnd.
  - apply NoDup_singleton.
  - destruct (lt e y).
    + apply NoDup_cons. split; assumption.
    + apply NoDup_cons in Hnd as [Hy Hnd].
      apply not_elem_of_cons in Hin as [Hne Hin].
      apply NoDup_cons. split.
      * rewrite elem_of_list_insert_ordered. intros [->|Hy']; tauto.
      * apply IH; assumption.
Qed.

Lemma length_list_insert_ordered (lt : A -> A -> bool) (e : A) l :
  length (list_insert_ordered lt e l) = S (length l).
Proof.
  induction l as [|y l IH]; cbn; [reflexivity|].
  destruct (lt e y); cbn; congruence.
Qed.

(** The new element goes behind every element it does not precede: among
    equal keys the order of arrival is kept. *)
Lemma list_insert_ordered_split e l :
  list_insert_ordered less e l =
  take_while (fun x => bool_decide (key x <= key e)) l
  ++ e :: drop_while (fun x => bool_decide (key x <= key e)) l.
Proof.
  induction l as [|y l IH]; cbn; [reflexivity|].
  rewrite less_key. destruct (Z.ltb_spec (key e) (key y)).
  - rewrite bool_decide_eq_false_2 by lia. reflexivity.
  - rewrite bool_decide_eq_true_2 by lia. cbn. rewrite IH. reflexivity.
Qed.

Lemma HdRel_list_insert_ordered a e l :
  key a <= key e -> HdRel (fun a b => key a <= key b) a l ->
  HdRel (fun a b => key a <= key b) a (list_insert_ordered less e l).
Proof.
  intros Hae Hhd. destruct l as [|y l]; cbn.
  - constructor. exact Hae.
  - destruct (less e y); constructor; [exact Hae|].
    apply HdRel_inv in Hhd. exact Hhd.
Qed.

Lemma ascending_list_insert_ordered e l :
  ascending_by key l -> ascending_by key (list_insert_ordered less e l).
Proof.
  unfold ascending_by. induction l as [|y l IH]; cbn; intros Hs.
  - repeat constructor.
  - rewrite less_key. destruct (Z.ltb_spec (key e) (key y)).
    + constructor; [exact Hs|]. constructor. lia.
    + apply Sorted_inv in Hs as [Hs Hhd]. constructor; [apply IH; exact Hs|].
      apply HdRel_list_insert_ordered; [lia | exact Hhd].
Qed.

Lemma elem_of_list_remove (e : A) l x :
  x ∈ list_remove e l -> x ∈ l.
Proof.
  induction l as [|y l IH]; cbn; [tauto|].
  destruct (decide (y = e)); rewrite ?elem_of_cons; tauto.
Qed.

Lemma elem_of_list_remove_ne (e : A) l x :
  x <> e -> x ∈ l -> x ∈ list_remove e l.
Proof.
  intros Hne. induction l as [|y l IH]; cbn; [tauto|].
  destruct (decide (y = e)) as [->|Hy]; rewrite ?elem_of_cons; [|tauto].
  intros [->|Hin]; [congruence | exact Hin].
Qed.

Lemma not_elem_of_list_remove (e : A) l :
  NoDup l -> e ∉ list_remove e l.
Proof.
  induction l as [|y l IH]; cbn; intros Hnd; [apply not_elem_of_nil|].
  apply NoDup_cons in Hnd as [Hy Hnd].
  destruct (decide (y = e)) as [->|Hne]; [exact Hy|].
  rewrite not_elem_of_cons. split; [congruence | apply IH; exact Hnd].
Qed.

Lemma NoDup_list_remove (e : A) l : NoDup l -> NoDup (list_remove e l).
Proof.
  induction l as [|y l IH]; cbn; intros Hnd; [constructor|].
  apply NoDup_cons in Hnd as [Hy Hnd].
  destruct (decide (y = e)); [exact Hnd|].
  apply NoDup_cons. split; [|apply IH; exact Hnd].
  intros Hin. apply Hy. eapply elem_of_list_remove. exact Hin.
Qed.

Lemma list_remove_head (e : A) l : list_remove e (e :: l) = l.
Proof. cbn. rewrite decide_True by reflexivity. reflexivity. Qed.

Lemma list_remove_not_in (e : A) l : e ∉ l -> list_remove e l = l.
Proof.
  induction l as [|y l IH]; cbn; intros Hin; [reflexivity|].
  apply not_elem_of_cons in Hin as [Hne Hin].
  rewrite decide_False by congruence. rewrite IH by exact Hin. reflexivity.
Qed.

End OrderedLists.

(** ** Scheduler invariants *)

Lemma same_but_status_refl s : same_but_status s s.
Proof.
  intros t. destruct (threads s !! t) as [th|]; [|exact I].
  destruct th; reflexivity.
Qed.

Lemma same_but_status_trans s1 s2 s3 :
  same_but_status s1 s2 -> same_but_status s2 s3 -> same_but_status s1 s3.
Proof.
  intros H12 H23 t. specialize (H12 t). specialize (H23 t).
  destruct (threads s1 !! t) as [a|], (threads s2 !! t) as [b|],
    (threads s3 !! t) as [c|]; try tauto.
  rewrite H23, H12. destruct a; reflexivity.
Qed.

Lemma same_but_status_wakeup s s' t :
  same_but_status s s' -> wakeup_time_at s' t = wakeup_time_at s t.
Proof.
  intros H. specialize (H t). unfold wakeup_time_at.
  destruct (threads s !! t) as [a|], (threads s' !! t) as [b|];
    try tauto; cbn.
  rewrite H. reflexivity.
Qed.

Lemma same_but_status_priority s s' t :
  same_but_status s s' -> priority_at s' t = priority_at s t.
Proof.
  intros H. specialize (H t). unfold priority_at.
  destruct (threads s !! t) as [a|], (threads s' !! t) as [b|];
    try tauto; cbn.
  rewrite H. reflexivity.
Qed.

Lemma same_but_status_insert s s' t th st :
  threads s !! t = Some th ->
  threads s' = <[t := set_status st th]> (threads s) ->
  same_but_status s s'.
Proof.
  intros Hth Hs' u. rewrite Hs'. destruct (decide (t = u)) as [<-|Hne].
  - rewrite lookup_insert_eq, Hth. destruct th; reflexivity.
  - rewrite lookup_insert_ne by exact Hne.
    destruct (threads s !! u) as [a|]; [|exact I]. destruct a; reflexivity.
Qed.

Lemma thread_is_insert_ne s s' t u x st :
  threads s' = <[u := x]> (threads s) -> t <> u ->
  thread_is s t st -> thread_is s' t st.
Proof.
  intros Hs' Hne (th & Hth & Hm & Hst). exists th.
  rewrite Hs', lookup_insert_ne by congruence. auto.
Qed.

Lemma thread_is_insert_eq s s' u th st :
  threads s' = <[u := set_status st th]> (threads s) ->
  magic th = THREAD_MAGIC -> thread_is s' u st.
Proof.
  intros Hs' Hm. exists (set_status st th).
  rewrite Hs', lookup_insert_eq. auto.
Qed.

Lemma thread_is_status s t st st' :
  thread_is s t st -> thread_is s t st' -> st = st'.
Proof.
  intros (th & Hth & _ & Hst) (th' & Hth' & _ & Hst'). congruence.
Qed.

Lemma sleep_sorted_ext s s' :
  sleep_list s' = sleep_list s ->
  (forall t, t ∈ sleep_list s -> wakeup_time_at s' t = wakeup_time_at s t) ->
  sleep_sorted s -> sleep_sorted s'.
Proof.
  unfold sleep_sorted. intros -> Hw. induction (sleep_list s) as [|a l IH].
  - constructor.
  - intros Hs. apply Sorted_inv in Hs as [Hs Hhd]. constructor.
    + apply IH; [|exact Hs]. intros t Ht. apply Hw. right. exact Ht.
    + destruct Hhd as [|b l' Hab]; constructor.
      rewrite !Hw; [exact Hab | right; left | left].
Qed.

(** ** The scheduler, operation by operation *)

Lemma thread_unblock_of s t th :
  threads s !! t = Some th -> magic th = THREAD_MAGIC ->
  status th = THREAD_BLOCKED ->
  thread_unblock t s = Ok (tt, unblocked t th s).
Proof.
  intros Hth Hm Hst. unfold thread_unblock.
  mstep (is_thread_of _ _ _ Hth Hm). mprim.
  mstep (deref_of _ _ _ Hth).
  rewrite bool_decide_eq_true_2 by exact Hst. mprim.
  exact (update_thread_of (set_ready_list _ s) t th _ Hth).
Qed.

Lemma schedule_of s cth n nth :
  threads s !! running s = Some cth ->
  status cth <> THREAD_RUNNING -> status cth <> THREAD_DYING ->
  next_thread s = Some n ->
  threads s !! n = Some nth -> magic nth = THREAD_MAGIC ->
  schedule INTR_OFF s = Ok (tt, dispatch n nth s).
Proof.
  intros Hc Hnr Hnd Hnext Hn Hm. unfold schedule, running_thread. mprim.
  assert (Hpop : next_thread_to_run s
                 = Ok (Some n, set_ready_list (tail (ready_list s)) s)).
  { unfold next_thread_to_run, next_thread in *. mprim.
    destruct (ready_list s) as [|t rest] eqn:Hrl.
    - unfold gets. rewrite Hnext. destruct s; cbn in *; subst; reflexivity.
    - mprim. injection Hnext as ->. reflexivity. }
  mstep Hpop. set (s1 := set_ready_list _ s).
  assert (Hc1 : threads s1 !! running s = Some cth) by exact Hc.
  mstep (deref_of _ _ _ Hc1).
  rewrite bool_decide_eq_false_2 by exact Hnr. cbn [negb]. mprim.
  assert (Hn1 : threads s1 !! n = Some nth) by exact Hn.
  mstep (is_thread_of _ _ _ Hn1 Hm). mprim.
  unfold thread_schedule_tail, running_thread, switch_threads.
  case_bool_decide as Heq.
  - subst n. mprim. change (running s1) with (running s).
    mstep (update_thread_of _ _ _ (set_status THREAD_RUNNING) Hn1). mprim.
    reflexivity.
  - mprim. set (s2 := set_running n s1).
    assert (Hn2 : threads s2 !! running s2 = Some nth) by exact Hn.
    mstep (update_thread_of _ _ _ (set_status THREAD_RUNNING) Hn2). mprim.
    set (s3 := set_thread_ticks 0 _).
    assert (Hc3 : threads s3 !! running s = Some cth).
    { unfold s3. cbn. rewrite lookup_insert_ne by congruence. exact Hc. }
    mstep (deref_of _ _ _ Hc3). mprim.
    rewrite bool_decide_eq_false_2 by exact Hnd. reflexivity.
Qed.

Lemma next_thread_live s n :
  sched_core s -> next_thread s = Some n ->
  exists nth, threads s !! n = Some nth /\ magic nth = THREAD_MAGIC.
Proof.
  intros Hc Hn. unfold next_thread in Hn.
  destruct (ready_list s) as [|t rest] eqn:Hrl.
  - destruct (inv_idle s Hc) as (i & ith & Hi & Hith & Hm & _).
    exists ith. split; congruence.
  - injection Hn as ->.
    destruct (inv_ready s Hc n) as (th & Hth & Hm & _).
    { rewrite Hrl. left. }
    exists th. auto.
Qed.

Lemma next_thread_some s : sched_core s -> exists n, next_thread s = Some n.
Proof.
  intros Hc. unfold next_thread. destruct (ready_list s) as [|t rest].
  - destruct (inv_idle s Hc) as (i & ith & Hi & _). eauto.
  - eauto.
Qed.

Lemma next_thread_not_asleep s n :
  sched_core s -> next_thread s = Some n -> n ∉ sleep_list s.
Proof.
  intros Hc Hn. unfold next_thread in Hn.
  destruct (ready_list s) as [|t rest] eqn:Hrl.
  - destruct (inv_idle s Hc) as (i & ith & Hi & _ & _ & _ & Hs). congruence.
  - injection Hn as ->. intros Hin.
    pose proof (inv_ready s Hc n ltac:(rewrite Hrl; left)) as H1.
    pose proof (inv_sleep s Hc n Hin) as H2.
    pose proof (thread_is_status _ _ _ _ H1 H2). discriminate.
Qed.

(** Switching to the next thread re-establishes the invariant. *)
Lemma dispatch_inv s n nth :
  sched_core s -> intr_context s = false ->
  next_thread s = Some n -> threads s !! n = Some nth ->
  sched_inv (dispatch n nth s).
Proof.
  intros Hc Hctx Hnext Hn.
  destruct (next_thread_live s n Hc Hnext) as (nth' & Hn' & Hm).
  assert (nth' = nth) by congruence. subst nth'.
  pose proof (next_thread_not_asleep s n Hc Hnext) as Hns.
  assert (Hthr : threads (dispatch n nth s)
                 = <[n := set_status THREAD_RUNNING nth]> (threads s))
    by reflexivity.
  assert (Htail : forall t, t ∈ tail (ready_list s) ->
                            t ∈ ready_list s /\ t <> n).
  { intros t Ht. unfold next_thread in Hnext.
    pose proof (inv_ready_nodup s Hc) as Hnd.
    destruct (ready_list s) as [|t0 rest]; cbn in Ht.
    - apply elem_of_nil in Ht. tauto.
    - injection Hnext as ->. apply NoDup_cons in Hnd as [Hn0 _].
      split; [right; exact Ht | congruence]. }
  split; [|split].
  - constructor.
    + intros t Ht. apply Htail in Ht as [Ht Hne].
      eapply thread_is_insert_ne; [exact Hthr | exact Hne |].
      apply (inv_ready s Hc). exact Ht.
    + intros t Ht. change (t ∈ sleep_list s) in Ht.
      eapply thread_is_insert_ne; [exact Hthr | congruence |].
      apply (inv_sleep s Hc). exact Ht.
    + destruct (inv_idle s Hc) as (i & ith & Hi & Hith & Hmi & Hir & His).
      destruct (decide (i = n)) as [->|Hne].
      * exists n, (set_status THREAD_RUNNING nth).
        split; [exact Hi|]. split; [rewrite Hthr; apply lookup_insert_eq|].
        split; [exact Hm|]. split; [|exact His].
        intros Hin. apply Htail in Hin. tauto.
      * exists i, ith. split; [exact Hi|].
        split; [rewrite Hthr, lookup_insert_ne by congruence; exact Hith|].
        split; [exact Hmi|]. split; [|exact His].
        intros Hin. apply Htail in Hin. tauto.
    + pose proof (inv_ready_nodup s Hc) as Hnd. cbn.
      destruct (ready_list s) as [|t0 rest]; cbn; [constructor|].
      apply NoDup_cons in Hnd. tauto.
    + exact (inv_sleep_nodup s Hc).
    + apply (sleep_sorted_ext s); [reflexivity | | exact (inv_sleep_sorted s Hc)].
      intros t _. apply same_but_status_wakeup.
      eapply same_but_status_insert; [exact Hn | exact Hthr].
  - eapply thread_is_insert_eq; [exact Hthr | exact Hm].
  - exact Hctx.
Qed.

Lemma dispatch_same_but_status s n nth :
  threads s !! n = Some nth -> same_but_status s (dispatch n nth s).
Proof.
  intros Hn. eapply same_but_status_insert; [exact Hn | reflexivity].
Qed.

Lemma schedule_inv s cth :
  sched_core s -> intr_context s = false ->
  threads s !! running s = Some cth ->
  status cth <> THREAD_RUNNING -> status cth <> THREAD_DYING ->
  exists n nth,
    next_thread s = Some n /\ threads s !! n = Some nth /\
    schedule INTR_OFF s = Ok (tt, dispatch n nth s) /\
    sched_inv (dispatch n nth s).
Proof.
  intros Hc Hctx Hcur Hnr Hnd.
  destruct (next_thread_some s Hc) as (n & Hnext).
  destruct (next_thread_live s n Hc Hnext) as (nth & Hn & Hm).
  exists n, nth. split; [exact Hnext|]. split; [exact Hn|]. split.
  - eapply schedule_of; eassumption.
  - apply dispatch_inv; assumption.
Qed.

Lemma thread_yield_run s cth :
  threads s !! running s = Some cth -> magic cth = THREAD_MAGIC ->
  status cth = THREAD_RUNNING -> intr_context s = false ->
  thread_yield s = schedule INTR_OFF (yielded s cth).
Proof.
  intros Hcur Hm Hst Hctx. unfold thread_yield.
  assert (Hrun : running_ok s) by (exists cth; auto).
  mstep (thread_current_of _ Hrun). mprim. rewrite Hctx. cbn [negb]. mprim.
  unfold yielded. case_bool_decide.
  - mprim. mstep (update_thread_of _ _ _ (set_status THREAD_READY) Hcur).
    reflexivity.
  - mprim. set (s1 := set_ready_list _ s).
    assert (Hcur1 : threads s1 !! running s = Some cth) by exact Hcur.
    mstep (update_thread_of _ _ _ (set_status THREAD_READY) Hcur1).
    reflexivity.
Qed.

Lemma running_not_ready s :
  sched_core s -> running_ok s -> running s ∉ ready_list s.
Proof.
  intros Hc (th & Hth & Hm & Hst) Hin.
  destruct (inv_ready s Hc _ Hin) as (th' & Hth' & _ & Hst').
  congruence.
Qed.

Lemma running_not_asleep s :
  sched_core s -> running_ok s -> running s ∉ sleep_list s.
Proof.
  intros Hc (th & Hth & Hm & Hst) Hin.
  destruct (inv_sleep s Hc _ Hin) as (th' & Hth' & _ & Hst').
  congruence.
Qed.

Lemma yielded_core s cth :
  sched_inv s -> threads s !! running s = Some cth ->
  sched_core (yielded s cth).
Proof.
  intros (Hc & Hrun & Hctx) Hcur.
  pose proof (running_not_ready s Hc Hrun) as Hnr.
  pose proof (running_not_asleep s Hc Hrun) as Hns.
  destruct Hrun as (cth' & Hcur' & Hm & Hst).
  assert (cth' = cth) by congruence. subst cth'.
  assert (Hthr : threads (yielded s cth)
                 = <[running s := set_status THREAD_READY cth]> (threads s)).
  { unfold yielded. case_bool_decide; reflexivity. }
  assert (Hsl : sleep_list (yielded s cth) = sleep_list s).
  { unfold yielded. case_bool_decide; reflexivity. }
  assert (Hidle : idle_thread (yielded s cth) = idle_thread s).
  { unfold yielded. case_bool_decide; reflexivity. }
  assert (Hrl : forall t, t ∈ ready_list (yielded s cth) ->
                          t = running s \/ t ∈ ready_list s).
  { unfold yielded. case_bool_decide; cbn; intros t Ht; [tauto|].
    apply elem_of_list_insert_ordered in Ht. exact Ht. }
  constructor.
  - intros t Ht. destruct (decide (t = running s)) as [->|Hne].
    + eapply thread_is_insert_eq; [exact Hthr | exact Hm].
    + eapply thread_is_insert_ne; [exact Hthr | exact Hne |].
      apply (inv_ready s Hc). destruct (Hrl t Ht); [contradiction | assumption].
  - intros t Ht. rewrite Hsl in Ht.
    eapply thread_is_insert_ne; [exact Hthr | congruence |].
    apply (inv_sleep s Hc). exact Ht.
  - destruct (inv_idle s Hc) as (i & ith & Hi & Hith & Hmi & Hir & His).
    exists i. destruct (decide (i = running s)) as [->|Hne].
    + exists (set_status THREAD_READY cth). rewrite Hidle, Hthr, Hsl.
      split; [exact Hi|]. split; [apply lookup_insert_eq|].
      split; [exact Hm|]. split; [|exact His].
      unfold yielded. rewrite bool_decide_eq_true_2 by congruence. exact Hir.
    + exists ith. rewrite Hidle, Hthr, Hsl.
      split; [exact Hi|].
      split; [rewrite lookup_insert_ne by congruence; exact Hith|].
      split; [exact Hmi|]. split; [|exact His].
      intros Hin. destruct (Hrl i Hin); contradiction.
  - unfold yielded. case_bool_decide; cbn; [exact (inv_ready_nodup s Hc)|].
    apply NoDup_list_insert_ordered; [exact Hnr | exact (inv_ready_nodup s Hc)].
  - rewrite Hsl. exact (inv_sleep_nodup s Hc).
  - apply (sleep_sorted_ext s); [exact Hsl | | exact (inv_sleep_sorted s Hc)].
    intros t _. apply same_but_status_wakeup.
    eapply same_but_status_insert; [exact Hcur | exact Hthr].
Qed.

(** [thread_yield] returns, in a state that satisfies the invariant and
    in which only the status of threads and the ready queue differ. *)
Lemma thread_yield_of s :
  sched_inv s ->
  exists s',
    thread_yield s = Ok (tt, s') /\ sched_inv s' /\
    same_but_status s s' /\ sleep_list s' = sleep_list s /\
    timer s' = timer s /\ idle_thread s' = idle_thread s.
Proof.
  intros Hinv. pose proof Hinv as (Hc & Hrun & Hctx).
  destruct Hrun as (cth & Hcur & Hm & Hst).
  pose proof (yielded_core s cth Hinv Hcur) as Hyc.
  assert (Hthr : threads (yielded s cth)
                 = <[running s := set_status THREAD_READY cth]> (threads s)).
  { unfold yielded. case_bool_decide; reflexivity. }
  assert (Hcur' : threads (yielded s cth) !! running (yielded s cth)
                  = Some (set_status THREAD_READY cth)).
  { rewrite Hthr. unfold yielded. case_bool_decide; apply lookup_insert_eq. }
  assert (Hctx' : intr_context (yielded s cth) = false).
  { unfold yielded. case_bool_decide; exact Hctx. }
  destruct (schedule_inv _ _ Hyc Hctx' Hcur') as (n & nth & Hnext & Hn & Hs & Hi);
    [discriminate | discriminate |].
  exists (dispatch n nth (yielded s cth)).
  split; [rewrite (thread_yield_run s cth) by assumption; exact Hs|].
  split; [exact Hi|]. split.
  - eapply same_but_status_trans.
    + eapply same_but_status_insert; [exact Hcur | exact Hthr].
    + apply dispatch_same_but_status. exact Hn.
  - unfold yielded. case_bool_decide; auto.
Qed.

Lemma sched_core_ext s s' :
  threads s' = threads s -> ready_list s' = ready_list s ->
  sleep_list s' = sleep_list s -> idle_thread s' = idle_thread s ->
  sched_core s -> sched_core s'.
Proof.
  intros Ht Hr Hs Hi [H1 H2 H3 H4 H5 H6].
  constructor; unfold thread_is, sleep_sorted, wakeup_time_at in *;
    rewrite ?Ht, ?Hr, ?Hs, ?Hi; assumption.
Qed.

Lemma take_while_ext {A : Type} (p q : A -> bool) (l : list A) :
  (forall x, x ∈ l -> p x = q x) -> take_while p l = take_while q l.
Proof.
  induction l as [|x l IH]; cbn; intros H; [reflexivity|].
  rewrite <- (H x) by left. destruct (p x); [|reflexivity].
  f_equal. apply IH. intros y Hy. apply H. right. exact Hy.
Qed.

Lemma drop_while_ext {A : Type} (p q : A -> bool) (l : list A) :
  (forall x, x ∈ l -> p x = q x) -> drop_while p l = drop_while q l.
Proof.
  induction l as [|x l IH]; cbn; intros H; [reflexivity|].
  rewrite <- (H x) by left. destruct (p x); [|reflexivity].
  apply IH. intros y Hy. apply H. right. exact Hy.
Qed.

Lemma take_drop_while {A : Type} (p : A -> bool) (l : list A) :
  take_while p l ++ drop_while p l = l.
Proof.
  induction l as [|x l IH]; cbn; [reflexivity|].
  destruct (p x); cbn; [rewrite IH|]; reflexivity.
Qed.

Lemma elem_of_take_while {A : Type} (p : A -> bool) (l : list A) x :
  x ∈ take_while p l -> x ∈ l /\ p x = true.
Proof.
  induction l as [|y l IH]; cbn; [intros H; apply elem_of_nil in H; tauto|].
  destruct (p y) eqn:Hp; [|intros H; apply elem_of_nil in H; tauto].
  rewrite !elem_of_cons. intros [->|H]; [tauto|]. apply IH in H. tauto.
Qed.

Lemma elem_of_drop_while {A : Type} (p : A -> bool) (l : list A) x :
  x ∈ drop_while p l -> x ∈ l.
Proof.
  induction l as [|y l IH]; cbn; [tauto|].
  destruct (p y); rewrite ?elem_of_cons; tauto.
Qed.

(** The scan of [thread_wakeup]: it stops at the first sleeper that is
    not due; the sleepers before it leave the sleep list and are made
    ready; nothing else changes. *)
Lemma thread_wakeup_from_of l : forall s,
  sleep_list s = l -> sched_core s -> running_ok s ->
  exists s',
    thread_wakeup_from l s = Ok (tt, s') /\
    sched_core s' /\ running_ok s' /\
    sleep_list s' = drop_while (due s (timer s)) l /\
    (forall u, u ∈ take_while (due s (timer s)) l ->
               thread_is s' u THREAD_READY /\ u ∈ ready_list s') /\
    (forall u, u ∉ take_while (due s (timer s)) l ->
               threads s' !! u = threads s !! u) /\
    (forall u, u ∈ ready_list s -> u ∈ ready_list s') /\
    (forall u, u ∈ ready_list s' ->
               u ∈ ready_list s \/ u ∈ take_while (due s (timer s)) l) /\
    timer s' = timer s /\ running s' = running s /\
    idle_thread s' = idle_thread s /\ intr_context s' = intr_context s.
Proof.
  induction l as [|cur next IH]; intros s Hsl Hc Hrun.
  - exists s. cbn. split; [reflexivity|]. split; [exact Hc|].
    split; [exact Hrun|]. split; [exact Hsl|].
    split; [intros u Hu; apply elem_of_nil in Hu; tauto|].
    repeat split; auto.
  - assert (Hcur_in : cur ∈ sleep_list s) by (rewrite Hsl; left).
    destruct (inv_sleep s Hc cur Hcur_in) as (th & Hth & Hm & Hst).
    assert (Hwt : wakeup_time_at s cur = wakeup_time th).
    { unfold wakeup_time_at. rewrite Hth. reflexivity. }
    cbn [thread_wakeup_from take_while drop_while].
    mstep (deref_of _ _ _ Hth). unfold timer_ticks. mprim.
    destruct (Z.ltb_spec (timer s) (wakeup_time th)) as [Hlate|Hdue].
    + assert (Hd : due s (timer s) cur = false).
      { unfold due. rewrite Hwt. apply bool_decide_eq_false_2. lia. }
      rewrite !Hd.
      exists s. split; [reflexivity|]. split; [exact Hc|].
      split; [exact Hrun|]. split; [exact Hsl|].
      split; [intros u Hu; apply elem_of_nil in Hu; tauto|].
      repeat split; auto.
    + assert (Hd : due s (timer s) cur = true).
      { unfold due. rewrite Hwt. apply bool_decide_eq_true_2. lia. }
      rewrite !Hd.
      mstep (update_thread_of _ _ _ (set_wakeup_time 0) Hth). mprim.
      set (th1 := set_wakeup_time 0 th).
      set (s2 := set_sleep_list _ _).
      assert (Hth2 : threads s2 !! cur = Some th1)
        by (unfold s2; cbn; apply lookup_insert_eq).
      mstep (thread_unblock_of s2 cur th1 Hth2 Hm Hst).
      set (s3 := unblocked cur th1 s2).
      pose proof (inv_sleep_nodup s Hc) as Hnd. rewrite Hsl in Hnd.
      apply NoDup_cons in Hnd as [Hcur_next Hnd].
      assert (Hthr3 : threads s3
                      = <[cur := set_status THREAD_READY th1]> (threads s)).
      { unfold s3, unblocked, s2. cbn. apply insert_insert_eq. }
      assert (Hsl3 : sleep_list s3 = next).
      { unfold s3, unblocked, s2. cbn. rewrite Hsl. apply list_remove_head. }
      assert (Hrl3 : ready_list s3
                     = list_insert_ordered (thread_priority_more s2) cur
                         (ready_list s)) by reflexivity.
      assert (Hother : forall u, u <> cur -> threads s3 !! u = threads s !! u).
      { intros u Hu. rewrite Hthr3. apply lookup_insert_ne. congruence. }
      assert (Hcur_nr : cur ∉ ready_list s).
      { intros Hin. pose proof (inv_ready s Hc cur Hin) as H1.
        pose proof (inv_sleep s Hc cur Hcur_in) as H2.
        pose proof (thread_is_status _ _ _ _ H1 H2). discriminate. }
      assert (Hkeep : forall u st, u <> cur ->
                        thread_is s u st -> thread_is s3 u st).
      { intros u st Hu (x & Hx & Hxm & Hxs). exists x.
        rewrite Hother by exact Hu. auto. }
      assert (Hwt3 : forall u, u ∈ next ->
                       wakeup_time_at s3 u = wakeup_time_at s u).
      { intros u Hu. unfold wakeup_time_at. rewrite Hother; [reflexivity|].
        intros ->. contradiction. }
      assert (Hc3 : sched_core s3).
      { constructor.
        - intros u Hu. rewrite Hrl3 in Hu.
          apply elem_of_list_insert_ordered in Hu as [->|Hu].
          + exists (set_status THREAD_READY th1).
            rewrite Hthr3, lookup_insert_eq. auto.
          + apply Hkeep; [intros ->; contradiction|].
            apply (inv_ready s Hc). exact Hu.
        - intros u Hu. rewrite Hsl3 in Hu.
          apply Hkeep; [intros ->; contradiction|].
          apply (inv_sleep s Hc). rewrite Hsl. right. exact Hu.
        - destruct (inv_idle s Hc) as (i & ith & Hi & Hith & Hmi & Hir & His).
          assert (Hic : i <> cur) by (intros ->; contradiction).
          exists i, ith. split; [exact Hi|].
          split; [rewrite Hother by exact Hic; exact Hith|].
          split; [exact Hmi|]. split.
          + rewrite Hrl3, elem_of_list_insert_ordered. tauto.
          + rewrite Hsl3. intros Hin. apply His. rewrite Hsl. right. exact Hin.
        - rewrite Hrl3. apply NoDup_list_insert_ordered;
            [exact Hcur_nr | exact (inv_ready_nodup s Hc)].
        - rewrite Hsl3. exact Hnd.
        - pose proof (inv_sleep_sorted s Hc) as Hso. unfold sleep_sorted in *.
          rewrite Hsl3. rewrite Hsl in Hso. apply Sorted_inv in Hso as [Hso _].
          clear - Hso Hwt3. induction next as [|a l IHl]; [constructor|].
          apply Sorted_inv in Hso as [Hso Hhd]. constructor.
          + apply IHl; [|exact Hso]. intros u Hu. apply Hwt3. right. exact Hu.
          + destruct Hhd as [|b l' Hab]; constructor.
            rewrite !Hwt3; [exact Hab | right; left | left]. }
      assert (Hrun3 : running_ok s3).
      { destruct Hrun as (rth & Hrth & Hrm & Hrs).
        exists rth. change (running s3) with (running s).
        rewrite Hother; [auto|]. intros Heq. rewrite Heq in Hrth. congruence. }
      destruct (IH s3 Hsl3 Hc3 Hrun3)
        as (s' & Hrun' & Hc' & Hrok' & Hsl' & Htk & Hfr & Hmono & Hrl'
            & Htm & Hr & Hi & Hctx).
      change (timer s3) with (timer s) in *.
      assert (Hdue_eq : forall u, u ∈ next ->
                          due s3 (timer s) u = due s (timer s) u).
      { intros u Hu. unfold due. rewrite Hwt3 by exact Hu. reflexivity. }
      rewrite (take_while_ext _ _ _ Hdue_eq) in Htk, Hfr, Hrl'.
      rewrite (drop_while_ext _ _ _ Hdue_eq) in Hsl'.
      exists s'. split; [exact Hrun'|]. split; [exact Hc'|].
      split; [exact Hrok'|]. split; [exact Hsl'|].
      assert (Hcur_tk : cur ∉ take_while (due s (timer s)) next).
      { intros Hin. apply elem_of_take_while in Hin. tauto. }
      split; [|split; [|split; [|split]]].
      * intros u Hu. apply elem_of_cons in Hu as [->|Hu]; [|apply Htk; exact Hu].
        split.
        -- exists (set_status THREAD_READY th1).
           rewrite (Hfr cur Hcur_tk), Hthr3, lookup_insert_eq. auto.
        -- apply Hmono. rewrite Hrl3, elem_of_list_insert_ordered. tauto.
      * intros u Hu. apply not_elem_of_cons in Hu as [Hne Hu].
        rewrite (Hfr u Hu). apply Hother. exact Hne.
      * intros u Hu. apply Hmono. rewrite Hrl3, elem_of_list_insert_ordered.
        tauto.
      * intros u Hu. apply Hrl' in Hu as [Hu|Hu].
        -- rewrite Hrl3 in Hu.
           apply elem_of_list_insert_ordered in Hu as [->|Hu];
             [right; left | left; exact Hu].
        -- right. right. exact Hu.
      * repeat split; assumption.
Qed.


Lemma ascending_by_ext {A : Type} (k1 k2 : A -> Z) (l : list A) :
  (forall x, x ∈ l -> k2 x = k1 x) ->
  ascending_by k1 l -> ascending_by k2 l.
Proof.
  unfold ascending_by. induction l as [|a l IH]; intros Hk Hs.
  - constructor.
  - apply Sorted_inv in Hs as [Hs Hhd]. constructor.
    + apply IH; [|exact Hs]. intros x Hx. apply Hk. right. exact Hx.
    + destruct Hhd as [|b l' Hab]; constructor.
      rewrite !Hk; [exact Hab | right; left | left].
Qed.



Lemma thread_wakeup_of s0 s :
  threads s0 = threads s -> ready_list s0 = ready_list s ->
  sleep_list s0 = sleep_list s -> idle_thread s0 = idle_thread s ->
  running s0 = running s ->
  sched_core s -> running_ok s ->
  exists s',
    thread_wakeup s0 = Ok (tt, s') /\ sched_core s' /\ running_ok s' /\
    scanned s (timer s0) s' /\
    timer s' = timer s0 /\ intr_context s' = intr_context s0.
Proof.
  intros Ht Hr Hs Hi Hrn Hc Hrun.
  assert (Hc0 : sched_core s0) by (apply (sched_core_ext s); assumption).
  assert (Hrun0 : running_ok s0).
  { unfold running_ok in *. rewrite Ht, Hrn. exact Hrun. }
  destruct (thread_wakeup_from_of (sleep_list s0) s0 eq_refl Hc0 Hrun0)
    as (s' & Hw & Hc' & Hrun' & Hsl & Htk & Hfr & Hmono & Hrl & Htm & Hr' & Hi'
        & Hctx).
  assert (Hdue : due s0 (timer s0) = due s (timer s0)).
  { unfold due, wakeup_time_at. rewrite Ht. reflexivity. }
  rewrite Hdue, Hs in *.
  exists s'. split; [unfold thread_wakeup; mprim; rewrite Hs; exact Hw|].
  split; [exact Hc'|]. split; [exact Hrun'|].
  split; [|split; assumption].
  unfold scanned. rewrite <- Ht, <- Hr, <- Hrn, <- Hi.
  repeat split; try assumption; apply Htk; assumption.
Qed.

Lemma thread_tick_of s :
  sched_core s -> running_ok s -> intr_context s = true ->
  exists s',
    thread_tick s = Ok (tt, s') /\ sched_core s' /\ running_ok s' /\
    scanned s (timer s) s' /\
    timer s' = timer s /\ intr_context s' = true.
Proof.
  intros Hc Hrun Hctx. unfold thread_tick.
  mstep (thread_current_of _ Hrun).
  destruct Hrun as (cth & Hcur & Hm & Hst).
  assert (Hrun : running_ok s) by (exists cth; auto).
  mstep (deref_of _ _ _ Hcur). mprim.
  assert (Hgo : forall s0 : state,
            threads s0 = threads s -> ready_list s0 = ready_list s ->
            sleep_list s0 = sleep_list s -> idle_thread s0 = idle_thread s ->
            running s0 = running s -> timer s0 = timer s ->
            intr_context s0 = true ->
            exists s',
              ((let* n := gets thread_ticks in
                (if TIME_SLICE <=? n then intr_yield_on_return else ret tt) >>
                thread_wakeup) s0) = Ok (tt, s') /\
              sched_core s' /\ running_ok s' /\ scanned s (timer s) s' /\
              timer s' = timer s /\ intr_context s' = true).
  { intros s0 Ht Hr Hs Hi Hrn Htm Hctx0. mprim.
    destruct (TIME_SLICE <=? thread_ticks s0).
    - unfold intr_yield_on_return. mprim. rewrite Hctx0. mprim.
      destruct (thread_wakeup_of (set_yield_on_return true s0) s
                  Ht Hr Hs Hi Hrn Hc Hrun)
        as (s' & Hw & Hc' & Hrun' & Hsc & Htm' & Hctx').
      exists s'. cbn in Htm', Hctx'. rewrite Htm in Htm'.
      rewrite Hctx0 in Hctx'. cbn [timer set_yield_on_return] in Hsc.
      rewrite Htm in Hsc. auto 10.
    - mprim.
      destruct (thread_wakeup_of s0 s Ht Hr Hs Hi Hrn Hc Hrun)
        as (s' & Hw & Hc' & Hrun' & Hsc & Htm' & Hctx').
      exists s'. rewrite Htm in Htm', Hsc. rewrite Hctx0 in Hctx'. auto 10. }
  case_bool_decide; [|destruct (pagedir cth)]; mprim;
    apply Hgo; first [reflexivity | exact Hctx].
Qed.


(** ** Setting the priority *)

(** Writing members of a thread other than its status, its magic
    number and its wake-up time keeps the invariant. *)
Lemma sched_inv_update s t th th' :
  threads s !! t = Some th ->
  status th' = status th -> magic th' = magic th ->
  wakeup_time th' = wakeup_time th ->
  sched_inv s -> sched_inv (set_threads (<[t := th']> (threads s)) s).
Proof.
  intros Hth Hst Hm Hw (Hc & Hrun & Hctx).
  set (s' := set_threads _ s).
  assert (Hkeep : forall u st, thread_is s u st -> thread_is s' u st).
  { intros u st (x & Hx & Hxm & Hxs). destruct (decide (u = t)) as [->|Hne].
    - exists th'. unfold s'. cbn. rewrite lookup_insert_eq.
      split; [reflexivity|]. split; congruence.
    - exists x. unfold s'. cbn. rewrite lookup_insert_ne by congruence. auto. }
  assert (Hwt : forall u, wakeup_time_at s' u = wakeup_time_at s u).
  { intros u. unfold wakeup_time_at, s'. cbn.
    destruct (decide (u = t)) as [->|Hne].
    - rewrite lookup_insert_eq, Hth. exact Hw.
    - rewrite lookup_insert_ne by congruence. reflexivity. }
  split; [|split; [apply Hkeep; exact Hrun | exact Hctx]].
  constructor.
  - intros u Hu. apply Hkeep. apply (inv_ready s Hc). exact Hu.
  - intros u Hu. apply Hkeep. apply (inv_sleep s Hc). exact Hu.
  - destruct (inv_idle s Hc) as (i & ith & Hi & Hith & Hmi & Hir & His).
    destruct (decide (i = t)) as [->|Hne].
    + exists t, th'. unfold s'. cbn. rewrite lookup_insert_eq.
      repeat split; try assumption. congruence.
    + exists i, ith. unfold s'. cbn. rewrite lookup_insert_ne by congruence.
      repeat split; assumption.
  - exact (inv_ready_nodup s Hc).
  - exact (inv_sleep_nodup s Hc).
  - apply (sleep_sorted_ext s); [reflexivity | | exact (inv_sleep_sorted s Hc)].
    intros u _. apply Hwt.
Qed.

Lemma same_but_status_lookup s s' t th :
  same_but_status s s' -> threads s !! t = Some th ->
  exists th', threads s' !! t = Some th' /\ th' = set_status (status th') th.
Proof.
  intros H Hth. specialize (H t). rewrite Hth in H.
  destruct (threads s' !! t) as [th'|]; [|tauto]. exists th'. auto.
Qed.

Lemma thread_yield_to_front s cth front rest fth :
  sched_inv s -> threads s !! running s = Some cth ->
  Some (running s) <> idle_thread s ->
  ready_list s = front :: rest -> threads s !! front = Some fth ->
  priority cth < priority fth ->
  exists s',
    thread_yield s = Ok (tt, s') /\ sched_inv s' /\ running s' = front /\
    thread_is s' (running s) THREAD_READY /\ running s ∈ ready_list s' /\
    same_but_status s s'.
Proof.
  intros Hinv Hcur Hnidle Hrl Hfront Hlt.
  pose proof Hinv as (Hc & Hrun & Hctx).
  destruct Hrun as (cth' & Hcur' & Hm & Hst).
  assert (cth' = cth) by congruence. subst cth'.
  pose proof (yielded_core s cth Hinv Hcur) as Hyc.
  assert (Hne : front <> running s).
  { intros ->. apply (running_not_ready s Hc); [exists cth; auto|].
    rewrite Hrl. left. }
  assert (Hy : yielded s cth =
               set_threads (<[running s := set_status THREAD_READY cth]> (threads s))
                 (set_ready_list
                    (front :: list_insert_ordered (thread_priority_more s)
                                (running s) rest) s)).
  { unfold yielded. rewrite bool_decide_eq_false_2 by exact Hnidle.
    rewrite Hrl. cbn [list_insert_ordered].
    unfold thread_priority_more at 1, priority_at. rewrite Hcur, Hfront. cbn.
    destruct (Z.ltb_spec (priority fth) (priority cth)); [lia|]. reflexivity. }
  assert (Hrny : running (yielded s cth) = running s)
    by (rewrite Hy; reflexivity).
  assert (Hcury : threads (yielded s cth) !! running s
                  = Some (set_status THREAD_READY cth)).
  { rewrite Hy. cbn. apply lookup_insert_eq. }
  assert (Hfront' : threads (yielded s cth) !! front = Some fth).
  { rewrite Hy. cbn. rewrite lookup_insert_ne by congruence. exact Hfront. }
  assert (Hnext : next_thread (yielded s cth) = Some front).
  { rewrite Hy. reflexivity. }
  assert (Hctx' : intr_context (yielded s cth) = false).
  { rewrite Hy. exact Hctx. }
  destruct (next_thread_live _ _ Hyc Hnext) as (fth' & Hf' & Hfm).
  assert (fth' = fth) by congruence. subst fth'.
  exists (dispatch front fth (yielded s cth)).
  split.
  { rewrite (thread_yield_run s cth) by assumption.
    eapply schedule_of; try eassumption;
      [rewrite Hrny; exact Hcury | discriminate | discriminate]. }
  split; [apply dispatch_inv; assumption|].
  split; [reflexivity|].
  assert (Hsame : same_but_status s (dispatch front fth (yielded s cth))).
  { eapply same_but_status_trans.
    - eapply (same_but_status_insert s (yielded s cth)); [exact Hcur|].
      rewrite Hy. reflexivity.
    - apply dispatch_same_but_status. exact Hf'. }
  split; [|split; [|exact Hsame]].
  - exists (set_status THREAD_READY cth).
    split; [|auto].
    change (<[front := set_status THREAD_RUNNING fth]>
              (threads (yielded s cth)) !! running s
            = Some (set_status THREAD_READY cth)).
    rewrite lookup_insert_ne by congruence. exact Hcury.
  - change (running s ∈ tail (ready_list (yielded s cth))).
    rewrite Hy. cbn. rewrite elem_of_list_insert_ordered. tauto.
Qed.

(** C8: [thread_set_priority p] returns and keeps the invariant of the
    scheduler.  With MLFQS on it changes nothing, whatever [p] is.  With
    MLFQS off and [p] within [PRI_MIN .. PRI_MAX] it records [p] as the
    base priority in every case.  The effective priority becomes [p] at
    once exactly when the thread holds no lock or [p] is strictly above
    its effective priority (or equal to it, when nothing changes), and
    the thread then yields: a ready thread of higher priority at the
    front of the ready queue is running when the call returns.
    Otherwise the effective priority stays as it is and nothing but the
    base priority changes. *)
Theorem thread_set_priority_effect (s : state) (p : Z) (th : thread) :
  sched_inv s -> threads s !! running s = Some th ->
  exists s',
    thread_set_priority p s = Ok (tt, s') /\
    sched_inv s' /\
    (thread_mlfqs s = true -> s' = s) /\
    (thread_mlfqs s = false -> PRI_MIN <= p <= PRI_MAX ->
     (exists th',
        threads s' !! running s = Some th' /\
        old_priority th' = p /\
        priority th' = priority_after_set th p /\
        (priority_after_set th p = p <->
         locks th = [] \/ priority th < p \/ priority th = p)) /\
     (locks th = [] \/ priority th < p ->
      thread_yield
        (set_threads
           (<[running s := set_priority p (set_old_priority p th)]>
              (threads s)) s)
      = Ok (tt, s') /\
      forall front rest fth,
        Some (running s) <> idle_thread s ->
        ready_list s = front :: rest -> threads s !! front = Some fth ->
        p < priority fth ->
        running s' = front /\ thread_is s' (running s) THREAD_READY /\
        running s ∈ ready_list s') /\
     (locks th <> [] -> p <= priority th ->
      s' = set_threads (<[running s := set_old_priority p th]> (threads s)) s)).
Proof.
  intros Hinv Hth. unfold thread_set_priority.
  destruct (Z.ltb_spec PRI_MAX p);
    [exists s; split; [reflexivity|]; split; [exact Hinv|];
     split; [reflexivity | intros _ Hr; lia]|].
  destruct (Z.ltb_spec p PRI_MIN);
    [exists s; split; [reflexivity|]; split; [exact Hinv|];
     split; [reflexivity | intros _ Hr; lia]|].
  cbn [orb]. mprim.
  destruct (thread_mlfqs s) eqn:Hmlfqs.
  { exists s. split; [reflexivity|]. split; [exact Hinv|].
    split; [reflexivity | discriminate]. }
  pose proof Hinv as (Hc & Hrun & Hctx).
  mstep (thread_current_of _ Hrun). mstep (deref_of _ _ _ Hth).
  mstep (update_thread_of _ _ _ (set_old_priority p) Hth).
  set (th1 := set_old_priority p th). set (s1 := set_threads _ s).
  assert (Hinv1 : sched_inv s1).
  { apply (sched_inv_update s (running s) th th1); auto. }
  assert (Hth1 : threads s1 !! running s = Some th1)
    by (unfold s1; cbn; apply lookup_insert_eq).
  assert (Hiff : priority_after_set th p = p <->
                 locks th = [] \/ priority th < p \/ priority th = p).
  { unfold priority_after_set. case_bool_decide as Hl; cbn [orb].
    - tauto.
    - destruct (Z.ltb_spec (priority th) p); [lia|]. split; [auto|].
      intros [?|[?|?]]; [contradiction | lia | lia]. }
  assert (Hcases : (bool_decide (locks th = []) || (priority th <? p)) = true
                   <-> locks th = [] \/ priority th < p).
  { case_bool_decide as Hl; cbn [orb]; [tauto|].
    destruct (Z.ltb_spec (priority th) p) as [Hlt|Hge].
    - tauto.
    - split; [discriminate|]. intros [?|?]; [contradiction | lia]. }
  unfold priority_after_set in *.
  destruct (bool_decide (locks th = []) || (priority th <? p)) eqn:Hcond.
  - mstep (update_thread_of _ _ _ (set_priority p) Hth1).
    set (th2 := set_priority p th1). set (s2 := set_threads _ s1).
    assert (Hs2 : s2 = set_threads (<[running s := th2]> (threads s)) s).
    { unfold s2, s1. cbn [threads set_threads]. rewrite insert_insert_eq.
      reflexivity. }
    assert (Hinv2 : sched_inv s2).
    { apply (sched_inv_update s1 (running s) th1 th2); auto. }
    assert (Hth2 : threads s2 !! running s = Some th2)
      by (unfold s2; cbn; apply lookup_insert_eq).
    destruct (thread_yield_of s2 Hinv2) as (s' & Hy & Hinv' & Hsame & _).
    exists s'. split; [exact Hy|]. split; [exact Hinv'|].
    split; [discriminate|]. intros _ _. split; [|split].
    + destruct (same_but_status_lookup _ _ _ _ Hsame Hth2)
        as (th' & Hth' & Heq).
      exists th'. split; [exact Hth'|]. rewrite Heq. cbn. auto.
    + intros _. split; [rewrite <- Hs2; exact Hy|].
      intros front rest fth Hnidle Hrl Hfth Hlt.
      assert (Hne : front <> running s).
      { intros ->. apply (running_not_ready s Hc Hrun). rewrite Hrl. left. }
      assert (Hfth2 : threads s2 !! front = Some fth).
      { unfold s2, s1. cbn. rewrite !lookup_insert_ne by congruence.
        exact Hfth. }
      destruct (thread_yield_to_front s2 th2 front rest fth Hinv2 Hth2 Hnidle
                  Hrl Hfth2 Hlt)
        as (s'' & Hy' & _ & Hrn & Hready & Hin & _).
      assert (s'' = s') by congruence. subst s''. auto.
    + intros Hl Hle. apply proj1 in Hcases. destruct (Hcases eq_refl); [contradiction | lia].
  - exists s1. split; [reflexivity|]. split; [exact Hinv1|].
    split; [discriminate|]. intros _ _. split; [|split].
    + exists th1. split; [exact Hth1|]. cbn. auto.
    + intros Hx. apply Hcases in Hx. discriminate.
    + intros _ _. reflexivity.
Qed.


(** ** Preemption by a new thread *)

Lemma list_insert_ordered_head {A : Type} (lt : A -> A -> bool) e l :
  exists h rest,
    list_insert_ordered lt e l = h :: rest /\ (h = e \/ lt e h = false).
Proof.
  destruct l as [|y l]; cbn.
  - exists e, []. auto.
  - destruct (lt e y) eqn:Hlt.
    + exists e, (y :: l). auto.
    + exists y, (list_insert_ordered lt e l). auto.
Qed.

(** A new, ready thread on a fresh page keeps the invariant. *)
Lemma sched_inv_spawn s s' p th lt :
  sched_inv s -> threads s !! p = None ->
  threads s' = <[p := th]> (threads s) ->
  magic th = THREAD_MAGIC -> status th = THREAD_READY ->
  ready_list s' = list_insert_ordered lt p (ready_list s) ->
  sleep_list s' = sleep_list s -> idle_thread s' = idle_thread s ->
  running s' = running s -> intr_context s' = intr_context s ->
  sched_inv s'.
Proof.
  intros (Hc & Hrun & Hctx) Hfresh Hthr Hm Hst Hrl Hsl Hidle Hrn Hctx'.
  assert (Hkeep : forall u st, thread_is s u st -> thread_is s' u st).
  { intros u st (x & Hx & Hxm & Hxs). exists x. rewrite Hthr.
    rewrite lookup_insert_ne by congruence. auto. }
  assert (Hlive : forall u st, thread_is s u st -> u <> p).
  { intros u st (x & Hx & _) ->. congruence. }
  split; [|split].
  - constructor.
    + intros u Hu. rewrite Hrl in Hu.
      apply elem_of_list_insert_ordered in Hu as [->|Hu].
      * exists th. rewrite Hthr, lookup_insert_eq. auto.
      * apply Hkeep. apply (inv_ready s Hc). exact Hu.
    + intros u Hu. rewrite Hsl in Hu. apply Hkeep.
      apply (inv_sleep s Hc). exact Hu.
    + destruct (inv_idle s Hc) as (i & ith & Hi & Hith & Hmi & Hir & His).
      assert (Hip : i <> p) by congruence.
      exists i, ith. rewrite Hidle, Hthr, Hrl, Hsl.
      rewrite lookup_insert_ne by congruence.
      rewrite elem_of_list_insert_ordered. repeat split; try assumption. tauto.
    + rewrite Hrl. apply NoDup_list_insert_ordered;
        [|exact (inv_ready_nodup s Hc)].
      intros Hin. apply (Hlive p _ (inv_ready s Hc p Hin)). reflexivity.
    + rewrite Hsl. exact (inv_sleep_nodup s Hc).
    + apply (sleep_sorted_ext s); [exact Hsl | | exact (inv_sleep_sorted s Hc)].
      intros u Hu. unfold wakeup_time_at. rewrite Hthr.
      rewrite lookup_insert_ne; [reflexivity|].
      intros <-. apply (Hlive p _ (inv_sleep s Hc p Hu)). reflexivity.
  - unfold running_ok in *. rewrite Hrn. apply Hkeep. exact Hrun.
  - congruence.
Qed.

(** A yield when the front of the ready queue outranks the running
    thread: the front thread runs next. *)
(** [thread_create] up to its last step: the new thread is on the ready
    queue, by the priority it was created with. *)
Lemma thread_create_run f s nm prio fn p1 p2 pool :
  sched_inv s -> thread_mlfqs s = false ->
  free_pages s = p1 :: p2 :: pool -> threads s !! p1 = None ->
  PRI_MIN <= prio <= PRI_MAX ->
  exists s5 th5 lt,
    thread_create f nm prio (Some fn) s
      = (thread_cond_yield >> ret (next_tid s)) s5 /\
    sched_inv s5 /\
    threads s5 = <[p1 := th5]> (threads s) /\
    priority th5 = prio /\ status th5 = THREAD_READY /\
    ready_list s5 = list_insert_ordered lt p1 (ready_list s) /\
    (forall h, lt p1 h = false -> h <> p1 -> prio <= priority_at s h) /\
    running s5 = running s /\ idle_thread s5 = idle_thread s /\
    sleep_list s5 = sleep_list s /\ timer s5 = timer s.
Proof.
  intros Hinv Hmlfqs Hfree Hfresh Hprio.
  pose proof Hinv as (Hc & Hrun & Hctx).
  destruct Hrun as (cth & Hcur & Hm & Hst).
  assert (Hp1 : p1 <> running s) by congruence.
  unfold thread_create.
  rewrite bool_decide_eq_true_2 by discriminate. mprim.
  unfold palloc_get_page at 1. unfold bind at 1. rewrite Hfree.
  set (s0 := set_free_pages (p2 :: pool) s).
  assert (Hrun0 : running_ok s0) by (exists cth; auto).
  assert (Hcur0 : threads s0 !! running s0 = Some cth) by exact Hcur.
  (* init_thread *)
  unfold init_thread. mprim.
  destruct (Z.leb_spec PRI_MIN prio); [|lia].
  destruct (Z.leb_spec prio PRI_MAX); [|lia]. cbn [andb]. mprim.
  assert (Hnc : exists nc rc,
            (if bool_decide (Some p1 = initial_thread s0) then ret (0, 0)
             else let* n := thread_get_nice in
                  let* r := thread_get_recent_cpu f in ret (n, r)) s0
            = Ok ((nc, rc), s0)).
  { case_bool_decide; [exists 0, 0; reflexivity|].
    eexists. eexists. unfold thread_get_nice, thread_get_recent_cpu.
    mprim. mstep (thread_current_of _ Hrun0).
    mstep (deref_of _ _ _ Hcur0). mprim.
    mstep (thread_current_of _ Hrun0).
    mstep (deref_of _ _ _ Hcur0). mprim. reflexivity. }
  destruct Hnc as (nc & rc & Hnc). mstep Hnc. mprim.
  cbn [fst snd].
  set (th0 := mkThread 0 THREAD_BLOCKED _ prio 0 rc nc prio [] None 0 _ _
                false None None THREAD_MAGIC None).
  set (s1 := set_all_list _ _).
  unfold allocate_tid. mprim.
  set (s2 := set_next_tid _ s1).
  assert (Hth2 : threads s2 !! p1 = Some th0)
    by (unfold s2, s1; cbn; apply lookup_insert_eq).
  mstep (update_thread_of _ _ _ (set_tid (next_tid s1)) Hth2).
  set (th1 := set_tid _ th0). set (s3 := set_threads _ s2).
  unfold palloc_get_page at 1. unfold bind at 1.
  change (free_pages s3) with (p2 :: pool). cbv iota. mprim.
  set (s4 := set_child_list _ _).
  assert (Hth4 : threads s4 !! p1 = Some th1)
    by (unfold s4, s3; cbn; apply lookup_insert_eq).
  mstep (update_thread_of _ _ _ (set_message_to_parent (Some p2)) Hth4).
  set (th2 := set_message_to_parent _ th1). set (s4' := set_threads _ s4).
  assert (Hcur4 : threads s4' !! running s4' = Some cth).
  { unfold s4', s4, s3, s2, s1. cbn.
    rewrite !lookup_insert_ne by congruence. exact Hcur. }
  assert (Hrun4 : running_ok s4') by (exists cth; auto).
  mstep (thread_current_of _ Hrun4).
  mstep (deref_of _ _ _ Hcur4).
  assert (Hth4' : threads s4' !! p1 = Some th2)
    by (unfold s4'; cbn; apply lookup_insert_eq).
  mstep (update_thread_of _ _ _
           (set_cwd match cwd cth with Some d => dir_reopen d | None => None end)
           Hth4').
  set (th3 := set_cwd _ th2). set (sx := set_threads _ s4').
  assert (Hthx : threads sx !! p1 = Some th3)
    by (unfold sx; cbn; apply lookup_insert_eq).
  mstep (thread_unblock_of sx p1 th3 Hthx eq_refl eq_refl).
  mprim. change (thread_mlfqs (unblocked p1 th3 sx)) with (thread_mlfqs s).
  rewrite Hmlfqs. mprim.
  exists (unblocked p1 th3 sx), (set_status THREAD_READY th3),
    (thread_priority_more sx).
  assert (Hthr : threads (unblocked p1 th3 sx)
                 = <[p1 := set_status THREAD_READY th3]> (threads s)).
  { unfold unblocked, sx, s4', s4, s3, s2, s1. cbn.
    rewrite !insert_insert_eq. reflexivity. }
  split; [reflexivity|].
  split.
  { eapply (sched_inv_spawn s _ p1 _ (thread_priority_more sx));
      try exact Hinv; try exact Hfresh; try exact Hthr; reflexivity. }
  split; [exact Hthr|]. split; [reflexivity|]. split; [reflexivity|].
  split; [reflexivity|]. split; [|repeat split; reflexivity].
  intros h Hlt Hne.
  assert (Hh : threads sx !! h = threads s !! h).
  { unfold sx, s4', s4, s3, s2, s1. cbn.
    rewrite !lookup_insert_ne by congruence. reflexivity. }
  unfold thread_priority_more, priority_at in *.
  rewrite Hthx, Hh in Hlt. apply Z.ltb_ge in Hlt. exact Hlt.
Qed.

Lemma thread_unblock_inv s t s' :
  thread_unblock t s = Ok (tt, s') ->
  exists th,
    threads s !! t = Some th /\ magic th = THREAD_MAGIC /\
    status th = THREAD_BLOCKED /\ s' = unblocked t th s.
Proof.
  intros H. destruct (threads s !! t) as [th|] eqn:Hth.
  - destruct (Z.eqb_spec (magic th) THREAD_MAGIC) as [Hm|Hm].
    + destruct (decide (status th = THREAD_BLOCKED)) as [Hst|Hst].
      * exists th. rewrite (thread_unblock_of s t th Hth Hm Hst) in H.
        injection H as <-. auto.
      * exfalso. revert H. unfold thread_unblock.
        mstep (is_thread_of _ _ _ Hth Hm). mstep (deref_of _ _ _ Hth).
        rewrite bool_decide_eq_false_2 by exact Hst. discriminate.
    + exfalso. revert H. unfold thread_unblock, is_thread.
      mstep (deref_of _ _ _ Hth). apply Z.eqb_neq in Hm. rewrite Hm.
      discriminate.
  - exfalso. revert H. unfold thread_unblock, is_thread, deref, bind.
    rewrite Hth. discriminate.
Qed.

Lemma thread_donate_priority_ready s t cth th :
  running_ok s -> threads s !! running s = Some cth ->
  threads s !! t = Some th -> status th = THREAD_READY ->
  exists s',
    thread_donate_priority t s = Ok (tt, s') /\
    running s' = running s /\
    threads s' = <[t := set_priority (priority cth) th]> (threads s) /\
    (forall u, u ∈ ready_list s' <-> u = t \/ u ∈ ready_list s).
Proof.
  intros Hrun Hcur Hth Hst. unfold thread_donate_priority.
  mstep (thread_current_of _ Hrun). mstep (deref_of _ _ _ Hcur).
  mstep (update_thread_of _ _ _ (set_priority (priority cth)) Hth).
  set (s1 := set_threads _ s).
  assert (Hth1 : threads s1 !! t = Some (set_priority (priority cth) th))
    by (unfold s1; cbn; apply lookup_insert_eq).
  mstep (deref_of _ _ _ Hth1). cbn [status set_priority]. rewrite Hst. mprim.
  eexists. split; [reflexivity|]. split; [reflexivity|].
  split; [reflexivity|]. intros u. cbn.
  rewrite elem_of_list_insert_ordered. split.
  - intros [->|Hu]; [tauto|]. right. eapply elem_of_list_remove. exact Hu.
  - intros [->|Hu]; [tauto|]. destruct (decide (u = t)) as [->|Hne]; [tauto|].
    right. apply elem_of_list_remove_ne; assumption.
Qed.

(** C3, as amended: with MLFQS off, a thread (other than the idle
    thread) that creates a thread of strictly higher priority yields
    within [thread_create]: when the call returns, a thread of at least
    the new priority is running and the creator is READY on the ready
    queue.  [thread_unblock] by itself never yields: the caller is still
    the running thread afterwards, whatever the priority of the thread
    it made ready.  A donation to a READY thread gives it the priority of
    the running thread (never a higher one), puts it back on the ready
    queue and does not yield either. *)
Theorem create_preempts_unblock_does_not (f : Z) (s : state) :
  (forall (nm : string) (prio fn p1 p2 : Z) (pool : list Z) (cth : thread),
     sched_inv s -> thread_mlfqs s = false ->
     free_pages s = p1 :: p2 :: pool -> threads s !! p1 = None ->
     threads s !! running s = Some cth ->
     Some (running s) <> idle_thread s ->
     PRI_MIN <= prio <= PRI_MAX -> priority cth < prio ->
     exists s',
       thread_create f nm prio (Some fn) s = Ok (next_tid s, s') /\
       running s' <> running s /\
       thread_is s' (running s') THREAD_RUNNING /\
       prio <= priority_at s' (running s') /\
       thread_is s' (running s) THREAD_READY /\
       running s ∈ ready_list s' /\
       (running s' = p1 \/ p1 ∈ ready_list s')) /\
  (forall t s',
     thread_unblock t s = Ok (tt, s') ->
     running s' = running s /\
     (forall cth, threads s !! running s = Some cth ->
                  status cth = THREAD_RUNNING ->
                  threads s' !! running s = Some cth) /\
     thread_is s' t THREAD_READY /\ t ∈ ready_list s' /\
     (forall u, priority_at s' u = priority_at s u)) /\
  (forall t th cth,
     running_ok s -> threads s !! running s = Some cth ->
     threads s !! t = Some th -> status th = THREAD_READY ->
     exists s',
       thread_donate_priority t s = Ok (tt, s') /\
       running s' = running s /\ threads s' !! running s = Some cth /\
       priority_at s' t = priority cth /\ t ∈ ready_list s').
Proof.
  split; [|split].
  - intros nm prio fn p1 p2 pool cth
      Hinv Hmlfqs Hfree Hfresh Hcur Hnidle Hprio Hlt.
    pose proof Hinv as (Hc & Hrun & Hctx).
    destruct (thread_create_run f s nm prio fn p1 p2 pool Hinv Hmlfqs Hfree
                Hfresh Hprio)
      as (s5 & th5 & lt & Hrun5 & Hinv5 & Hthr5 & Hp5 & Hst5 & Hrl5 & Hlt5
          & Hrn5 & Hidle5 & _).
    rewrite Hrun5. clear Hrun5.
    pose proof Hinv5 as (Hc5 & Hrok5 & Hctx5).
    assert (Hp1 : p1 <> running s) by congruence.
    assert (Hcur5 : threads s5 !! running s5 = Some cth).
    { rewrite Hrn5, Hthr5, lookup_insert_ne by congruence. exact Hcur. }
    destruct (list_insert_ordered_head lt p1 (ready_list s))
      as (front & rest & Hins & Hfront).
    rewrite Hins in Hrl5.
    destruct (inv_ready s5 Hc5 front) as (fth & Hfth & Hfm & Hfs).
    { rewrite Hrl5. left. }
    assert (Hfp : prio <= priority fth).
    { destruct (decide (front = p1)) as [->|Hne].
      - rewrite Hthr5, lookup_insert_eq in Hfth. injection Hfth as <-. lia.
      - destruct Hfront as [?|Hf]; [contradiction|].
        pose proof (Hlt5 front Hf Hne) as Hle. unfold priority_at in Hle.
        rewrite Hthr5, lookup_insert_ne in Hfth by congruence.
        rewrite Hfth in Hle. exact Hle. }
    assert (Hnidle5 : Some (running s5) <> idle_thread s5) by congruence.
    destruct (thread_yield_to_front s5 cth front rest fth Hinv5 Hcur5 Hnidle5
                Hrl5 Hfth ltac:(lia))
      as (s' & Hy & Hinv' & Hrn' & Hready & Hin & Hsame).
    assert (Hcy : thread_cond_yield s5 = Ok (tt, s')).
    { unfold thread_cond_yield. mstep (thread_current_of _ Hrok5).
      rewrite bool_decide_eq_false_2 by exact Hnidle5. cbv iota. mprim.
      rewrite Hrl5.
      mstep (thread_current_of _ Hrok5).
      mstep (deref_of _ _ _ Hcur5). mstep (deref_of _ _ _ Hfth).
      destruct (Z.ltb_spec (priority cth) (priority fth)); [exact Hy | lia]. }
    exists s'. split.
    { mstep Hcy. unfold ret. do 2 f_equal. }
    rewrite <- Hrn5. split.
    { rewrite Hrn'. intros Heq.
      apply (running_not_ready s5 Hc5 Hrok5). rewrite <- Heq, Hrl5. left. }
    split; [apply Hinv'|]. split.
    { rewrite Hrn', (same_but_status_priority _ _ _ Hsame).
      unfold priority_at. rewrite Hfth. exact Hfp. }
    split; [exact Hready|]. split; [exact Hin|].
    destruct (decide (front = p1)) as [->|Hne]; [left; exact Hrn'|].
    right. destruct Hinv' as (Hc' & _).
    assert (Hp1r : p1 ∈ ready_list s5).
    { rewrite Hrl5, <- Hins, elem_of_list_insert_ordered. tauto. }
    (* the ready queue after the yield: the old queue without its front,
       plus the creator *)
    clear - Hy Hp1r Hne Hrl5 Hcur5 Hinv5 Hnidle5 Hfth Hfp Hlt.
    pose proof Hinv5 as (Hc5 & (x & Hx & Hxm & Hxs) & Hctx5).
    assert (x = cth) by congruence. subst x.
    rewrite (thread_yield_run s5 cth Hx Hxm Hxs Hctx5) in Hy.
    assert (Hyd : yielded s5 cth =
                  set_threads
                    (<[running s5 := set_status THREAD_READY cth]> (threads s5))
                    (set_ready_list
                       (front :: list_insert_ordered (thread_priority_more s5)
                                   (running s5) rest) s5)).
    { unfold yielded. rewrite bool_decide_eq_false_2 by exact Hnidle5.
      rewrite Hrl5. cbn [list_insert_ordered].
      unfold thread_priority_more at 1, priority_at. rewrite Hx, Hfth. cbn.
      destruct (Z.ltb_spec (priority fth) (priority cth)); [lia|]. reflexivity. }
    assert (Hfront_ne : front <> running s5).
    { intros ->. apply (running_not_ready s5 Hc5); [exists cth; auto|].
      rewrite Hrl5. left. }
    rewrite Hyd in Hy.
    erewrite schedule_of in Hy;
      [ | cbn; apply lookup_insert_eq | discriminate | discriminate
        | reflexivity
        | cbn; rewrite lookup_insert_ne by congruence; exact Hfth
        | destruct (inv_ready s5 Hc5 front) as (y & Hy1 & Hy2 & _);
          [rewrite Hrl5; left | congruence] ].
    injection Hy as <-. cbn. rewrite elem_of_list_insert_ordered. right.
    rewrite Hrl5 in Hp1r. apply elem_of_cons in Hp1r as [?|?]; congruence.
  - intros t s' Hun.
    destruct (thread_unblock_inv s t s' Hun) as (th & Hth & Hm & Hbl & ->).
    split; [reflexivity|]. split.
    { intros cth Hcur Hst.
      assert (Hne : t <> running s) by (intros ->; congruence).
      cbn. rewrite lookup_insert_ne by congruence. exact Hcur. }
    split.
    { exists (set_status THREAD_READY th). cbn. rewrite lookup_insert_eq. auto. }
    split; [cbn; rewrite elem_of_list_insert_ordered; tauto|].
    intros u. unfold priority_at, unblocked. cbn [threads set_threads].
    destruct (decide (u = t)) as [->|Hne].
    + rewrite lookup_insert_eq, Hth. reflexivity.
    + rewrite lookup_insert_ne by congruence. reflexivity.
  - intros t th cth Hrun Hcur Hth Hready.
    assert (Hst : status cth = THREAD_RUNNING).
    { destruct Hrun as (x & Hx & _ & Hxs). congruence. }
    destruct (thread_donate_priority_ready s t cth th Hrun Hcur Hth Hready)
      as (s' & Hd & Hrn & Hthr & Hrl).
    assert (Hne : t <> running s) by (intros ->; congruence).
    exists s'. split; [exact Hd|]. split; [exact Hrn|].
    split; [rewrite Hthr, lookup_insert_ne by congruence; exact Hcur|].
    split; [unfold priority_at; rewrite Hthr, lookup_insert_eq; reflexivity|].
    apply Hrl. tauto.
Qed.

(** C3, as claimed, fails: a bare [thread_unblock] makes a thread of
    priority 40 READY while the running thread has priority 31, and the
    running thread does not yield: it is still running when the call
    returns, and the thread of higher priority waits on the ready
    queue. *)
Lemma thread_unblock_does_not_yield :
  exists s' th hi,
    thread_unblock 300 unblock_state = Ok (tt, s') /\
    running s' = 100 /\
    threads s' !! 100 = Some th /\ status th = THREAD_RUNNING /\
    threads s' !! 300 = Some hi /\ status hi = THREAD_READY /\
    priority th < priority hi /\
    ready_list s' = [300].
Proof.
  eexists. eexists. eexists.
  split; [vm_compute; reflexivity|]. split; [reflexivity|].
  split; [vm_compute; reflexivity|]. split; [reflexivity|].
  split; [vm_compute; reflexivity|]. split; [reflexivity|].
  split; [vm_compute; reflexivity | reflexivity].
Qed.

(** ** The ready queue stays sorted *)

Lemma descending_fmap {A : Type} (prio : A -> Z) (l : list A) :
  ascending_by (fun u => - prio u) l <-> descending (prio <$> l).
Proof.
  unfold ascending_by, descending. induction l as [|a l IH]; cbn.
  - split; constructor.
  - split; intros H; apply Sorted_inv in H as [Hs Hhd];
      (constructor; [apply IH; exact Hs|]);
      destruct l as [|b l]; cbn in *; constructor;
      apply HdRel_inv in Hhd; lia.
Qed.

(** X1: [thread_unblock] puts the thread behind the ready threads of equal
    or higher priority and before those of lower priority, and a sorted
    ready queue stays sorted. *)
Theorem thread_unblock_keeps_ready_sorted (s s' : state) (t : Z) :
  thread_unblock t s = Ok (tt, s') ->
  ready_list s' =
    take_while (fun u => bool_decide (priority_at s t <= priority_at s u))
      (ready_list s)
    ++ t :: drop_while
              (fun u => bool_decide (priority_at s t <= priority_at s u))
              (ready_list s) /\
  (forall u, priority_at s' u = priority_at s u) /\
  (ready_sorted s -> ready_sorted s').
Proof.
  intros Hun.
  destruct (thread_unblock_inv s t s' Hun) as (th & Hth & Hm & Hst & ->).
  assert (Hless : forall a b,
            thread_priority_more s a b
            = (- priority_at s a <? - priority_at s b)).
  { intros a b. unfold thread_priority_more.
    destruct (Z.ltb_spec (priority_at s b) (priority_at s a)),
      (Z.ltb_spec (- priority_at s a) (- priority_at s b)); lia. }
  assert (Hprio : forall u, priority_at (unblocked t th s) u = priority_at s u).
  { intros u. apply same_but_status_priority.
    eapply same_but_status_insert; [exact Hth | reflexivity]. }
  split; [|split; [exact Hprio|]].
  - change (ready_list (unblocked t th s))
      with (list_insert_ordered (thread_priority_more s) t (ready_list s)).
    rewrite (list_insert_ordered_split (fun u => - priority_at s u)
               (thread_priority_more s) Hless).
    f_equal; [apply take_while_ext | f_equal; apply drop_while_ext];
      intros x _; apply bool_decide_ext; lia.
  - unfold ready_sorted, ready_priorities. intros Hs.
    erewrite list_fmap_ext by (intros; apply Hprio).
    apply descending_fmap. apply descending_fmap in Hs.
    exact (ascending_list_insert_ordered (fun u => - priority_at s u)
             (thread_priority_more s) Hless t (ready_list s) Hs).
Qed.

(** X5: [thread_yield] returns and keeps the invariant of the scheduler:
    one thread is RUNNING, the ready queue holds READY threads and the
    sleep list BLOCKED ones, each once. *)
Theorem thread_yield_keeps_invariant (s : state) :
  sched_inv s ->
  exists s', thread_yield s = Ok (tt, s') /\ sched_inv s' /\
             sleep_list s' = sleep_list s /\ timer s' = timer s.
Proof.
  intros Hinv.
  destruct (thread_yield_of s Hinv) as (s' & Hy & Hinv' & _ & Hsl & Htm & _).
  exists s'. auto.
Qed.

Lemma thread_remove_lock_priority_witness :
  exists s' th',
    thread_remove_lock 2 release_state = Ok (tt, s') /\
    threads s' !! 100 = Some th' /\ locks th' = [1] /\ priority th' = 50.
Proof.
  destruct (thread_remove_lock_priority release_state 2
              (a_thread 1 THREAD_RUNNING "main" 50 10 0 [1; 2])
              eq_refl eq_refl eq_refl)
    as (s' & Hrun & th' & Hth' & Hlocks & _ & Hprio).
  exists s', th'. split; [exact Hrun|]. split; [exact Hth'|].
  split; [exact Hlocks | exact Hprio].
Defined.

Lemma thread_create_no_page_witness :
  thread_create F14 "child" 31 (Some 1) priority_state
  = Ok (TID_ERROR, priority_state).
Proof.
  apply (thread_create_no_page F14 priority_state "child" 31 1). reflexivity.
Defined.

(** ** [thread_create] and the page allocator *)

Lemma reader_ret {A : Type} (a : A) : reader (ret a).
Proof. intros s b s' H. injection H as _ <-. reflexivity. Qed.

Lemma reader_gets {A : Type} (g : state -> A) : reader (gets g).
Proof. intros s b s' H. injection H as _ <-. reflexivity. Qed.

Lemma reader_assert b : reader (ASSERT b).
Proof. destruct b; [apply reader_ret | intros s a s' H; discriminate]. Qed.

Lemma reader_deref t : reader (deref t).
Proof.
  intros s a s' H. unfold deref in H.
  destruct (threads s !! t); [injection H as _ <-; reflexivity | discriminate].
Qed.

Lemma reader_bind {A B : Type} (m : M A) (k : A -> M B) :
  reader m -> (forall a, reader (k a)) -> reader (bind m k).
Proof.
  intros Hm Hk s b s' H. apply bind_Ok_inv in H as (a & s1 & H1 & H2).
  apply Hm in H1. subst s1. apply (Hk a) in H2. exact H2.
Qed.

Lemma reader_thread_current : reader thread_current.
Proof.
  unfold thread_current, running_thread, is_thread.
  repeat first
    [ apply reader_bind; [|intros ?] | apply reader_gets | apply reader_ret
    | apply reader_assert | apply reader_deref ].
Qed.

Lemma init_thread_next_tid f t nm prio s s' :
  init_thread f t nm prio s = Ok (tt, s') -> next_tid s' = next_tid s.
Proof.
  unfold init_thread. intros H.
  apply bind_Ok_inv in H as (a & s1 & H1 & H). apply reader_assert in H1.
  subst s1. revert H. mprim. intros H.
  apply bind_Ok_inv in H as (nc & s1 & H1 & H).
  assert (Hr : reader (let* n := thread_get_nice in
                       let* r := thread_get_recent_cpu f in ret (n, r))).
  { unfold thread_get_nice, thread_get_recent_cpu.
    repeat first
      [ apply reader_thread_current | apply reader_deref | apply reader_ret
      | apply reader_bind; [|intros ?] ]. }
  assert (s1 = s).
  { revert H1. case_bool_decide; [apply reader_ret | apply Hr]. }
  subst s1. revert H. mprim. intros H. injection H as <-. reflexivity.
Qed.

(** X3: [thread_create] returns [TID_ERROR] with the state unchanged when
    no page is left, and the identifier it allocated otherwise: as long as
    the counter of identifiers has not run into [TID_ERROR], the error
    value means that the page of the thread could not be obtained. *)
Theorem thread_create_error_only_without_page (f : Z) (s s' : state)
    (nm : string) (prio fn v : Z) :
  thread_create f nm prio (Some fn) s = Ok (v, s') ->
  (free_pages s = [] /\ v = TID_ERROR /\ s' = s) \/
  (free_pages s <> [] /\ v = next_tid s).
Proof.
  intros H. destruct (free_pages s) as [|p1 pool] eqn:Hfree.
  - left. rewrite (thread_create_no_page f s nm prio fn Hfree) in H.
    injection H as <- <-. auto.
  - right. split; [discriminate|]. revert H. unfold thread_create.
    rewrite bool_decide_eq_true_2 by discriminate. mprim.
    unfold palloc_get_page at 1. unfold bind at 1. rewrite Hfree. intros H.
    apply bind_Ok_inv in H as ([] & s1 & Hinit & H).
    apply init_thread_next_tid in Hinit. cbn in Hinit.
    revert H. unfold allocate_tid. mprim. rewrite Hinit. intros H.
    apply bind_Ok_inv in H as (? & s2 & _ & H).
    apply bind_Ok_inv in H as (info & s3 & _ & H).
    destruct info as [info|]; [|discriminate].
    revert H. mprim. intros H.
    repeat (apply bind_Ok_inv in H as (? & ? & _ & H); revert H; mprim; intros H).
    injection H as <- _. reflexivity.
Qed.

Lemma thread_create_error_only_without_page_witness :
  free_pages priority_state = [] /\ TID_ERROR = TID_ERROR /\
  priority_state = priority_state \/
  free_pages priority_state <> [] /\ TID_ERROR = next_tid priority_state.
Proof.
  apply (thread_create_error_only_without_page F14 priority_state
           priority_state "child" 31 1 TID_ERROR).
  apply (thread_create_no_page F14 priority_state "child" 31 1). reflexivity.
Defined.

(** ** More kernel steps *)

Lemma sched_core_running_status s cth st :
  sched_core s -> running_ok s -> threads s !! running s = Some cth ->
  sched_core (set_threads (<[running s := set_status st cth]> (threads s)) s).
Proof.
  intros Hc Hrun Hcur. set (s' := set_threads _ s).
  pose proof (running_not_ready s Hc Hrun) as Hnr.
  pose proof (running_not_asleep s Hc Hrun) as Hns.
  assert (Hm : magic cth = THREAD_MAGIC).
  { destruct Hrun as (x & Hx & Hxm & _). congruence. }
  assert (Hkeep : forall u st', u <> running s -> thread_is s u st' ->
                                thread_is s' u st').
  { intros u st' Hu.
    apply (thread_is_insert_ne s s' u (running s) (set_status st cth) st'
             eq_refl Hu). }
  constructor.
  - intros t Ht. apply Hkeep; [intros ->; contradiction|].
    apply (inv_ready s Hc). exact Ht.
  - intros t Ht. apply Hkeep; [intros ->; contradiction|].
    apply (inv_sleep s Hc). exact Ht.
  - destruct (inv_idle s Hc) as (i & ith & Hi & Hith & Hmi & Hir & His).
    exists i. destruct (decide (i = running s)) as [->|Hne].
    + exists (set_status st cth). unfold s'. cbn. rewrite lookup_insert_eq.
      repeat split; assumption.
    + exists ith. unfold s'. cbn. rewrite lookup_insert_ne by congruence.
      repeat split; assumption.
  - exact (inv_ready_nodup s Hc).
  - exact (inv_sleep_nodup s Hc).
  - apply (sleep_sorted_ext s); [reflexivity | | exact (inv_sleep_sorted s Hc)].
    intros t _. apply same_but_status_wakeup.
    eapply same_but_status_insert; [exact Hcur | reflexivity].
Qed.


Lemma thread_block_on s : thread_block INTR_ON s = Panic.
Proof.
  unfold thread_block. mprim. destruct (intr_context s); reflexivity.
Qed.



Lemma thread_cond_yield_of s :
  sched_inv s ->
  exists s', thread_cond_yield s = Ok (tt, s') /\ sched_inv s' /\
             timer s' = timer s /\ sleep_list s' = sleep_list s /\
             same_but_status s s'.
Proof.
  intros Hinv. pose proof Hinv as (Hc & Hrun & Hctx).
  pose proof Hrun as (cth & Hcur & Hm & Hst).
  assert (Hstay : sched_inv s /\ timer s = timer s /\
                  sleep_list s = sleep_list s /\ same_but_status s s).
  { repeat split; try assumption; try apply Hinv. apply same_but_status_refl. }
  unfold thread_cond_yield. mstep (thread_current_of _ Hrun).
  case_bool_decide; [exists s; split; [reflexivity | exact Hstay]|].
  mprim. destruct (ready_list s) as [|front rest] eqn:Hrl;
    [exists s; split; [reflexivity | exact Hstay]|].
  mstep (thread_current_of _ Hrun). mstep (deref_of _ _ _ Hcur).
  destruct (inv_ready s Hc front) as (fth & Hfth & _); [rewrite Hrl; left|].
  mstep (deref_of _ _ _ Hfth).
  destruct (priority cth <? priority fth);
    [|exists s; split; [reflexivity | exact Hstay]].
  destruct (thread_yield_of s Hinv) as (s' & Hy & Hinv' & Hsame & Hsl & Htm & _).
  exists s'. auto.
Qed.



(** ** Sleeping until a tick *)









(** * More properties of thread.c *)

(** ** Start-up *)

Lemma thread_init_main (f : Z) (s : state) :
  exists s' th,
    thread_init f INTR_OFF s = Ok (tt, s') /\
    thread_current s' = Ok (running s, s') /\
    initial_thread s' = Some (running s) /\
    threads s' !! running s = Some th /\
    name th = "main"%string /\ status th = THREAD_RUNNING /\
    tid th = next_tid s /\
    priority th = PRI_DEFAULT /\ old_priority th = PRI_DEFAULT /\
    nice th = 0 /\ recent_cpu th = 0 /\ locks th = [] /\
    ready_list s' = [] /\ sleep_list s' = [] /\
    all_list s' = [running s] /\ child_list s' = [] /\ load_avg s' = 0 /\
    (forall t, t <> running s -> threads s' !! t = threads s !! t).
Proof.
  unfold thread_init, running_thread. mprim.
  unfold init_thread. mprim.
  change ((PRI_MIN <=? PRI_DEFAULT) && (PRI_DEFAULT <=? PRI_MAX)) with true.
  mprim. cbn [initial_thread set_initial_thread running set_child_list
              set_all_list set_sleep_list set_ready_list].
  rewrite bool_decide_eq_true_2 by reflexivity. mprim. cbn [fst snd].
  set (th0 := mkThread 0 THREAD_BLOCKED _ PRI_DEFAULT 0 0 0 PRI_DEFAULT [] None
                0 _ _ false None None THREAD_MAGIC None).
  set (s1 := set_all_list _ _).
  assert (Hth1 : threads s1 !! running s = Some th0)
    by (unfold s1; cbn; apply lookup_insert_eq).
  mstep (update_thread_of _ _ _ (set_status THREAD_RUNNING) Hth1).
  unfold allocate_tid. mprim.
  set (s2 := set_next_tid _ _).
  assert (Hth2 : threads s2 !! running s = Some (set_status THREAD_RUNNING th0))
    by (unfold s2; cbn; apply lookup_insert_eq).
  mstep (update_thread_of _ _ _ (set_tid (next_tid s)) Hth2).
  set (s2' := set_threads _ s2). set (s3 := set_load_avg 0 s2').
  assert (Hth3 : threads s3 !! running s
                 = Some (set_tid (next_tid s) (set_status THREAD_RUNNING th0)))
    by (unfold s3, s2'; cbn; apply lookup_insert_eq).
  exists s3, (set_tid (next_tid s) (set_status THREAD_RUNNING th0)).
  split; [reflexivity|].
  split.
  { apply (thread_current_of s3). eexists. split; [exact Hth3|]. auto. }
  split; [reflexivity|]. split; [exact Hth3|].
  repeat (split; [reflexivity|]).
  intros t Hne. unfold s3, s2', s2, s1. cbn.
  rewrite !lookup_insert_ne by congruence. reflexivity.
Qed.

(** ** Blocking *)

(** X6: [thread_block], called with interrupts off under the scheduler
    invariant: the front of the ready queue (or the idle thread) runs
    next, the caller is BLOCKED and on no queue, and the invariant holds
    again.  The caller keeps running only if it is the idle thread and the
    ready queue is empty.  Called with interrupts on, [thread_block]
    panics. *)
Theorem thread_block_dispatches (s : state) :
  sched_inv s ->
  thread_block INTR_ON s = Panic /\
  exists s' n,
    thread_block INTR_OFF s = Ok (tt, s') /\ sched_inv s' /\
    next_thread s = Some n /\ running s' = n /\
    ready_list s' = tail (ready_list s) /\ sleep_list s' = sleep_list s /\
    (running s ∉ ready_list s') /\
    (n <> running s -> thread_is s' (running s) THREAD_BLOCKED) /\
    (n = running s <-> Some (running s) = idle_thread s /\ ready_list s = []).
Proof.
  intros (Hc & Hrun & Hctx). pose proof Hrun as (cth & Hcur & Hm & Hst).
  set (sb := set_threads (<[running s := set_status THREAD_BLOCKED cth]>
                            (threads s)) s).
  pose proof (sched_core_running_status s cth THREAD_BLOCKED Hc Hrun Hcur) as Hcb.
  fold sb in Hcb.
  assert (Hcurb : threads sb !! running sb = Some (set_status THREAD_BLOCKED cth))
    by (unfold sb; cbn; apply lookup_insert_eq).
  destruct (schedule_inv sb _ Hcb Hctx Hcurb)
    as (n & nth & Hnext & Hn & Hs & Hi); [discriminate | discriminate |].
  pose proof (running_not_ready s Hc Hrun) as Hnr.
  split; [apply thread_block_on|].
  exists (dispatch n nth sb), n. split.
  { unfold thread_block. mprim. rewrite Hctx. cbn [negb]. mprim.
    mstep (thread_current_of _ Hrun).
    mstep (update_thread_of _ _ _ (set_status THREAD_BLOCKED) Hcur). exact Hs. }
  split; [exact Hi|]. split; [exact Hnext|]. split; [reflexivity|].
  split; [reflexivity|]. split; [reflexivity|]. split; [|split].
  - cbn. intros Hin. apply Hnr. destruct (ready_list s); cbn in Hin.
    + apply elem_of_nil in Hin. tauto.
    + right. exact Hin.
  - intros Hne. exists (set_status THREAD_BLOCKED cth). cbn.
    rewrite lookup_insert_ne by congruence. rewrite lookup_insert_eq. auto.
  - change (next_thread sb) with (next_thread s) in Hnext.
    unfold next_thread in Hnext. destruct (ready_list s) as [|t0 rest] eqn:Hrl.
    + split; [intros ->; split; [symmetry; exact Hnext | reflexivity]|].
      intros [Hidle _]. congruence.
    + injection Hnext as ->. split.
      * intros ->. exfalso. apply Hnr. left.
      * intros [_ ?]. discriminate.
Qed.

(** ** Yielding to a thread of higher priority *)

Lemma thread_priority_more_key s a b :
  thread_priority_more s a b = (- priority_at s a <? - priority_at s b).
Proof.
  unfold thread_priority_more.
  destruct (Z.ltb_spec (priority_at s b) (priority_at s a)),
    (Z.ltb_spec (- priority_at s a) (- priority_at s b)); lia.
Qed.

Lemma ready_sorted_ext s s' :
  ready_list s' = ready_list s ->
  (forall u, priority_at s' u = priority_at s u) ->
  ready_sorted s -> ready_sorted s'.
Proof.
  unfold ready_sorted, ready_priorities. intros -> Hp Hs.
  erewrite list_fmap_ext by (intros; apply Hp). exact Hs.
Qed.

Lemma descending_head_max (l : list Z) (a x : Z) :
  descending (a :: l) -> x ∈ l -> x <= a.
Proof.
  unfold descending. revert a. induction l as [|b l IH]; intros a Hs Hx.
  - apply elem_of_nil in Hx. tauto.
  - apply Sorted_inv in Hs as [Hs Hhd]. apply HdRel_inv in Hhd.
    apply elem_of_cons in Hx as [->|Hx]; [exact Hhd|].
    specialize (IH b Hs Hx). lia.
Qed.

(** X4: [next_thread_to_run] under the invariant of the scheduler, with
    a ready queue sorted by descending priority: it returns the idle
    thread exactly when the ready queue is empty, and changes nothing
    then; otherwise it takes the front off the queue, a READY thread whose
    priority is not below that of any ready thread. *)
Theorem next_thread_to_run_front (s : state) :
  sched_core s -> ready_sorted s ->
  exists n s',
    next_thread_to_run s = Ok (Some n, s') /\
    (Some n = idle_thread s <-> ready_list s = []) /\
    (ready_list s = [] -> s' = s) /\
    (ready_list s <> [] ->
     head (ready_list s) = Some n /\ thread_is s n THREAD_READY /\
     s' = set_ready_list (tail (ready_list s)) s /\
     (n ∉ ready_list s') /\
     (forall u, u ∈ ready_list s -> priority_at s u <= priority_at s n)).
Proof.
  intros Hc Hsorted. unfold next_thread_to_run. mprim.
  destruct (inv_idle s Hc) as (i & ith & Hi & _ & _ & Hir & _).
  destruct (ready_list s) as [|t rest] eqn:Hrl.
  - exists i, s. unfold gets. rewrite Hi. split; [reflexivity|].
    split; [tauto|]. split; [reflexivity|]. intros Hne. contradiction.
  - exists t, (set_ready_list rest s). mprim. split; [reflexivity|]. split.
    { split; [|discriminate]. intros Heq. exfalso. apply Hir.
      rewrite Hi in Heq. injection Heq as <-. rewrite ?Hrl. left. }
    split; [discriminate|]. intros _. split; [reflexivity|].
    split; [apply (inv_ready s Hc); rewrite Hrl; left|].
    split; [reflexivity|]. split.
    { pose proof (inv_ready_nodup s Hc) as Hnd. rewrite Hrl in Hnd.
      apply NoDup_cons in Hnd as [Hnin _]. exact Hnin. }
    intros u Hu. apply elem_of_cons in Hu as [->|Hu]; [lia|].
    unfold ready_sorted, ready_priorities in Hsorted.
    rewrite ?Hrl in Hsorted. cbn in Hsorted.
    eapply descending_head_max; [exact Hsorted|].
    apply list_elem_of_fmap. exists u. auto.
Qed.

(** X7: [thread_cond_yield] with a sorted ready queue: afterwards the
    running thread has a priority at least that of every ready thread, no
    priority has changed and the queue is sorted.  Nothing changes when no
    ready thread has a higher priority.  When the front of the queue has
    a higher priority than the caller, it is running when the call
    returns and the caller is READY on the queue. *)
Theorem thread_cond_yield_highest (s : state) :
  sched_inv s -> ready_sorted s -> Some (running s) <> idle_thread s ->
  exists s',
    thread_cond_yield s = Ok (tt, s') /\ sched_inv s' /\ ready_sorted s' /\
    (forall u, priority_at s' u = priority_at s u) /\
    (forall u, u ∈ ready_list s' ->
               priority_at s' u <= priority_at s' (running s')) /\
    ((forall u, u ∈ ready_list s ->
                priority_at s u <= priority_at s (running s)) -> s' = s) /\
    (forall h, head (ready_list s) = Some h ->
               priority_at s (running s) < priority_at s h ->
               running s' = h /\ h <> running s /\
               thread_is s' h THREAD_RUNNING /\
               thread_is s' (running s) THREAD_READY /\
               running s ∈ ready_list s') /\
    (running s' <> running s ->
     head (ready_list s) = Some (running s') /\
     priority_at s (running s) < priority_at s (running s') /\
     running s ∈ ready_list s').
Proof.
  intros Hinv Hsorted Hnidle. pose proof Hinv as (Hc & Hrun & Hctx).
  pose proof Hrun as (cth & Hcur & Hm & Hst).
  assert (Hpc : priority_at s (running s) = priority cth).
  { unfold priority_at. rewrite Hcur. reflexivity. }
  unfold thread_cond_yield. mstep (thread_current_of _ Hrun).
  rewrite bool_decide_eq_false_2 by exact Hnidle. mprim.
  destruct (ready_list s) as [|front rest] eqn:Hrl.
  { exists s. split; [reflexivity|]. split; [exact Hinv|].
    split; [exact Hsorted|]. split; [reflexivity|].
    split; [intros u Hu; rewrite Hrl in Hu; apply elem_of_nil in Hu; tauto|].
    split; [reflexivity|]. split; [intros h Hh; discriminate|].
    intros Hne. congruence. }
  mstep (thread_current_of _ Hrun). mstep (deref_of _ _ _ Hcur).
  destruct (inv_ready s Hc front) as (fth & Hfth & _); [rewrite Hrl; left|].
  mstep (deref_of _ _ _ Hfth).
  assert (Hpf : priority_at s front = priority fth).
  { unfold priority_at. rewrite Hfth. reflexivity. }
  assert (Hmax : forall u, u ∈ rest -> priority_at s u <= priority fth).
  { intros u Hu. rewrite <- Hpf. unfold ready_sorted, ready_priorities in Hsorted.
    rewrite Hrl in Hsorted. cbn in Hsorted.
    eapply descending_head_max; [exact Hsorted|].
    apply list_elem_of_fmap. exists u. auto. }
  destruct (Z.ltb_spec (priority cth) (priority fth)) as [Hlt|Hge].
  - (* the front thread outranks the running thread *)
    pose proof (yielded_core s cth Hinv Hcur) as Hyc.
    assert (Hne : front <> running s).
    { intros ->. apply (running_not_ready s Hc Hrun). rewrite Hrl. left. }
    assert (Hy : yielded s cth =
                 set_threads (<[running s := set_status THREAD_READY cth]> (threads s))
                   (set_ready_list
                      (front :: list_insert_ordered (thread_priority_more s)
                                  (running s) rest) s)).
    { unfold yielded. rewrite bool_decide_eq_false_2 by exact Hnidle.
      rewrite Hrl. cbn [list_insert_ordered].
      unfold thread_priority_more at 1. rewrite Hpc, Hpf.
      destruct (Z.ltb_spec (priority fth) (priority cth)); [lia|]. reflexivity. }
    assert (Hrny : running (yielded s cth) = running s)
      by (rewrite Hy; reflexivity).
    assert (Hcury : threads (yielded s cth) !! running s
                    = Some (set_status THREAD_READY cth)).
    { rewrite Hy. cbn. apply lookup_insert_eq. }
    assert (Hfront' : threads (yielded s cth) !! front = Some fth).
    { rewrite Hy. cbn. rewrite lookup_insert_ne by congruence. exact Hfth. }
    assert (Hnext : next_thread (yielded s cth) = Some front).
    { rewrite Hy. reflexivity. }
    assert (Hctx' : intr_context (yielded s cth) = false).
    { rewrite Hy. exact Hctx. }
    destruct (next_thread_live _ _ Hyc Hnext) as (fth' & Hf' & Hfm).
    assert (fth' = fth) by congruence. subst fth'.
    set (s' := dispatch front fth (yielded s cth)).
    assert (Hsame : same_but_status s s').
    { eapply same_but_status_trans.
      - eapply (same_but_status_insert s (yielded s cth)); [exact Hcur|].
        rewrite Hy. reflexivity.
      - apply dispatch_same_but_status. exact Hf'. }
    assert (Hprio : forall u, priority_at s' u = priority_at s u).
    { intros u. apply same_but_status_priority. exact Hsame. }
    assert (Hrl' : ready_list s'
                   = list_insert_ordered (thread_priority_more s) (running s) rest).
    { change (ready_list s') with (tail (ready_list (yielded s cth))).
      rewrite Hy. reflexivity. }
    exists s'. split.
    { rewrite (thread_yield_run s cth) by assumption.
      eapply schedule_of; try eassumption;
        [rewrite Hrny; exact Hcury | discriminate | discriminate]. }
    split; [apply dispatch_inv; assumption|].
    split.
    { unfold ready_sorted, ready_priorities.
      erewrite list_fmap_ext by (intros; apply Hprio).
      rewrite Hrl'. apply descending_fmap.
      apply (ascending_list_insert_ordered (fun u => - priority_at s u)
               (thread_priority_more s) (thread_priority_more_key s)).
      apply descending_fmap.
      unfold ready_sorted, ready_priorities in Hsorted. rewrite Hrl in Hsorted.
      cbn in Hsorted. apply Sorted_inv in Hsorted as [Hs _]. exact Hs. }
    split; [exact Hprio|]. split.
    { intros u Hu. rewrite !Hprio. change (running s') with front.
      rewrite Hpf. rewrite Hrl' in Hu.
      apply elem_of_list_insert_ordered in Hu as [->|Hu]; [lia|].
      apply Hmax. exact Hu. }
    split.
    { intros Hall. specialize (Hall front ltac:(left)). lia. }
    assert (Hqueued : running s ∈ ready_list s').
    { rewrite Hrl'. apply elem_of_list_insert_ordered. tauto. }
    split.
    { intros h Hh _. injection Hh as <-. split; [reflexivity|].
      split; [exact Hne|]. split.
      - exists (set_status THREAD_RUNNING fth). unfold s'. cbn.
        rewrite lookup_insert_eq. auto.
      - split; [|exact Hqueued].
        exists (set_status THREAD_READY cth). split; [|auto].
        change (<[front := set_status THREAD_RUNNING fth]>
                  (threads (yielded s cth)) !! running s
                = Some (set_status THREAD_READY cth)).
        rewrite lookup_insert_ne by congruence. exact Hcury. }
    intros _. change (running s') with front. split; [reflexivity|].
    split; [lia|]. exact Hqueued.
  - exists s. split; [reflexivity|]. split; [exact Hinv|].
    split; [exact Hsorted|]. split; [reflexivity|]. split.
    { intros u Hu. rewrite Hrl in Hu. rewrite Hpc.
      apply elem_of_cons in Hu as [->|Hu]; [lia|].
      specialize (Hmax u Hu). lia. }
    split; [reflexivity|]. split.
    { intros h Hh Hlt. injection Hh as <-. lia. }
    intros Hne. congruence.
Qed.

(** ** Sorting *)

Section SortedLists.

Context {A : Type} {EqA : EqDecision A}.
Variable key : A -> Z.
Variable less : A -> A -> bool.
Hypothesis less_key : forall a b, less a b = (key a <? key b).

Lemma list_insert_ordered_perm (lt : A -> A -> bool) (e : A) l :
  list_insert_ordered lt e l ≡ₚ e :: l.
Proof.
  induction l as [|y l IH]; cbn; [reflexivity|].
  destruct (lt e y); [reflexivity|].
  rewrite IH. apply Permutation_swap.
Qed.

Lemma list_sort_from_perm (lt : A -> A -> bool) l : forall acc,
  fold_left (fun acc e => list_insert_ordered lt e acc) l acc ≡ₚ acc ++ l.
Proof.
  induction l as [|e l IH]; intros acc; cbn.
  - rewrite app_nil_r. reflexivity.
  - rewrite IH, list_insert_ordered_perm.
    rewrite (Permutation_middle acc l e). reflexivity.
Qed.

Lemma list_sort_perm (lt : A -> A -> bool) l : list_sort lt l ≡ₚ l.
Proof. unfold list_sort. rewrite list_sort_from_perm. reflexivity. Qed.

Lemma list_sort_from_ascending l : forall acc,
  ascending_by key acc ->
  ascending_by key
    (fold_left (fun acc e => list_insert_ordered less e acc) l acc).
Proof.
  induction l as [|e l IH]; intros acc Hacc; cbn; [exact Hacc|].
  apply IH. apply (ascending_list_insert_ordered key less less_key). exact Hacc.
Qed.

Lemma list_sort_ascending l : ascending_by key (list_sort less l).
Proof. apply list_sort_from_ascending. constructor. Qed.

(** In an ascending list, what follows the elements up to a key lies
    above that key. *)
Lemma ascending_drop_while k l x :
  ascending_by key l ->
  x ∈ drop_while (fun y => bool_decide (key y <= k)) l -> k < key x.
Proof.
  unfold ascending_by. induction l as [|y l IH]; cbn; intros Hs Hx.
  - apply elem_of_nil in Hx. tauto.
  - apply Sorted_inv in Hs as [Hs Hhd]. case_bool_decide as Hy.
    + apply IH; assumption.
    + assert (Hall : forall z, z ∈ l -> key y <= key z).
      { clear -Hs Hhd. revert y Hhd. induction l as [|b l IH]; intros y Hhd z Hz.
        - apply elem_of_nil in Hz. tauto.
        - apply HdRel_inv in Hhd. apply Sorted_inv in Hs as [Hs Hhd'].
          apply elem_of_cons in Hz as [->|Hz]; [exact Hhd|].
          specialize (IH Hs b Hhd' z Hz). lia. }
      apply elem_of_cons in Hx as [->|Hx]; [lia|].
      specialize (Hall x Hx). lia.
Qed.

Lemma filter_nil_of (P : A -> Prop) `{forall x, Decision (P x)} (l : list A) :
  (forall x, x ∈ l -> ~ P x) -> filter P l = [].
Proof.
  induction l as [|y l IH]; intros Hall; [reflexivity|].
  rewrite filter_cons_False by (apply Hall; left).
  apply IH. intros x Hx. apply Hall. right. exact Hx.
Qed.

(** Ordered insertion is stable: among the elements of one key, the new
    element comes last. *)
Lemma filter_list_insert_ordered k e l :
  ascending_by key l ->
  filter (fun x => key x = k) (list_insert_ordered less e l)
  = filter (fun x => key x = k) l ++ (if decide (key e = k) then [e] else []).
Proof.
  intros Hs.
  rewrite (list_insert_ordered_split key less less_key).
  rewrite <- (take_drop_while (fun x => bool_decide (key x <= key e)) l) at 3.
  rewrite !filter_app, filter_cons.
  destruct (decide (key e = k)) as [He|He].
  - rewrite (filter_nil_of _ (drop_while _ l)).
    + rewrite app_nil_r. reflexivity.
    + intros x Hx. apply (ascending_drop_while (key e) l x Hs) in Hx. lia.
  - rewrite app_nil_r. reflexivity.
Qed.

Lemma filter_list_sort_from k l : forall acc,
  ascending_by key acc ->
  filter (fun x => key x = k)
    (fold_left (fun acc e => list_insert_ordered less e acc) l acc)
  = filter (fun x => key x = k) acc ++ filter (fun x => key x = k) l.
Proof.
  induction l as [|e l IH]; intros acc Hacc; cbn [fold_left].
  - rewrite app_nil_r. reflexivity.
  - rewrite IH by
      (apply (ascending_list_insert_ordered key less less_key); exact Hacc).
    rewrite filter_list_insert_ordered by exact Hacc.
    rewrite filter_cons. destruct (decide (key e = k)); cbn.
    + rewrite <- app_assoc. reflexivity.
    + rewrite app_nil_r. reflexivity.
Qed.

(** [list_sort] is a stable sort. *)
Lemma filter_list_sort k l :
  filter (fun x => key x = k) (list_sort less l)
  = filter (fun x => key x = k) l.
Proof. unfold list_sort. rewrite filter_list_sort_from by constructor. reflexivity. Qed.

End SortedLists.

(** ** Recomputing every priority *)

Lemma set_priority_twice a b th :
  set_priority a (set_priority b th) = set_priority a th.
Proof. reflexivity. Qed.

Lemma update_priority_value_set_priority f p th :
  update_priority_value f (set_priority p th) = update_priority_value f th.
Proof.
  unfold update_priority_value. cbn [recent_cpu nice set_priority]. reflexivity.
Qed.

Lemma update_priority_value_range f th :
  PRI_MIN <= update_priority_value f th <= PRI_MAX.
Proof. apply clamp_range. unfold PRI_MIN, PRI_MAX. lia. Qed.

Lemma foreach_update_priority f l : forall s,
  (forall t, t ∈ l -> is_Some (threads s !! t)) ->
  exists s',
    foreach (update_priority f) l s = Ok (tt, s') /\
    s' = set_threads (threads s') s /\
    forall t,
      threads s' !! t
      = (fun th => if bool_decide (t ∈ l /\ Some t <> idle_thread s)
                   then set_priority (update_priority_value f th) th
                   else th) <$> threads s !! t.
Proof.
  induction l as [|t l IH]; intros s Hall; cbn [foreach].
  - exists s. split; [reflexivity|]. split; [destruct s; reflexivity|].
    intros t. destruct (threads s !! t) as [th|]; cbn; [|reflexivity].
    rewrite bool_decide_eq_false_2; [reflexivity|].
    intros [Hin _]. apply elem_of_nil in Hin. exact Hin.
  - destruct (Hall t ltac:(left)) as (th & Hth).
    destruct (decide (idle_thread s = Some t)) as [Hidle|Hidle].
    + mstep (update_priority_idle f s t Hidle).
      destruct (IH s) as (s' & Hrun & Hrest & Hthr).
      { intros u Hu. apply Hall. right. exact Hu. }
      exists s'. split; [exact Hrun|]. split; [exact Hrest|].
      intros u. rewrite Hthr. destruct (threads s !! u) as [x|]; cbn; [|reflexivity].
      f_equal. apply (f_equal (fun b : bool => if b then _ else _)).
      apply bool_decide_ext. rewrite elem_of_cons. split; [tauto|].
      intros [[->|Hu] Hne]; [congruence | tauto].
    + mstep (update_priority_of f s t th Hth Hidle).
      set (s1 := set_threads _ s).
      destruct (IH s1) as (s' & Hrun & Hrest & Hthr).
      { intros u Hu. unfold s1. cbn. destruct (decide (u = t)) as [->|Hne].
        - rewrite lookup_insert_eq. eauto.
        - rewrite lookup_insert_ne by congruence. apply Hall. right. exact Hu. }
      exists s'. split; [exact Hrun|].
      split; [rewrite Hrest at 1; reflexivity|].
      intros u. rewrite Hthr. change (idle_thread s1) with (idle_thread s).
      unfold s1. cbn [threads set_threads].
      destruct (decide (u = t)) as [->|Hne].
      * rewrite lookup_insert_eq, Hth. cbn. f_equal.
        rewrite (bool_decide_eq_true_2 (t ∈ t :: l /\ _))
          by (split; [left | congruence]).
        case_bool_decide; [|reflexivity].
        rewrite update_priority_value_set_priority. apply set_priority_twice.
      * rewrite lookup_insert_ne by congruence.
        destruct (threads s !! u) as [x|]; cbn; [|reflexivity].
        f_equal. apply (f_equal (fun b : bool => if b then _ else _)).
        apply bool_decide_ext. rewrite elem_of_cons. split; [tauto|].
        intros [[->|Hu] Hne']; [congruence | tauto].
Qed.

(** X8: [update_priority_for_each], called with interrupts off,
    recomputes the priority of every thread on the all-threads list but
    the idle thread, within [PRI_MIN..PRI_MAX], and sorts the ready queue
    by descending priority: a permutation that keeps threads of equal
    priority in their order.  Called with interrupts on, it panics in
    [thread_foreach]. *)
Theorem update_priority_for_each_sorts (f : Z) (s : state) :
  (forall t, t ∈ all_list s -> is_Some (threads s !! t)) ->
  update_priority_for_each f INTR_ON s = Panic /\
  exists s',
    update_priority_for_each f INTR_OFF s = Ok (tt, s') /\
    ready_sorted s' /\ ready_list s' ≡ₚ ready_list s /\
    (forall p, filter (fun u => priority_at s' u = p) (ready_list s')
               = filter (fun u => priority_at s' u = p) (ready_list s)) /\
    (forall t th, threads s !! t = Some th ->
       threads s' !! t
       = Some (if bool_decide (t ∈ all_list s /\ Some t <> idle_thread s)
               then set_priority (update_priority_value f th) th
               else th)) /\
    (forall t, t ∈ all_list s -> Some t <> idle_thread s ->
               PRI_MIN <= priority_at s' t <= PRI_MAX).
Proof.
  intros Hall. split; [reflexivity|].
  unfold update_priority_for_each, thread_foreach. mprim.
  destruct (foreach_update_priority f (all_list s) s Hall)
    as (s1 & Hrun & Hrest & Hthr).
  mstep Hrun.
  set (s' := set_ready_list
               (list_sort (thread_priority_more s1) (ready_list s1)) s1).
  assert (Hrl1 : ready_list s1 = ready_list s) by (rewrite Hrest; reflexivity).
  assert (Hp : forall u, priority_at s' u = priority_at s1 u) by reflexivity.
  assert (Hkey : forall a b,
            thread_priority_more s1 a b
            = (- priority_at s1 a <? - priority_at s1 b)).
  { intros a b. unfold thread_priority_more.
    destruct (Z.ltb_spec (priority_at s1 b) (priority_at s1 a)),
      (Z.ltb_spec (- priority_at s1 a) (- priority_at s1 b)); lia. }
  exists s'. split; [reflexivity|]. split; [|split; [|split; [|split]]].
  - unfold ready_sorted, ready_priorities.
    apply (descending_fmap (priority_at s')).
    apply (list_sort_ascending (fun u => - priority_at s1 u)
             (thread_priority_more s1) Hkey).
  - unfold s'. cbn. rewrite list_sort_perm, Hrl1. reflexivity.
  - intros p. unfold s'. cbn [ready_list set_ready_list]. rewrite <- Hrl1.
    pose proof (filter_list_sort (fun u => - priority_at s1 u)
                  (thread_priority_more s1) Hkey (- p) (ready_list s1)) as Hst.
    assert (Hflt : forall l : list Z,
              filter (fun u => priority_at s1 u = p) l
              = filter (fun u => - priority_at s1 u = - p) l).
    { intros l. apply list_filter_iff. intros x. lia. }
    change (fun u => priority_at (set_ready_list
                       (list_sort (thread_priority_more s1) (ready_list s1)) s1) u = p)
      with (fun u => priority_at s1 u = p).
    rewrite !Hflt. exact Hst.
  - intros t th Hth. change (threads s') with (threads s1).
    rewrite Hthr, Hth. reflexivity.
  - intros t Ht Hne. rewrite Hp. unfold priority_at. rewrite Hthr.
    destruct (Hall t Ht) as (th & Hth). rewrite Hth. cbn.
    rewrite bool_decide_eq_true_2 by (split; assumption). cbn.
    apply update_priority_value_range.
Qed.

(** ** Decay of recent_cpu *)

Lemma decay_range f la : 0 < f -> 0 <= la -> 0 <= decay f la < f.
Proof.
  intros Hf Hla. unfold decay. split.
  - apply Z.div_pos; nia.
  - apply Z.div_lt_upper_bound; nia.
Qed.

Lemma quot_scaled_bound c rc f :
  0 < f -> 0 <= c < f -> Z.abs (Z.quot (c * rc) f) <= Z.abs rc.
Proof.
  intros Hf Hc. rewrite <- Z.quot_abs by lia.
  rewrite (Z.abs_eq f) by lia. rewrite Z.abs_mul, (Z.abs_eq c) by lia.
  rewrite Z.quot_div_nonneg by (try lia; pose proof (Z.abs_nonneg rc); nia).
  apply Z.div_le_upper_bound; [lia|]. pose proof (Z.abs_nonneg rc). nia.
Qed.

Lemma recent_cpu_value f la rc nc :
  0 < f -> 0 <= la -> 2 * la + f <= INT_MAX ->
  Z.abs rc + Z.abs (nc * f) <= INT_MAX ->
  ADD_INT f (MULT_INT la 2) 1 = 2 * la + f /\
  ADD_INT f (MULT f (DIV f (MULT_INT la 2) (2 * la + f)) rc) nc
  = recent_cpu_next f la rc nc.
Proof.
  intros Hf Hla Hden Hsum.
  pose proof (decay_range f la Hf Hla) as Hc.
  pose proof (quot_scaled_bound (decay f la) rc f Hf Hc) as Hq.
  assert (Hmax : INT_MAX = 2147483647) by reflexivity.
  assert (Hmin : INT_MIN = -2147483648) by reflexivity.
  assert (H2la : MULT_INT la 2 = 2 * la).
  { unfold MULT_INT. rewrite int32_small; [lia|]. unfold in_int. lia. }
  assert (Hone : int32 (1 * f) = f).
  { rewrite int32_small; [lia|]. unfold in_int. lia. }
  split.
  { unfold ADD_INT. rewrite H2la, Hone. apply int32_small. unfold in_int. lia. }
  assert (Hdiv : DIV f (MULT_INT la 2) (2 * la + f) = decay f la).
  { unfold DIV. rewrite H2la. rewrite int64_small.
    - rewrite Z.quot_div_nonneg by nia.
      apply int32_small. unfold in_int. fold (decay f la). lia.
    - unfold in_int64, INT64_MIN, INT64_MAX. nia. }
  rewrite Hdiv. unfold MULT, ADD_INT, recent_cpu_next.
  assert (Hprod : in_int64 (decay f la * rc)).
  { unfold in_int64, INT64_MIN, INT64_MAX.
    assert (Z.abs (decay f la * rc) <= 2147483647 * 2147483647).
    { rewrite Z.abs_mul, (Z.abs_eq (decay f la)) by lia.
      pose proof (Z.abs_nonneg rc). pose proof (Z.abs_nonneg (nc * f)). nia. }
    lia. }
  rewrite (int64_small _ Hprod).
  pose proof (Z.abs_nonneg rc). pose proof (Z.abs_nonneg (nc * f)).
  rewrite (int32_small (Z.quot _ f)) by (unfold in_int; lia).
  rewrite (int32_small (nc * f)) by (unfold in_int; lia).
  apply int32_small. unfold in_int. lia.
Qed.

(** X9: [update_recent_cpu] stores [c * recent_cpu / f + nice * f],
    the quotient truncated towards zero, for the coefficient
    [c = 2 * load_avg * f / (2 * load_avg + f)], which lies in [0, f);
    nothing wraps around under the bounds assumed.  The result is within
    [|recent_cpu|] of [nice * f], and with a load average of 0 it is
    [nice * f]. *)
Theorem update_recent_cpu_decays (f : Z) (s : state) (t : Z) (th : thread) :
  threads s !! t = Some th -> Some t <> idle_thread s ->
  0 < f -> 0 <= load_avg s -> 2 * load_avg s + f <= INT_MAX ->
  Z.abs (recent_cpu th) + Z.abs (nice th * f) <= INT_MAX ->
  let rc' := recent_cpu_next f (load_avg s) (recent_cpu th) (nice th) in
  update_recent_cpu f t s
  = Ok (tt, set_threads (<[t := set_recent_cpu rc' th]> (threads s)) s) /\
  0 <= decay f (load_avg s) < f /\
  Z.abs (rc' - nice th * f) <= Z.abs (recent_cpu th) /\
  (load_avg s = 0 -> rc' = nice th * f).
Proof.
  intros Hth Hidle Hf Hla Hden Hsum rc'.
  destruct (recent_cpu_value f (load_avg s) (recent_cpu th) (nice th)
              Hf Hla Hden Hsum) as [Hd Hv].
  pose proof (decay_range f (load_avg s) Hf Hla) as Hc.
  split; [|split; [exact Hc|split]].
  - unfold update_recent_cpu. mprim.
    rewrite bool_decide_eq_false_2 by exact Hidle. mprim. rewrite Hd.
    destruct (Z.eqb_spec (2 * load_avg s + f) 0); [lia|].
    mstep (deref_of _ _ _ Hth). rewrite Hv.
    exact (update_thread_of s t th _ Hth).
  - unfold rc', recent_cpu_next.
    replace (_ + nice th * f - nice th * f)
      with (Z.quot (decay f (load_avg s) * recent_cpu th) f) by lia.
    apply quot_scaled_bound; assumption.
  - intros H0. unfold rc', recent_cpu_next, decay. rewrite H0. cbn.
    rewrite Z.div_0_l by lia. rewrite Z.mul_0_l, Z.quot_0_l by lia. lia.
Qed.

(** ** Reading the load average and recent_cpu *)

Lemma CONVERT_TO_INT_ROUND_nearest f x :
  0 < f -> Z.even f = true -> Z.abs x + f / 2 <= INT_MAX ->
  CONVERT_TO_INT_ROUND f x = round_nearest x f.
Proof.
  intros Hf He Hx. pose proof (even_half f He) as Hh.
  assert (Hmax : INT_MAX = 2147483647) by reflexivity.
  assert (Hmin : INT_MIN = -2147483648) by reflexivity.
  set (h := f / 2) in *. assert (0 < h) by lia.
  assert (Hq : Z.quot f 2 = h).
  { unfold h. apply Z.quot_div_nonneg; lia. }
  unfold CONVERT_TO_INT_ROUND, round_nearest. rewrite Hq.
  destruct (Z.leb_spec 0 x) as [Hpos|Hneg].
  - rewrite (int32_small (x + h)) by (unfold in_int; lia).
    rewrite Z.quot_div_nonneg by lia.
    assert (0 <= (x + h) / f <= x + h).
    { split; [apply Z.div_pos; lia|].
      apply Z.div_le_upper_bound; [lia | nia]. }
    rewrite int32_small by (unfold in_int; lia).
    rewrite Hh at 2 3. replace (2 * x + 2 * h) with (2 * (x + h)) by lia.
    rewrite Z.div_mul_cancel_l by lia. rewrite <- Hh. reflexivity.
  - rewrite (int32_small (x - h)) by (unfold in_int; lia).
    replace (x - h) with (- (h - x)) by lia.
    rewrite Z.quot_opp_l by lia. rewrite Z.quot_div_nonneg by lia.
    assert (0 <= (h - x) / f <= h - x).
    { split; [apply Z.div_pos; lia|].
      apply Z.div_le_upper_bound; [lia | nia]. }
    rewrite int32_small by (unfold in_int; lia).
    f_equal. rewrite Hh at 2 3.
    replace (2 * - x + 2 * h) with (2 * (h - x)) by lia.
    rewrite Z.div_mul_cancel_l by lia. rewrite <- Hh. reflexivity.
Qed.

(** X10: [thread_get_load_avg] and [thread_get_recent_cpu] return 100
    times the load average, and 100 times the [recent_cpu] of the running
    thread, rounded to the nearest integer, and change no state. *)
Theorem thread_get_load_avg_rounds (f : Z) (s : state) (th : thread) :
  running_ok s -> threads s !! running s = Some th ->
  0 < f -> Z.even f = true ->
  (Z.abs (100 * load_avg s) + f / 2 <= INT_MAX ->
   exists r, thread_get_load_avg f s = Ok (r, s) /\
             r = round_nearest (100 * load_avg s) f /\
             Z.abs (2 * (100 * load_avg s - f * r)) <= f) /\
  (Z.abs (100 * recent_cpu th) + f / 2 <= INT_MAX ->
   exists r, thread_get_recent_cpu f s = Ok (r, s) /\
             r = round_nearest (100 * recent_cpu th) f /\
             Z.abs (2 * (100 * recent_cpu th - f * r)) <= f).
Proof.
  intros Hrun Hth Hf He.
  assert (Hmax : INT_MAX = 2147483647) by reflexivity.
  assert (Hmin : INT_MIN = -2147483648) by reflexivity.
  assert (Hh : 0 <= f / 2) by (apply Z.div_pos; lia).
  split; intros Hx; eexists; (split; [|split; [reflexivity|]]).
  - unfold thread_get_load_avg. mprim. unfold ret, MULT_INT.
    rewrite (int32_small (load_avg s * 100)) by (unfold in_int; lia).
    rewrite CONVERT_TO_INT_ROUND_nearest by (try assumption; lia).
    rewrite (Z.mul_comm (load_avg s) 100). reflexivity.
  - apply round_nearest_is_nearest. exact Hf.
  - unfold thread_get_recent_cpu. mstep (thread_current_of _ Hrun).
    mstep (deref_of _ _ _ Hth). unfold ret, MULT_INT.
    rewrite (int32_small (recent_cpu th * 100)) by (unfold in_int; lia).
    rewrite CONVERT_TO_INT_ROUND_nearest by (try assumption; lia).
    rewrite (Z.mul_comm (recent_cpu th) 100). reflexivity.
  - apply round_nearest_is_nearest. exact Hf.
Qed.

(** ** Setting the niceness *)

(** X11: [thread_set_nice] with a niceness in range keeps the scheduler
    invariant; it does nothing for the idle thread, and otherwise stores
    the niceness and recomputes the priority of the caller, within
    [PRI_MIN..PRI_MAX], whether or not the MLFQS scheduler is on. *)
Theorem thread_set_nice_effect (f : Z) (s : state) (n : Z) (th : thread) :
  sched_inv s -> threads s !! running s = Some th ->
  NICE_MIN <= n <= NICE_MAX ->
  exists s',
    thread_set_nice f n s = Ok (tt, s') /\ sched_inv s' /\
    (Some (running s) = idle_thread s -> s' = s) /\
    (Some (running s) <> idle_thread s ->
     exists th',
       threads s' !! running s = Some th' /\
       nice th' = n /\
       priority th' = update_priority_value f (set_nice n th) /\
       PRI_MIN <= priority th' <= PRI_MAX /\
       old_priority th' = old_priority th /\
       recent_cpu th' = recent_cpu th).
Proof.
  intros Hinv Hth Hn. pose proof Hinv as (Hc & Hrun & Hctx).
  unfold thread_set_nice.
  destruct (Z.ltb_spec NICE_MAX n); [lia|].
  destruct (Z.ltb_spec n NICE_MIN); [lia|]. cbn [orb].
  mstep (thread_current_of _ Hrun).
  case_bool_decide as Hidle.
  { exists s. split; [reflexivity|]. split; [exact Hinv|].
    split; [reflexivity|]. intros Hne. contradiction. }
  mstep (update_thread_of _ _ _ (set_nice n) Hth).
  set (th1 := set_nice n th). set (s1 := set_threads _ s).
  assert (Hinv1 : sched_inv s1).
  { apply (sched_inv_update s (running s) th th1); auto. }
  assert (Hth1 : threads s1 !! running s = Some th1)
    by (unfold s1; cbn; apply lookup_insert_eq).
  assert (Hidle1 : idle_thread s1 <> Some (running s)) by (cbn; congruence).
  mstep (update_priority_of f s1 (running s) th1 Hth1 Hidle1).
  set (th2 := set_priority (update_priority_value f th1) th1).
  set (s2 := set_threads _ s1).
  assert (Hinv2 : sched_inv s2).
  { apply (sched_inv_update s1 (running s) th1 th2); auto. }
  assert (Hth2 : threads s2 !! running s = Some th2)
    by (unfold s2; cbn; apply lookup_insert_eq).
  mstep (deref_of _ _ _ Hth2).
  assert (Hst2 : status th2 = THREAD_RUNNING).
  { destruct Hrun as (x & Hx & _ & Hxs). assert (x = th) by congruence.
    subst x. exact Hxs. }
  rewrite Hst2.
  destruct (thread_cond_yield_of s2 Hinv2) as (s' & Hy & Hinv' & _ & _ & Hsame).
  exists s'. split; [exact Hy|]. split; [exact Hinv'|].
  split; [intros Hi; contradiction|]. intros _.
  destruct (same_but_status_lookup _ _ _ _ Hsame Hth2) as (th' & Hth' & Heq).
  exists th'. split; [exact Hth'|]. rewrite Heq. cbn.
  split; [reflexivity|]. split; [reflexivity|].
  split; [apply update_priority_value_range|]. auto.
Qed.

(** ** What a context switch leaves alone *)

Lemma switch_frame_refl s : switch_frame s s.
Proof. repeat split. Qed.

Lemma switch_frame_trans s1 s2 s3 :
  switch_frame s1 s2 -> switch_frame s2 s3 -> switch_frame s1 s3.
Proof.
  unfold switch_frame. intros H12 H23.
  repeat match goal with H : _ /\ _ |- _ => destruct H as [? H] end.
  repeat split; congruence.
Qed.

Lemma thread_yield_frame s :
  sched_inv s ->
  exists s',
    thread_yield s = Ok (tt, s') /\ sched_inv s' /\
    same_but_status s s' /\ switch_frame s s'.
Proof.
  intros Hinv. pose proof Hinv as (Hc & Hrun & Hctx).
  destruct Hrun as (cth & Hcur & Hm & Hst).
  pose proof (yielded_core s cth Hinv Hcur) as Hyc.
  assert (Hthr : threads (yielded s cth)
                 = <[running s := set_status THREAD_READY cth]> (threads s)).
  { unfold yielded. case_bool_decide; reflexivity. }
  assert (Hcur' : threads (yielded s cth) !! running (yielded s cth)
                  = Some (set_status THREAD_READY cth)).
  { rewrite Hthr. unfold yielded. case_bool_decide; apply lookup_insert_eq. }
  assert (Hctx' : intr_context (yielded s cth) = false).
  { unfold yielded. case_bool_decide; exact Hctx. }
  destruct (schedule_inv _ _ Hyc Hctx' Hcur') as (n & nth & Hnext & Hn & Hs & Hi);
    [discriminate | discriminate |].
  exists (dispatch n nth (yielded s cth)).
  split; [rewrite (thread_yield_run s cth) by assumption; exact Hs|].
  split; [exact Hi|]. split.
  - eapply same_but_status_trans.
    + eapply same_but_status_insert; [exact Hcur | exact Hthr].
    + apply dispatch_same_but_status. exact Hn.
  - unfold switch_frame, yielded. case_bool_decide; repeat split.
Qed.

Lemma thread_cond_yield_frame s :
  sched_inv s ->
  exists s', thread_cond_yield s = Ok (tt, s') /\ sched_inv s' /\
             same_but_status s s' /\ switch_frame s s'.
Proof.
  intros Hinv. pose proof Hinv as (Hc & Hrun & Hctx).
  pose proof Hrun as (cth & Hcur & Hm & Hst).
  assert (Hstay : sched_inv s /\ same_but_status s s /\ switch_frame s s).
  { split; [exact Hinv|]. split; [apply same_but_status_refl|].
    apply switch_frame_refl. }
  unfold thread_cond_yield. mstep (thread_current_of _ Hrun).
  case_bool_decide; [exists s; split; [reflexivity | exact Hstay]|].
  mprim. destruct (ready_list s) as [|front rest] eqn:Hrl;
    [exists s; split; [reflexivity | exact Hstay]|].
  mstep (thread_current_of _ Hrun). mstep (deref_of _ _ _ Hcur).
  destruct (inv_ready s Hc front) as (fth & Hfth & _); [rewrite Hrl; left|].
  mstep (deref_of _ _ _ Hfth).
  destruct (priority cth <? priority fth);
    [|exists s; split; [reflexivity | exact Hstay]].
  apply thread_yield_frame. exact Hinv.
Qed.

(** ** Creating a thread: the new thread and its child record *)

(** [init_thread] on its own: a blocked thread with the given priority,
    the niceness of the running thread and, for [recent_cpu], what
    [thread_get_recent_cpu] returns. *)
Lemma init_thread_of f s t nm prio cth :
  running_ok s -> threads s !! running s = Some cth ->
  PRI_MIN <= prio <= PRI_MAX ->
  let inherit := negb (bool_decide (Some t = initial_thread s)) in
  let th :=
    mkThread 0 THREAD_BLOCKED (String.substring 0 15 nm) prio 0
      (if inherit
       then CONVERT_TO_INT_ROUND f (MULT_INT (recent_cpu cth) 100) else 0)
      (if inherit then nice cth else 0) prio [] None 0
      (mkSema 0 []) (mkSema 0 []) false None None THREAD_MAGIC None in
  init_thread f t nm prio s
  = Ok (tt,
        set_all_list
          (list_insert_ordered
             (thread_priority_more_allelem
                (set_threads (<[t := th]> (threads s)) s)) t (all_list s))
          (set_threads (<[t := th]> (threads s)) s)).
Proof.
  intros Hrun Hcur Hprio inherit th. unfold init_thread. mprim.
  destruct (Z.leb_spec PRI_MIN prio); [|lia].
  destruct (Z.leb_spec prio PRI_MAX); [|lia]. cbn [andb]. mprim.
  unfold th, inherit. case_bool_decide; cbn [negb].
  - mprim. reflexivity.
  - unfold thread_get_nice, thread_get_recent_cpu. mprim.
    mstep (thread_current_of _ Hrun). mstep (deref_of _ _ _ Hcur).
    mstep (thread_current_of _ Hrun). mstep (deref_of _ _ _ Hcur).
    reflexivity.
Qed.

(** X12: [init_thread] leaves a BLOCKED thread with the given priority,
    no lock and the name cut to 15 characters on the all-threads list; a
    thread other than the initial one takes the niceness of the running
    thread, and as [recent_cpu] the integer that [thread_get_recent_cpu]
    returns. *)
Theorem init_thread_inherits (f : Z) (s : state) (t : Z) (nm : string)
    (prio : Z) (cth : thread) :
  running_ok s -> threads s !! running s = Some cth ->
  PRI_MIN <= prio <= PRI_MAX -> Some t <> initial_thread s ->
  exists s' th,
    init_thread f t nm prio s = Ok (tt, s') /\
    threads s' !! t = Some th /\
    status th = THREAD_BLOCKED /\ magic th = THREAD_MAGIC /\
    priority th = prio /\ old_priority th = prio /\ locks th = [] /\
    name th = String.substring 0 15 nm /\
    nice th = nice cth /\
    recent_cpu th = CONVERT_TO_INT_ROUND f (MULT_INT (recent_cpu cth) 100) /\
    (0 < f -> Z.even f = true ->
     Z.abs (100 * recent_cpu cth) + f / 2 <= INT_MAX ->
     recent_cpu th = round_nearest (100 * recent_cpu cth) f) /\
    all_list s' ≡ₚ t :: all_list s /\
    (forall u, u <> t -> threads s' !! u = threads s !! u).
Proof.
  intros Hrun Hcur Hprio Hinit.
  pose proof (init_thread_of f s t nm prio cth Hrun Hcur Hprio) as Hrun'.
  cbn zeta in Hrun'. rewrite bool_decide_eq_false_2 in Hrun' by exact Hinit.
  cbn [negb] in Hrun'.
  eexists. eexists. split; [exact Hrun'|].
  split; [cbn; apply lookup_insert_eq|].
  repeat (split; [reflexivity|]). split; [|split].
  - intros Hf He Hx. cbn [recent_cpu]. unfold MULT_INT.
    assert (Hmax : INT_MAX = 2147483647) by reflexivity.
    assert (Hmin : INT_MIN = -2147483648) by reflexivity.
    assert (Hh : 0 <= f / 2) by (apply Z.div_pos; lia).
    rewrite (int32_small (recent_cpu cth * 100)) by (unfold in_int; lia).
    rewrite CONVERT_TO_INT_ROUND_nearest by (try assumption; lia).
    rewrite (Z.mul_comm (recent_cpu cth) 100). reflexivity.
  - cbn. apply list_insert_ordered_perm.
  - intros u Hne. cbn. rewrite lookup_insert_ne by congruence. reflexivity.
Qed.

(** [thread_create] up to its last step, with every member of the new
    thread and of its child record. *)
Lemma thread_create_spawned f s nm prio fn p1 p2 pool cth :
  sched_inv s -> thread_mlfqs s = false ->
  free_pages s = p1 :: p2 :: pool -> threads s !! p1 = None ->
  threads s !! running s = Some cth ->
  PRI_MIN <= prio <= PRI_MAX ->
  exists s5 th5,
    thread_create f nm prio (Some fn) s
      = (thread_cond_yield >> ret (next_tid s)) s5 /\
    sched_inv s5 /\
    threads s5 = <[p1 := th5]> (threads s) /\
    tid th5 = next_tid s /\ priority th5 = prio /\ old_priority th5 = prio /\
    status th5 = THREAD_READY /\ message_to_parent th5 = Some p2 /\
    cwd th5 = cwd cth /\
    child_infos s5 = <[p2 := new_child_info p1 (next_tid s)]> (child_infos s) /\
    child_list s5 = child_list s ++ [p2] /\
    next_tid s5 = int32 (next_tid s + 1) /\
    free_pages s5 = pool /\
    all_list s5 ≡ₚ p1 :: all_list s.
Proof.
  intros Hinv Hmlfqs Hfree Hfresh Hcur Hprio.
  pose proof Hinv as (Hc & Hrun & Hctx).
  assert (Hp1 : p1 <> running s) by congruence.
  unfold thread_create.
  rewrite bool_decide_eq_true_2 by discriminate. mprim.
  unfold palloc_get_page at 1. unfold bind at 1. rewrite Hfree.
  set (s0 := set_free_pages (p2 :: pool) s).
  assert (Hrun0 : running_ok s0) by exact Hrun.
  assert (Hcur0 : threads s0 !! running s0 = Some cth) by exact Hcur.
  pose proof (init_thread_of f s0 p1 nm prio cth Hrun0 Hcur0 Hprio) as Hinit.
  cbn zeta in Hinit. mstep Hinit.
  set (th0 := mkThread 0 THREAD_BLOCKED _ prio 0 _ _ prio [] None 0 _ _
                false None None THREAD_MAGIC None).
  set (s1 := set_all_list _ _).
  unfold allocate_tid. mprim.
  set (s2 := set_next_tid _ s1).
  assert (Hth2 : threads s2 !! p1 = Some th0)
    by (unfold s2, s1; cbn; apply lookup_insert_eq).
  mstep (update_thread_of _ _ _ (set_tid (next_tid s1)) Hth2).
  set (th1 := set_tid _ th0). set (s3 := set_threads _ s2).
  unfold palloc_get_page at 1. unfold bind at 1.
  change (free_pages s3) with (p2 :: pool). cbv iota. mprim.
  set (s4 := set_child_list _ _).
  assert (Hth4 : threads s4 !! p1 = Some th1)
    by (unfold s4, s3; cbn; apply lookup_insert_eq).
  mstep (update_thread_of _ _ _ (set_message_to_parent (Some p2)) Hth4).
  set (th2 := set_message_to_parent _ th1). set (s4' := set_threads _ s4).
  assert (Hcur4 : threads s4' !! running s4' = Some cth).
  { unfold s4', s4, s3, s2, s1. cbn.
    rewrite !lookup_insert_ne by congruence. exact Hcur. }
  assert (Hrun4 : running_ok s4').
  { destruct Hrun as (x & Hx & Hxm & Hxs). assert (x = cth) by congruence.
    subst x. exists cth. auto. }
  mstep (thread_current_of _ Hrun4).
  mstep (deref_of _ _ _ Hcur4).
  assert (Hth4' : threads s4' !! p1 = Some th2)
    by (unfold s4'; cbn; apply lookup_insert_eq).
  mstep (update_thread_of _ _ _
           (set_cwd match cwd cth with Some d => dir_reopen d | None => None end)
           Hth4').
  set (th3 := set_cwd _ th2). set (sx := set_threads _ s4').
  assert (Hthx : threads sx !! p1 = Some th3)
    by (unfold sx; cbn; apply lookup_insert_eq).
  mstep (thread_unblock_of sx p1 th3 Hthx eq_refl eq_refl).
  mprim. change (thread_mlfqs (unblocked p1 th3 sx)) with (thread_mlfqs s).
  rewrite Hmlfqs. mprim.
  exists (unblocked p1 th3 sx), (set_status THREAD_READY th3).
  assert (Hthr : threads (unblocked p1 th3 sx)
                 = <[p1 := set_status THREAD_READY th3]> (threads s)).
  { unfold unblocked, sx, s4', s4, s3, s2, s1. cbn.
    rewrite !insert_insert_eq. reflexivity. }
  split; [reflexivity|].
  split.
  { eapply (sched_inv_spawn s _ p1 _ (thread_priority_more sx));
      try exact Hinv; try exact Hfresh; try exact Hthr; reflexivity. }
  split; [exact Hthr|].
  repeat (split; [reflexivity|]).
  split; [cbn; destruct (cwd cth); reflexivity|].
  repeat (split; [reflexivity|]).
  cbn. apply list_insert_ordered_perm.
Qed.

Lemma thread_create_full f s nm prio fn p1 p2 pool cth :
  sched_inv s -> thread_mlfqs s = false ->
  free_pages s = p1 :: p2 :: pool -> threads s !! p1 = None ->
  threads s !! running s = Some cth ->
  PRI_MIN <= prio <= PRI_MAX ->
  exists s' th',
    thread_create f nm prio (Some fn) s = Ok (next_tid s, s') /\
    sched_inv s' /\
    threads s' !! p1 = Some th' /\
    tid th' = next_tid s /\ priority th' = prio /\ old_priority th' = prio /\
    message_to_parent th' = Some p2 /\ cwd th' = cwd cth /\
    (forall t th, threads s !! t = Some th ->
       exists th2, threads s' !! t = Some th2 /\ th2 = set_status (status th2) th) /\
    (forall t, t <> p1 -> threads s !! t = None -> threads s' !! t = None) /\
    child_infos s' = <[p2 := new_child_info p1 (next_tid s)]> (child_infos s) /\
    child_list s' = child_list s ++ [p2] /\
    next_tid s' = int32 (next_tid s + 1) /\
    free_pages s' = pool /\
    all_list s' ≡ₚ p1 :: all_list s.
Proof.
  intros Hinv Hmlfqs Hfree Hfresh Hcur Hprio.
  destruct (thread_create_spawned f s nm prio fn p1 p2 pool cth Hinv Hmlfqs
              Hfree Hfresh Hcur Hprio)
    as (s5 & th5 & Hrun5 & Hinv5 & Hthr5 & Htid & Hp & Hop & Hst & Hmsg & Hcwd
        & Hci & Hcl & Hnt & Hfp & Hal).
  destruct (thread_cond_yield_frame s5 Hinv5)
    as (s' & Hcy & Hinv' & Hsame & Hframe).
  destruct Hframe as (Fci & _ & Ffp & _ & Fal & Fcl & _ & _ & _ & _ & Fnt & _).
  assert (Hth5 : threads s5 !! p1 = Some th5)
    by (rewrite Hthr5; apply lookup_insert_eq).
  destruct (same_but_status_lookup _ _ _ _ Hsame Hth5) as (th' & Hth' & Heq).
  exists s', th'. split; [rewrite Hrun5; mstep Hcy; reflexivity|].
  split; [exact Hinv'|]. split; [exact Hth'|].
  rewrite Heq. cbn [tid priority old_priority message_to_parent cwd set_status].
  repeat (split; [assumption|]).
  split.
  { intros t th Hth. assert (Hne : t <> p1) by congruence.
    apply (same_but_status_lookup s5 s' t th Hsame).
    rewrite Hthr5, lookup_insert_ne by congruence. exact Hth. }
  split.
  { intros t Hne Hnone. specialize (Hsame t).
    rewrite Hthr5, lookup_insert_ne in Hsame by congruence.
    rewrite Hnone in Hsame. destruct (threads s' !! t); [tauto | reflexivity]. }
  rewrite Fci, Fcl, Fnt, Ffp, Fal. auto.
Qed.

(** ** Thread identifiers *)

(** X13: the identifier that [thread_create] returns is [next_tid], no
    other thread has it, and every identifier in use stays below
    [next_tid]. *)
Theorem thread_create_fresh_tid (f : Z) (s : state) (nm : string)
    (prio fn p1 p2 : Z) (pool : list Z) :
  sched_inv s -> thread_mlfqs s = false ->
  free_pages s = p1 :: p2 :: pool -> threads s !! p1 = None ->
  PRI_MIN <= prio <= PRI_MAX ->
  ids_below s -> next_tid s < INT_MAX -> INT_MIN <= next_tid s ->
  exists s' th',
    thread_create f nm prio (Some fn) s = Ok (next_tid s, s') /\
    threads s' !! p1 = Some th' /\ tid th' = next_tid s /\
    (forall t th, t <> p1 -> threads s' !! t = Some th -> tid th <> next_tid s) /\
    next_tid s' = next_tid s + 1 /\
    ids_below s'.
Proof.
  intros Hinv Hmlfqs Hfree Hfresh Hprio [Hids Hcids] Hmax Hmin.
  pose proof Hinv as (_ & (cth & Hcur & _) & _).
  destruct (thread_create_full f s nm prio fn p1 p2 pool cth Hinv Hmlfqs
              Hfree Hfresh Hcur Hprio)
    as (s' & th' & Hrun & _ & Hth' & Htid & _ & _ & _ & _ & Hold & Hnone & Hci
        & _ & Hnt & _).
  assert (Hnt' : next_tid s' = next_tid s + 1).
  { rewrite Hnt. apply int32_small. unfold in_int. lia. }
  assert (Hother : forall t th, t <> p1 -> threads s' !! t = Some th ->
                     tid th < next_tid s).
  { intros t th Hne Hth. destruct (threads s !! t) as [x|] eqn:Hx.
    - destruct (Hold t x Hx) as (th2 & Hth2 & Heq).
      assert (th2 = th) by congruence. subst th2. rewrite Heq. cbn.
      apply (Hids t x Hx).
    - rewrite (Hnone t Hne Hx) in Hth. discriminate. }
  exists s', th'. split; [exact Hrun|]. split; [exact Hth'|].
  split; [exact Htid|]. split.
  { intros t th Hne Hth. specialize (Hother t th Hne Hth). lia. }
  split; [exact Hnt'|]. split.
  - intros t th Hth. rewrite Hnt'. destruct (decide (t = p1)) as [->|Hne].
    + assert (th = th') by congruence. subst th. lia.
    + specialize (Hother t th Hne Hth). lia.
  - intros i ci Hi. rewrite Hnt'. rewrite Hci in Hi.
    destruct (decide (i = p2)) as [->|Hne].
    + rewrite lookup_insert_eq in Hi. injection Hi as <-. cbn. lia.
    + rewrite lookup_insert_ne in Hi by congruence.
      specialize (Hcids i ci Hi). lia.
Qed.

(** ** Child records *)

Lemma get_child_info_from_of tid s l :
  (forall i, i ∈ l -> is_Some (child_infos s !! i)) ->
  get_child_info_from tid l s
  = Ok (snd <$> list_find (fun i => child_id_at s i = tid) l, s).
Proof.
  induction l as [|e l IH]; intros Hall; cbn [get_child_info_from].
  - reflexivity.
  - destruct (Hall e ltac:(left)) as (ci & Hci).
    unfold deref_info at 1. unfold bind at 1. rewrite Hci.
    assert (Hid : child_id_at s e = child_id ci)
      by (unfold child_id_at; rewrite Hci; reflexivity).
    cbn [list_find].
    destruct (Z.eqb_spec (child_id ci) tid) as [Heq|Hne].
    + rewrite decide_True by congruence. reflexivity.
    + rewrite decide_False by congruence.
      rewrite IH by (intros i Hi; apply Hall; right; exact Hi).
      destruct (list_find _ l) as [[n x]|]; reflexivity.
Qed.

(** X14: [get_child_info] changes no state and returns the first record
    of [child_list] with the identifier asked for, NULL exactly when there
    is none. *)
Theorem get_child_info_first (s : state) (tid : Z) :
  (forall i, i ∈ child_list s -> is_Some (child_infos s !! i)) ->
  exists r,
    get_child_info tid s = Ok (r, s) /\
    match r with
    | Some i =>
        child_id_at s i = tid /\
        exists pre post,
          child_list s = pre ++ i :: post /\
          forall j, j ∈ pre -> child_id_at s j <> tid
    | None => forall j, j ∈ child_list s -> child_id_at s j <> tid
    end.
Proof.
  intros Hall. unfold get_child_info. mprim.
  rewrite (get_child_info_from_of tid s (child_list s) Hall).
  eexists. split; [reflexivity|].
  destruct (list_find _ (child_list s)) as [[n i]|] eqn:Hfind; cbn.
  - apply list_find_Some in Hfind as (Hn & Hi & Hpre).
    split; [exact Hi|].
    exists (take n (child_list s)), (drop (S n) (child_list s)). split.
    + symmetry. apply take_drop_middle. exact Hn.
    + intros j Hj. apply list_elem_of_lookup in Hj as (k & Hk).
      pose proof (lookup_lt_Some _ _ _ Hk) as Hlen.
      rewrite length_take in Hlen.
      rewrite lookup_take_lt in Hk by lia. apply (Hpre k j Hk). lia.
  - apply list_find_None in Hfind. intros j Hj.
    rewrite Forall_forall in Hfind. apply Hfind. exact Hj.
Qed.

(** X15: after [thread_create], [get_child_info] of the identifier
    returned finds the record of the new thread, freshly filled in, and
    [message_to_parent] of the thread points to it. *)
Theorem thread_create_child_record (f : Z) (s : state) (nm : string)
    (prio fn p1 p2 : Z) (pool : list Z) :
  sched_inv s -> thread_mlfqs s = false ->
  free_pages s = p1 :: p2 :: pool -> threads s !! p1 = None ->
  PRI_MIN <= prio <= PRI_MAX ->
  (forall i, i ∈ child_list s ->
     exists ci, child_infos s !! i = Some ci /\ child_id ci <> next_tid s) ->
  exists s',
    thread_create f nm prio (Some fn) s = Ok (next_tid s, s') /\
    get_child_info (next_tid s) s' = Ok (Some p2, s') /\
    child_infos s' !! p2 = Some (new_child_info p1 (next_tid s)) /\
    (exists th', threads s' !! p1 = Some th' /\ tid th' = next_tid s /\
                 message_to_parent th' = Some p2).
Proof.
  intros Hinv Hmlfqs Hfree Hfresh Hprio Hold.
  pose proof Hinv as (_ & (cth & Hcur & _) & _).
  destruct (thread_create_full f s nm prio fn p1 p2 pool cth Hinv Hmlfqs
              Hfree Hfresh Hcur Hprio)
    as (s' & th' & Hrun & _ & Hth' & Htid & _ & _ & Hmsg & _ & _ & _ & Hci
        & Hcl & _).
  exists s'. split; [exact Hrun|].
  assert (Hp2 : child_infos s' !! p2 = Some (new_child_info p1 (next_tid s)))
    by (rewrite Hci; apply lookup_insert_eq).
  split; [|split; [exact Hp2 | exists th'; auto]].
  unfold get_child_info. mprim. rewrite get_child_info_from_of.
  2:{ intros i Hi. rewrite Hcl in Hi. rewrite Hci.
      destruct (decide (i = p2)) as [->|Hne].
      - rewrite lookup_insert_eq. eauto.
      - rewrite lookup_insert_ne by congruence.
        apply elem_of_app in Hi as [Hi|Hi].
        + destruct (Hold i Hi) as (ci & Hi' & _). eauto.
        + apply list_elem_of_singleton in Hi. contradiction. }
  destruct (list_find _ (child_list s')) as [[n i]|] eqn:Hfind; cbn.
  - apply list_find_Some in Hfind as (Hn & Hi & _).
    destruct (decide (i = p2)) as [->|Hne]; [reflexivity|]. exfalso.
    assert (Hin : i ∈ child_list s).
    { apply list_elem_of_lookup_2 in Hn. rewrite Hcl in Hn.
      apply elem_of_app in Hn as [Hn|Hn]; [exact Hn|].
      apply list_elem_of_singleton in Hn. contradiction. }
    destruct (Hold i Hin) as (ci & Hci' & Hne').
    unfold child_id_at in Hi. rewrite Hci, lookup_insert_ne in Hi by congruence.
    rewrite Hci' in Hi. cbn in Hi. contradiction.
  - exfalso. apply list_find_None in Hfind. rewrite Forall_forall in Hfind.
    apply (Hfind p2).
    + rewrite Hcl. apply elem_of_app. right. left.
    + unfold child_id_at. rewrite Hp2. reflexivity.
Qed.

(** ** Arguments that [thread_create] rejects *)

(** X16: [thread_create] panics on a NULL function; with a priority out
    of range it panics only if a page is free, and returns [TID_ERROR]
    without a change otherwise. *)
Theorem thread_create_rejects (f : Z) (s : state) (nm : string)
    (prio fn : Z) :
  thread_create f nm prio None s = Panic /\
  (prio < PRI_MIN \/ PRI_MAX < prio ->
   (free_pages s <> [] -> thread_create f nm prio (Some fn) s = Panic) /\
   (free_pages s = [] ->
    thread_create f nm prio (Some fn) s = Ok (TID_ERROR, s))).
Proof.
  split; [reflexivity|]. intros Hprio. split.
  - intros Hfree. unfold thread_create.
    rewrite bool_decide_eq_true_2 by discriminate. mprim.
    unfold palloc_get_page at 1. unfold bind at 1.
    destruct (free_pages s) as [|p1 pool]; [contradiction|].
    unfold init_thread.
    replace ((PRI_MIN <=? prio) && (prio <=? PRI_MAX)) with false.
    + reflexivity.
    + symmetry. apply andb_false_iff.
      destruct Hprio; [left; apply Z.leb_gt | right; apply Z.leb_gt]; lia.
  - intros Hfree. apply thread_create_no_page. exact Hfree.
Qed.

(** ** Switching away from a dying thread *)

Lemma schedule_on s : schedule INTR_ON s = Panic.
Proof.
  unfold schedule, running_thread, next_thread_to_run. mprim.
  destruct (ready_list s); mprim; reflexivity.
Qed.

Lemma schedule_of_dying s cth n nth :
  threads s !! running s = Some cth -> status cth = THREAD_DYING ->
  next_thread s = Some n ->
  threads s !! n = Some nth -> magic nth = THREAD_MAGIC ->
  n <> running s ->
  schedule INTR_OFF s
  = Ok (tt, if bool_decide (Some (running s) = initial_thread s)
            then dispatch n nth s
            else reclaimed (running s) (dispatch n nth s)).
Proof.
  intros Hc Hdy Hnext Hn Hm Hne. unfold schedule, running_thread. mprim.
  assert (Hpop : next_thread_to_run s
                 = Ok (Some n, set_ready_list (tail (ready_list s)) s)).
  { unfold next_thread_to_run, next_thread in *. mprim.
    destruct (ready_list s) as [|t rest] eqn:Hrl.
    - unfold gets. rewrite Hnext. destruct s; cbn in *; subst; reflexivity.
    - mprim. injection Hnext as ->. reflexivity. }
  mstep Hpop. set (s1 := set_ready_list _ s).
  assert (Hc1 : threads s1 !! running s = Some cth) by exact Hc.
  mstep (deref_of _ _ _ Hc1).
  rewrite bool_decide_eq_false_2 by (rewrite Hdy; discriminate).
  cbn [negb]. mprim.
  assert (Hn1 : threads s1 !! n = Some nth) by exact Hn.
  mstep (is_thread_of _ _ _ Hn1 Hm). mprim.
  unfold thread_schedule_tail, running_thread, switch_threads.
  rewrite bool_decide_eq_false_2 by congruence.
  mprim. set (s2 := set_running n s1).
  assert (Hn2 : threads s2 !! running s2 = Some nth) by exact Hn.
  mstep (update_thread_of _ _ _ (set_status THREAD_RUNNING) Hn2). mprim.
  set (s3 := set_thread_ticks 0 _).
  assert (Hc3 : threads s3 !! running s = Some cth).
  { unfold s3. cbn. rewrite lookup_insert_ne by congruence. exact Hc. }
  mstep (deref_of _ _ _ Hc3). mprim.
  rewrite bool_decide_eq_true_2 by exact Hdy. cbn [andb].
  change (initial_thread s3) with (initial_thread s).
  case_bool_decide; cbn [negb]; [reflexivity|].
  change (running s3) with n.
  rewrite bool_decide_eq_false_2
    by (intros Heq; apply Hne; symmetry; exact Heq).
  cbn [negb]. mprim. reflexivity.
Qed.

Lemma sched_inv_reclaimed s p :
  sched_inv s -> p <> running s -> p ∉ ready_list s -> p ∉ sleep_list s ->
  idle_thread s <> Some p -> sched_inv (reclaimed p s).
Proof.
  intros (Hc & Hrun & Hctx) Hpr Hprl Hpsl Hpi.
  assert (Hkeep : forall u st, u <> p -> thread_is s u st ->
                               thread_is (reclaimed p s) u st).
  { intros u st Hu (x & Hx & Hxm & Hxs). exists x. cbn.
    rewrite lookup_delete_ne by congruence. auto. }
  split; [|split; [apply (Hkeep (running s));
                     [intros Heq; apply Hpr; symmetry; exact Heq | exact Hrun]
                  | exact Hctx]].
  constructor.
  - intros u Hu. apply Hkeep; [intros ->; contradiction|].
    apply (inv_ready s Hc). exact Hu.
  - intros u Hu. apply Hkeep; [intros ->; contradiction|].
    apply (inv_sleep s Hc). exact Hu.
  - destruct (inv_idle s Hc) as (i & ith & Hi & Hith & Hmi & Hir & His).
    exists i, ith. cbn. rewrite lookup_delete_ne by congruence.
    repeat split; assumption.
  - exact (inv_ready_nodup s Hc).
  - exact (inv_sleep_nodup s Hc).
  - apply (sleep_sorted_ext s); [reflexivity | | exact (inv_sleep_sorted s Hc)].
    intros u Hu. unfold wakeup_time_at. cbn.
    rewrite lookup_delete_ne; [reflexivity|]. intros <-. contradiction.
Qed.

(** X17: [schedule], entered with interrupts off and the running thread
    marked DYING, as [thread_exit] leaves it: the front of the ready queue
    (or the idle thread) runs next, and [thread_schedule_tail] gives the
    page of the dying thread back to the page allocator, unless it is the
    initial thread, whose page is kept.  The other threads are untouched
    and the scheduler invariant holds afterwards.  Entered with
    interrupts on, [schedule] panics. *)
Theorem schedule_reclaims_dying (s : state) (cth : thread) :
  sched_core s -> intr_context s = false ->
  threads s !! running s = Some cth -> status cth = THREAD_DYING ->
  running s ∉ ready_list s -> running s ∉ sleep_list s ->
  Some (running s) <> idle_thread s ->
  schedule INTR_ON s = Panic /\
  exists s' n,
    schedule INTR_OFF s = Ok (tt, s') /\ sched_inv s' /\
    next_thread s = Some n /\ running s' = n /\ n <> running s /\
    thread_is s' n THREAD_RUNNING /\
    ready_list s' = tail (ready_list s) /\ thread_ticks s' = 0 /\
    (initial_thread s <> Some (running s) ->
     threads s' !! running s = None /\
     free_pages s' = running s :: free_pages s) /\
    (initial_thread s = Some (running s) ->
     threads s' !! running s = Some cth /\ free_pages s' = free_pages s) /\
    (forall u, u <> running s -> u <> n -> threads s' !! u = threads s !! u).
Proof.
  intros Hc Hctx Hcur Hdy Hnr Hns Hnidle. split; [apply schedule_on|].
  destruct (next_thread_some s Hc) as (n & Hnext).
  destruct (next_thread_live s n Hc Hnext) as (nth & Hn & Hnm).
  assert (Hne : n <> running s).
  { intros ->. unfold next_thread in Hnext.
    destruct (ready_list s) as [|t0 rest] eqn:Hrl.
    - apply Hnidle. symmetry. exact Hnext.
    - injection Hnext as ->. apply Hnr. left. }
  pose proof (dispatch_inv s n nth Hc Hctx Hnext Hn) as Hinvd.
  assert (Htail : running s ∉ tail (ready_list s)).
  { intros Hin. apply Hnr. destruct (ready_list s); cbn in Hin.
    - apply elem_of_nil in Hin. tauto.
    - right. exact Hin. }
  assert (Hrunning : thread_is (dispatch n nth s) n THREAD_RUNNING).
  { exists (set_status THREAD_RUNNING nth). cbn. rewrite lookup_insert_eq.
    auto. }
  rewrite (schedule_of_dying s cth n nth Hcur Hdy Hnext Hn Hnm Hne).
  case_bool_decide as Hinit.
  - exists (dispatch n nth s), n. split; [reflexivity|].
    split; [exact Hinvd|]. split; [exact Hnext|]. split; [reflexivity|].
    split; [exact Hne|]. split; [exact Hrunning|].
    split; [reflexivity|]. split; [reflexivity|].
    split; [intros Hx; congruence|]. split.
    { intros _. split; [|reflexivity]. cbn.
      rewrite lookup_insert_ne by congruence. exact Hcur. }
    intros u Hu1 Hu2. cbn. rewrite lookup_insert_ne by congruence.
    reflexivity.
  - exists (reclaimed (running s) (dispatch n nth s)), n.
    split; [reflexivity|]. split.
    { apply sched_inv_reclaimed;
        [exact Hinvd | cbn; congruence | exact Htail | exact Hns |].
      cbn. congruence. }
    split; [exact Hnext|]. split; [reflexivity|]. split; [exact Hne|].
    split.
    { destruct Hrunning as (x & Hx & Hxx). exists x. split; [|exact Hxx].
      cbn. rewrite lookup_delete_ne by congruence. exact Hx. }
    split; [reflexivity|]. split; [reflexivity|]. split.
    { intros _. split; [cbn; apply lookup_delete_eq | reflexivity]. }
    split; [intros Hx; congruence|].
    intros u Hu1 Hu2. cbn. rewrite lookup_delete_ne by congruence.
    rewrite lookup_insert_ne by congruence. reflexivity.
Qed.

(** ** Donation to a ready thread *)

Section RemoveFromSorted.

Context {A : Type} {EqA : EqDecision A}.
Variable key : A -> Z.

Lemma ascending_head_min (y : A) l x :
  ascending_by key (y :: l) -> x ∈ l -> key y <= key x.
Proof.
  unfold ascending_by. revert y. induction l as [|b l IH]; intros y Hs Hx.
  - apply elem_of_nil in Hx. tauto.
  - apply Sorted_inv in Hs as [Hs Hhd]. apply HdRel_inv in Hhd.
    apply elem_of_cons in Hx as [->|Hx]; [exact Hhd|].
    specialize (IH b Hs Hx). lia.
Qed.

Lemma ascending_list_remove (e : A) l :
  ascending_by key l -> ascending_by key (list_remove e l).
Proof.
  induction l as [|y l IH]; cbn; intros Hs; [exact Hs|].
  destruct (decide (y = e)).
  - unfold ascending_by in *. apply Sorted_inv in Hs. tauto.
  - pose proof (ascending_head_min y l) as Hmin.
    unfold ascending_by in *. pose proof Hs as Hs0.
    apply Sorted_inv in Hs as [Hs Hhd]. constructor; [apply IH; exact Hs|].
    destruct (list_remove e l) as [|z l'] eqn:Hrem; constructor.
    apply (Hmin z Hs0). apply (elem_of_list_remove e l z).
    rewrite Hrem. left.
Qed.

End RemoveFromSorted.

Lemma list_remove_perm {A : Type} {EqA : EqDecision A} (e : A) l :
  e ∈ l -> e :: list_remove e l ≡ₚ l.
Proof.
  induction l as [|y l IH]; cbn; intros Hin.
  - apply elem_of_nil in Hin. tauto.
  - destruct (decide (y = e)) as [->|Hne]; [reflexivity|].
    apply elem_of_cons in Hin as [->|Hin]; [congruence|].
    rewrite Permutation_swap, (IH Hin). reflexivity.
Qed.

Lemma list_remove_list_insert_ordered {A : Type} {EqA : EqDecision A}
    (lt : A -> A -> bool) (e : A) l :
  e ∉ l -> list_remove e (list_insert_ordered lt e l) = l.
Proof.
  induction l as [|y l IH]; cbn; intros Hin.
  - rewrite decide_True by reflexivity. reflexivity.
  - apply not_elem_of_cons in Hin as [Hne Hin]. destruct (lt e y); cbn.
    + rewrite decide_True by reflexivity. reflexivity.
    + rewrite decide_False by congruence. rewrite IH by exact Hin. reflexivity.
Qed.

(** X18: [thread_donate_priority] on a READY thread gives it the
    priority of the running thread, changes no other priority and keeps
    the ready queue a sorted permutation of what it was. *)
Theorem thread_donate_priority_sorted (s : state) (t : Z) (cth th : thread) :
  running_ok s -> threads s !! running s = Some cth ->
  threads s !! t = Some th -> status th = THREAD_READY ->
  t ∈ ready_list s -> NoDup (ready_list s) -> ready_sorted s ->
  exists s',
    thread_donate_priority t s = Ok (tt, s') /\
    running s' = running s /\
    ready_sorted s' /\ ready_list s' ≡ₚ ready_list s /\
    priority_at s' t = priority cth /\
    (forall u, u <> t -> priority_at s' u = priority_at s u).
Proof.
  intros Hrun Hcur Hth Hst Hin Hnd Hsorted. unfold thread_donate_priority.
  mstep (thread_current_of _ Hrun). mstep (deref_of _ _ _ Hcur).
  mstep (update_thread_of _ _ _ (set_priority (priority cth)) Hth).
  set (s1 := set_threads _ s).
  assert (Hth1 : threads s1 !! t = Some (set_priority (priority cth) th))
    by (unfold s1; cbn; apply lookup_insert_eq).
  mstep (deref_of _ _ _ Hth1). cbn [status set_priority]. rewrite Hst. mprim.
  set (rest := list_remove t (ready_list s)).
  set (s2 := set_ready_list rest s1).
  assert (Hp2 : forall u, priority_at s2 u = priority_at s1 u) by reflexivity.
  assert (Hpt : priority_at s1 t = priority cth).
  { unfold priority_at. rewrite Hth1. reflexivity. }
  assert (Hpu : forall u, u <> t -> priority_at s1 u = priority_at s u).
  { intros u Hu. unfold priority_at, s1. cbn.
    rewrite lookup_insert_ne by congruence. reflexivity. }
  eexists. split; [reflexivity|]. split; [reflexivity|].
  split; [|split; [|split; [exact Hpt | exact Hpu]]].
  - unfold ready_sorted, ready_priorities. cbn [ready_list set_ready_list].
    apply (descending_fmap (priority_at s1)).
    apply (ascending_list_insert_ordered (fun u => - priority_at s1 u)
             (thread_priority_more s2)).
    { intros a b. rewrite thread_priority_more_key. reflexivity. }
    apply (ascending_by_ext (fun u => - priority_at s u)).
    { intros x Hx. rewrite Hpu; [reflexivity|]. intros ->.
      apply (not_elem_of_list_remove t (ready_list s) Hnd). exact Hx. }
    apply ascending_list_remove. apply descending_fmap. exact Hsorted.
  - cbn [ready_list set_ready_list].
    rewrite list_insert_ordered_perm. apply list_remove_perm. exact Hin.
Qed.

(** ** The locks a thread holds *)

Lemma lock_priority_more_key s a b :
  lock_priority_more s a b = (- max_priority_at s a <? - max_priority_at s b).
Proof.
  unfold lock_priority_more.
  destruct (Z.ltb_spec (max_priority_at s b) (max_priority_at s a)),
    (Z.ltb_spec (- max_priority_at s a) (- max_priority_at s b)); lia.
Qed.

(** X19: [thread_hold_the_lock] adds the lock to the locks of the
    running thread and keeps them sorted by descending [max_priority], the
    highest in front; removing the lock again gives the list before. *)
Theorem thread_hold_the_lock_sorted (s : state) (l : Z) (th : thread) :
  running_ok s -> threads s !! running s = Some th ->
  descending (max_priority_at s <$> locks th) ->
  exists held,
    thread_hold_the_lock l s
    = Ok (tt, set_threads (<[running s := set_locks held th]> (threads s)) s) /\
    held ≡ₚ l :: locks th /\
    descending (max_priority_at s <$> held) /\
    (forall front k, head held = Some front -> k ∈ held ->
                     max_priority_at s k <= max_priority_at s front) /\
    (l ∉ locks th -> list_remove l held = locks th).
Proof.
  intros Hrun Hth Hsorted. unfold thread_hold_the_lock.
  mstep (thread_current_of _ Hrun). mstep (deref_of _ _ _ Hth). unfold id.
  exists (list_insert_ordered (lock_priority_more s) l (locks th)).
  split; [exact (update_thread_of s (running s) th _ Hth)|].
  split; [apply list_insert_ordered_perm|].
  assert (Hasc : ascending_by (fun k => - max_priority_at s k)
                   (list_insert_ordered (lock_priority_more s) l (locks th))).
  { apply (ascending_list_insert_ordered (fun k => - max_priority_at s k)
             (lock_priority_more s) (lock_priority_more_key s)).
    apply descending_fmap. exact Hsorted. }
  split; [apply descending_fmap; exact Hasc|]. split.
  - intros front k Hhd Hk.
    destruct (list_insert_ordered _ l (locks th)) as [|x rest]; [discriminate|].
    injection Hhd as ->. apply elem_of_cons in Hk as [->|Hk]; [lia|].
    pose proof (ascending_head_min (fun k => - max_priority_at s k)
                  front rest k Hasc Hk) as Hle. cbn beta in Hle. lia.
  - apply list_remove_list_insert_ordered.
Qed.

(** X20: [thread_hold_the_lock] followed by [thread_remove_lock] of the
    same lock restores the locks of the running thread and leaves
    [old_priority] alone; threads that do not hold the lock are unchanged. *)
Theorem thread_hold_then_remove_lock (s : state) (l : Z) (th : thread) :
  running_ok s -> threads s !! running s = Some th -> l ∉ locks th ->
  exists s' th',
    (thread_hold_the_lock l >> thread_remove_lock l) s = Ok (tt, s') /\
    threads s' !! running s = Some th' /\
    locks th' = locks th /\ old_priority th' = old_priority th /\
    priority th' = priority_after_release s th (locks th) /\
    (forall u x, u <> running s -> threads s !! u = Some x -> l ∉ locks x ->
                 threads s' !! u = Some x).
Proof.
  intros Hrun Hth Hfresh.
  assert (Hst : status th = THREAD_RUNNING /\ magic th = THREAD_MAGIC).
  { destruct Hrun as (x & Hx & Hxm & Hxs). assert (x = th) by congruence.
    subst x. auto. }
  destruct Hst as [Hst Hm].
  unfold thread_hold_the_lock.
  mstep (thread_current_of _ Hrun). mstep (deref_of _ _ _ Hth). unfold id.
  mstep (update_thread_of s (running s) th
           (set_locks (list_insert_ordered (lock_priority_more s) l (locks th)))
           Hth).
  set (held := list_insert_ordered (lock_priority_more s) l (locks th)).
  set (s0 := set_threads _ s).
  unfold thread_remove_lock. mprim.
  set (s1 := set_threads _ s0).
  set (th1 := set_locks (locks th) th).
  assert (Hth1 : threads s1 !! running s1 = Some th1).
  { unfold s1, s0. cbn. rewrite lookup_fmap, lookup_insert_eq. cbn.
    unfold th1. f_equal. unfold held.
    rewrite list_remove_list_insert_ordered by exact Hfresh. reflexivity. }
  assert (Hrun1 : running_ok s1) by (exists th1; auto).
  assert (Hother : forall u x, u <> running s -> threads s !! u = Some x ->
                     l ∉ locks x -> threads s1 !! u = Some x).
  { intros u x Hu Hx Hlx. unfold s1, s0. cbn.
    rewrite lookup_fmap, lookup_insert_ne by congruence. rewrite Hx. cbn.
    rewrite list_remove_not_in by exact Hlx. destruct x; reflexivity. }
  mstep (thread_current_of _ Hrun1). mstep (deref_of _ _ _ Hth1).
  change (running s1) with (running s) in *.
  cbn [locks th1 set_locks]. unfold priority_after_release.
  destruct (locks th) as [|front rest] eqn:Hlocks.
  - rewrite (update_thread_of _ _ _ _ Hth1). eexists. eexists.
    split; [reflexivity|]. split; [cbn; apply lookup_insert_eq|].
    cbn. rewrite ?Hlocks. repeat (split; [reflexivity|]).
    intros u x Hu Hx Hlx. rewrite lookup_insert_ne by congruence.
    apply Hother; assumption.
  - mprim. change (max_priority_at s1 front) with (max_priority_at s front).
    change (old_priority th1) with (old_priority th).
    destruct (old_priority th <? max_priority_at s front).
    + rewrite (update_thread_of _ _ _ _ Hth1). eexists. eexists.
      split; [reflexivity|]. split; [cbn; apply lookup_insert_eq|].
      cbn. rewrite ?Hlocks. repeat (split; [reflexivity|]).
      intros u x Hu Hx Hlx. rewrite lookup_insert_ne by congruence.
      apply Hother; assumption.
    + eexists. exists th1. split; [reflexivity|]. split; [exact Hth1|].
      unfold th1. cbn. rewrite ?Hlocks. repeat (split; [reflexivity|]).
      exact Hother.
Qed.

(** ** Timer ticks *)

Lemma thread_wakeup_from_counts l : forall s s',
  thread_wakeup_from l s = Ok (tt, s') ->
  thread_ticks s' = thread_ticks s /\ yield_on_return s' = yield_on_return s /\
  tick_counts s' = tick_counts s.
Proof.
  induction l as [|cur next IH]; intros s s' H; cbn [thread_wakeup_from] in H.
  - injection H as <-. auto.
  - apply bind_Ok_inv in H as (th & s0 & Hd & H).
    apply reader_deref in Hd. subst s0. revert H. unfold timer_ticks. mprim.
    destruct (timer s <? wakeup_time th); intros H; [injection H as <-; auto|].
    apply bind_Ok_inv in H as ([] & s1 & Hu & H).
    unfold update_thread in Hu.
    apply bind_Ok_inv in Hu as (x & s0 & Hd & Hu).
    apply reader_deref in Hd. subst s0. injection Hu as <-.
    revert H. mprim. intros H.
    apply bind_Ok_inv in H as ([] & s2 & Hun & H).
    apply thread_unblock_inv in Hun as (wth & _ & _ & _ & ->).
    apply IH in H. exact H.
Qed.

(** X21: [thread_tick] in interrupt context counts the tick for one of
    idle, user and kernel, increments [thread_ticks] and asks for a yield
    exactly when the time slice is used up; outside interrupt context it
    panics at that point. *)
Theorem thread_tick_time_slice (s : state) (th : thread) :
  sched_core s -> running_ok s -> threads s !! running s = Some th ->
  (intr_context s = true ->
   exists s',
     thread_tick s = Ok (tt, s') /\
     thread_ticks s' = (thread_ticks s + 1) mod 2 ^ 32 /\
     yield_on_return s'
     = (yield_on_return s || (TIME_SLICE <=? thread_ticks s')) /\
     tick_counts s'
     = (if bool_decide (Some (running s) = idle_thread s)
        then (int64 (idle_ticks s + 1), kernel_ticks s, user_ticks s)
        else match pagedir th with
             | Some _ => (idle_ticks s, kernel_ticks s, int64 (user_ticks s + 1))
             | None => (idle_ticks s, int64 (kernel_ticks s + 1), user_ticks s)
             end)) /\
  (intr_context s = false ->
   TIME_SLICE <= (thread_ticks s + 1) mod 2 ^ 32 -> thread_tick s = Panic).
Proof.
  intros Hc Hrun Hth. split.
  - intros Hctx.
    destruct (thread_tick_of s Hc Hrun Hctx) as (s' & Htick & _).
    exists s'. split; [exact Htick|].
    revert Htick. unfold thread_tick.
    mstep (thread_current_of _ Hrun). mstep (deref_of _ _ _ Hth). mprim.
    assert (Hgo : forall s0 : state,
              intr_context s0 = true ->
              (let* n := gets thread_ticks in
               (if TIME_SLICE <=? n then intr_yield_on_return else ret tt) >>
               thread_wakeup) s0 = Ok (tt, s') ->
              thread_ticks s' = thread_ticks s0 /\
              yield_on_return s'
              = (yield_on_return s0 || (TIME_SLICE <=? thread_ticks s0)) /\
              tick_counts s' = tick_counts s0).
    { intros s0 Hctx0. mprim. unfold thread_wakeup.
      destruct (TIME_SLICE <=? thread_ticks s0).
      - unfold intr_yield_on_return. mprim. rewrite Hctx0. mprim. intros H.
        apply thread_wakeup_from_counts in H as (H1 & H2 & H3).
        rewrite H1, H2, H3. cbn. rewrite orb_true_r. auto.
      - mprim. intros H.
        apply thread_wakeup_from_counts in H as (H1 & H2 & H3).
        rewrite H1, H2, H3. rewrite orb_false_r. auto. }
    case_bool_decide; [|destruct (pagedir th)]; mprim; intros Hx;
      apply Hgo in Hx; try exact Hctx; destruct Hx as (H1 & H2 & H3);
      rewrite H1, H2, H3; auto.
  - intros Hctx Hslice. unfold thread_tick.
    mstep (thread_current_of _ Hrun). mstep (deref_of _ _ _ Hth). mprim.
    assert (Hgo : forall s0 : state,
              intr_context s0 = false ->
              TIME_SLICE <= thread_ticks s0 ->
              (let* n := gets thread_ticks in
               (if TIME_SLICE <=? n then intr_yield_on_return else ret tt) >>
               thread_wakeup) s0 = Panic).
    { intros s0 Hctx0 Hn. mprim.
      destruct (Z.leb_spec TIME_SLICE (thread_ticks s0)); [|lia].
      unfold intr_yield_on_return. mprim. rewrite Hctx0. reflexivity. }
    case_bool_decide; [|destruct (pagedir th)]; mprim; apply Hgo;
      first [exact Hctx | exact Hslice].
Qed.

(** ** Four ticks of processor time *)

Lemma increase_recent_cpu_of f s th :
  running_ok s -> threads s !! running s = Some th ->
  thread_mlfqs s = true -> Some (running s) <> idle_thread s ->
  in_int f -> in_int (recent_cpu th + f) ->
  increase_recent_cpu f s
  = Ok (tt, set_threads
              (<[running s := set_recent_cpu (recent_cpu th + f) th]>
                 (threads s)) s).
Proof.
  intros Hrun Hth Hmlfqs Hidle Hf Hsum. unfold increase_recent_cpu. mprim.
  rewrite Hmlfqs. mprim. mstep (thread_current_of _ Hrun).
  rewrite bool_decide_eq_false_2 by exact Hidle.
  mstep (deref_of _ _ _ Hth).
  assert (Hst : status th = THREAD_RUNNING).
  { destruct Hrun as (x & Hx & _ & Hxs). congruence. }
  rewrite bool_decide_eq_true_2 by exact Hst.
  unfold ADD_INT. rewrite Z.mul_1_l, (int32_small f Hf), (int32_small _ Hsum).
  exact (update_thread_of s (running s) th _ Hth).
Qed.

Lemma round_nearest_next p q :
  0 <= p -> 0 < q -> round_nearest (p + q) q = round_nearest p q + 1.
Proof.
  intros Hp Hq. unfold round_nearest.
  destruct (Z.leb_spec 0 p); [|lia]. destruct (Z.leb_spec 0 (p + q)); [|lia].
  replace (2 * (p + q) + q) with (2 * p + q + 1 * (2 * q)) by lia.
  apply Z.div_add. lia.
Qed.

(** X22: under MLFQS, four ticks of a running thread (not the idle
    thread) whose [recent_cpu] is not negative and whose niceness lies in
    [NICE_MIN .. NICE_MAX] add 4 to its [recent_cpu], and
    [update_priority] then lowers the value that is clamped by exactly
    one: the priority does not rise and falls by at most one level.  For
    a niceness that is not negative it is one level below the priority
    computed from the previous [recent_cpu], but not below [PRI_MIN]. *)
Theorem four_ticks_cost_one_level (f : Z) (s : state) (th : thread) :
  running_ok s -> threads s !! running s = Some th ->
  thread_mlfqs s = true -> Some (running s) <> idle_thread s ->
  0 < f -> Z.even f = true ->
  0 <= recent_cpu th -> recent_cpu th + 4 * f <= INT_MAX ->
  NICE_MIN <= nice th <= NICE_MAX ->
  exists s' th',
    (increase_recent_cpu f >> increase_recent_cpu f >>
     increase_recent_cpu f >> increase_recent_cpu f >>
     update_priority f (running s)) s = Ok (tt, s') /\
    threads s' !! running s = Some th' /\
    recent_cpu th' = recent_cpu th + 4 * f /\
    priority th'
    = clamp PRI_MIN PRI_MAX
        (PRI_MAX - round_nearest (recent_cpu th) (4 * f) - nice th * 2 - 1) /\
    update_priority_value f th - 1 <= priority th'
    <= update_priority_value f th /\
    (0 <= nice th ->
     priority th' = Z.max PRI_MIN (update_priority_value f th - 1)).
Proof.
  intros Hrun Hth Hmlfqs Hidle Hf He Hrc Hsum Hnice.
  assert (Hmax : INT_MAX = 2147483647) by reflexivity.
  assert (Hmin : INT_MIN = -2147483648) by reflexivity.
  assert (Hfi : in_int f) by (unfold in_int; lia).
  assert (Hst : status th = THREAD_RUNNING /\ magic th = THREAD_MAGIC).
  { destruct Hrun as (x & Hx & Hxm & Hxs). assert (x = th) by congruence.
    subst x. auto. }
  destruct Hst as [Hst Hm].
  assert (Hstep : forall (s0 : state) (x : thread),
            running s0 = running s -> idle_thread s0 = idle_thread s ->
            thread_mlfqs s0 = true ->
            threads s0 !! running s = Some x ->
            status x = THREAD_RUNNING -> magic x = THREAD_MAGIC ->
            in_int (recent_cpu x + f) ->
            increase_recent_cpu f s0
            = Ok (tt, set_threads
                        (<[running s := set_recent_cpu (recent_cpu x + f) x]>
                           (threads s0)) s0)).
  { intros s0 x Hr0 Hi0 Hm0 Hx Hxs Hxm Hxsum.
    rewrite <- Hr0 in *. apply increase_recent_cpu_of; try assumption.
    - exists x. auto.
    - congruence. }
  mprim.
  mstep (Hstep s th eq_refl eq_refl Hmlfqs Hth Hst Hm
           ltac:(unfold in_int; lia)).
  set (th1 := set_recent_cpu (recent_cpu th + f) th). set (s1 := set_threads _ s).
  assert (Hth1 : threads s1 !! running s = Some th1)
    by (unfold s1; cbn; apply lookup_insert_eq).
  mstep (Hstep s1 th1 eq_refl eq_refl Hmlfqs Hth1 Hst Hm
           ltac:(unfold in_int; cbn; lia)).
  set (th2 := set_recent_cpu (recent_cpu th1 + f) th1).
  set (s2 := set_threads _ s1).
  assert (Hth2 : threads s2 !! running s = Some th2)
    by (unfold s2; cbn; apply lookup_insert_eq).
  mstep (Hstep s2 th2 eq_refl eq_refl Hmlfqs Hth2 Hst Hm
           ltac:(unfold in_int; cbn; lia)).
  set (th3 := set_recent_cpu (recent_cpu th2 + f) th2).
  set (s3 := set_threads _ s2).
  assert (Hth3 : threads s3 !! running s = Some th3)
    by (unfold s3; cbn; apply lookup_insert_eq).
  mstep (Hstep s3 th3 eq_refl eq_refl Hmlfqs Hth3 Hst Hm
           ltac:(unfold in_int; cbn; lia)).
  set (th4 := set_recent_cpu (recent_cpu th3 + f) th3).
  set (s4 := set_threads _ s3).
  assert (Hth4 : threads s4 !! running s = Some th4)
    by (unfold s4; cbn; apply lookup_insert_eq).
  assert (Hidle4 : idle_thread s4 <> Some (running s)) by (cbn; congruence).
  rewrite (update_priority_of f s4 (running s) th4 Hth4 Hidle4).
  eexists. eexists. split; [reflexivity|].
  split; [cbn; apply lookup_insert_eq|].
  assert (Hrc4 : recent_cpu th4 = recent_cpu th + 4 * f) by (cbn; lia).
  split; [exact Hrc4|]. cbn [priority set_priority].
  assert (Hnice4 : nice th4 = nice th) by reflexivity.
  assert (Hn29 : - 2 ^ 29 <= nice th <= 2 ^ 29).
  { unfold NICE_MIN, NICE_MAX in Hnice. lia. }
  assert (Hf' : 0 < f <= INT_MAX) by lia.
  assert (Hin4 : in_int (recent_cpu th4)) by (unfold in_int; lia).
  assert (Hin0 : in_int (recent_cpu th)) by (unfold in_int; lia).
  rewrite (update_priority_value_exact f th4 Hf' He Hin4 Hn29).
  rewrite (update_priority_value_exact f th Hf' He Hin0 Hn29).
  rewrite Hrc4, Hnice4. unfold mlfqs_priority.
  replace (recent_cpu th + 4 * f) with (recent_cpu th + 1 * (4 * f)) by lia.
  rewrite Z.mul_1_l, round_nearest_next by lia.
  assert (Hr : 0 <= round_nearest (recent_cpu th) (4 * f)).
  { unfold round_nearest. destruct (Z.leb_spec 0 (recent_cpu th)); [|lia].
    apply Z.div_pos; lia. }
  unfold clamp, PRI_MIN, PRI_MAX, NICE_MIN, NICE_MAX in *.
  split; [f_equal; f_equal; lia|]. split; lia.
Qed.

(** * Properties of the other modules *)

Local Open Scope st_scope.

(** ** Monadic reasoning, for the other states *)

Lemma st_bind_of {S A B : Type} (m : ST S A) (k : A -> ST S B) s a s' :
  m s = Ok (a, s') -> st_bind m k s = k a s'.
Proof. unfold st_bind. intros ->. reflexivity. Qed.

Lemma st_bind_gets {S A B : Type} (g : S -> A) (k : A -> ST S B) s :
  st_bind (st_gets g) k s = k (g s) s.
Proof. reflexivity. Qed.

Lemma st_bind_modify {S B : Type} (g : S -> S) (k : unit -> ST S B) s :
  st_bind (st_modify g) k s = k tt (g s).
Proof. reflexivity. Qed.

Lemma st_bind_ret {S A B : Type} (a : A) (k : A -> ST S B) s :
  st_bind (st_ret a) k s = k a s.
Proof. reflexivity. Qed.

Lemma st_bind_assert_true {S B : Type} (k : unit -> ST S B) s :
  st_bind (st_assert true) k s = k tt s.
Proof. reflexivity. Qed.

Lemma st_bind_bind {S A B C : Type} (m : ST S A) (k : A -> ST S B)
    (h : B -> ST S C) s :
  st_bind (st_bind m k) h s = st_bind m (fun a => st_bind (k a) h) s.
Proof. unfold st_bind. destruct (m s) as [[a s']| |]; reflexivity. Qed.

Ltac sprim :=
  repeat first
    [ rewrite st_bind_bind | rewrite st_bind_gets | rewrite st_bind_modify
    | rewrite st_bind_ret | rewrite st_bind_assert_true ].
Ltac sstep H := sprim; rewrite (st_bind_of _ _ _ _ _ H); sprim.

(** ** The list of open files *)

Lemma get_file_info_from_other cur n fs l :
  (forall i, i ∈ l ->
     exists x, file_infos fs !! i = Some x /\ fd x <> n) ->
  forall rest,
    get_file_info_from cur n (l ++ rest) fs
    = get_file_info_from cur n rest fs.
Proof.
  induction l as [|i l IH]; intros Hall rest; [reflexivity|].
  cbn [app get_file_info_from].
  destruct (Hall i ltac:(left)) as (x & Hx & Hne).
  unfold deref_file_info at 1. unfold st_bind at 1. rewrite Hx.
  destruct (Z.eqb_spec (fd x) n); [contradiction|].
  apply IH. intros j Hj. apply Hall. right. exact Hj.
Qed.

Lemma get_file_info_from_hit cur n fs i x rest :
  file_infos fs !! i = Some x -> fd x = n ->
  get_file_info_from cur n (i :: rest) fs
  = Ok (if bool_decide (thread_num x = cur) then Some i else None, fs).
Proof.
  intros Hx Hfd. cbn [get_file_info_from].
  unfold deref_file_info at 1. unfold st_bind at 1. rewrite Hx.
  rewrite (proj2 (Z.eqb_eq _ _) Hfd).
  destruct (Z.eqb_spec (thread_num x) cur).
  - rewrite bool_decide_eq_true_2 by assumption. reflexivity.
  - rewrite bool_decide_eq_false_2 by assumption. reflexivity.
Qed.

Lemma fs_thread_current_of fs :
  running_ok (kernel fs) ->
  fs_thread_current fs = Ok (running (kernel fs), fs).
Proof.
  intros Hrun. unfold fs_thread_current.
  rewrite (thread_current_of _ Hrun). destruct fs; reflexivity.
Qed.

(** The clean-up of [thread_exit]: the records of the running thread
    leave [file_list] and are freed, the other records stay as they are,
    and the state of the scheduler is not touched. *)
Lemma thread_exit_files_from_of cur : forall l fs,
  NoDup l -> NoDup (file_list fs) ->
  (forall i, i ∈ l -> is_Some (file_infos fs !! i)) ->
  exists fs',
    thread_exit_files_from cur l fs = Ok (tt, fs') /\
    kernel fs' = kernel fs /\
    (forall j, j ∈ file_list fs' <->
               j ∈ file_list fs /\ ~ (j ∈ l /\ file_of fs cur j)) /\
    (forall j, ~ (j ∈ l /\ file_of fs cur j) ->
               file_infos fs' !! j = file_infos fs !! j) /\
    (forall j, j ∈ l -> file_of fs cur j -> file_infos fs' !! j = None).
Proof.
  induction l as [|i l IH]; intros fs Hnd Hfl Hall.
  - exists fs. split; [reflexivity|]. split; [reflexivity|].
    split; [|split].
    + intros j. rewrite elem_of_nil. tauto.
    + reflexivity.
    + intros j Hj. apply elem_of_nil in Hj. contradiction.
  - apply NoDup_cons in Hnd as [Hi Hnd].
    destruct (Hall i ltac:(left)) as [fi Hfi].
    cbn [thread_exit_files_from].
    unfold deref_file_info at 1. unfold st_bind at 1. rewrite Hfi.
    destruct (Z.eqb_spec (thread_num fi) cur) as [Hown|Hown].
    + unfold close_file, free_file_info. sprim.
      set (fs1 := mkFileState _ _ _).
      destruct (IH fs1 Hnd) as (fs' & Hrun & Hk & Hlist & Hkeep & Hgone).
      { apply NoDup_list_remove. exact Hfl. }
      { intros j Hj. cbn. rewrite lookup_delete_ne by (intros <-; tauto).
        apply Hall. right. exact Hj. }
      assert (Hsame : forall j, j <> i -> file_of fs1 cur j <-> file_of fs cur j).
      { intros j Hne. unfold file_of, fs1. cbn.
        rewrite lookup_delete_ne by congruence. reflexivity. }
      exists fs'. split; [exact Hrun|]. split; [exact Hk|].
      split; [|split].
      * intros j. rewrite Hlist. cbn. rewrite elem_of_cons.
        destruct (decide (j = i)) as [->|Hne].
        -- split.
           ++ intros [Hin _]. exfalso.
              exact (not_elem_of_list_remove i _ Hfl Hin).
           ++ intros [_ Hn]. exfalso. apply Hn. split; [left; reflexivity|].
              exists fi. auto.
        -- rewrite (Hsame j Hne). split.
           ++ intros [Hin Hn]. split; [eapply elem_of_list_remove; exact Hin|].
              intros [[?|?] ?]; [congruence | tauto].
           ++ intros [Hin Hn]. split; [apply elem_of_list_remove_ne; assumption|].
              tauto.
      * intros j Hn. destruct (decide (j = i)) as [->|Hne].
        { exfalso. apply Hn. split; [left|exists fi; auto]. }
        rewrite Hkeep.
        -- cbn. apply lookup_delete_ne. congruence.
        -- rewrite (Hsame j Hne). intros [? ?]. apply Hn.
           split; [right|]; assumption.
      * intros j Hj Hof. apply elem_of_cons in Hj as [->|Hj].
        -- rewrite Hkeep; [cbn; apply lookup_delete_eq|]. tauto.
        -- apply Hgone; [exact Hj|]. apply Hsame; [|exact Hof].
           intros ->. tauto.
    + sprim.
      destruct (IH fs Hnd Hfl) as (fs' & Hrun & Hk & Hlist & Hkeep & Hgone).
      { intros j Hj. apply Hall. right. exact Hj. }
      assert (Hnot : ~ file_of fs cur i).
      { intros (x & Hx & Hxc). congruence. }
      exists fs'. split; [exact Hrun|]. split; [exact Hk|].
      split; [|split].
      * intros j. rewrite Hlist, elem_of_cons. split.
        -- intros [Hin Hn]. split; [exact Hin|].
           intros [[->|?] ?]; tauto.
        -- intros [Hin Hn]. split; [exact Hin|]. tauto.
      * intros j Hn. apply Hkeep. intros [? ?]. apply Hn. split; [right|]; assumption.
      * intros j Hj Hof. apply elem_of_cons in Hj as [->|Hj]; [contradiction|].
        apply Hgone; assumption.
Qed.

Lemma thread_exit_files_of fs :
  running_ok (kernel fs) -> NoDup (file_list fs) ->
  (forall i, i ∈ file_list fs -> is_Some (file_infos fs !! i)) ->
  exists fs',
    thread_exit_files fs = Ok (tt, fs') /\
    kernel fs' = kernel fs /\
    (forall j, j ∈ file_list fs' <->
               j ∈ file_list fs /\ ~ file_of fs (running (kernel fs)) j) /\
    (forall j, j ∈ file_list fs' ->
               file_infos fs' !! j = file_infos fs !! j).
Proof.
  intros Hrun Hnd Hall. unfold thread_exit_files.
  sstep (fs_thread_current_of fs Hrun).
  destruct (thread_exit_files_from_of (running (kernel fs)) (file_list fs) fs
              Hnd Hnd Hall) as (fs' & Hr & Hk & Hlist & Hkeep & _).
  exists fs'. split; [exact Hr|]. split; [exact Hk|]. split.
  - intros j. rewrite Hlist. tauto.
  - intros j Hj. apply Hkeep. apply Hlist in Hj. tauto.
Qed.

(** X23: [add_file_list] appends the record; [get_file_info] returns
    the first record with the descriptor if it belongs to the running
    thread, and NULL if it belongs to another one. *)
Theorem add_file_list_then_get (fs : file_state) (info : Z) (fi : file_info) :
  running_ok (kernel fs) -> file_infos fs !! info = Some fi ->
  let fs1 :=
    mkFileState (kernel fs) (file_infos fs) (file_list fs ++ [info]) in
  add_file_list info fs = Ok (tt, fs1) /\
  ((forall i, i ∈ file_list fs ->
      exists x, file_infos fs !! i = Some x /\ fd x <> fd fi) ->
   get_file_info (fd fi) fs1
   = Ok (if bool_decide (thread_num fi = running (kernel fs))
         then Some info else None, fs1)) /\
  (forall pre j post x,
     file_list fs = pre ++ j :: post ->
     (forall i, i ∈ pre ->
        exists y, file_infos fs !! i = Some y /\ fd y <> fd fi) ->
     file_infos fs !! j = Some x -> fd x = fd fi ->
     get_file_info (fd fi) fs1
     = Ok (if bool_decide (thread_num x = running (kernel fs))
           then Some j else None, fs1)).
Proof.
  intros Hrun Hinfo fs1. split; [reflexivity|].
  assert (Hrun1 : running_ok (kernel fs1)) by exact Hrun.
  split.
  - intros Hfresh. unfold get_file_info.
    sstep (fs_thread_current_of fs1 Hrun1). cbn [file_list fs1].
    rewrite (get_file_info_from_other _ _ fs1 (file_list fs)) by exact Hfresh.
    apply get_file_info_from_hit; [exact Hinfo | reflexivity].
  - intros pre j post x Hlist Hpre Hj Hfd. unfold get_file_info.
    sstep (fs_thread_current_of fs1 Hrun1). cbn [file_list fs1].
    rewrite Hlist, <- app_assoc.
    rewrite (get_file_info_from_other _ _ fs1 pre) by exact Hpre.
    cbn [app]. apply get_file_info_from_hit; [exact Hj | exact Hfd].
Qed.

(** ** The swap area *)

Lemma uint32_small z : 0 <= z < 2 ^ 32 -> uint32 z = z.
Proof. intros H. unfold uint32. apply Z.mod_small. exact H. Qed.

Lemma swap_inv_ext bpp used s s' :
  swap_block s' = swap_block s -> swap_free_list s' = swap_free_list s ->
  swap_items s' = swap_items s -> swap_heap s' = swap_heap s ->
  top_index s' = top_index s ->
  swap_inv bpp used s -> swap_inv bpp used s'.
Proof.
  intros Hb Hf Hi Hh Ht [H1 H2 H3 H4 H5 H6 H7].
  assert (Hidx : forall a, swap_index_at s' a = swap_index_at s a).
  { intros a. unfold swap_index_at. rewrite Hi. reflexivity. }
  constructor; unfold swap_slot in *; rewrite ?Hb, ?Hf, ?Hh, ?Ht, ?Hi; auto.
  - intros a Ha. rewrite Hidx. apply H4. exact Ha.
  - erewrite list_fmap_ext by (intros; apply Hidx). exact H5.
Qed.

Section SwapProofs.

Variables PGSIZE BLOCK_SECTOR_SIZE PHYS_BASE : Z.

Local Notation "'bpp'" := (BLOCK_PER_PAGE PGSIZE BLOCK_SECTOR_SIZE).
Local Notation "'bss'" := BLOCK_SECTOR_SIZE.

(** Writing the sectors [index + j], for [j] in [l], from the chunks at
    [kpage + j * bss]. *)
Lemma write_sectors_of index kpage size l : forall s,
  swap_block s = Some size ->
  (forall j, j ∈ l ->
     0 <= index + j < size /\ index + j < 2 ^ 32 /\
     is_Some (kmem s !! (kpage + j * bss))) ->
  exists disk',
    st_foreach
      (fun i => block_write (uint32 (index + i)) (kpage + i * bss)) l s
    = Ok (tt, set_swap_disk disk' s) /\
    forall n,
      disk' !! n
      = if bool_decide (n - index ∈ l)
        then page_data bss (kmem s) kpage (n - index)
        else swap_disk s !! n.
Proof.
  induction l as [|j l IH]; intros s Hsize Hall; cbn [st_foreach].
  - exists (swap_disk s). split; [destruct s; reflexivity|].
    intros n. rewrite bool_decide_eq_false_2; [reflexivity|].
    apply not_elem_of_nil.
  - destruct (Hall j ltac:(left)) as (Hj & Hj32 & (data & Hdata)).
    unfold block_write at 1, block_size at 1. sprim.
    unfold st_bind at 1. rewrite Hsize.
    rewrite uint32_small by lia.
    destruct (Z.ltb_spec (index + j) size); [|lia]. sprim.
    unfold st_bind at 1. rewrite Hdata.
    set (s1 := set_swap_disk _ s).
    destruct (IH s1) as (disk' & Hrun & Hlook); [exact Hsize | |].
    { intros j' Hj'. apply Hall. right. exact Hj'. }
    exists disk'. split; [exact Hrun|].
    intros n. rewrite Hlook. change (kmem s1) with (kmem s).
    destruct (decide (n - index ∈ l)) as [Hin|Hnin].
    + rewrite !bool_decide_eq_true_2; [reflexivity | right; exact Hin | exact Hin].
    + rewrite (bool_decide_eq_false_2 (n - index ∈ l)) by exact Hnin.
      unfold s1. cbn [swap_disk set_swap_disk].
      destruct (decide (n = index + j)) as [->|Hne].
      * rewrite lookup_insert_eq.
        rewrite bool_decide_eq_true_2
          by (replace (index + j - index) with j by lia; left).
        unfold page_data. replace (index + j - index) with j by lia.
        symmetry. exact Hdata.
      * rewrite lookup_insert_ne by congruence.
        rewrite bool_decide_eq_false_2; [reflexivity|].
        intros Hin. apply elem_of_cons in Hin as [Heq|Hin]; [lia | tauto].
Qed.

(** Reading the sectors [index + j], for [j] in [l], into the chunks at
    [kpage + j * bss]. *)
Lemma read_sectors_of index kpage size l :
  bss <> 0 ->
  forall s,
  swap_block s = Some size ->
  (forall j, j ∈ l ->
     0 <= index + j < size /\ index + j < 2 ^ 32 /\
     is_Some (kmem s !! (kpage + j * bss))) ->
  exists mem',
    st_foreach
      (fun i => block_read (uint32 (index + i)) (kpage + i * bss)) l s
    = Ok (tt, set_kmem mem' s) /\
    (forall j, j ∈ l ->
       mem' !! (kpage + j * bss)
       = Some (default [] (swap_disk s !! (index + j)))) /\
    (forall a, (forall j, j ∈ l -> a <> kpage + j * bss) ->
               mem' !! a = kmem s !! a).
Proof.
  intros Hbss. induction l as [|j l IH]; intros s Hsize Hall; cbn [st_foreach].
  - exists (kmem s). split; [destruct s; reflexivity|].
    split; [intros j Hj; apply elem_of_nil in Hj; tauto | auto].
  - destruct (Hall j ltac:(left)) as (Hj & Hj32 & (data & Hdata)).
    unfold block_read at 1, block_size at 1. sprim.
    unfold st_bind at 1. rewrite Hsize.
    rewrite uint32_small by lia.
    destruct (Z.ltb_spec (index + j) size); [|lia]. sprim.
    unfold st_bind at 1. rewrite Hdata.
    set (s1 := set_kmem _ s).
    destruct (IH s1) as (mem' & Hrun & Hin & Hout); [exact Hsize | |].
    { intros j' Hj'. destruct (Hall j' ltac:(right; exact Hj')) as (? & ? & Hs).
      split; [assumption|]. split; [assumption|]. unfold s1. cbn.
      apply lookup_insert_is_Some'. right. exact Hs. }
    exists mem'. split; [exact Hrun|]. split.
    + intros j' Hj'. destruct (decide (j' ∈ l)) as [Hl|Hnl];
        [apply (Hin j' Hl)|].
      apply elem_of_cons in Hj' as [->|Hj']; [|contradiction].
      rewrite Hout.
      * unfold s1. cbn. apply lookup_insert_eq.
      * intros j' Hj' Heq. assert (j' = j) by nia. congruence.
    + intros a Ha. rewrite Hout.
      * unfold s1. cbn. apply lookup_insert_ne.
        intros Heq. apply (Ha j); [left | congruence].
      * intros j' Hj'. apply Ha. right. exact Hj'.
Qed.

Lemma elem_of_page_sectors j :
  j ∈ page_sectors PGSIZE BLOCK_SECTOR_SIZE <-> 0 <= j < bpp.
Proof. unfold page_sectors. rewrite elem_of_seqZ. lia. Qed.

Lemma swap_slot_mod i : 0 < bpp -> i mod bpp = 0 -> (i + bpp) mod bpp = 0.
Proof.
  intros Hb Hi. replace (i + bpp) with (i + 1 * bpp) by lia.
  rewrite Z.mod_add by lia. exact Hi.
Qed.

(** Two slots that differ do not overlap. *)
Lemma swap_slots_apart i k :
  0 < bpp -> i mod bpp = 0 -> k mod bpp = 0 -> i < k -> i + bpp <= k.
Proof.
  intros Hb Hi Hk Hlt.
  apply Z.mod_divide in Hi as (a & ->); [|lia].
  apply Z.mod_divide in Hk as (b & ->); [|lia].
  assert (a < b) by (apply (Z.mul_lt_mono_pos_r bpp); lia).
  assert (a + 1 <= b) by lia.
  replace (a * bpp + bpp) with ((a + 1) * bpp) by lia.
  apply Z.mul_le_mono_nonneg_r; lia.
Qed.

(** [swap_store], with everything that the proofs below need. *)
Lemma swap_store_run (used : gset Z) (s : swap_state) (kpage : Z) :
  0 < bpp -> swap_inv bpp used s ->
  is_kernel_vaddr PHYS_BASE kpage = true ->
  (forall j, 0 <= j < bpp -> is_Some (kmem s !! (kpage + j * bss))) ->
  exists idx s',
    swap_store PGSIZE BLOCK_SECTOR_SIZE PHYS_BASE kpage s = Ok (idx, s') /\
    ((idx = NO_INDEX /\ s' = s /\ swap_free_list s = [] /\
      swap_block s <> None /\
      forall size, swap_block s = Some size -> size <= top_index s + bpp) \/
     (idx <> NO_INDEX /\ (idx ∉ used) /\
      swap_inv bpp (used ∪ {[idx]}) s' /\
      (forall size, swap_block s = Some size -> idx + bpp < size) /\
      (forall j, 0 <= j < bpp ->
         swap_disk s' !! (idx + j) = page_data bss (kmem s) kpage j) /\
      (forall n, ~ (idx <= n < idx + bpp) ->
         swap_disk s' !! n = swap_disk s !! n) /\
      kmem s' = kmem s /\
      (top_index s' = idx + bpp \/ swap_heap s' <> []) /\
      (swap_free_list s = [] -> idx = top_index s))).
Proof.
  intros Hb Hinv Hk Hmem. pose proof Hinv as [Htop Hsz Hused Hfree Hnd Hhnd Hheap].
  destruct Hsz as (size & Hsize & Hle & H32 & Hlt).
  destruct Htop as [Htop0 Htopm].
  unfold swap_store. rewrite Hk. sprim.
  destruct (swap_free_list s) as [|t rest] eqn:Hfl.
  - (* a new slot at top_index *)
    sprim. unfold block_size at 1. unfold st_bind at 1. rewrite Hsize.
    rewrite uint32_small by lia.
    destruct (Z.ltb_spec (top_index s + bpp) size) as [Hroom|Hfull].
    + sprim. set (s1 := set_top_index _ s).
      destruct (Z.eqb_spec (top_index s) NO_INDEX) as [Heq|_];
        [unfold NO_INDEX in Heq; lia|].
      destruct (write_sectors_of (top_index s) kpage size
                  (page_sectors PGSIZE BLOCK_SECTOR_SIZE) s1 Hsize)
        as (disk' & Hrun & Hlook).
      { intros j Hj. apply elem_of_page_sectors in Hj.
        split; [lia|]. split; [lia|]. apply Hmem. exact Hj. }
      sstep Hrun. exists (top_index s), (set_swap_disk disk' s1).
      split; [reflexivity|]. right.
      split; [unfold NO_INDEX; lia|].
      assert (Hnew : top_index s ∉ used).
      { intros Hin. destruct (Hused _ Hin) as (_ & _ & ?). lia. }
      split; [exact Hnew|]. split.
      { apply (swap_inv_ext bpp _ s1); try reflexivity.
        constructor; cbn.
        - split; [lia | apply swap_slot_mod; assumption].
        - exists size. repeat split; try assumption; lia.
        - intros i Hi. apply elem_of_union in Hi as [Hi|Hi].
          + destruct (Hused i Hi) as (? & ? & ?). unfold swap_slot. cbn.
            repeat split; try assumption. lia.
          + apply elem_of_singleton in Hi. subst i. unfold swap_slot. cbn.
            repeat split; try assumption. lia.
        - rewrite ?Hfl. intros a Ha. apply elem_of_nil in Ha. tauto.
        - rewrite ?Hfl. constructor.
        - exact Hhnd.
        - rewrite ?Hfl. intros a _. apply not_elem_of_nil. }
      split; [intros sz Hsz; assert (sz = size) by congruence; lia|].
      split.
      { intros j Hj. cbn. rewrite Hlook.
        replace (top_index s + j - top_index s) with j by lia.
        rewrite bool_decide_eq_true_2 by (apply elem_of_page_sectors; exact Hj).
        reflexivity. }
      split.
      { intros n Hn. cbn. rewrite Hlook.
        rewrite bool_decide_eq_false_2; [reflexivity|].
        rewrite elem_of_page_sectors. lia. }
      split; [reflexivity|]. split; [left; reflexivity | reflexivity].
    + sprim. change (NO_INDEX =? NO_INDEX) with true. cbv iota.
      exists NO_INDEX, s. split; [reflexivity|]. left.
      split; [reflexivity|]. split; [reflexivity|]. split; [reflexivity|].
      split; [congruence|]. intros sz Hsz. assert (sz = size) by congruence. lia.
  - (* a slot from the free list *)
    destruct (Hfree t ltac:(left)) as ((index & Hitem) & Hslot & Hnu).
    assert (Hidx : swap_index_at s t = index)
      by (unfold swap_index_at; rewrite Hitem; reflexivity).
    rewrite Hidx in Hslot, Hnu. destruct Hslot as (Hi0 & Him & Hitop).
    sprim. cbn beta. rewrite ?Hfl, list_remove_head.
    cbn [swap_items set_swap_free_list]. rewrite Hitem.
    unfold swap_free_item. sprim.
    set (s2 := set_swap_heap _ _).
    destruct (Z.eqb_spec index NO_INDEX) as [Heq|_];
      [unfold NO_INDEX in Heq; lia|].
    assert (Hsize2 : swap_block s2 = Some size) by exact Hsize.
    destruct (write_sectors_of index kpage size
                (page_sectors PGSIZE BLOCK_SECTOR_SIZE) s2 Hsize2)
      as (disk' & Hrun & Hlook).
    { intros j Hj. apply elem_of_page_sectors in Hj.
      split; [lia|]. split; [lia|]. apply Hmem. exact Hj. }
    sstep Hrun. exists index, (set_swap_disk disk' s2).
    split; [reflexivity|]. right.
    split; [unfold NO_INDEX; lia|]. split; [exact Hnu|].
    cbn [fmap list_fmap] in Hnd.
    apply NoDup_cons in Hnd as [Hti Hnd]. rewrite Hidx in Hti.
    assert (Hrest : forall a, a ∈ rest -> a <> t).
    { intros a Ha ->. apply Hti. apply list_elem_of_fmap. exists t.
      split; [symmetry; exact Hidx | exact Ha]. }
    assert (Hidx2 : forall a, a ∈ rest -> swap_index_at s2 a = swap_index_at s a).
    { intros a Ha. unfold swap_index_at, s2. cbn.
      rewrite lookup_delete_ne; [reflexivity|]. intros <-.
      apply (Hrest t Ha). reflexivity. }
    split.
    { apply (swap_inv_ext bpp _ s2); try reflexivity.
      constructor; cbn.
      - split; assumption.
      - exists size. repeat split; assumption.
      - intros i Hi. apply elem_of_union in Hi as [Hi|Hi].
        + apply (Hused i Hi).
        + apply elem_of_singleton in Hi. subst i. repeat split; assumption.
      - intros a Ha. pose proof (Hrest a Ha) as Hat.
        destruct (Hfree a ltac:(right; exact Ha))
          as (Hsome & Hsl & Hnin).
        rewrite lookup_delete_ne by congruence.
        split; [exact Hsome|]. rewrite (Hidx2 a Ha).
        split; [exact Hsl|]. intros Hin.
        apply elem_of_union in Hin as [Hin|Hin]; [contradiction|].
        apply elem_of_singleton in Hin. apply Hti.
        apply list_elem_of_fmap. exists a. split; [congruence | exact Ha].
      - erewrite list_fmap_ext by (intros ? a Ha; apply Hidx2;
                                    apply list_elem_of_lookup_2 in Ha; exact Ha).
        exact Hnd.
      - apply NoDup_cons. split; [|exact Hhnd].
        intros Hth. apply (Hheap t Hth). left.
      - intros a Ha Hin. apply elem_of_cons in Ha as [->|Ha].
        + apply (Hrest t Hin). reflexivity.
        + apply (Hheap a Ha). right. exact Hin. }
    split; [intros sz Hsz; assert (sz = size) by congruence; lia|].
    split.
    { intros j Hj. cbn. rewrite Hlook.
      replace (index + j - index) with j by lia.
      rewrite bool_decide_eq_true_2 by (apply elem_of_page_sectors; exact Hj).
      reflexivity. }
    split.
    { intros n Hn. cbn. rewrite Hlook.
      rewrite bool_decide_eq_false_2; [reflexivity|].
      rewrite elem_of_page_sectors. lia. }
    split; [reflexivity|]. split; [right; cbn; discriminate | discriminate].
Qed.

(** [swap_free] of a slot in use. *)
Lemma swap_free_run (used : gset Z) (s : swap_state) (idx : Z) :
  0 < bpp -> swap_inv bpp used s -> idx ∈ used ->
  (top_index s <> idx + bpp -> swap_heap s = [] ->
   swap_free PGSIZE BLOCK_SECTOR_SIZE idx s = Fault) /\
  (top_index s = idx + bpp \/ swap_heap s <> [] ->
   exists s',
     swap_free PGSIZE BLOCK_SECTOR_SIZE idx s = Ok (tt, s') /\
     swap_inv bpp (used ∖ {[idx]}) s' /\
     swap_disk s' = swap_disk s /\ kmem s' = kmem s /\
     top_index s' <= top_index s).
Proof.
  intros Hb Hinv Hin. pose proof Hinv as [Htop Hsz Hused Hfree Hnd Hhnd Hheap].
  destruct Hsz as (size & Hsize & Hle & H32 & Hlt).
  destruct Htop as [Htop0 Htopm].
  destruct (Hused idx Hin) as (Hi0 & Him & Hitop).
  assert (Hstart : forall k : unit -> ST swap_state unit,
            st_bind (if uint32 bpp =? 0 then st_fault
                     else st_assert (idx mod uint32 bpp =? 0)) k s = k tt s).
  { intros k. rewrite (uint32_small bpp) by lia.
    destruct (Z.eqb_spec bpp 0); [lia|]. rewrite Him. reflexivity. }
  split.
  - intros Hne Hempty. unfold swap_free. rewrite Hstart. sprim.
    rewrite uint32_small by lia.
    destruct (Z.eqb_spec (top_index s) (idx + bpp)); [contradiction|].
    unfold swap_malloc, st_bind. rewrite Hempty. reflexivity.
  - intros Hcan. unfold swap_free. rewrite Hstart. sprim.
    rewrite uint32_small by lia.
    destruct (Z.eqb_spec (top_index s) (idx + bpp)) as [Heq|Hne].
    + (* the topmost slot: top_index comes down *)
      exists (set_top_index idx s). split; [reflexivity|].
      split; [|repeat split; cbn; lia].
      assert (Hbelow : forall i, i <> idx -> swap_slot bpp s i ->
                                 swap_slot bpp (set_top_index idx s) i).
      { intros i Hne (H0 & Hm & Ht). unfold swap_slot. cbn.
        repeat split; try assumption.
        apply swap_slots_apart; try assumption. lia. }
      constructor; cbn.
      * split; assumption.
      * exists size. repeat split; try assumption; lia.
      * intros i Hi. apply elem_of_difference in Hi as [Hi Hni].
        apply Hbelow; [|apply Hused; exact Hi].
        intros ->. apply Hni. apply elem_of_singleton. reflexivity.
      * intros a Ha. destruct (Hfree a Ha) as (Hsome & Hsl & Hnin).
        split; [exact Hsome|].
        change (swap_index_at (set_top_index idx s) a) with (swap_index_at s a).
        split; [|intros Hx; apply elem_of_difference in Hx; tauto].
        apply Hbelow; [|exact Hsl]. intros Heq'. rewrite Heq' in Hnin.
        contradiction.
      * exact Hnd.
      * exact Hhnd.
      * exact Hheap.
    + destruct Hcan as [?|Hheapne]; [contradiction|].
      destruct (swap_heap s) as [|a heap'] eqn:Hh; [contradiction|].
      unfold swap_malloc at 1. unfold st_bind at 1. rewrite Hh. sprim.
      eexists. split; [reflexivity|].
      split; [|repeat split; cbn; lia].
      assert (Hafree : a ∉ swap_free_list s).
      { apply Hheap. left. }
      assert (Hold : forall b, b ∈ swap_free_list s ->
                swap_items s !! b = <[a := idx]> (swap_items s) !! b).
      { intros b Hb'. rewrite lookup_insert_ne; [reflexivity|].
        intros <-. contradiction. }
      constructor; cbn.
      * split; assumption.
      * exists size. repeat split; assumption.
      * intros i Hi. apply elem_of_difference in Hi as [Hi _].
        apply (Hused i Hi).
      * intros b Hb'. unfold swap_index_at. cbn.
        apply elem_of_app in Hb' as [Hb'|Hb'].
        -- destruct (Hfree b Hb') as (Hsome & Hsl & Hnin).
           rewrite <- (Hold b Hb'). split; [exact Hsome|].
           split; [exact Hsl|].
           intros Hx. apply elem_of_difference in Hx. tauto.
        -- apply list_elem_of_singleton in Hb'. subst b.
           rewrite lookup_insert_eq. cbn. split; [eauto|].
           split; [repeat split; assumption|].
           intros Hx. apply elem_of_difference in Hx as [_ Hx].
           apply Hx. apply elem_of_singleton. reflexivity.
      * rewrite fmap_app. cbn [fmap list_fmap].
        unfold swap_index_at at 2. cbn. rewrite lookup_insert_eq. cbn.
        apply NoDup_app. split; [|split].
        -- erewrite list_fmap_ext; [exact Hnd|].
           intros ? b Hb'. apply list_elem_of_lookup_2 in Hb'.
           unfold swap_index_at. cbn. rewrite <- (Hold b Hb'). reflexivity.
        -- intros x Hx Hx'. apply list_elem_of_singleton in Hx'. subst x.
           apply list_elem_of_fmap in Hx as (b & Hbx & Hb').
           destruct (Hfree b Hb') as (_ & _ & Hnin). apply Hnin.
           unfold swap_index_at in Hbx. cbn in Hbx.
           rewrite <- (Hold b Hb') in Hbx.
           unfold swap_index_at. rewrite <- Hbx. exact Hin.
        -- apply NoDup_singleton.
      * apply NoDup_cons in Hhnd. tauto.
      * apply NoDup_cons in Hhnd as [Hah _].
        intros b Hb' Hx. apply elem_of_app in Hx as [Hx|Hx].
        -- apply (Hheap b); [right; exact Hb' | exact Hx].
        -- apply list_elem_of_singleton in Hx. subst b. contradiction.
Qed.

(** X24: [swap_store] fails exactly when the free list is empty and
    [top_index + BLOCK_PER_PAGE] is not below the size of the device;
    otherwise it returns a slot that was not in use and writes the page to
    the sectors of that slot only. *)
Theorem swap_store_fresh_slot (used : gset Z) (s : swap_state) (kpage size : Z) :
  0 < bpp -> swap_inv bpp used s -> swap_block s = Some size ->
  is_kernel_vaddr PHYS_BASE kpage = true ->
  (forall j, 0 <= j < bpp -> is_Some (kmem s !! (kpage + j * bss))) ->
  exists idx s',
    swap_store PGSIZE BLOCK_SECTOR_SIZE PHYS_BASE kpage s = Ok (idx, s') /\
    (idx = NO_INDEX <->
     swap_free_list s = [] /\ size <= top_index s + bpp) /\
    (idx = NO_INDEX -> s' = s) /\
    (idx <> NO_INDEX ->
     (idx ∉ used) /\ swap_inv bpp (used ∪ {[idx]}) s' /\
     idx mod bpp = 0 /\ 0 <= idx /\ idx + bpp < size /\
     (forall j, 0 <= j < bpp ->
        swap_disk s' !! (idx + j) = page_data bss (kmem s) kpage j) /\
     (forall n, ~ (idx <= n < idx + bpp) ->
        swap_disk s' !! n = swap_disk s !! n) /\
     kmem s' = kmem s).
Proof.
  intros Hb Hinv Hsize Hk Hmem.
  destruct (swap_store_run used s kpage Hb Hinv Hk Hmem)
    as (idx & s' & Hrun & Hcases).
  exists idx, s'. split; [exact Hrun|].
  destruct Hcases as [(Hno & Hs & Hfl & _ & Hfull)
                     |(Hyes & Hnew & Hinv' & Hbelow & Hdata & Hrest & Hmem'
                       & _ & Htop)].
  - split; [split; [intros _; split; [exact Hfl | apply Hfull; exact Hsize]
                   | intros _; exact Hno]|].
    split; [intros _; exact Hs | intros Hne; contradiction].
  - specialize (Hbelow size Hsize).
    destruct (swap_used_slot _ _ _ Hinv' idx) as (H0 & Hm & _).
    { apply elem_of_union. right. apply elem_of_singleton. reflexivity. }
    split.
    { split; [intros Hno; contradiction|]. intros [Hfl Hfull].
      rewrite (Htop Hfl) in Hbelow. lia. }
    split; [intros Hno; contradiction|]. intros _. auto 10.
Qed.

(** X25: [swap_free] takes a slot out of use without touching the device
    or memory: the top slot lowers [top_index], another slot goes to the
    end of the free list, which takes memory from [malloc]. *)
Theorem swap_free_releases (used : gset Z) (s : swap_state) (idx : Z) :
  0 < bpp -> swap_inv bpp used s -> idx ∈ used ->
  (top_index s <> idx + bpp -> swap_heap s = [] ->
   swap_free PGSIZE BLOCK_SECTOR_SIZE idx s = Fault) /\
  (top_index s = idx + bpp \/ swap_heap s <> [] ->
   exists s',
     swap_free PGSIZE BLOCK_SECTOR_SIZE idx s = Ok (tt, s') /\
     swap_inv bpp (used ∖ {[idx]}) s' /\
     swap_disk s' = swap_disk s /\ kmem s' = kmem s /\
     (top_index s = idx + bpp ->
      top_index s' = idx /\ swap_free_list s' = swap_free_list s) /\
     (top_index s <> idx + bpp ->
      top_index s' = top_index s /\
      swap_index_at s' <$> swap_free_list s'
      = (swap_index_at s <$> swap_free_list s) ++ [idx])).
Proof.
  intros Hb Hinv Hin.
  destruct (swap_free_run used s idx Hb Hinv Hin) as [Hfault Hok].
  split; [exact Hfault|]. intros Hcan.
  destruct (Hok Hcan) as (s' & Hrun & Hinv' & Hdisk & Hmem & _).
  exists s'. split; [exact Hrun|]. split; [exact Hinv'|].
  split; [exact Hdisk|]. split; [exact Hmem|].
  pose proof Hinv as [Htop Hsz Hused Hfree Hnd Hhnd Hheap].
  destruct Hsz as (size & Hsize & Hle & H32 & Hlt).
  destruct (Hused idx Hin) as (Hi0 & Him & Hitop).
  revert Hrun. unfold swap_free.
  rewrite (uint32_small bpp) by lia.
  destruct (Z.eqb_spec bpp 0); [lia|]. rewrite Him. sprim.
  rewrite uint32_small by lia.
  destruct (Z.eqb_spec (top_index s) (idx + bpp)) as [Heq|Hne].
  - intros Hrun. injection Hrun as <-. split; [auto|]. intros; contradiction.
  - destruct Hcan as [?|Hheapne]; [contradiction|].
    destruct (swap_heap s) as [|a heap'] eqn:Hh; [contradiction|].
    unfold swap_malloc at 1. unfold st_bind at 1. rewrite Hh. sprim.
    intros Hrun. injection Hrun as <-. split; [intros; contradiction|].
    intros _. split; [reflexivity|]. cbn.
    rewrite fmap_app. cbn [fmap list_fmap]. f_equal.
    + apply list_fmap_ext. intros ? b Hb'. apply list_elem_of_lookup_2 in Hb'.
      unfold swap_index_at. cbn. rewrite lookup_insert_ne; [reflexivity|].
      intros <-. apply (Hheap a); [left | exact Hb'].
    + unfold swap_index_at. cbn. rewrite lookup_insert_eq. reflexivity.
Qed.

(** X26: a page stored by [swap_store] and read back by [swap_load]
    holds what was stored; the rest of memory is unchanged and the slots in
    use are those before the store. *)
Theorem swap_store_load_round_trip (used : gset Z) (s s1 : swap_state)
    (kpage kpage' idx : Z) :
  0 < bpp -> bss <> 0 -> swap_inv bpp used s ->
  is_kernel_vaddr PHYS_BASE kpage = true ->
  is_kernel_vaddr PHYS_BASE kpage' = true ->
  (forall j, 0 <= j < bpp -> is_Some (kmem s !! (kpage + j * bss))) ->
  (forall j, 0 <= j < bpp -> is_Some (kmem s !! (kpage' + j * bss))) ->
  swap_store PGSIZE BLOCK_SECTOR_SIZE PHYS_BASE kpage s = Ok (idx, s1) ->
  idx <> NO_INDEX ->
  exists s2,
    swap_load PGSIZE BLOCK_SECTOR_SIZE PHYS_BASE idx kpage' s1 = Ok (tt, s2) /\
    (forall j, 0 <= j < bpp ->
       kmem s2 !! (kpage' + j * bss) = kmem s !! (kpage + j * bss)) /\
    (forall a, (forall j, 0 <= j < bpp -> a <> kpage' + j * bss) ->
       kmem s2 !! a = kmem s !! a) /\
    swap_inv bpp used s2.
Proof.
  intros Hb Hbss Hinv Hk Hk' Hmem Hmem' Hstore Hidx.
  destruct (swap_store_run used s kpage Hb Hinv Hk Hmem)
    as (idx0 & s1' & Hrun & Hcases).
  rewrite Hstore in Hrun. injection Hrun as <- <-.
  destruct Hcases as [(Hno & _)
                     |(_ & Hnew & Hinv1 & _ & Hdata & _ & Hkmem & Hcan & _)];
    [contradiction|].
  pose proof Hinv1 as [Htop1 Hsz1 Hused1 _ _ _ _].
  destruct Hsz1 as (size & Hsize1 & Hle1 & H32 & Hlt1).
  destruct (Hused1 idx) as (Hi0 & Him & Hitop).
  { apply elem_of_union. right. apply elem_of_singleton. reflexivity. }
  unfold swap_load.
  destruct (Z.eqb_spec idx NO_INDEX); [contradiction|]. cbn [negb]. sprim.
  rewrite Hk'. sprim.
  rewrite (uint32_small bpp) by lia.
  destruct (Z.eqb_spec bpp 0); [lia|]. rewrite Him. sprim.
  destruct (read_sectors_of idx kpage' size
              (page_sectors PGSIZE BLOCK_SECTOR_SIZE) Hbss s1 Hsize1)
    as (mem' & Hread & Hin & Hout).
  { intros j Hj. apply elem_of_page_sectors in Hj.
    split; [lia|]. split; [lia|]. rewrite Hkmem. apply Hmem'. exact Hj. }
  sstep Hread. set (s1r := set_kmem mem' s1).
  assert (Hinv1r : swap_inv bpp (used ∪ {[idx]}) s1r).
  { apply (swap_inv_ext bpp _ s1); try reflexivity. exact Hinv1. }
  assert (Hidxin : idx ∈ used ∪ {[idx]}).
  { apply elem_of_union. right. apply elem_of_singleton. reflexivity. }
  destruct (swap_free_run _ s1r idx Hb Hinv1r Hidxin) as [_ Hfree].
  destruct (Hfree Hcan) as (s2 & Hrun2 & Hinv2 & _ & Hmem2 & _).
  exists s2. split; [exact Hrun2|]. rewrite Hmem2. cbn [kmem s1r set_kmem].
  split; [|split].
  - intros j Hj. rewrite Hin by (apply elem_of_page_sectors; exact Hj).
    pose proof (Hdata j Hj) as Hd2. unfold page_data in Hd2.
    destruct (Hmem j Hj) as (d & Hd). rewrite Hd in Hd2 |- *.
    f_equal. transitivity (default [] (Some d)); [|reflexivity].
    f_equal. exact Hd2.
  - intros a Ha. rewrite Hout; [rewrite Hkmem; reflexivity|].
    intros j Hj. apply Ha. apply elem_of_page_sectors. exact Hj.
  - replace used with ((used ∪ {[idx]}) ∖ {[idx]}) at 1; [exact Hinv2|].
    apply set_eq. intros x. rewrite elem_of_difference, elem_of_union,
      elem_of_singleton. split; [tauto|]. intros Hx. split; [tauto|].
    intros ->. contradiction.
Qed.

End SwapProofs.

(** ** Paths *)

Lemma split_on_slash_head s :
  exists ts,
    split_on_slash s = take_while (fun x => negb (is_slash x)) s :: ts /\
    filter (fun t : cstring => t <> []) ts
    = path_tokens (tail (drop_while (fun x => negb (is_slash x)) s)).
Proof.
  induction s as [|c s IH]; cbn [split_on_slash take_while drop_while].
  - exists []. split; reflexivity.
  - destruct (is_slash c) eqn:Hc; cbn [negb].
    + exists (split_on_slash s). split; reflexivity.
    + destruct IH as (ts & Hs & Hf). rewrite Hs. exists ts.
      split; [reflexivity | exact Hf].
Qed.

Lemma path_tokens_nil : path_tokens [] = [].
Proof. reflexivity. Qed.

Lemma path_tokens_slash c s :
  is_slash c = true -> path_tokens (c :: s) = path_tokens s.
Proof.
  intros Hc. unfold path_tokens. cbn [split_on_slash]. rewrite Hc.
  rewrite filter_cons_False by (intros H; apply H; reflexivity). reflexivity.
Qed.

Lemma path_tokens_char c s :
  is_slash c = false ->
  path_tokens (c :: s)
  = take_while (fun x => negb (is_slash x)) (c :: s)
    :: path_tokens (tail (drop_while (fun x => negb (is_slash x)) (c :: s))).
Proof.
  intros Hc. destruct (split_on_slash_head (c :: s)) as (ts & Hs & Hf).
  unfold path_tokens at 1. rewrite Hs.
  cbn [take_while]. rewrite Hc. cbn [negb].
  rewrite filter_cons_True by discriminate. f_equal. exact Hf.
Qed.

Lemma length_drop_while {A : Type} (p : A -> bool) (l : list A) :
  (length (drop_while p l) <= length l)%nat.
Proof.
  induction l as [|x l IH]; cbn; [lia|]. destruct (p x); cbn; lia.
Qed.

Lemma strtok_r_tokens s :
  match strtok_r s with
  | None => path_tokens s = []
  | Some (tok, s') =>
      path_tokens s = tok :: path_tokens s' /\ tok <> [] /\
      (length s' < length s)%nat
  end.
Proof.
  induction s as [|c s IH]; [reflexivity|].
  unfold strtok_r in *.
  assert (Hdw : drop_while is_slash (c :: s)
                = if is_slash c then drop_while is_slash s else c :: s)
    by reflexivity.
  rewrite Hdw. clear Hdw. destruct (is_slash c) eqn:Hc.
  - rewrite (path_tokens_slash c s Hc).
    destruct (drop_while is_slash s) as [|c1 s1]; [exact IH|].
    destruct IH as (H1 & H2 & H3). split; [exact H1|]. split; [exact H2|].
    cbn [length]. lia.
  - split; [apply path_tokens_char; exact Hc|]. split.
    + cbn [take_while]. rewrite Hc. discriminate.
    + pose proof (length_drop_while (fun x => negb (is_slash x)) (c :: s)) as Hl.
      destruct (drop_while (fun x => negb (is_slash x)) (c :: s)) as [|d r] eqn:Hd;
        cbn [tail length] in *; lia.
Qed.

(** A path component is not empty and holds no slash. *)
Lemma path_tokens_wf s t :
  t ∈ path_tokens s -> t <> [] /\ forall c, c ∈ t -> is_slash c = false.
Proof.
  remember (length s) as n eqn:Hn. revert s Hn t.
  induction n as [n IH] using lt_wf_ind. intros s Hn t Ht. subst n.
  pose proof (strtok_r_tokens s) as Hs. unfold strtok_r in Hs.
  destruct (drop_while is_slash s) as [|c s1] eqn:Hd.
  - rewrite Hs in Ht. apply elem_of_nil in Ht. tauto.
  - destruct Hs as (Htok & Hne & Hlen). rewrite Htok in Ht.
    apply elem_of_cons in Ht as [->|Ht].
    + split; [exact Hne|]. intros x Hx.
      apply elem_of_take_while in Hx as [_ Hx].
      destruct (is_slash x); [discriminate | reflexivity].
    + eapply IH; [exact Hlen | reflexivity | exact Ht].
Qed.

Lemma directory_part_cons t t' ts :
  directory_part (t :: t' :: ts) = (t ++ ["/"%char]) ++ directory_part (t' :: ts).
Proof. reflexivity. Qed.

Lemma name_part_cons t t' ts : name_part (t :: t' :: ts) = name_part (t' :: ts).
Proof. reflexivity. Qed.

Lemma dir_parser_loop_tokens fuel : forall save dir last_token,
  (length save < fuel)%nat ->
  dir_parser_loop fuel save dir last_token
  = (dir_after dir last_token (path_tokens save),
     match path_tokens save with
     | [] => last_token
     | toks => name_part toks
     end).
Proof.
  induction fuel as [|fuel IH]; intros save dir last_token Hlen; [lia|].
  cbn [dir_parser_loop]. pose proof (strtok_r_tokens save) as Hs.
  destruct (strtok_r save) as [[tok save']|].
  - destruct Hs as (Htok & Hne & Hlt). rewrite IH by lia. rewrite Htok.
    destruct tok as [|c tok]; [contradiction|].
    assert (Hpos : (0 <? Z.of_nat (length (c :: tok))) = true).
    { apply Z.ltb_lt. cbn [length]. lia. }
    destruct (path_tokens save') as [|t' ts] eqn:Hrest.
    + f_equal. unfold dir_after. cbn [directory_part removelast fmap list_fmap concat].
      destruct dir as [d|]; [|reflexivity]. cbn.
      destruct (0 <? Z.of_nat (length last_token)); cbn;
        rewrite ?app_nil_r; reflexivity.
    + f_equal. unfold dir_after. rewrite directory_part_cons.
      destruct dir as [d|]; [|reflexivity].
      destruct (0 <? Z.of_nat (length last_token)); cbn [fmap option_fmap option_map];
        rewrite Hpos; rewrite <- ?app_assoc; reflexivity.
  - rewrite Hs. reflexivity.
Qed.

Lemma sum_token_lengths s :
  (length (concat ((fun t : cstring => t ++ ["/"%char]) <$> path_tokens s))
   + length (root_prefix s) <= S (length s))%nat.
Proof.
  assert (Hboth : forall s,
            (length (concat ((fun t : cstring => t ++ ["/"%char]) <$> path_tokens s))
             <= S (length s))%nat /\
            (forall c s', s = c :: s' -> is_slash c = true ->
               (length (concat ((fun t : cstring => t ++ ["/"%char])
                                  <$> path_tokens s))
                <= length s)%nat)).
  { intros s0. induction s0 as [|c s0 [IH1 IH2]].
    - rewrite path_tokens_nil. split; [cbn; lia | intros; discriminate].
    - destruct (is_slash c) eqn:Hc.
      + rewrite (path_tokens_slash c s0 Hc). cbn [length].
        split; [lia | intros; lia].
      + split; [|intros c' s' Heq Hc'; injection Heq as <- <-; congruence].
        destruct (split_on_slash_head s0) as (ts & Hs & Hf).
        unfold path_tokens in *. cbn [split_on_slash]. rewrite Hc.
        rewrite Hs in *. rewrite filter_cons_True by discriminate.
        cbn [fmap list_fmap concat]. rewrite !length_app. cbn [length].
        destruct (take_while (fun x => negb (is_slash x)) s0) as [|a t] eqn:Ht.
        * (* [s0] is empty or starts with a slash *)
          rewrite filter_cons_False in IH1, IH2
            by (intros H; apply H; reflexivity).
          destruct s0 as [|c0 s0']; [cbn in *; injection Hs as <-; cbn; lia|].
          assert (Hc0 : is_slash c0 = true).
          { cbn [take_while] in Ht. destruct (is_slash c0); [reflexivity|].
            discriminate. }
          specialize (IH2 c0 s0' eq_refl Hc0). cbn [length] in *.
          apply le_n_S, le_n_S in IH2. exact IH2.
        * rewrite filter_cons_True in IH1 by discriminate.
          cbn [fmap list_fmap concat] in IH1. rewrite !length_app in IH1.
          cbn [length] in *. apply le_n_S in IH1. exact IH1. }
  destruct (Hboth s) as [H1 H2]. unfold root_prefix.
  case_bool_decide as Hh; cbn [length];
    [|rewrite Nat.add_0_r; exact H1].
  destruct s as [|c s']; [discriminate|]. injection Hh as ->.
  specialize (H2 _ _ eq_refl eq_refl).
  rewrite Nat.add_1_r. apply le_n_S. exact H2.
Qed.

Lemma directory_name_length toks :
  toks <> [] ->
  (length (directory_part toks) + length (name_part toks) + 1
   = length (concat ((fun t : cstring => t ++ ["/"%char]) <$> toks)))%nat.
Proof.
  induction toks as [|t toks IH]; [contradiction|]. intros _.
  destruct toks as [|t' ts].
  - unfold directory_part, name_part. cbn [removelast last default fmap list_fmap concat].
    rewrite ?app_nil_r, ?length_app. cbn [length id]. lia.
  - rewrite directory_part_cons, name_part_cons.
    cbn [fmap list_fmap concat]. rewrite !length_app.
    specialize (IH ltac:(discriminate)). cbn [fmap list_fmap concat] in IH.
    rewrite !length_app in *. lia.
Qed.

Lemma path_tokens_app_token t s :
  t <> [] -> (forall c, c ∈ t -> is_slash c = false) ->
  path_tokens (t ++ "/"%char :: s) = t :: path_tokens s.
Proof.
  intros Hne Hns. destruct t as [|c t]; [contradiction|].
  cbn [app]. rewrite path_tokens_char by (apply Hns; left).
  assert (Htake : forall l : cstring, (forall x, x ∈ l -> is_slash x = false) ->
            take_while (fun x => negb (is_slash x)) (l ++ "/"%char :: s) = l /\
            drop_while (fun x => negb (is_slash x)) (l ++ "/"%char :: s)
            = "/"%char :: s).
  { induction l as [|x l IHl]; intros Hl; cbn [app take_while drop_while].
    - split; reflexivity.
    - rewrite (Hl x ltac:(left)). cbn [negb]. destruct IHl as [H1 H2].
      { intros y Hy. apply Hl. right. exact Hy. }
      rewrite H1, H2. auto. }
  destruct (Htake (c :: t) Hns) as [H1 H2]. cbn [app] in H1, H2.
  rewrite H1, H2. reflexivity.
Qed.

Lemma path_tokens_single t :
  t <> [] -> (forall c, c ∈ t -> is_slash c = false) -> path_tokens t = [t].
Proof.
  intros Hne Hns. destruct t as [|c t]; [contradiction|].
  rewrite path_tokens_char by (apply Hns; left).
  assert (Htake : forall l : cstring, (forall x, x ∈ l -> is_slash x = false) ->
            take_while (fun x => negb (is_slash x)) l = l /\
            drop_while (fun x => negb (is_slash x)) l = []).
  { induction l as [|x l IHl]; intros Hl; cbn [take_while drop_while]; [auto|].
    rewrite (Hl x ltac:(left)). cbn [negb].
    destruct IHl as [H1 H2]; [intros y Hy; apply Hl; right; exact Hy|].
    rewrite H1, H2. auto. }
  destruct (Htake (c :: t) Hns) as [H1 H2]. rewrite H1, H2. reflexivity.
Qed.

Lemma path_tokens_rebuild toks :
  (forall t, t ∈ toks -> t <> [] /\ forall c, c ∈ t -> is_slash c = false) ->
  path_tokens (directory_part toks ++ name_part toks) = toks.
Proof.
  induction toks as [|t toks IH]; intros Hwf; [reflexivity|].
  destruct (Hwf t ltac:(left)) as [Hne Hns].
  destruct toks as [|t' ts].
  - cbn. apply path_tokens_single; assumption.
  - rewrite directory_part_cons, name_part_cons, <- !app_assoc. cbn [app].
    rewrite path_tokens_app_token by assumption. f_equal. apply IH.
    intros x Hx. apply Hwf. right. exact Hx.
Qed.

(** X27: [dir_parser] writes the last component of the path to [name]
    and the components before it, each followed by a slash, to
    [directory], after a slash if the path is absolute. *)
Theorem dir_parser_splits (path : cstring) :
  let toks := path_tokens path in
  let directory := root_prefix path ++ directory_part toks in
  let name := name_part toks in
  dir_parser path true = (Some directory, name) /\
  dir_parser path false = (None, name) /\
  (forall fuel, (length path < fuel)%nat ->
     dir_parser_loop fuel path (Some (root_prefix path)) []
     = (Some directory, name)) /\
  (forall c, c ∈ name -> c <> "/"%char) /\
  (length directory + length name <= length path)%nat /\
  path_tokens (directory ++ name) = toks /\
  (head directory = Some "/"%char <-> head path = Some "/"%char).
Proof.
  intros toks directory name.
  assert (Hloop : forall fuel dir, (length path < fuel)%nat ->
            dir_parser_loop fuel path dir []
            = ((fun d => d ++ directory_part toks) <$> dir, name)).
  { intros fuel dir Hfuel. rewrite dir_parser_loop_tokens by exact Hfuel.
    fold toks. unfold dir_after, name, name_part. destruct toks as [|t ts].
    - f_equal. destruct dir as [d|]; [|reflexivity]. cbn.
      rewrite app_nil_r. reflexivity.
    - reflexivity. }
  assert (Hprefix : (if (0 <? Z.of_nat (length path))
                        && bool_decide (head path = Some "/"%char)
                     then ["/"%char] else []) = root_prefix path).
  { unfold root_prefix. destruct path as [|c p]; [reflexivity|].
    cbn [length]. destruct (Z.ltb_spec 0 (Z.of_nat (S (length p)))); [|lia].
    reflexivity. }
  assert (Hwf : forall t, t ∈ toks ->
                  t <> [] /\ forall c, c ∈ t -> is_slash c = false).
  { intros t Ht. apply (path_tokens_wf path t Ht). }
  split; [|split; [|split; [|split; [|split; [|split]]]]].
  - unfold dir_parser. rewrite Hprefix. rewrite Hloop by lia. reflexivity.
  - unfold dir_parser. rewrite Hloop by lia. reflexivity.
  - intros fuel Hfuel. rewrite Hloop by exact Hfuel. reflexivity.
  - intros c Hc ->. unfold name, name_part in Hc.
    destruct (last toks) as [t|] eqn:Hlast; [|apply elem_of_nil in Hc; tauto].
    cbn in Hc. apply last_Some_elem_of in Hlast.
    destruct (Hwf t Hlast) as [_ Hns]. specialize (Hns _ Hc).
    unfold is_slash in Hns. rewrite bool_decide_eq_true_2 in Hns by reflexivity.
    discriminate.
  - unfold directory. rewrite length_app.
    pose proof (sum_token_lengths path) as Hsum. fold toks in Hsum.
    destruct toks as [|t ts] eqn:Htoks.
    + unfold name. cbn. unfold root_prefix.
      case_bool_decide as Hh; cbn; [|lia].
      destruct path; [discriminate | cbn; lia].
    + pose proof (directory_name_length (t :: ts) ltac:(discriminate)) as Hdn.
      unfold name. lia.
  - unfold directory, name. rewrite <- app_assoc.
    unfold root_prefix. case_bool_decide as Hh.
    + cbn [app]. rewrite path_tokens_slash by reflexivity.
      apply path_tokens_rebuild. exact Hwf.
    + cbn [app]. apply path_tokens_rebuild. exact Hwf.
  - unfold directory, root_prefix. case_bool_decide as Hh.
    + split; [intros _; exact Hh | reflexivity].
    + cbn [app]. split; [|intros; contradiction]. intros Hd. exfalso.
      unfold directory_part in Hd. destruct toks as [|t ts] eqn:Htoks;
        [discriminate|].
      destruct (Hwf t ltac:(left)) as [Hne Hns].
      destruct t as [|c t]; [contradiction|].
      destruct ts as [|t' ts']; [discriminate|].
      cbn in Hd. injection Hd as ->. specialize (Hns "/"%char ltac:(left)).
      discriminate.
Qed.

(** ** The frame table *)

Lemma list_next_of_lookup (l : list Z) : forall i c,
  NoDup l -> l !! i = Some c ->
  list_next_of c l
  = Some (match l !! S i with Some a => ListElem a | None => ListTail end).
Proof.
  induction l as [|x l IH]; intros i c Hnd Hi; [discriminate|].
  apply NoDup_cons in Hnd as [Hx Hnd]. cbn [list_next_of].
  destruct i as [|i].
  - injection Hi as ->. rewrite Z.eqb_refl. destruct l; reflexivity.
  - cbn in Hi. destruct (Z.eqb_spec x c) as [->|Hne].
    + exfalso. apply Hx. eapply list_elem_of_lookup_2. exact Hi.
    + rewrite (IH i c Hnd Hi). reflexivity.
Qed.

Lemma set_current_frame_same (s : frame_state) c :
  current_frame s = c -> set_current_frame c s = s.
Proof. intros <-. destruct s; reflexivity. Qed.

Lemma set_current_frame_twice (s : frame_state) c d :
  set_current_frame c (set_current_frame d s) = set_current_frame c s.
Proof. reflexivity. Qed.

Lemma frame_swap_next_of (s : frame_state) (i : nat) (c : Z) :
  NoDup (frame_clock_list s) ->
  frame_clock_list s !! i = Some c ->
  current_frame s = Some c ->
  frame_swap_next s
  = Ok (tt, set_current_frame (clock_after (frame_clock_list s) i 1) s).
Proof.
  intros Hnd Hi Hcur. unfold frame_swap_next, clock_after.
  sprim. rewrite Hcur. sprim.
  pose proof (lookup_lt_Some _ _ _ Hi) as Hlt.
  destruct (Z.eqb_spec (Z.of_nat (length (frame_clock_list s))) 1) as [H1|H1].
  - assert (Hlen : length (frame_clock_list s) = 1%nat) by lia.
    assert (i = 0%nat) as -> by lia. rewrite Hlen.
    change ((0 + 1) mod 1)%nat with 0%nat. rewrite Hi.
    rewrite set_current_frame_same by exact Hcur. reflexivity.
  - unfold list_back. sprim.
    rewrite last_lookup.
    destruct (frame_clock_list s !! pred (length (frame_clock_list s)))
      as [b|] eqn:Hb.
    2:{ apply lookup_ge_None in Hb. lia. }
    sprim. destruct (Z.eqb_spec c b) as [->|Hne].
    + assert (i = pred (length (frame_clock_list s))) as ->.
      { eapply NoDup_lookup; eassumption. }
      replace (pred (length (frame_clock_list s)) + 1)%nat
        with (length (frame_clock_list s)) by lia.
      rewrite Nat.Div0.mod_same.
      cbn [list_next]. destruct (frame_clock_list s) as [|a l]; [cbn in *; lia|].
      reflexivity.
    + assert (Hi' : (S i < length (frame_clock_list s))%nat).
      { destruct (decide (i = pred (length (frame_clock_list s)))) as [->|];
          [congruence | lia]. }
      rewrite Nat.mod_small by lia. cbn [list_next].
      rewrite (list_next_of_lookup _ i c Hnd Hi).
      replace (i + 1)%nat with (S i) by lia.
      destruct (lookup_lt_is_Some_2 _ _ Hi') as [a Ha]. rewrite Ha.
      reflexivity.
Qed.

Lemma frame_swap_next_repeat (k : nat) : forall (s : frame_state) i c,
  NoDup (frame_clock_list s) ->
  frame_clock_list s !! i = Some c ->
  current_frame s = Some c ->
  st_repeat k frame_swap_next s
  = Ok (tt, set_current_frame (clock_after (frame_clock_list s) i k) s).
Proof.
  induction k as [|k IH]; intros s i c Hnd Hi Hcur.
  - cbn [st_repeat]. unfold clock_after.
    pose proof (lookup_lt_Some _ _ _ Hi) as Hlt.
    rewrite Nat.add_0_r, Nat.mod_small by exact Hlt. rewrite Hi.
    rewrite set_current_frame_same by exact Hcur. reflexivity.
  - cbn [st_repeat].
    pose proof (lookup_lt_Some _ _ _ Hi) as Hlt.
    sstep (frame_swap_next_of s i c Hnd Hi Hcur).
    set (l := frame_clock_list s) in *.
    assert (Hi1 : ((i + 1) mod length l < length l)%nat)
      by (apply Nat.mod_upper_bound; lia).
    destruct (lookup_lt_is_Some_2 _ _ Hi1) as [c1 Hc1].
    unfold clock_after at 1. rewrite Hc1.
    rewrite (IH (set_current_frame (Some c1) s) ((i + 1) mod length l)%nat c1);
      [|exact Hnd | exact Hc1 | reflexivity].
    rewrite set_current_frame_twice.
    change (frame_clock_list (set_current_frame (Some c1) s)) with l.
    unfold clock_after. rewrite Nat.Div0.add_mod_idemp_l.
    replace (i + 1 + k)%nat with (i + S k)%nat by lia. reflexivity.
Qed.

(** X28: [frame_swap_next] moves [current_frame] to the next item of
    the clock list, and from the last item to the first: k calls move it k
    places round the list. *)
Theorem frame_swap_next_round (s : frame_state) (i : nat) (c : Z) :
  NoDup (frame_clock_list s) ->
  frame_clock_list s !! i = Some c ->
  current_frame s = Some c ->
  (forall k,
     st_repeat k frame_swap_next s
     = Ok (tt, set_current_frame (clock_after (frame_clock_list s) i k) s)) /\
  st_repeat (length (frame_clock_list s)) frame_swap_next s = Ok (tt, s) /\
  (forall a, a ∈ frame_clock_list s ->
     exists k, (k < length (frame_clock_list s))%nat /\
               clock_after (frame_clock_list s) i k = Some a).
Proof.
  intros Hnd Hi Hcur.
  pose proof (lookup_lt_Some _ _ _ Hi) as Hlt.
  split; [|split].
  - intros k. apply (frame_swap_next_repeat k s i c Hnd Hi Hcur).
  - rewrite (frame_swap_next_repeat _ s i c Hnd Hi Hcur). unfold clock_after.
    replace (i + length (frame_clock_list s))%nat
      with (i + 1 * length (frame_clock_list s))%nat by lia.
    rewrite Nat.Div0.mod_add, Nat.mod_small by lia. rewrite Hi.
    rewrite set_current_frame_same by exact Hcur. reflexivity.
  - intros a Ha. apply list_elem_of_lookup_1 in Ha as [j Hj].
    pose proof (lookup_lt_Some _ _ _ Hj) as Hjlt.
    set (n := length (frame_clock_list s)) in *.
    exists ((j + n - i) mod n)%nat. split.
    + apply Nat.mod_upper_bound. lia.
    + unfold clock_after. fold n.
      rewrite Nat.Div0.add_mod_idemp_r.
      replace (i + (j + n - i))%nat with (j + 1 * n)%nat by lia.
      rewrite Nat.Div0.mod_add, Nat.mod_small by lia. exact Hj.
Qed.

Lemma lock_acquire_all_lock_of (s : frame_state) :
  all_lock s = false ->
  lock_acquire_all_lock s = Ok (tt, set_all_lock true s).
Proof. intros H. unfold lock_acquire_all_lock. sprim. rewrite H. reflexivity. Qed.

Lemma lock_release_all_lock_of (s : frame_state) :
  all_lock s = true ->
  lock_release_all_lock s = Ok (tt, set_all_lock false s).
Proof. intros H. unfold lock_release_all_lock. sprim. rewrite H. reflexivity. Qed.

Lemma deref_item_of (s : frame_state) a it :
  frame_items s !! a = Some it -> deref_item a s = Ok (it, s).
Proof. intros H. unfold deref_item. rewrite H. reflexivity. Qed.

Lemma frame_lock_round (s : frame_state) :
  all_lock s = false -> set_all_lock false (set_all_lock true s) = s.
Proof. intros <-. destruct s; reflexivity. Qed.

Lemma frame_clock_swapable (s : frame_state) f a it :
  frame_inv s -> frame_table s !! f = Some a ->
  frame_items s !! a = Some it ->
  frame it = f /\ (a ∈ frame_clock_list s <-> swapable it = false).
Proof.
  intros Hinv Hf Hit. destruct (frame_table_item s Hinv f a Hf) as (it' & Hit' & Hfr).
  assert (it' = it) as -> by congruence. split; [exact Hfr|].
  rewrite (frame_clock_item s Hinv a). split.
  - intros (it2 & Hit2 & Hsw & _). congruence.
  - intros Hsw. exists it. rewrite Hfr. auto.
Qed.

Lemma frame_set_unswapable_unknown (s : frame_state) f :
  all_lock s = false -> frame_table s !! f = None ->
  frame_set_unswapable f s = Ok (false, s).
Proof.
  intros Hlock Hf. unfold frame_set_unswapable.
  sstep (lock_acquire_all_lock_of s Hlock).
  unfold frame_get_item, hash_find. sprim.
  change (frame_table (set_all_lock true s)) with (frame_table s). rewrite Hf.
  sstep (lock_release_all_lock_of (set_all_lock true s) eq_refl).
  rewrite frame_lock_round by exact Hlock. reflexivity.
Qed.

Lemma frame_set_unswapable_again (s : frame_state) f a :
  frame_inv s -> frame_table s !! f = Some a -> a ∈ frame_clock_list s ->
  frame_set_unswapable f s = Ok (true, s).
Proof.
  intros Hinv Hf Hin. pose proof (frame_lock_free s Hinv) as Hlock.
  destruct (frame_table_item s Hinv f a Hf) as (it & Hit & Hfr).
  destruct (frame_clock_swapable s f a it Hinv Hf Hit) as [_ Hsw].
  apply Hsw in Hin. unfold frame_set_unswapable.
  sstep (lock_acquire_all_lock_of s Hlock).
  unfold frame_get_item, hash_find. sprim.
  change (frame_table (set_all_lock true s)) with (frame_table s). rewrite Hf.
  sstep (deref_item_of (set_all_lock true s) a it Hit). rewrite Hin.
  cbn [negb].
  sstep (lock_release_all_lock_of (set_all_lock true s) eq_refl).
  rewrite frame_lock_round by exact Hlock. reflexivity.
Qed.

Lemma frame_set_unswapable_first (s : frame_state) f a it :
  frame_inv s -> frame_table s !! f = Some a ->
  frame_items s !! a = Some it -> a ∉ frame_clock_list s ->
  let s' :=
    mkFrameState
      (<[a := mkFrameItem (frame it) (upage it) (item_thread it) false]>
         (frame_items s))
      (frame_table s) (frame_clock_list s ++ [a]) false
      (if bool_decide (frame_clock_list s = []) then Some a
       else current_frame s)
      (freed_pages s) in
  frame_set_unswapable f s = Ok (true, s') /\ frame_inv s'.
Proof.
  intros Hinv Hf Hit Hnin s'. pose proof (frame_lock_free s Hinv) as Hlock.
  destruct (frame_clock_swapable s f a it Hinv Hf Hit) as [Hfr Hsw].
  assert (Hswap : swapable it = true).
  { destruct (swapable it); [reflexivity|]. exfalso. apply Hnin, Hsw.
    reflexivity. }
  split.
  - unfold frame_set_unswapable.
    sstep (lock_acquire_all_lock_of s Hlock).
    unfold frame_get_item, hash_find. sprim.
    change (frame_table (set_all_lock true s)) with (frame_table s). rewrite Hf.
    sstep (deref_item_of (set_all_lock true s) a it Hit). rewrite Hswap.
    cbn [negb]. unfold update_item.
    sstep (deref_item_of (set_all_lock true s) a it Hit).
    cbn [frame_clock_list set_frame_clock_list set_frame_items set_all_lock
         frame_items frame_table all_lock current_frame freed_pages].
    rewrite length_app. cbn [length]. unfold s'.
    destruct (frame_clock_list s) as [|c l] eqn:Hl.
    + cbn [length Nat.add]. change (Z.of_nat 1 =? 1) with true.
      rewrite bool_decide_eq_true_2 by reflexivity. sprim.
      unfold lock_release_all_lock. sprim. reflexivity.
    + destruct (Z.eqb_spec (Z.of_nat (length (c :: l) + 1)) 1) as [H1|_];
        [cbn [length] in H1; lia|].
      rewrite bool_decide_eq_false_2 by discriminate. sprim.
      unfold lock_release_all_lock. sprim. reflexivity.
  - destruct Hinv as [Htab Hnd Hclk Hhand _]. unfold s'.
    constructor; cbn [frame_items frame_table frame_clock_list all_lock
                        current_frame].
    + intros f0 a0 Hf0. destruct (decide (a0 = a)) as [->|Hne].
      * rewrite lookup_insert_eq. eexists; split; [reflexivity|]. cbn.
        destruct (Htab f0 a Hf0) as (it0 & Hit0 & Hfr0). congruence.
      * rewrite lookup_insert_ne by congruence. apply Htab. exact Hf0.
    + apply NoDup_app. split; [exact Hnd|]. split; [|apply NoDup_singleton].
      intros x Hx Hxa. apply list_elem_of_singleton in Hxa as ->.
      contradiction.
    + intros a0. rewrite elem_of_app, list_elem_of_singleton.
      destruct (decide (a0 = a)) as [->|Hne].
      * rewrite lookup_insert_eq. split; [|auto]. intros _.
        eexists; split; [reflexivity|]. cbn. rewrite Hfr. auto.
      * rewrite lookup_insert_ne by congruence. rewrite (Hclk a0). tauto.
    + intros _. case_bool_decide as Hl.
      * exists a. split; [reflexivity|]. apply elem_of_app. right.
        apply list_elem_of_singleton. reflexivity.
      * destruct (Hhand Hl) as (c & Hc & Hcin). exists c.
        split; [exact Hc|]. apply elem_of_app. left. exact Hcin.
    + reflexivity.
Qed.

(** X29: [frame_set_unswapable] puts the item of a frame on the clock
    list once, sets [current_frame] if the list was empty, and returns
    false without a change for a frame that is not in the table. *)
Theorem frame_set_unswapable_clock (s : frame_state) (f : Z) :
  frame_inv s ->
  exists b s',
    frame_set_unswapable f s = Ok (b, s') /\
    frame_inv s' /\
    frame_set_unswapable f s' = Ok (b, s') /\
    frame_table s' = frame_table s /\
    freed_pages s' = freed_pages s /\
    match frame_table s !! f with
    | None => b = false /\ s' = s
    | Some a =>
        b = true /\
        frame_clock_list s'
        = (if bool_decide (a ∈ frame_clock_list s) then frame_clock_list s
           else frame_clock_list s ++ [a]) /\
        current_frame s'
        = (if bool_decide (frame_clock_list s = []) then Some a
           else current_frame s) /\
        (forall a0 it0, a0 <> a -> frame_items s !! a0 = Some it0 ->
           frame_items s' !! a0 = Some it0)
    end.
Proof.
  intros Hinv. pose proof (frame_lock_free s Hinv) as Hlock.
  destruct (frame_table s !! f) as [a|] eqn:Hf.
  - destruct (frame_table_item s Hinv f a Hf) as (it & Hit & Hfr).
    destruct (decide (a ∈ frame_clock_list s)) as [Hin|Hnin].
    + exists true, s.
      pose proof (frame_set_unswapable_again s f a Hinv Hf Hin) as Hrun.
      split; [exact Hrun|]. split; [exact Hinv|]. split; [exact Hrun|].
      split; [reflexivity|]. split; [reflexivity|]. split; [reflexivity|].
      rewrite (bool_decide_eq_true_2 (a ∈ frame_clock_list s)) by exact Hin.
      split; [reflexivity|]. split; [|auto].
      rewrite bool_decide_eq_false_2; [reflexivity|].
      intros Hl. rewrite Hl in Hin. apply elem_of_nil in Hin. exact Hin.
    + destruct (frame_set_unswapable_first s f a it Hinv Hf Hit Hnin)
        as [Hrun Hinv'].
      eexists true, _. split; [exact Hrun|]. split; [exact Hinv'|].
      split.
      { apply (frame_set_unswapable_again _ f a Hinv'); [exact Hf|].
        cbn [frame_clock_list]. apply elem_of_app. right.
        apply list_elem_of_singleton. reflexivity. }
      split; [reflexivity|]. split; [reflexivity|]. split; [reflexivity|].
      rewrite (bool_decide_eq_false_2 (a ∈ frame_clock_list s)) by exact Hnin.
      split; [reflexivity|]. split; [reflexivity|].
      intros a0 it0 Hne Hit0. cbn [frame_items].
      rewrite lookup_insert_ne by congruence. exact Hit0.
  - exists false, s.
    pose proof (frame_set_unswapable_unknown s f Hlock Hf) as Hrun.
    split; [exact Hrun|]. split; [exact Hinv|]. split; [exact Hrun|]. auto.
Qed.

(** ** Freeing a frame *)

Lemma clock_after_other (l : list Z) (i : nat) (a : Z) :
  NoDup l -> l !! i = Some a -> (1 < length l)%nat ->
  exists c, clock_after l i 1 = Some c /\ c ∈ l /\ c <> a.
Proof.
  intros Hnd Hi Hlen. unfold clock_after.
  pose proof (lookup_lt_Some _ _ _ Hi) as Hlt.
  assert (Hj : ((i + 1) mod length l < length l)%nat)
    by (apply Nat.mod_upper_bound; lia).
  destruct (lookup_lt_is_Some_2 _ _ Hj) as [c Hc]. exists c.
  split; [exact Hc|]. split; [eapply list_elem_of_lookup_2; exact Hc|].
  intros ->. pose proof (NoDup_lookup _ _ _ _ Hnd Hc Hi) as Heq.
  destruct (decide (i + 1 = length l)%nat) as [He|He].
  - rewrite He, Nat.Div0.mod_same in Heq. lia.
  - rewrite Nat.mod_small in Heq by lia. lia.
Qed.

Lemma frame_free_unknown (s : frame_state) f :
  all_lock s = false -> frame_table s !! f = None -> frame_free f s = Panic.
Proof.
  intros Hlock Hf. unfold frame_free.
  sstep (lock_acquire_all_lock_of s Hlock).
  unfold frame_get_item, hash_find. sprim.
  change (frame_table (set_all_lock true s)) with (frame_table s). rewrite Hf.
  reflexivity.
Qed.

(** The hand after [frame_free] of the frame of item [a]. *)
Lemma frame_free_run (s : frame_state) f a :
  frame_inv s -> frame_table s !! f = Some a ->
  exists hand,
    frame_free f s
    = Ok (tt, mkFrameState (delete a (frame_items s))
                (delete f (frame_table s))
                (list_remove a (frame_clock_list s)) false hand
                (f :: freed_pages s)) /\
    (a ∉ frame_clock_list s \/ current_frame s <> Some a ->
     hand = current_frame s) /\
    (forall i, frame_clock_list s !! i = Some a ->
       current_frame s = Some a ->
       hand = clock_after (frame_clock_list s) i 1).
Proof.
  intros Hinv Hf. pose proof (frame_lock_free s Hinv) as Hlock.
  destruct (frame_table_item s Hinv f a Hf) as (it & Hit & _).
  destruct (frame_clock_swapable s f a it Hinv Hf Hit) as [Hfr Hsw].
  set (s1 := set_all_lock true s).
  assert (Htail : forall hand l,
            l = list_remove a (frame_clock_list s) ->
            (hash_delete a;; free_item a;; frame_palloc_free_page f;;
             lock_release_all_lock)%st
              (mkFrameState (frame_items s) (frame_table s) l true hand
                 (freed_pages s))
            = Ok (tt, mkFrameState (delete a (frame_items s))
                        (delete f (frame_table s))
                        (list_remove a (frame_clock_list s)) false hand
                        (f :: freed_pages s))).
  { intros hand l ->. unfold hash_delete.
    sstep (deref_item_of
             (mkFrameState (frame_items s) (frame_table s)
                (list_remove a (frame_clock_list s)) true hand (freed_pages s))
             a it Hit).
    unfold free_item, frame_palloc_free_page, lock_release_all_lock. sprim.
    rewrite Hfr. reflexivity. }
  assert (Hs1 : s1 = mkFrameState (frame_items s) (frame_table s)
                       (frame_clock_list s) true (current_frame s)
                       (freed_pages s)) by reflexivity.
  unfold frame_free.
  sstep (lock_acquire_all_lock_of s Hlock). fold s1.
  unfold frame_get_item, hash_find. sprim.
  change (frame_table s1) with (frame_table s). rewrite Hf.
  sstep (deref_item_of s1 a it Hit).
  destruct (swapable it) eqn:Hswap; cbn [negb].
  - (* not on the clock list *)
    assert (Hnin : a ∉ frame_clock_list s).
    { intros Hin. apply Hsw in Hin. discriminate. }
    exists (current_frame s). sprim. rewrite Hs1.
    rewrite Htail by (rewrite list_remove_not_in by exact Hnin; reflexivity).
    split; [reflexivity|]. split; [reflexivity|].
    intros i Hi _. exfalso. apply Hnin. eapply list_elem_of_lookup_2. exact Hi.
  - assert (Hin : a ∈ frame_clock_list s) by (apply Hsw; reflexivity).
    sprim. change (current_frame s1) with (current_frame s).
    case_bool_decide as Hcur.
    + apply list_elem_of_lookup_1 in Hin as Hi. destruct Hi as [i Hi].
      sprim. change (frame_clock_list s1) with (frame_clock_list s).
      destruct (frame_clock_list s) as [|x l] eqn:Hl; [discriminate|].
      rewrite <- Hl in *.
      assert (Hnext : frame_swap_next s1
                = Ok (tt, set_current_frame
                            (clock_after (frame_clock_list s) i 1) s1)).
      { apply (frame_swap_next_of s1 i a);
          [exact (frame_clock_nodup s Hinv) | exact Hi | exact Hcur]. }
      sstep Hnext.
      exists (clock_after (frame_clock_list s) i 1).
      split; [exact (Htail _ _ eq_refl)|]. split.
      * intros [Hnin|Hne]; [contradiction | congruence].
      * intros j Hj _.
        rewrite (NoDup_lookup _ _ _ _ (frame_clock_nodup s Hinv) Hj Hi).
        reflexivity.
    + sprim. exists (current_frame s).
      split; [exact (Htail _ _ eq_refl)|]. split; [reflexivity|].
      intros i _ Hc. contradiction.
Qed.

(** X30: [frame_free] panics for an unknown frame; otherwise it removes
    the entry and the item and moves [current_frame] on if it was the item
    freed.  When that item was the only one on the clock list,
    [current_frame] keeps pointing to it. *)
Theorem frame_free_effect (s : frame_state) (f : Z) :
  frame_inv s ->
  (frame_table s !! f = None -> frame_free f s = Panic) /\
  (forall a, frame_table s !! f = Some a ->
     exists s',
       frame_free f s = Ok (tt, s') /\
       frame_inv s' /\
       frame_table s' = delete f (frame_table s) /\
       frame_items s' = delete a (frame_items s) /\
       frame_clock_list s' = list_remove a (frame_clock_list s) /\
       freed_pages s' = f :: freed_pages s /\
       (a ∉ frame_clock_list s \/ current_frame s <> Some a ->
        current_frame s' = current_frame s) /\
       (forall i, frame_clock_list s !! i = Some a ->
          current_frame s = Some a ->
          current_frame s' = clock_after (frame_clock_list s) i 1) /\
       (frame_clock_list s = [a] ->
        current_frame s' = Some a /\ frame_items s' !! a = None)).
Proof.
  intros Hinv. pose proof (frame_lock_free s Hinv) as Hlock.
  split; [apply frame_free_unknown; exact Hlock|].
  intros a Hf.
  destruct (frame_free_run s f a Hinv Hf) as (hand & Hrun & Hkeep & Hmove).
  eexists. split; [exact Hrun|].
  cbn [frame_items frame_table frame_clock_list all_lock current_frame
       freed_pages].
  destruct (frame_table_item s Hinv f a Hf) as (it & Hit & Hfr).
  destruct (frame_clock_swapable s f a it Hinv Hf Hit) as [_ Hsw].
  pose proof (frame_clock_nodup s Hinv) as Hnd.
  split; [|split; [reflexivity|split; [reflexivity|split; [reflexivity|
          split; [reflexivity|split; [exact Hkeep|split; [exact Hmove|]]]]]]].
  - constructor; cbn [frame_items frame_table frame_clock_list all_lock
                        current_frame].
    + intros f0 a0 Hf0. apply lookup_delete_Some in Hf0 as [Hne Hf0].
      destruct (frame_table_item s Hinv f0 a0 Hf0) as (it0 & Hit0 & Hfr0).
      exists it0. split; [|exact Hfr0].
      rewrite lookup_delete_ne; [exact Hit0|].
      intros ->. congruence.
    + apply NoDup_list_remove. exact Hnd.
    + intros a0. split.
      * intros Hin0.
        assert (Hne : a0 <> a).
        { intros ->. eapply not_elem_of_list_remove; eassumption. }
        apply elem_of_list_remove in Hin0.
        apply (frame_clock_item s Hinv) in Hin0
          as (it0 & Hit0 & Hsw0 & Htab0).
        exists it0. rewrite lookup_delete_ne by congruence.
        split; [exact Hit0|]. split; [exact Hsw0|].
        rewrite lookup_delete_ne; [exact Htab0|].
        intros Heq. rewrite <- Heq in Htab0. congruence.
      * intros (it0 & Hit0 & Hsw0 & Htab0).
        apply lookup_delete_Some in Hit0 as [Hne Hit0].
        apply lookup_delete_Some in Htab0 as [_ Htab0].
        apply elem_of_list_remove_ne; [congruence|].
        apply (frame_clock_item s Hinv). exists it0. auto.
    + intros Hrem.
      assert (Hl : frame_clock_list s <> []).
      { intros Hl. rewrite Hl in Hrem. apply Hrem. reflexivity. }
      destruct (frame_hand s Hinv Hl) as (c & Hc & Hcin).
      destruct (decide (c = a)) as [->|Hne].
      * apply list_elem_of_lookup_1 in Hcin as Hi. destruct Hi as [i Hi].
        rewrite (Hmove i Hi Hc).
        assert (Hlen : (1 < length (frame_clock_list s))%nat).
        { destruct (frame_clock_list s) as [|x [|y l]] eqn:Hlist;
            [contradiction| |cbn; lia].
          exfalso. apply Hrem. apply list_elem_of_singleton in Hcin as ->.
          apply list_remove_head. }
        destruct (clock_after_other _ i a Hnd Hi Hlen) as (c & Hc' & Hcin' & Hne).
        exists c. split; [exact Hc'|].
        apply elem_of_list_remove_ne; assumption.
      * exists c. rewrite Hkeep by (right; congruence).
        split; [exact Hc|]. apply elem_of_list_remove_ne; assumption.
    + reflexivity.
  - intros Hl. split; [|apply lookup_delete_eq].
    assert (Hl' : frame_clock_list s <> []) by (rewrite Hl; discriminate).
    destruct (frame_hand s Hinv Hl') as (c & Hc & Hcin).
    rewrite Hl in Hcin. apply list_elem_of_singleton in Hcin as ->.
    rewrite (Hmove 0%nat); [|rewrite Hl; reflexivity | exact Hc].
    rewrite Hl. reflexivity.
Qed.

(** ** The hypotheses hold in concrete states *)

Lemma a_state_inv ths pool cur mlfqs cth :
  threads (a_state ths [] pool [] cur mlfqs) !! cur = Some cth ->
  magic cth = THREAD_MAGIC -> status cth = THREAD_RUNNING ->
  (exists ith, threads (a_state ths [] pool [] cur mlfqs) !! 900 = Some ith
               /\ magic ith = THREAD_MAGIC) ->
  sched_inv (a_state ths [] pool [] cur mlfqs).
Proof.
  intros Hcur Hm Hst (ith & Hi & Hmi). split; [|split].
  - constructor; cbn.
    + intros t Ht. apply elem_of_nil in Ht. tauto.
    + intros t Ht. apply elem_of_nil in Ht. tauto.
    + exists 900, ith. repeat split; try assumption; apply not_elem_of_nil.
    + constructor.
    + constructor.
    + constructor.
  - exists cth. auto.
  - reflexivity.
Qed.

Lemma spawn_state_inv : sched_inv spawn_state.
Proof.
  eapply a_state_inv; [reflexivity | reflexivity | reflexivity |].
  eexists. split; reflexivity.
Qed.

Lemma ready_state_inv : sched_inv ready_state.
Proof.
  split; [|split].
  - constructor; cbn.
    + intros t Ht. apply list_elem_of_singleton in Ht as ->.
      eexists. split; [reflexivity|]. split; reflexivity.
    + intros t Ht. apply elem_of_nil in Ht. tauto.
    + exists 900. eexists. split; [reflexivity|]. split; [reflexivity|].
      split; [reflexivity|]. split; [|apply not_elem_of_nil].
      intros Hin. apply list_elem_of_singleton in Hin. discriminate.
    + apply NoDup_singleton.
    + constructor.
    + constructor.
  - eexists. split; [reflexivity|]. split; reflexivity.
  - reflexivity.
Qed.

Lemma ready_state_sorted : ready_sorted ready_state.
Proof. repeat constructor. Qed.

Lemma queue_state_core : sched_core queue_state.
Proof.
  constructor; cbn.
  - intros t Ht.
    repeat (apply elem_of_cons in Ht as [->|Ht];
            [eexists; split; [reflexivity|]; split; reflexivity|]).
    apply elem_of_nil in Ht. contradiction.
  - intros t Ht. apply elem_of_nil in Ht. contradiction.
  - exists 900. eexists. split; [reflexivity|]. split; [reflexivity|].
    split; [reflexivity|]. split; [|apply not_elem_of_nil].
    intros Hin.
    repeat (apply elem_of_cons in Hin as [Heq|Hin]; [discriminate|]).
    apply elem_of_nil in Hin. contradiction.
  - apply (bool_decide_unpack _). vm_compute. exact I.
  - constructor.
  - constructor.
Qed.

Lemma queue_state_inv : sched_inv queue_state.
Proof.
  split; [exact queue_state_core|]. split; [|reflexivity].
  eexists. split; [reflexivity|]. split; reflexivity.
Qed.

Lemma queue_state_sorted : ready_sorted queue_state.
Proof.
  unfold ready_sorted, descending.
  change (ready_priorities queue_state) with [50; 40; 20].
  repeat constructor; lia.
Qed.

Lemma thread_unblock_keeps_ready_sorted_witness :
  exists s',
    thread_unblock 300 queue_state = Ok (tt, s') /\
    ready_list s' = [301; 302; 300; 303] /\
    ready_priorities s' = [50; 40; 40; 20] /\ ready_sorted s'.
Proof.
  destruct (thread_unblock 300 queue_state) as [[[] s']| |] eqn:Hrun;
    [|vm_compute in Hrun; discriminate ..].
  destruct (thread_unblock_keeps_ready_sorted queue_state s' 300 Hrun)
    as (Hl & Hp & Hs).
  exists s'. split; [reflexivity|].
  assert (Hl' : ready_list s' = [301; 302; 300; 303])
    by (rewrite Hl; reflexivity).
  split; [exact Hl'|]. split; [|exact (Hs queue_state_sorted)].
  unfold ready_priorities. rewrite Hl'. cbn [fmap list_fmap].
  rewrite !Hp. reflexivity.
Defined.


Lemma update_priority_mlfqs_witness :
  exists p,
    update_priority F14 300 mlfqs_state
    = Ok (tt, set_threads
                (<[300 := set_priority p
                            (a_thread 4 THREAD_READY "a" 43 43 10 [])]>
                   (threads mlfqs_state)) mlfqs_state) /\
    p = 43.
Proof.
  destruct (update_priority_mlfqs F14 mlfqs_state 300
              (a_thread 4 THREAD_READY "a" 43 43 10 []) eq_refl)
    as [_ H].
  destruct H as (p & Hrun & _ & Hp); [discriminate|].
  exists p. split; [exact Hrun|]. rewrite Hp; [reflexivity | | | |].
  - unfold F14, INT_MAX. lia.
  - reflexivity.
  - unfold in_int, INT_MIN, INT_MAX. cbn. lia.
  - cbn. lia.
Defined.

Lemma update_load_avg_formula_witness :
  update_load_avg F14 mlfqs_state = Ok (tt, set_load_avg 546 mlfqs_state).
Proof.
  refine (proj1 (update_load_avg_formula F14 mlfqs_state eq_refl _ _ _ _ _)).
  - eexists. split; [reflexivity|]. split; reflexivity.
  - reflexivity.
  - unfold F14, INT_MAX. lia.
  - cbn. lia.
  - unfold F14, INT_MAX. cbn. lia.
Defined.

Lemma set_out_of_range_noop_witness :
  thread_set_priority 64 spawn_state = Ok (tt, spawn_state) /\
  thread_set_nice F14 (-21) spawn_state = Ok (tt, spawn_state).
Proof.
  apply (set_out_of_range_noop F14 spawn_state 64 (-21)).
  - right. unfold PRI_MAX. lia.
  - left. unfold NICE_MIN. lia.
Defined.

Lemma thread_set_priority_effect_witness :
  exists s' th',
    thread_set_priority 35 ready_state = Ok (tt, s') /\ sched_inv s' /\
    threads s' !! 100 = Some th' /\
    old_priority th' = 35 /\ priority th' = 35 /\
    running s' = 300 /\ thread_is s' 100 THREAD_READY /\
    100 ∈ ready_list s'.
Proof.
  destruct (thread_set_priority_effect ready_state 35
              (a_thread 1 THREAD_RUNNING "main" 31 31 0 [])
              ready_state_inv eq_refl)
    as (s' & Hrun & Hinv & _ & Hoff).
  destruct (Hoff eq_refl)
    as ((th' & Hth' & Hold & Hprio & _) & Hyield & _);
    [unfold PRI_MIN, PRI_MAX; lia|].
  destruct Hyield as [_ Hfront]; [left; reflexivity|].
  destruct (Hfront 300 [] (a_thread 4 THREAD_READY "high" 40 40 0 []))
    as (Hr & Hst & Hin);
    [discriminate | reflexivity | reflexivity | cbn; lia |].
  exists s', th'. split; [exact Hrun|]. split; [exact Hinv|].
  split; [exact Hth'|]. split; [exact Hold|].
  split; [rewrite Hprio; reflexivity|].
  split; [exact Hr|]. split; [exact Hst | exact Hin].
Defined.

Lemma create_preempts_unblock_does_not_witness :
  exists s',
    thread_create F14 "child" 40 (Some 1) spawn_state = Ok (3, s') /\
    running s' <> 100 /\
    thread_is s' 100 THREAD_READY /\ 100 ∈ ready_list s'.
Proof.
  destruct (create_preempts_unblock_does_not F14 spawn_state)
    as (Hcreate & _ & _).
  destruct (Hcreate "child" 40 1 200 201 []
              (a_thread 1 THREAD_RUNNING "main" 31 31 0 [])
              spawn_state_inv eq_refl eq_refl eq_refl eq_refl)
    as (s' & Hrun & Hne & _ & _ & Hready & Hin & _).
  - discriminate.
  - unfold PRI_MIN, PRI_MAX. lia.
  - cbn. lia.
  - exists s'. split; [exact Hrun|]. split; [exact Hne|].
    split; [exact Hready | exact Hin].
Defined.

Lemma thread_yield_keeps_invariant_witness :
  exists s', thread_yield spawn_state = Ok (tt, s') /\ sched_inv s'.
Proof.
  destruct (thread_yield_keeps_invariant spawn_state spawn_state_inv)
    as (s' & Hy & Hinv & _).
  exists s'. split; [exact Hy | exact Hinv].
Defined.

(** ** The hypotheses hold in more concrete states *)

Lemma spawn_state_running : running_ok spawn_state.
Proof. apply spawn_state_inv. Qed.

Lemma next_thread_to_run_front_witness :
  exists s',
    next_thread_to_run queue_state = Ok (Some 301, s') /\
    ready_list s' = [302; 303] /\ thread_is queue_state 301 THREAD_READY /\
    forall u, u ∈ ready_list queue_state ->
              priority_at queue_state u <= priority_at queue_state 301.
Proof.
  destruct (next_thread_to_run_front queue_state queue_state_core
              queue_state_sorted)
    as (n & s' & Hrun & _ & _ & Hfront).
  destruct Hfront as (Hhd & Hst & Hs' & _ & Hmax); [discriminate|].
  injection Hhd as <-.
  exists s'. split; [exact Hrun|]. split; [rewrite Hs'; reflexivity|].
  split; [exact Hst | exact Hmax].
Defined.

Lemma thread_block_dispatches_witness :
  exists s',
    thread_block INTR_OFF queue_state = Ok (tt, s') /\ sched_inv s' /\
    running s' = 301 /\ ready_list s' = [302; 303] /\
    thread_is s' 100 THREAD_BLOCKED /\
    thread_block INTR_ON queue_state = Panic.
Proof.
  destruct (thread_block_dispatches queue_state queue_state_inv)
    as (Hon & s' & n & Hrun & Hinv & Hn & Hrunning & Hrl & _ & _ & Hblocked
        & _).
  injection Hn as <-.
  exists s'. split; [exact Hrun|]. split; [exact Hinv|].
  split; [exact Hrunning|]. split; [rewrite Hrl; reflexivity|].
  split; [|exact Hon]. apply Hblocked. discriminate.
Defined.

Lemma thread_cond_yield_highest_witness :
  exists s',
    thread_cond_yield queue_state = Ok (tt, s') /\
    running s' = 301 /\ thread_is s' 301 THREAD_RUNNING /\
    thread_is s' 100 THREAD_READY /\ 100 ∈ ready_list s' /\
    ready_sorted s'.
Proof.
  destruct (thread_cond_yield_highest queue_state queue_state_inv
              queue_state_sorted)
    as (s' & Hrun & _ & Hsorted & _ & _ & _ & Hsw & _).
  - discriminate.
  - destruct (Hsw 301 eq_refl) as (Hr & _ & Hfront & Hst & Hin);
      [vm_compute; reflexivity|].
    exists s'. split; [exact Hrun|]. split; [exact Hr|].
    split; [exact Hfront|]. split; [exact Hst|].
    split; [exact Hin | exact Hsorted].
Defined.

Lemma mlfqs_state_running : running_ok mlfqs_state.
Proof. eexists. split; [reflexivity|]. split; reflexivity. Qed.

Lemma mlfqs_busy_state_running : running_ok mlfqs_busy_state.
Proof. eexists. split; [reflexivity|]. split; reflexivity. Qed.

Lemma mlfqs_load_state_running : running_ok mlfqs_load_state.
Proof. eexists. split; [reflexivity|]. split; reflexivity. Qed.

Lemma dying_state_core : sched_core dying_state.
Proof.
  constructor; cbn.
  - intros t Ht. apply list_elem_of_singleton in Ht as ->.
    eexists. split; [reflexivity|]. split; reflexivity.
  - intros t Ht. apply elem_of_nil in Ht. contradiction.
  - exists 900. eexists. split; [reflexivity|]. split; [reflexivity|].
    split; [reflexivity|]. split; [|apply not_elem_of_nil].
    intros Hin. apply list_elem_of_singleton in Hin. discriminate.
  - apply NoDup_singleton.
  - constructor.
  - constructor.
Qed.

Lemma update_priority_for_each_sorts_witness :
  exists s',
    update_priority_for_each F14 INTR_OFF mlfqs_busy_state = Ok (tt, s') /\
    ready_list mlfqs_busy_state = [300; 301; 302] /\
    ready_list s' = [301; 302; 300] /\
    ready_priorities s' = [63; 51; 40] /\ ready_sorted s' /\
    update_priority_for_each F14 INTR_ON mlfqs_busy_state = Panic.
Proof.
  destruct (update_priority_for_each_sorts F14 mlfqs_busy_state)
    as (Hon & s' & Hrun & Hsorted & _ & _ & Hthreads & _).
  - intros t Ht. cbn in Ht.
    repeat (apply elem_of_cons in Ht as [->|Ht]; [eexists; reflexivity|]).
    apply elem_of_nil in Ht. contradiction.
  - assert (Hl : ready_list s' = [301; 302; 300]).
    { assert (H : match update_priority_for_each F14 INTR_OFF
                          mlfqs_busy_state with
                  | Ok (_, x) => ready_list x
                  | _ => []
                  end = [301; 302; 300]) by (vm_compute; reflexivity).
      rewrite Hrun in H. exact H. }
    exists s'. split; [exact Hrun|]. split; [reflexivity|].
    split; [exact Hl|]. split; [|split; [exact Hsorted | exact Hon]].
    unfold ready_priorities, priority_at. rewrite Hl. cbn [fmap list_fmap].
    rewrite (Hthreads 301 _ eq_refl), (Hthreads 302 _ eq_refl),
      (Hthreads 300 _ eq_refl).
    vm_compute. reflexivity.
Defined.

Lemma update_recent_cpu_decays_witness :
  update_recent_cpu F14 300 mlfqs_busy_state
  = Ok (tt, set_threads
              (<[300 := set_recent_cpu 273060
                          (a_thread 4 THREAD_READY "a" 43 43 10 [])]>
                 (threads mlfqs_busy_state)) mlfqs_busy_state) /\
  decay F14 (load_avg mlfqs_busy_state) = 10922.
Proof.
  pose proof (update_recent_cpu_decays F14 mlfqs_busy_state 300
                (set_recent_cpu (10 * F14)
                   (a_thread 4 THREAD_READY "a" 43 43 10 []))
                eq_refl) as H.
  cbv zeta in H. destruct H as (Hrun & _ & _ & _).
  - discriminate.
  - reflexivity.
  - vm_compute. discriminate.
  - vm_compute. discriminate.
  - vm_compute. discriminate.
  - split; [|reflexivity]. rewrite Hrun. reflexivity.
Defined.

Lemma thread_get_load_avg_rounds_witness :
  thread_get_load_avg F14 mlfqs_load_state = Ok (46, mlfqs_load_state) /\
  thread_get_recent_cpu F14 mlfqs_load_state = Ok (75, mlfqs_load_state).
Proof.
  destruct (thread_get_load_avg_rounds F14 mlfqs_load_state
              (set_recent_cpu 12345
                 (a_thread 1 THREAD_RUNNING "main" 63 63 0 []))
              mlfqs_load_state_running eq_refl eq_refl eq_refl)
    as [Hla Hrc].
  destruct Hla as (r & Hr & -> & _); [vm_compute; discriminate|].
  destruct Hrc as (r' & Hr' & -> & _); [vm_compute; discriminate|].
  split; [exact Hr | exact Hr'].
Defined.

Lemma thread_set_nice_effect_witness :
  exists s' th',
    thread_set_nice F14 5 spawn_state = Ok (tt, s') /\ sched_inv s' /\
    threads s' !! 100 = Some th' /\ nice th' = 5 /\
    PRI_MIN <= priority th' <= PRI_MAX.
Proof.
  destruct (thread_set_nice_effect F14 spawn_state 5
              (a_thread 1 THREAD_RUNNING "main" 31 31 0 [])
              spawn_state_inv eq_refl)
    as (s' & Hrun & Hinv & _ & Hset).
  - unfold NICE_MIN, NICE_MAX. lia.
  - destruct Hset as (th' & Hth' & Hnice & _ & Hrange & _); [discriminate|].
    exists s', th'. auto.
Defined.

Lemma init_thread_inherits_witness :
  exists s' th,
    init_thread F14 200 "child" 40 spawn_state = Ok (tt, s') /\
    threads s' !! 200 = Some th /\
    status th = THREAD_BLOCKED /\ priority th = 40 /\ nice th = 0.
Proof.
  destruct (init_thread_inherits F14 spawn_state 200 "child" 40
              (a_thread 1 THREAD_RUNNING "main" 31 31 0 [])
              spawn_state_running eq_refl)
    as (s' & th & Hrun & Hth & Hst & _ & Hprio & _ & _ & _ & Hnice & _).
  - unfold PRI_MIN, PRI_MAX. lia.
  - discriminate.
  - exists s', th. auto.
Defined.

Lemma spawn_state_ids : ids_below spawn_state.
Proof.
  split.
  - intros t th Hth. unfold spawn_state, a_state in Hth. cbn [threads] in Hth.
    apply elem_of_list_to_map_2 in Hth.
    repeat (apply elem_of_cons in Hth as [Heq|Hth];
            [injection Heq as -> ->; cbn; lia|]).
    apply elem_of_nil in Hth. contradiction.
  - intros i ci Hci. discriminate.
Qed.

Lemma thread_create_fresh_tid_witness :
  exists s' th',
    thread_create F14 "child" 31 (Some 1) spawn_state = Ok (3, s') /\
    threads s' !! 200 = Some th' /\ tid th' = 3 /\
    next_tid s' = 4 /\ ids_below s'.
Proof.
  destruct (thread_create_fresh_tid F14 spawn_state "child" 31 1 200 201 []
              spawn_state_inv eq_refl eq_refl eq_refl)
    as (s' & th' & Hrun & Hth' & Htid & _ & Hnext & Hids).
  - unfold PRI_MIN, PRI_MAX. lia.
  - exact spawn_state_ids.
  - unfold INT_MAX. cbn. lia.
  - unfold INT_MIN. cbn. lia.
  - exists s', th'. auto.
Defined.

Lemma get_child_info_first_witness :
  get_child_info 4 child_state = Ok (Some 203, child_state).
Proof.
  destruct (get_child_info_first child_state 4) as (r & Hrun & Hr).
  - intros i Hi. cbn in Hi.
    repeat (apply elem_of_cons in Hi as [->|Hi]; [eexists; reflexivity|]).
    apply elem_of_nil in Hi. contradiction.
  - assert (H : match get_child_info 4 child_state with
                | Ok (x, _) => x
                | _ => None
                end = Some 203) by (vm_compute; reflexivity).
    rewrite Hrun in H. rewrite <- H. exact Hrun.
Defined.

Lemma thread_create_child_record_witness :
  exists s',
    thread_create F14 "child" 31 (Some 1) spawn_state = Ok (3, s') /\
    get_child_info 3 s' = Ok (Some 201, s') /\
    child_infos s' !! 201 = Some (new_child_info 200 3).
Proof.
  destruct (thread_create_child_record F14 spawn_state "child" 31 1 200 201 []
              spawn_state_inv eq_refl eq_refl eq_refl)
    as (s' & Hrun & Hget & Hrec & _).
  - unfold PRI_MIN, PRI_MAX. lia.
  - intros i Hi. apply elem_of_nil in Hi. contradiction.
  - exists s'. auto.
Defined.

Lemma schedule_reclaims_dying_witness :
  exists s',
    schedule INTR_OFF dying_state = Ok (tt, s') /\ sched_inv s' /\
    running s' = 100 /\ thread_is s' 100 THREAD_RUNNING /\
    ready_list s' = [] /\
    threads s' !! 300 = None /\ free_pages s' = [300] /\
    schedule INTR_ON dying_state = Panic.
Proof.
  destruct (schedule_reclaims_dying dying_state
              (a_thread 4 THREAD_DYING "child" 31 31 0 [])
              dying_state_core eq_refl eq_refl eq_refl)
    as (Hon & s' & n & Hrun & Hinv & Hn & Hrunning & _ & Hst & Hrl & _
        & Hfree & _).
  - intros Hin. apply list_elem_of_singleton in Hin. discriminate.
  - apply not_elem_of_nil.
  - discriminate.
  - injection Hn as <-.
    destruct Hfree as [Hgone Hpool]; [discriminate|].
    exists s'. split; [exact Hrun|]. split; [exact Hinv|].
    split; [exact Hrunning|]. split; [exact Hst|].
    split; [rewrite Hrl; reflexivity|].
    split; [exact Hgone|]. split; [rewrite Hpool; reflexivity | exact Hon].
Defined.

Lemma ready_state_running : running_ok ready_state.
Proof. apply ready_state_inv. Qed.

Lemma thread_donate_priority_sorted_witness :
  exists s',
    thread_donate_priority 300 ready_state = Ok (tt, s') /\
    ready_sorted s' /\ priority_at s' 300 = 31.
Proof.
  destruct (thread_donate_priority_sorted ready_state 300
              (a_thread 1 THREAD_RUNNING "main" 31 31 0 [])
              (a_thread 4 THREAD_READY "high" 40 40 0 [])
              ready_state_running eq_refl eq_refl eq_refl)
    as (s' & Hrun & _ & Hsorted & _ & Hprio & _).
  - apply list_elem_of_singleton. reflexivity.
  - apply NoDup_singleton.
  - exact ready_state_sorted.
  - exists s'. auto.
Defined.

Lemma lock_state_running : running_ok lock_state.
Proof. eexists. split; [reflexivity|]. split; reflexivity. Qed.

Lemma thread_hold_the_lock_sorted_witness :
  exists held,
    thread_hold_the_lock 3 lock_state
    = Ok (tt, set_threads
                (<[100 := set_locks held
                            (a_thread 1 THREAD_RUNNING "main" 50 10 0 [1; 2])]>
                   (threads lock_state)) lock_state) /\
    descending (max_priority_at lock_state <$> held) /\
    list_remove 3 held = [1; 2].
Proof.
  destruct (thread_hold_the_lock_sorted lock_state 3
              (a_thread 1 THREAD_RUNNING "main" 50 10 0 [1; 2])
              lock_state_running eq_refl)
    as (held & Hrun & _ & Hsorted & _ & Hrem).
  - repeat constructor. vm_compute. discriminate.
  - exists held. split; [exact Hrun|]. split; [exact Hsorted|].
    apply Hrem. cbn. intros Hin.
    repeat (apply elem_of_cons in Hin as [Heq|Hin]; [discriminate|]).
    apply elem_of_nil in Hin. contradiction.
Defined.

Lemma thread_hold_then_remove_lock_witness :
  exists s' th',
    (thread_hold_the_lock 3 >> thread_remove_lock 3) lock_state
    = Ok (tt, s') /\
    threads s' !! 100 = Some th' /\ locks th' = [1; 2].
Proof.
  destruct (thread_hold_then_remove_lock lock_state 3
              (a_thread 1 THREAD_RUNNING "main" 50 10 0 [1; 2])
              lock_state_running eq_refl)
    as (s' & th' & Hrun & Hth' & Hlocks & _).
  - cbn. intros Hin.
    repeat (apply elem_of_cons in Hin as [Heq|Hin]; [discriminate|]).
    apply elem_of_nil in Hin. contradiction.
  - exists s', th'. auto.
Defined.

Lemma tick_state_core : sched_core tick_state.
Proof. destruct spawn_state_inv as [[H1 H2 H3 H4 H5 H6] _]. constructor; assumption. Qed.

Lemma thread_tick_time_slice_witness :
  exists s',
    thread_tick tick_state = Ok (tt, s') /\
    thread_ticks s' = 1 /\ yield_on_return s' = false /\
    tick_counts s' = (0, 1, 0).
Proof.
  destruct (thread_tick_time_slice tick_state
              (a_thread 1 THREAD_RUNNING "main" 31 31 0 [])
              tick_state_core spawn_state_running eq_refl) as [Hin _].
  destruct (Hin eq_refl) as (s' & Hrun & Hticks & Hyield & Hcounts).
  exists s'. split; [exact Hrun|]. split; [rewrite Hticks; reflexivity|].
  split; [rewrite Hyield, Hticks; reflexivity|].
  rewrite Hcounts. reflexivity.
Defined.

Lemma four_ticks_cost_one_level_witness :
  exists s' th',
    (increase_recent_cpu F14 >> increase_recent_cpu F14 >>
     increase_recent_cpu F14 >> increase_recent_cpu F14 >>
     update_priority F14 100) mlfqs_busy_state = Ok (tt, s') /\
    threads s' !! 100 = Some th' /\
    recent_cpu th' = 12345 + 4 * F14 /\ priority th' = 62.
Proof.
  destruct (four_ticks_cost_one_level F14 mlfqs_busy_state
              (set_recent_cpu 12345
                 (a_thread 1 THREAD_RUNNING "main" 63 63 0 []))
              mlfqs_busy_state_running eq_refl eq_refl)
    as (s' & th' & Hrun & Hth' & Hrc & Hprio & _).
  - discriminate.
  - reflexivity.
  - reflexivity.
  - vm_compute. discriminate.
  - vm_compute. discriminate.
  - split; vm_compute; discriminate.
  - exists s', th'. split; [exact Hrun|]. split; [exact Hth'|].
    split; [exact Hrc|]. rewrite Hprio. reflexivity.
Defined.

Lemma add_file_list_then_get_witness :
  exists fs1,
    add_file_list 50 a_file_state = Ok (tt, fs1) /\
    get_file_info 3 fs1 = Ok (Some 50, fs1).
Proof.
  destruct (add_file_list_then_get a_file_state 50
              (mkFileInfo 3 (Some 7) None 100) spawn_state_running eq_refl)
    as (Hadd & Hget & _).
  eexists. split; [exact Hadd|]. apply Hget.
  intros i Hi. apply elem_of_nil in Hi. contradiction.
Defined.

Lemma a_swap_state_inv : swap_inv 8 {[ 8 ]} a_swap_state.
Proof.
  constructor; cbn [top_index swap_block swap_free_list swap_items swap_heap
                      a_swap_state].
  - split; [lia | reflexivity].
  - exists 64. split; [reflexivity|]. lia.
  - intros i Hi. apply elem_of_singleton in Hi as ->.
    unfold swap_slot. change (top_index a_swap_state) with 16.
    split; [lia|]. split; [reflexivity | lia].
  - intros a Ha. apply list_elem_of_singleton in Ha as ->.
    split; [eexists; reflexivity|]. split.
    + unfold swap_slot. change (top_index a_swap_state) with 16.
      change (swap_index_at a_swap_state 500) with 0.
      split; [lia|]. split; [reflexivity | lia].
    + intros Hin. apply elem_of_singleton in Hin. discriminate.
  - apply NoDup_singleton.
  - apply NoDup_cons. split; [|apply NoDup_singleton].
    intros Hin. apply list_elem_of_singleton in Hin. discriminate.
  - intros a Ha Hin. apply list_elem_of_singleton in Hin as ->.
    repeat (apply elem_of_cons in Ha as [Heq|Ha]; [discriminate|]).
    apply elem_of_nil in Ha. contradiction.
Qed.

Lemma a_swap_state_page (kpage : Z) :
  kpage = PHYS_BASE_x86 + 4096 \/ kpage = PHYS_BASE_x86 + 8192 ->
  forall j, 0 <= j < BLOCK_PER_PAGE 4096 512 ->
            is_Some (kmem a_swap_state !! (kpage + j * 512)).
Proof.
  intros Hk j Hj. change (BLOCK_PER_PAGE 4096 512) with 8 in Hj.
  assert (Hc : j = 0 \/ j = 1 \/ j = 2 \/ j = 3 \/ j = 4 \/ j = 5 \/ j = 6
               \/ j = 7) by lia.
  destruct Hk as [-> | ->];
    repeat (destruct Hc as [-> | Hc]; [eexists; reflexivity|]);
    subst j; eexists; reflexivity.
Qed.

Lemma swap_store_fresh_slot_witness :
  exists idx s',
    swap_store 4096 512 PHYS_BASE_x86 (PHYS_BASE_x86 + 4096) a_swap_state
    = Ok (idx, s') /\
    idx <> NO_INDEX /\ (idx ∉ ({[ 8 ]} : gset Z)) /\
    swap_inv 8 ({[ 8 ]} ∪ {[ idx ]}) s'.
Proof.
  destruct (swap_store_fresh_slot 4096 512 PHYS_BASE_x86 {[ 8 ]} a_swap_state
              (PHYS_BASE_x86 + 4096) 64)
    as (idx & s' & Hrun & Hfull & _ & Hslot).
  - reflexivity.
  - exact a_swap_state_inv.
  - reflexivity.
  - reflexivity.
  - apply a_swap_state_page. left. reflexivity.
  - assert (Hne : idx <> NO_INDEX).
    { intros Heq. apply Hfull in Heq as [Hnil _]. discriminate. }
    destruct (Hslot Hne) as (Hfresh & Hinv & _).
    exists idx, s'. auto.
Defined.

Lemma swap_free_releases_witness :
  exists s',
    swap_free 4096 512 8 a_swap_state = Ok (tt, s') /\
    swap_inv 8 ({[ 8 ]} ∖ {[ 8 ]}) s' /\ top_index s' = 8.
Proof.
  destruct (swap_free_releases 4096 512 {[ 8 ]} a_swap_state 8)
    as [_ Hfree].
  - reflexivity.
  - exact a_swap_state_inv.
  - apply elem_of_singleton. reflexivity.
  - destruct Hfree as (s' & Hrun & Hinv & _ & _ & Htop & _);
      [left; reflexivity|].
    destruct (Htop eq_refl) as [Ht _].
    exists s'. auto.
Defined.

Lemma swap_store_load_round_trip_witness :
  exists idx s1 s2,
    swap_store 4096 512 PHYS_BASE_x86 (PHYS_BASE_x86 + 4096) a_swap_state
    = Ok (idx, s1) /\
    swap_load 4096 512 PHYS_BASE_x86 idx (PHYS_BASE_x86 + 8192) s1
    = Ok (tt, s2) /\
    kmem s2 !! (PHYS_BASE_x86 + 8192) = Some [0; 1] /\
    swap_inv 8 {[ 8 ]} s2.
Proof.
  destruct (swap_store 4096 512 PHYS_BASE_x86 (PHYS_BASE_x86 + 4096)
              a_swap_state) as [[idx s1]| |] eqn:Hst;
    [|vm_compute in Hst; discriminate ..].
  assert (Hidx : idx = 0).
  { assert (H : match swap_store 4096 512 PHYS_BASE_x86 (PHYS_BASE_x86 + 4096)
                        a_swap_state with
                | Ok (x, _) => x
                | _ => NO_INDEX
                end = 0) by (vm_compute; reflexivity).
    rewrite Hst in H. exact H. }
  destruct (swap_store_load_round_trip 4096 512 PHYS_BASE_x86 {[ 8 ]}
              a_swap_state s1 (PHYS_BASE_x86 + 4096) (PHYS_BASE_x86 + 8192)
              idx)
    as (s2 & Hload & Hdata & _ & Hinv).
  - reflexivity.
  - discriminate.
  - exact a_swap_state_inv.
  - reflexivity.
  - reflexivity.
  - apply a_swap_state_page. left. reflexivity.
  - apply a_swap_state_page. right. reflexivity.
  - exact Hst.
  - rewrite Hidx. discriminate.
  - exists idx, s1, s2. split; [reflexivity|]. split; [exact Hload|].
    split; [|exact Hinv].
    specialize (Hdata 0 ltac:(change (BLOCK_PER_PAGE 4096 512) with 8; lia)).
    exact (eq_trans Hdata eq_refl).
Defined.

Lemma a_frame_state_inv : frame_inv a_frame_state.
Proof.
  constructor; cbn [frame_items frame_table frame_clock_list all_lock
                      current_frame a_frame_state].
  - intros f a Hf.
    apply lookup_insert_Some in Hf as [[<- <-]|[_ Hf]];
      [eexists; split; reflexivity|].
    apply lookup_insert_Some in Hf as [[<- <-]|[_ Hf]];
      [eexists; split; reflexivity|].
    apply lookup_singleton_Some in Hf as [<- <-].
    eexists; split; reflexivity.
  - apply NoDup_cons. split; [|apply NoDup_singleton].
    intros Hin. apply list_elem_of_singleton in Hin. discriminate.
  - intros a. split.
    + intros Ha.
      apply elem_of_cons in Ha as [->|Ha];
        [eexists; split; [reflexivity|]; split; reflexivity|].
      apply list_elem_of_singleton in Ha as ->.
      eexists; split; [reflexivity|]; split; reflexivity.
    + intros (it & Hit & Hsw & _).
      apply lookup_insert_Some in Hit as [[<- <-]|[_ Hit]]; [left|].
      apply lookup_insert_Some in Hit as [[<- <-]|[_ Hit]]; [discriminate|].
      apply lookup_singleton_Some in Hit as [<- <-].
      right. left.
  - intros _. exists 702. split; [reflexivity|]. right. left.
  - reflexivity.
Qed.

Lemma frame_swap_next_round_witness :
  frame_swap_next a_frame_state
  = Ok (tt, set_current_frame (Some 700) a_frame_state) /\
  st_repeat 2 frame_swap_next a_frame_state = Ok (tt, a_frame_state).
Proof.
  destruct (frame_swap_next_round a_frame_state 1 702) as (Hk & Hround & _).
  - exact (frame_clock_nodup _ a_frame_state_inv).
  - reflexivity.
  - reflexivity.
  - split; [|exact Hround]. specialize (Hk 1%nat). exact Hk.
Defined.

Lemma frame_set_unswapable_clock_witness :
  exists s',
    frame_set_unswapable 12288 a_frame_state = Ok (true, s') /\
    frame_inv s' /\
    frame_clock_list s' = [700; 702; 701] /\
    current_frame s' = Some 702 /\
    frame_set_unswapable 12288 s' = Ok (true, s').
Proof.
  destruct (frame_set_unswapable_clock a_frame_state 12288 a_frame_state_inv)
    as (b & s' & Hrun & Hinv & Hagain & _ & _ & Hcase).
  change (frame_table a_frame_state !! 12288) with (Some 701) in Hcase.
  destruct Hcase as (-> & Hclock & Hhand & _).
  exists s'. split; [exact Hrun|]. split; [exact Hinv|].
  split; [exact Hclock|]. split; [exact Hhand | exact Hagain].
Defined.

Lemma frame_free_effect_witness :
  exists s',
    frame_free 20480 a_frame_state = Ok (tt, s') /\
    frame_inv s' /\
    frame_clock_list s' = [700] /\ current_frame s' = Some 700 /\
    freed_pages s' = [20480].
Proof.
  destruct (frame_free_effect a_frame_state 20480 a_frame_state_inv)
    as [_ Hfree].
  destruct (Hfree 702 eq_refl)
    as (s' & Hrun & Hinv & _ & _ & Hclock & Hpages & _ & Hhand & _).
  exists s'. split; [exact Hrun|]. split; [exact Hinv|].
  split; [exact Hclock|]. split; [|exact Hpages].
  exact (Hhand 1%nat eq_refl eq_refl).
Defined.
